(* ===== verification/_CoqProject ===== *)
-Q . S2P
Prelude.v
Types.v
Serialize.v
Stream.v
Listener.v
Delta.v
Message.v
NodeState.v
Cluster.v
Packing.v
Replication.v
Convergence.v
Gossip.v
FailureDetector.v
Chitchat.v
Handshake.v
Crowd.v
Server.v
Queue.v
Channel.v
Datagram.v
QuicSocket.v
Frame.v
Revocation.v
Licensing.v
Build.v
Igniter.v
Program.v
Spread.v
RangeSet.v
RecvBuffer.v
QuicStream.v
QuicConn.v
ConnRuns.v
QuicListener.v
Pkcs12.v
Pfx.v
Telemetry.v
NetTransport.v
WebTransport.v
ErrorText.v
LiteServer.v
BlockRelay.v
Updater.v
StreamRuns.v
StreamIo.v
Handles.v
HandleRuns.v
MessageRuns.v
Delivery.v
TestKit.v
TestData.v
TestState.v
TestDetector.v
TestEngine.v
TestServer.v
TestIgniter.v
