(* ===== verification/Prelude.v ===== *)
(** * Acki Nacki Igniter: verification library

    This library models the Acki Nacki Igniter, a peer-to-peer gossip node
    that verifies and publishes licences of block producers, and proves what
    makes its parts correct.  Sources are named relative to src/.

    ** The program and its parts

    The gossip engine (chitchat/src) keeps, for every node, a map of versioned
    key-values.  A node changes only its own map; the others follow by
    anti-entropy: digests say which versions a node has, deltas carry what it
    lacks, cut to the size of a datagram.  A failure detector (the phi-accrual
    one) classifies the nodes; a server task reads messages, gossips at every
    interval, and stops on command; the transports carry datagrams in process,
    over UDP, or as messages on QUIC streams.  The igniter (igniter/src) puts
    signed licence statements into its own map and shows, over HTTP, those of
    the others that verify.  The transport layer (transport-layer/src) wraps
    msquic: streams, connections and listeners are state machines under locks,
    driven by polls of tasks and by events of msquic.  Around them are the
    PKCS#12 container of the credentials, a server that broadcasts blocks, the
    telemetry (telemetry_utils/src) and the updater (updater/src).

    ** The files

    - [Prelude]: outcomes of Rust code ([res], with its sequencing notation),
      bytes and integers, orders, B-tree iteration, strings.
    - Data and codecs: [Types] (chitchat/src/types.rs), [Serialize]
      (serialize.rs: every codec), [Stream] (serialize.rs: the compressed
      stream of blocks), [Delta] (delta.rs), [Message] (digest.rs, message.rs).
    - State: [Listener] (listener.rs), [NodeState] and [Cluster] (state.rs),
      [FailureDetector] (failure_detector.rs, on IEEE 754 doubles).
    - [Replication]: runs of an owner and its replicas over any interleaving
      of updates, collections, deltas, losses and repetitions; [Convergence]:
      how long a replica takes to catch up; [Packing]: a delta with room for
      any one entry is not empty-handed; [Gossip]: whole clusters, round after
      round, under the MTU.
    - The engine and its task: [Chitchat] (lib.rs, configuration.rs),
      [Server] (server.rs); [Handshake]: two engines that exchange the three
      messages of a handshake, encoded and decoded; [Crowd]: any number of
      engines that do so, again and again.
    - Transports: [Queue] (the bounded queues they share), [Channel]
      (transport/channel.rs), [Datagram] (transport/mod.rs, udp.rs, utils.rs),
      [QuicSocket] (transport/transport_layer.rs), [Frame]
      (transport-layer/src/msquic/mod.rs).
    - Licences: [Revocation] (igniter/src/utils.rs), [Licensing] (lib.rs,
      config.rs, open_api/routes.rs), [Igniter] (config.rs, cli.rs, gossip.rs),
      [Program] (the tasks of bin on the engine they share: datagrams, gossip
      rounds, the handlers of open_api/routes.rs, revoked_license_watcher.rs),
      [Spread] (any number of igniters from their start on), [Build] (build.rs).
    - QUIC (transport-layer/src/msquic/msquic_async): [RangeSet] (an interface
      for the rangemap crate), [RecvBuffer] (buffer.rs), [QuicStream]
      (stream.rs), [QuicConn] (connection.rs), [QuicListener] (listener.rs),
      and the properties of their runs in [StreamRuns], [ConnRuns] and, for
      the reader of [Frame] over a stream, [MessageRuns]; [StreamIo] has the
      traits and errors of tokio and futures for streams, [Handles] the shared
      stream with its halves, chunks and futures, [HandleRuns] all of them at
      work, and [Delivery] the sender, and both ends with msquic between them.
    - [Pkcs12] and [Pfx] (msquic/pkcs12.rs, quic_settings.rs), [NetTransport]
      (lib.rs, quic_settings.rs, msquic/mod.rs), [WebTransport] (wtransport),
      [ErrorText] (utils.rs), [LiteServer] (server.rs: its tasks one by one) and
      [BlockRelay] (all of them at work), all of
      transport-layer/src; [Telemetry] (telemetry_utils/src); [Updater]
      (updater/src).

    - The unit tests of the sources, as computations over the model:
      [TestKit] (assertions and helpers), [TestData] (types.rs, serialize.rs,
      delta.rs, digest.rs, message.rs, listener.rs), [TestState] (state.rs),
      [TestDetector] (failure_detector.rs), [TestEngine] (lib.rs),
      [TestServer] (server.rs), [TestIgniter] (igniter/src).

    A definition has the name of the function it translates, in the case of
    the source where that is a Rocq name; a record has the fields of its
    struct under a short prefix.  A method that changes its object takes and
    returns the state; wakers are numbers, and waking them is a result; an
    operation of a third party (msquic, Docker, a clock, random bytes) is an
    argument that holds its answer.

    ** What the theorems show

    - Replication: while deliveries are safe ([safe_delivery]), a replica
      shows the history of its owner (nothing invented, nothing forgotten up to
      its version), and one that has caught up agrees; a delta made for a
      digest of the receiver may be delivered, but for one boundary, at which
      keys can be lost (shown on a concrete run, like the deleted key that a
      lagging peer brings back); the packing of deltas implements its
      specification and terminates; and away from the boundary a cluster that
      hears from another through such deltas comes to show what the other
      shows, in a bounded number of rounds.
    - Engines that shake hands, any number of them: whoever starts, and
      whether or not last messages are lost, they come to show the same after
      as many rounds of handshakes as there are versions that some of them
      lack, and one more; so igniters come to show each other's licences.  A
      message that arrives arrives whole, which the in-process and the QUIC
      transport see to.
    - Local operations: what each update, each delta, each collection and each
      message does on every branch, and the invariants that they keep; the
      failure detector trusts exactly the nodes whose history of heartbeats
      gives a low enough phi, and the engine sorts the nodes by that alone.
    - Codecs: every message and stream decodes to what was encoded; whatever
      is decoded is well formed; arbitrary bytes give a value or an error, but
      for the panics found.
    - Transports: messages arrive in order, unchanged, and through junk; a
      framed message is read back however it is cut, on the abstract stream,
      and from the task that sends it to the task that reads it over the
      streams of msquic, between any events and timeouts.
    - QUIC: bytes are read in order, acknowledged exactly once until the
      stream has shut down, and handed over in order when written, by tasks
      that share a stream in any way its handles allow, aborts included; its
      halves do not get in each other's way, and it stays open as long as
      anybody has it; a task that waits for it is woken by the event that it
      waits for.  A stream that shuts down before its peer has finished can
      read as if it had ended (the model's [rd_cut]), and a start that fails in
      two unforeseen ways panics.  The polls of a connection never panic but
      for such a start; connections and listeners hand out what arrives in
      order, also while the events of a queued connection go on, and forget no
      waiting task (but one kind).
    - Licences: a state is accepted exactly when its signatures verify, what
      is published is accepted by others, and outdated items are exactly those
      removed.
    - Credentials: the byte-wise key derivation equals RFC 7292's; containers
      open with their password; the bytes of a container determine it; the
      two ends of a connection know each other by the same names; whom a
      WebTransport end trusts; both transports keep the contract of messages
      on streams.
    - The program: from its start on, whatever it is sent and asked, an
      igniter keeps publishing its licences and keeps serving; what ends it,
      and which datagrams do; what cargo reads of the build scripts.
    - The tests: that the definitions give the answers that the authors of
      the code expect of it, by evaluation, or for every random generator and
      every signature scheme where the test draws or signs.
    - The rest: the loops of the error messages end, channel metrics balance
      over successful and failed sends and receives,
      the clients of the block server get the blocks in order and without a
      gap, whichever of its tasks have ended, and the updater does what it
      promises.

    ** Fuel and bounds

    A loop whose recursion is not structural takes fuel, and a theorem gives
    an amount that suffices: [read_fuel] of [QuicStream] is a turn per buffer
    and slice and two more; the blocks of [Stream] are read with a turn per
    byte; the reader of [Frame] needs a read per byte and two more; [ErrorText]
    needs two rounds more than there are bytes.  [OutOfFuel] is never the
    answer in those theorems, except where the code does not return, and then
    a theorem says so.  Integers keep their width where the code could
    overflow ([wrap], [wsub64], [fits]); lengths of lists stand for lengths in
    memory.

    ** Interfaces

    Code that is not in the repository is a type class or a parameter, with
    its documented laws in a second class, and every one has a concrete
    instance: compression (Zstd), random choice (Shuffle, Rng), name
    resolution (Resolver), bounded queues (Queues), broadcast channels
    (Broadcasts), signatures and encodings
    (Crypto), JSON (Json), interval maps (RangeSets), read buffers (ReadBufs),
    SHA-1 (Sha1), ciphers (Ciphers), DER (Der), SHA-256 and hexadecimal
    (Identities), rustls (Rustls).

    ** Not modelled

    The HTTP server and its JSON schema, logging, the command line parser, the
    exporter of metrics, and raw pointers (a pointer is the bytes it points
    to).  The unit tests that run whole servers against their timers have no
    definition: what they observe is left to the theorems on runs.  The
    futures of connections and listeners that only forward to a poll have no
    definition of their own.  What msquic does with a stream when its last
    handle is gone is left to it.  Memory ordering is that
    of sequential steps; a step is what happens under one lock. *)
From stdpp Require Export base numbers option list list_numbers gmap strings
  sorting fin_maps.
From Stdlib Require Export Ascii NArith Lia ZifyBool ZifyN ZifyNat.

(** ** Outcomes of Rust code

    [Ok] is a normal return, [Err] an [anyhow::Error] (or another [Err] of a
    [Result]) that the caller sees, [Panic] an unwinding panic ([assert!],
    [unwrap], slicing out of range, ...), and [OutOfFuel] only says that the
    fuel given to a loop of the model was too small; the theorems about
    loops prove that it does not occur. *)
Inductive res (A : Type) : Type :=
  | Ok (a : A)
  | Err (msg : string)
  | Panic (msg : string)
  | OutOfFuel.
Arguments Ok {A} a.
Arguments Err {A} msg.
Arguments Panic {A} msg.
Arguments OutOfFuel {A}.

(** The [?] operator: sequencing, with its notation in a scope of its own. *)
Definition rbind {A B} (m : res A) (f : A → res B) : res B :=
  match m with
  | Ok a => f a
  | Err e => Err e
  | Panic e => Panic e
  | OutOfFuel => OutOfFuel
  end.
Definition rmap {A B} (f : A → B) (m : res A) : res B := rbind m (λ a, Ok (f a)).

Declare Scope rust_scope.
Delimit Scope rust_scope with rust.
Notation "'let*' p ':=' m 'in' k" := (rbind m (λ p, k))
  (at level 200, p as pattern, m at level 200, k at level 200, right associativity) : rust_scope.
Notation "'do*' m 'in' k" := (rbind m (λ _, k))
  (at level 200, m at level 200, k at level 200, right associativity) : rust_scope.
Open Scope rust_scope.

(** [x.unwrap()] / [expect] on an [Option], and [assert!]. *)
Definition unwrap {A} (msg : string) (o : option A) : res A :=
  match o with Some a => Ok a | None => Panic msg end.
Definition rassert (msg : string) (b : bool) : res unit :=
  if b then Ok () else Panic msg.
(** [anyhow::ensure!] and [Option::context]. *)
Definition ensure (msg : string) (b : bool) : res unit :=
  if b then Ok () else Err msg.
Definition with_context {A} (msg : string) (o : option A) : res A :=
  match o with Some a => Ok a | None => Err msg end.

Lemma Ok_inj {A} (a b : A) : Ok a = Ok b → a = b.
Proof. by intros [=]. Qed.

Definition is_ok {A} (r : res A) : bool :=
  match r with Ok _ => true | _ => false end.
Definition is_panic {A} (r : res A) : bool :=
  match r with Panic _ => true | _ => false end.

Ltac destruct_conj :=
  repeat match goal with
  | H : _ ∧ _ |- _ => destruct H
  | H : ∃ _, _ |- _ => destruct H
  end.

Lemma rbind_Ok {A B} (m : res A) (f : A → res B) b :
  rbind m f = Ok b ↔ ∃ a, m = Ok a ∧ f a = Ok b.
Proof. destruct m; simpl; split; intros; destruct_conj; simplify_eq; eauto. Qed.
Lemma rbind_assoc {A B C} (m : res A) (f : A → res B) (g : B → res C) :
  rbind (rbind m f) g = rbind m (λ a, rbind (f a) g).
Proof. by destruct m. Qed.
Lemma rassert_Ok msg b u : rassert msg b = Ok u ↔ b = true.
Proof. destruct b, u; simpl; split; congruence. Qed.
Lemma ensure_Ok msg b u : ensure msg b = Ok u ↔ b = true.
Proof. destruct b, u; simpl; split; congruence. Qed.
Lemma unwrap_Ok {A} msg (o : option A) a : unwrap msg o = Ok a ↔ o = Some a.
Proof. destruct o; simpl; split; congruence. Qed.
Lemma with_context_Ok {A} msg (o : option A) a : with_context msg o = Ok a ↔ o = Some a.
Proof. destruct o; simpl; split; congruence. Qed.

(** Decomposes every hypothesis [m ≫= f = Ok b] of the context. *)
Ltac res_inv :=
  repeat match goal with
  | H : Ok _ = Ok _ |- _ => injection H as H; subst
  | H : Err _ = Ok _ |- _ => discriminate H
  | H : Panic _ = Ok _ |- _ => discriminate H
  | H : OutOfFuel = Ok _ |- _ => discriminate H
  | H : rbind _ _ = Ok _ |- _ =>
      apply rbind_Ok in H; destruct H as (? & ? & H)
  | H : rmap _ _ = Ok _ |- _ => unfold rmap in H
  | H : rassert _ _ = Ok _ |- _ => apply rassert_Ok in H
  | H : ensure _ _ = Ok _ |- _ => apply ensure_Ok in H
  | H : unwrap _ _ = Ok _ |- _ => apply unwrap_Ok in H
  | H : with_context _ _ = Ok _ |- _ => apply with_context_Ok in H
  | x : (_ * _)%type |- _ => destruct x; simpl in *
  | x : unit |- _ => destruct x
  end.

(** [safe r]: the code returned, with a value or an error; it neither panicked
    nor ran forever. *)
Definition safe {A} (r : res A) : Prop :=
  match r with Ok _ | Err _ => True | Panic _ | OutOfFuel => False end.
Lemma safe_rbind {A B} (m : res A) (f : A → res B) :
  safe m → (∀ a, m = Ok a → safe (f a)) → safe (rbind m f).
Proof. destruct m; simpl; auto. Qed.
Lemma safe_ensure msg b : safe (ensure msg b).
Proof. by destruct b. Qed.
Lemma safe_with_context {A} msg (o : option A) : safe (with_context msg o).
Proof. by destruct o. Qed.
Create HintDb safe.
#[export] Hint Resolve safe_ensure safe_with_context : safe.
Ltac safe_step :=
  match goal with
  | |- safe (rbind _ _) => apply safe_rbind; [|let p := fresh "p" in intros p ?; try destruct p]
  | |- safe (Ok _) => exact I
  | |- safe (Err _) => exact I
  | |- safe (if _ then _ else _) => case_match
  | |- safe (match _ with _ => _ end) => case_match
  | |- safe _ => solve [eauto with safe]
  end.
Ltac solve_safe := repeat safe_step.

(** ** Bytes and machine integers

    A byte is an [ascii]; a [Vec<u8>] or [&[u8]] is a [list ascii], a Rust
    [String] (a byte sequence that is valid UTF-8) a [string].  Unsigned
    integers are [N]; the release profile the Dockerfile builds wraps on
    overflow, which [wrap64] writes out.  [usize] is 64 bits wide. *)
Abbreviation byte := ascii.
Abbreviation bytes := (list ascii).
Definition u8 (n : N) : byte := ascii_of_N n.
Definition blen {A} (l : list A) : N := N.of_nat (length l).
Definition slen (s : string) : N := N.of_nat (String.length s).
Definition u16_max : N := 65535.
Definition u32_max : N := 4294967295.
Definition u64_max : N := 18446744073709551615.
Definition wrap (w : N) (n : N) : N := (n mod 2 ^ w)%N.
Definition wrap64 (n : N) : N := wrap 64 n.
Definition wsub64 (a b : N) : N := wrap64 (a + 2 ^ 64 - b)%N.
Definition str_bytes (s : string) : bytes := String.list_ascii_of_string s.
Definition bytes_str (l : bytes) : string := String.string_of_list_ascii l.

(** Short forms of the fixed-width bounds. *)
Abbreviation fits w n := (n < 2 ^ w)%N.

Lemma wsub64_small a b : (b ≤ a)%N → fits 64 a → wsub64 a b = (a - b)%N.
Proof.
  intros Hle Ha. unfold wsub64, wrap64, wrap.
  replace (a + 2 ^ 64 - b)%N with (a - b + 1 * 2 ^ 64)%N by lia.
  rewrite N.Div0.mod_add. apply N.mod_small. lia.
Qed.
Lemma blen_app {A} (l k : list A) : blen (l ++ k) = (blen l + blen k)%N.
Proof. unfold blen. rewrite length_app. lia. Qed.
Lemma blen_cons {A} (x : A) l : blen (x :: l) = (1 + blen l)%N.
Proof. unfold blen. simpl. lia. Qed.
Lemma blen_nil {A} : blen (@nil A) = 0%N.
Proof. done. Qed.
Lemma blen_take {A} n (l : list A) : blen (take n l) = N.min (N.of_nat n) (blen l).
Proof. unfold blen. rewrite length_take. lia. Qed.
Lemma blen_drop {A} n (l : list A) : blen (drop n l) = (blen l - N.of_nat n)%N.
Proof. unfold blen. rewrite length_drop. lia. Qed.
Lemma blen_0 {A} (l : list A) : blen l = 0%N ↔ l = [].
Proof. destruct l; [done|]. rewrite blen_cons. split; [lia|done]. Qed.
Lemma blen_str_bytes s : blen (str_bytes s) = slen s.
Proof. unfold blen, slen, str_bytes. f_equal. induction s; simpl; congruence. Qed.
Lemma bytes_str_bytes s : bytes_str (str_bytes s) = s.
Proof. apply String.string_of_list_ascii_of_string. Qed.
Lemma str_bytes_str l : str_bytes (bytes_str l) = l.
Proof. apply String.list_ascii_of_string_of_list_ascii. Qed.

Create Rewrite HintDb blen.
#[export] Hint Rewrite @blen_app @blen_cons @blen_nil @blen_take @blen_drop
  blen_str_bytes : blen.

Lemma u8_N n : fits 8 n → N_of_ascii (u8 n) = n.
Proof. apply N_ascii_embedding. Qed.
Lemma N_u8 b : u8 (N_of_ascii b) = b.
Proof. apply ascii_N_embedding. Qed.
Lemma byte_bound b : fits 8 (N_of_ascii b).
Proof. apply N_ascii_bounded. Qed.

(** ** Rust's [Ord]

    [cmp] is [Ord::cmp].  [BTreeMap]s are modelled as [gmap]s whose iteration
    lists the entries in increasing key order ([btree_items]). *)
Class Cmp (A : Type) := cmp : A → A → comparison.
#[export] Hint Mode Cmp ! : typeclass_instances.
Class CmpLaws (A : Type) `{Cmp A} : Prop := {
  cmp_eq : ∀ x y : A, cmp x y = Eq ↔ x = y;
  cmp_opp : ∀ x y : A, cmp y x = CompOpp (cmp x y);
  cmp_trans : ∀ x y z : A, cmp x y = Lt → cmp y z = Lt → cmp x z = Lt;
}.

#[export] Instance N_cmp : Cmp N := N.compare.
#[export] Instance N_cmp_laws : CmpLaws N.
Proof.
  split; unfold cmp, N_cmp; intros.
  - apply N.compare_eq_iff.
  - apply N.compare_antisym.
  - rewrite N.compare_lt_iff in *. lia.
Qed.

#[export] Instance string_cmp : Cmp string := String.compare.
#[export] Instance string_cmp_laws : CmpLaws string.
Proof.
  split; unfold cmp, string_cmp.
  - intros x y. split; [apply String.compare_eq_iff|intros <-].
    pose proof (String.compare_antisym x x) as E.
    destruct (String.compare x x); done.
  - intros. apply String.compare_antisym.
  - intros x y z Hxy Hyz.
    assert (String.le x y ∧ String.le y z) as [Hle1 Hle2].
    { unfold String.le, String.leb. by rewrite Hxy, Hyz. }
    assert (String.le x z) as Hle by (by etrans).
    unfold String.le, String.leb in Hle.
    destruct (String.compare x z) eqn:Hxz; [|done|done].
    apply String.compare_eq_iff in Hxz as ->.
    rewrite String.compare_antisym, Hyz in Hxy. done.
Qed.

(** Derived [Ord] of a tuple or struct: lexicographic in field order. *)
#[export] Instance prod_cmp {A B} `{Cmp A, Cmp B} : Cmp (A * B) := λ x y,
  match cmp x.1 y.1 with Eq => cmp x.2 y.2 | c => c end.
#[export] Instance prod_cmp_laws {A B} `{CmpLaws A, CmpLaws B} : CmpLaws (A * B).
Proof.
  split.
  - intros [a b] [a' b']. unfold cmp, prod_cmp; simpl.
    destruct (cmp a a') eqn:E.
    + apply cmp_eq in E as ->. rewrite cmp_eq. naive_solver.
    + split; [done|]. intros [= -> ->].
      assert (cmp a' a' = Eq) by (by apply cmp_eq). congruence.
    + split; [done|]. intros [= -> ->].
      assert (cmp a' a' = Eq) by (by apply cmp_eq). congruence.
  - intros [a b] [a' b']. unfold cmp, prod_cmp; simpl.
    rewrite (cmp_opp a a'). destruct (cmp a a'); simpl; [apply cmp_opp|done|done].
  - intros [a b] [a' b'] [a2 b2]. unfold cmp, prod_cmp; simpl.
    destruct (cmp a a') eqn:E1; [apply cmp_eq in E1 as -> | |done].
    + destruct (cmp a' a2); [apply cmp_trans|done|done].
    + intros _. destruct (cmp a' a2) eqn:E2; [apply cmp_eq in E2 as <-| |done].
      * by rewrite E1.
      * by rewrite (cmp_trans _ _ _ E1 E2).
Qed.

(** [Ord] through an injective key. *)
Definition cmp_on {A B} `{Cmp B} (f : A → B) : Cmp A := λ x y, cmp (f x) (f y).
Lemma cmp_on_laws {A B} `{CmpLaws B} (f : A → B) :
  Inj (=) (=) f → @CmpLaws A (cmp_on f).
Proof.
  intros Hf. split.
  - intros x y. change (cmp (f x) (f y) = Eq ↔ x = y).
    rewrite cmp_eq. split; [apply Hf|congruence].
  - intros x y. apply (cmp_opp (f x) (f y)).
  - intros x y z. apply (cmp_trans (f x) (f y) (f z)).
Qed.

Definition cmp_le {A} `{Cmp A} (x y : A) : Prop := cmp x y ≠ Gt.
#[export] Instance cmp_le_dec {A} `{Cmp A} : RelDecision (@cmp_le A _).
Proof. intros x y. unfold cmp_le. solve_decision. Defined.

Section cmp_le.
Context {A} `{CmpLaws A}.
#[global] Instance cmp_le_total : Total (@cmp_le A _).
Proof.
  intros x y. unfold cmp_le. rewrite (cmp_opp x y).
  destruct (cmp x y); simpl; auto.
Qed.
#[global] Instance cmp_le_trans : Transitive (@cmp_le A _).
Proof.
  intros x y z. unfold cmp_le.
  destruct (cmp x y) eqn:E1; [apply cmp_eq in E1 as ->; done| |done].
  intros _. destruct (cmp y z) eqn:E2; [apply cmp_eq in E2 as <-| |done].
  - by rewrite E1.
  - by rewrite (cmp_trans _ _ _ E1 E2).
Qed.
#[global] Instance cmp_le_antisym : AntiSymm (=) (@cmp_le A _).
Proof.
  intros x y. unfold cmp_le. rewrite (cmp_opp x y).
  destruct (cmp x y) eqn:E; simpl; [|done|done]. intros. by apply cmp_eq.
Qed.
End cmp_le.

(** Iteration of a [BTreeMap] in key order. *)
Section btree.
Context {K V : Type} `{Countable K} `{!Cmp K}.
Definition key_le : relation (K * V) := λ x y, cmp_le x.1 y.1.
#[global] Instance key_le_dec : RelDecision key_le.
Proof. intros x y. unfold key_le. apply _. Defined.
Definition btree_items (m : gmap K V) : list (K * V) :=
  merge_sort key_le (map_to_list m).

Lemma btree_items_perm (m : gmap K V) : btree_items m ≡ₚ map_to_list m.
Proof. apply merge_sort_Permutation. Qed.
Lemma elem_of_btree_items (m : gmap K V) k v :
  (k, v) ∈ btree_items m ↔ m !! k = Some v.
Proof. by rewrite btree_items_perm, elem_of_map_to_list. Qed.
Lemma btree_items_NoDup (m : gmap K V) : NoDup (btree_items m).*1.
Proof. rewrite btree_items_perm. apply NoDup_fst_map_to_list. Qed.
Lemma btree_items_list_to_map (m : gmap K V) :
  list_to_map (btree_items m) = m.
Proof.
  rewrite <-(list_to_map_to_list m) at 2. apply list_to_map_proper.
  - apply btree_items_NoDup.
  - apply btree_items_perm.
Qed.
Lemma length_btree_items (m : gmap K V) : length (btree_items m) = size m.
Proof. by rewrite btree_items_perm, length_map_to_list. Qed.
Lemma btree_items_empty : btree_items ∅ = [].
Proof. unfold btree_items. by rewrite map_to_list_empty. Qed.

Context `{!CmpLaws K}.
#[global] Instance key_le_total : Total key_le.
Proof. intros x y. apply (total (@cmp_le K _) x.1 y.1). Qed.
#[global] Instance key_le_trans : Transitive key_le.
Proof. intros x y z. unfold key_le. by etrans. Qed.
Lemma btree_items_sorted (m : gmap K V) : StronglySorted key_le (btree_items m).
Proof. apply StronglySorted_merge_sort; apply _. Qed.
End btree.

(** ** Strings: prefixes and slices *)

(** [str::strip_prefix] and [str::starts_with] *)
Fixpoint strip_prefix (p s : string) : option string :=
  match p, s with
  | EmptyString, _ => Some s
  | String a p, String b s => if decide (a = b) then strip_prefix p s else None
  | String _ _, EmptyString => None
  end.
Definition starts_with (p s : string) : bool :=
  match strip_prefix p s with Some _ => true | None => false end.

Lemma strip_prefix_Some p s r : strip_prefix p s = Some r ↔ s = String.append p r.
Proof.
  revert s; induction p as [|a p IH]; intros s; simpl; [by split; intros; simplify_eq|].
  destruct s as [|b s]; [done|]. case_decide as Hab.
  - subst. rewrite IH. split; [by intros ->|intros Heq; by injection Heq].
  - split; [done|]. intros Heq. injection Heq as Heq1 Heq2. congruence.
Qed.
Lemma starts_with_true p s : starts_with p s = true ↔ ∃ r, s = String.append p r.
Proof.
  unfold starts_with. destruct (strip_prefix p s) as [r|] eqn:E.
  - apply strip_prefix_Some in E. naive_solver.
  - split; [done|]. intros [r Hr%strip_prefix_Some]. congruence.
Qed.
Lemma starts_with_false p s : starts_with p s = false ↔ strip_prefix p s = None.
Proof. unfold starts_with. by destruct (strip_prefix p s). Qed.

Lemma ascii_compare_refl a : Ascii.compare a a = Eq.
Proof. unfold Ascii.compare. apply N.compare_refl. Qed.
Lemma cmp_le_append p r : cmp_le p (String.append p r).
Proof.
  unfold cmp_le, cmp, string_cmp. induction p as [|a p IH]; simpl.
  - by destruct r.
  - by rewrite ascii_compare_refl.
Qed.
Lemma cmp_le_empty s : cmp_le EmptyString s.
Proof. apply (cmp_le_append EmptyString s). Qed.
(** Between a string and one of its extensions, only extensions occur. *)
Lemma cmp_le_between p r s :
  cmp_le p s → cmp_le s (String.append p r) → starts_with p s = true.
Proof.
  unfold cmp_le, cmp, string_cmp, starts_with. revert s.
  induction p as [|a p IH]; intros s; simpl; [done|].
  destruct s as [|b s]; simpl; [done|].
  rewrite (Ascii.compare_antisym b a). destruct (Ascii.compare a b) eqn:E; simpl; [|done|done].
  apply Ascii.compare_eq_iff in E as ->.
  rewrite decide_True by done. apply IH.
Qed.

(** [String::is_char_boundary(1)] and the slice [&s[0..1]] *)
Definition is_continuation (b : byte) : bool :=
  (128 <=? N_of_ascii b)%N && (N_of_ascii b <=? 191)%N.
Definition str_slice_0_1 (s : string) : res string :=
  match s with
  | EmptyString => Panic "byte index 1 is out of bounds"
  | String a EmptyString => Ok s
  | String a (String b _) =>
      if is_continuation b then Panic "byte index 1 is not a char boundary"
      else Ok (String a EmptyString)
  end.

(** ** Sums over lists *)
Definition sum_of {A} (f : A → N) (l : list A) : N := foldr (λ x n, f x + n)%N 0%N l.
#[export] Instance sum_of_perm {A} (f : A → N) : Proper ((≡ₚ) ==> (=)) (sum_of f).
Proof. intros l l' Hl. induction Hl; simpl; try lia. Qed.
Lemma sum_of_app {A} (f : A → N) l k : sum_of f (l ++ k) = (sum_of f l + sum_of f k)%N.
Proof. induction l as [|x l IH]; simpl; [done|]. rewrite IH. lia. Qed.
Lemma sum_of_submseteq {A} (f : A → N) l k : l ⊆+ k → (sum_of f l ≤ sum_of f k)%N.
Proof. intros [r ->]%submseteq_Permutation. rewrite sum_of_app. lia. Qed.
Lemma sum_of_le {A} (f g : A → N) l : (∀ x, x ∈ l → f x ≤ g x)%N → (sum_of f l ≤ sum_of g l)%N.
Proof.
  induction l as [|x l IH]; simpl; intros Hl; [lia|].
  pose proof (Hl x ltac:(by left)). pose proof (IH ltac:(intros y Hy; apply Hl; by right)). lia.
Qed.
(** One part that decreases is enough when none increases. *)
Lemma sum_of_lt {A} (f g : A → N) l y : (∀ x, x ∈ l → f x ≤ g x)%N → y ∈ l → (f y < g y)%N →
  (sum_of f l < sum_of g l)%N.
Proof.
  intros Hl Hy Hlt. apply list_elem_of_split in Hy as (l1 & l2 & ->). rewrite !sum_of_app. simpl.
  pose proof (sum_of_le f g l1 ltac:(intros x Hx; apply Hl, elem_of_app; by left)).
  pose proof (sum_of_le f g l2 ltac:(intros x Hx; apply Hl, elem_of_app; right; by right)). lia.
Qed.
