(* ===== verification/Types.v ===== *)
(** * Data types of the gossip library (chitchat/src/types.rs)

    Socket addresses (of [std::net]), [ChitchatId], deletion statuses,
    versioned values, key-value mutations and heartbeats, with the
    conversions between them.  Instants and durations are numbers of
    nanoseconds. *)
From S2P Require Import Prelude.

(** ** [std::net]

    The octets of an IP address are the big-endian digits of a number, so the
    derived order (octet by octet) is the order of the numbers. *)
Inductive IpAddr : Type := IpV4 (a : N) | IpV6 (a : N).
Inductive SocketAddr : Type :=
  | SockV4 (ip port : N)
  | SockV6 (ip port flowinfo scope_id : N).

#[export] Instance SocketAddr_eq_dec : EqDecision SocketAddr.
Proof. solve_decision. Defined.
#[export] Instance IpAddr_eq_dec : EqDecision IpAddr.
Proof. solve_decision. Defined.

Definition SocketAddr_ip (a : SocketAddr) : IpAddr :=
  match a with SockV4 ip _ => IpV4 ip | SockV6 ip _ _ _ => IpV6 ip end.
Definition SocketAddr_port (a : SocketAddr) : N :=
  match a with SockV4 _ p => p | SockV6 _ p _ _ => p end.
(** [SocketAddr::new] *)
Definition SocketAddr_new (ip : IpAddr) (port : N) : SocketAddr :=
  match ip with IpV4 a => SockV4 a port | IpV6 a => SockV6 a port 0 0 end.

(** The derived [Ord] compares the variant, then the fields in order. *)
Definition SocketAddr_key (a : SocketAddr) : N * (N * (N * (N * N))) :=
  match a with
  | SockV4 ip p => (0, (ip, (p, (0, 0))))
  | SockV6 ip p fl sc => (1, (ip, (p, (fl, sc))))
  end%N.
#[export] Instance SocketAddr_key_inj : Inj (=) (=) SocketAddr_key.
Proof. intros [] [] ?; simplify_eq/=; done. Qed.
#[export] Instance SocketAddr_cmp : Cmp SocketAddr := cmp_on SocketAddr_key.
#[export] Instance SocketAddr_cmp_laws : CmpLaws SocketAddr.
Proof. apply cmp_on_laws, _. Qed.
#[export] Instance SocketAddr_countable : Countable SocketAddr.
Proof.
  refine (inj_countable' SocketAddr_key (λ k,
    if (k.1 =? 0)%N then SockV4 k.2.1 k.2.2.1
    else SockV6 k.2.1 k.2.2.1 k.2.2.2.1 k.2.2.2.2) _).
  by intros [].
Defined.

(** ** [ChitchatId] (types.rs) *)
Record ChitchatId : Type := mkChitchatId {
  node_id : string;
  generation_id : N;
  gossip_advertise_addr : SocketAddr;
}.
#[export] Instance ChitchatId_eq_dec : EqDecision ChitchatId.
Proof. solve_decision. Defined.
Definition ChitchatId_key (c : ChitchatId) : string * (N * SocketAddr) :=
  (node_id c, (generation_id c, gossip_advertise_addr c)).
#[export] Instance ChitchatId_key_inj : Inj (=) (=) ChitchatId_key.
Proof. intros [] [] ?; simplify_eq/=; done. Qed.
#[export] Instance ChitchatId_cmp : Cmp ChitchatId := cmp_on ChitchatId_key.
#[export] Instance ChitchatId_cmp_laws : CmpLaws ChitchatId.
Proof. apply cmp_on_laws, _. Qed.
#[export] Instance ChitchatId_countable : Countable ChitchatId.
Proof.
  refine (inj_countable' ChitchatId_key (λ k, mkChitchatId k.1 k.2.1 k.2.2) _).
  by intros [].
Defined.

(** ** Versions, instants, heartbeats *)
Abbreviation Version := N.
Abbreviation Instant := N.
Abbreviation Duration := N.
Abbreviation Heartbeat := N.

(** [Heartbeat::inc] (types.rs): [wrapping_add]. *)
Definition Heartbeat_inc (h : Heartbeat) : Heartbeat := wrap64 (h + 1).

(** ** Deletion statuses (types.rs) *)
Inductive DeletionStatus : Type :=
  | Set_
  | Deleted (t : Instant)
  | DeleteAfterTtl (t : Instant).
Inductive DeletionStatusMutation : Type := MSet | MDelete | MDeleteAfterTtl.
#[export] Instance DeletionStatus_eq_dec : EqDecision DeletionStatus.
Proof. solve_decision. Defined.
#[export] Instance DeletionStatusMutation_eq_dec : EqDecision DeletionStatusMutation.
Proof. solve_decision. Defined.

Definition time_of_start_scheduled_for_deletion (s : DeletionStatus) : option Instant :=
  match s with
  | Set_ => None
  | Deleted t | DeleteAfterTtl t => Some t
  end.

Definition into_status (m : DeletionStatusMutation) (now : Instant) : DeletionStatus :=
  match m with
  | MSet => Set_
  | MDeleteAfterTtl => DeleteAfterTtl now
  | MDelete => Deleted now
  end.
Definition scheduled_for_deletion (m : DeletionStatusMutation) : bool :=
  match m with MSet => false | MDelete | MDeleteAfterTtl => true end.
(** [From<DeletionStatus> for DeletionStatusMutation] *)
Definition status_mutation (s : DeletionStatus) : DeletionStatusMutation :=
  match s with
  | Set_ => MSet
  | DeleteAfterTtl _ => MDeleteAfterTtl
  | Deleted _ => MDelete
  end.
(** [TryFrom<u8>] and [From<DeletionStatusMutation> for u8] *)
Definition mutation_of_code (c : N) : option DeletionStatusMutation :=
  match c with
  | 0 => Some MSet
  | 1 => Some MDelete
  | 2 => Some MDeleteAfterTtl
  | _ => None
  end%N.
Definition mutation_code (m : DeletionStatusMutation) : N :=
  match m with MSet => 0 | MDelete => 1 | MDeleteAfterTtl => 2 end%N.

(** ** Versioned values (types.rs) *)
Record VersionedValue : Type := mkVersionedValue {
  vv_value : string;
  vv_version : Version;
  vv_status : DeletionStatus;
}.
#[export] Instance VersionedValue_eq_dec : EqDecision VersionedValue.
Proof. solve_decision. Defined.

(** [VersionedValue::new]; [now] is the reading of the clock. *)
Definition VersionedValue_new (value : string) (version : Version)
    (is_tombstone : bool) (now : Instant) : VersionedValue :=
  mkVersionedValue value version (if is_tombstone then Deleted now else Set_).
Definition is_deleted (v : VersionedValue) : bool :=
  match vv_status v with
  | Set_ => false
  | Deleted _ => true
  | DeleteAfterTtl _ => false
  end.

Record KeyValueMutation : Type := mkKeyValueMutation {
  kv_key : string;
  kv_value : string;
  kv_version : Version;
  kv_status : DeletionStatusMutation;
}.
#[export] Instance KeyValueMutation_eq_dec : EqDecision KeyValueMutation.
Proof. solve_decision. Defined.

(** The serde form of a versioned value drops the instant of a tombstone and
    restarts its clock on reading (types.rs). *)
Record VersionedValueForSerialization : Type := mkVVForSerialization {
  vvs_value : string;
  vvs_version : Version;
  vvs_status : DeletionStatusMutation;
}.
Definition vv_from_serialization (v : VersionedValueForSerialization)
    (now : Instant) : VersionedValue :=
  mkVersionedValue (vvs_value v) (vvs_version v) (into_status (vvs_status v) now).
Definition vv_for_serialization (v : VersionedValue) : VersionedValueForSerialization :=
  mkVVForSerialization (vv_value v) (vv_version v) (status_mutation (vv_status v)).

(** The mutation a sender emits for an entry ([DeltaSerializer::try_add_kv]
    builds it field by field) and the entry a receiver stores for it. *)
Definition kv_of_vv (key : string) (v : VersionedValue) : KeyValueMutation :=
  mkKeyValueMutation key (vv_value v) (vv_version v) (status_mutation (vv_status v)).
Definition vv_of_kv (m : KeyValueMutation) (now : Instant) : VersionedValue :=
  mkVersionedValue (kv_value m) (kv_version m) (into_status (kv_status m) now).

(** ** Lemmas *)
Lemma mutation_of_code_code m : mutation_of_code (mutation_code m) = Some m.
Proof. by destruct m. Qed.
Lemma mutation_code_of_code c m : mutation_of_code c = Some m → mutation_code m = c.
Proof. destruct c as [|[|[]|]]; simpl; intros; simplify_eq; done. Qed.
Lemma mutation_code_bound m : (mutation_code m < 3)%N.
Proof. destruct m; simpl; lia. Qed.
Lemma status_mutation_into m now : status_mutation (into_status m now) = m.
Proof. by destruct m. Qed.
Lemma scheduled_time s :
  scheduled_for_deletion (status_mutation s) = true ↔
  is_Some (time_of_start_scheduled_for_deletion s).
Proof. destruct s; simpl; split; try done; eauto; by intros []. Qed.
Lemma kv_of_vv_of_kv m now : kv_of_vv (kv_key m) (vv_of_kv m now) = m.
Proof. destruct m. unfold kv_of_vv, vv_of_kv; simpl. by rewrite status_mutation_into. Qed.
