(* ===== verification/Serialize.v ===== *)
(** * The binary format of primitive values (chitchat/src/serialize.rs)

    A [codec] packs the two traits [Serializable] and [Deserializable] of one
    type; [CodecOk c wf] states what the rest of the library relies on: the
    announced length is the real one, well-formed values round-trip in front
    of any continuation, and whatever a deserializer accepts is well-formed
    and took exactly the announced number of bytes. *)
From S2P Require Import Prelude Types.
Open Scope N_scope.

(** ** The traits (serialize.rs)

    [serialize] returns the bytes that the Rust method appends to its buffer;
    [deserialize] returns the value and the rest of the buffer. *)
Record codec (A : Type) : Type := mkCodec {
  serialize : A → bytes;
  serialized_len : A → N;
  deserialize : bytes → res (A * bytes);
}.
Arguments mkCodec {A} _ _ _.
Arguments serialize {A} _ _.
Arguments serialized_len {A} _ _.
Arguments deserialize {A} _ _.

Class CodecOk {A} (c : codec A) (wf : A → Prop) : Prop := {
  serialize_len : ∀ a, blen (serialize c a) = serialized_len c a;
  roundtrip : ∀ a rest, wf a →
    deserialize c (serialize c a ++ rest) = Ok (a, rest);
  deserialize_sound : ∀ buf a rest, deserialize c buf = Ok (a, rest) →
    wf a ∧ ∃ used, buf = used ++ rest ∧ blen used = serialized_len c a;
}.
#[export] Hint Mode CodecOk - ! - : typeclass_instances.

(** A deserializer that returns on every input, whatever the peer sent. *)
Class CodecSafe {A} (c : codec A) : Prop :=
  deserialize_safe : ∀ buf, safe (deserialize c buf).
#[export] Hint Extern 1 (safe (deserialize _ _)) => apply deserialize_safe : safe.

(** ** Little- and big-endian digits *)
Fixpoint to_le_bytes (n : nat) (v : N) : bytes :=
  match n with
  | O => []
  | S n => u8 (v mod 256) :: to_le_bytes n (v / 256)
  end.
Fixpoint from_le_bytes (l : bytes) : N :=
  match l with
  | [] => 0
  | b :: l => N_of_ascii b + 256 * from_le_bytes l
  end.
Definition to_be_bytes (n : nat) (v : N) : bytes := reverse (to_le_bytes n v).
Definition from_be_bytes (l : bytes) : N := from_le_bytes (reverse l).

(** ** [u8; N], integers and [bool] *)

(** [<[u8; N] as Deserializable>::deserialize] (serialize.rs) *)
Definition read_array (n : nat) (buf : bytes) : res (bytes * bytes) :=
  if blen buf <? N.of_nat n then Err "Buffer too short"
  else Ok (take n buf, drop n buf).

Definition codec_uint (n : nat) : codec N := {|
  serialize := to_le_bytes n;
  serialized_len _ := N.of_nat n;
  deserialize buf :=
    let* (bs, buf) := read_array n buf in
    Ok (from_le_bytes bs, buf);
|}.
Definition codec_u8 : codec N := codec_uint 1.
Definition codec_u16 : codec N := codec_uint 2.
Definition codec_u32 : codec N := codec_uint 4.
Definition codec_u64 : codec N := codec_uint 8.

Definition codec_bool : codec bool := {|
  serialize (b : bool) := [u8 (if b then 1 else 0)];
  serialized_len _ := 1;
  deserialize buf :=
    let* (bs, buf) := read_array 1 buf in
    Ok (negb (from_le_bytes bs =? 0), buf);
|}.

(** ** UTF-8 validation ([std::str::from_utf8]) *)
Definition in_range (lo hi : N) (b : byte) : bool :=
  (lo <=? N_of_ascii b) && (N_of_ascii b <=? hi).
Definition cont : byte → bool := in_range 128 191.
Fixpoint utf8_valid (l : bytes) : bool :=
  match l with
  | [] => true
  | b0 :: l1 =>
    if in_range 0 127 b0 then utf8_valid l1
    else match l1 with
    | [] => false
    | b1 :: l2 =>
      if in_range 194 223 b0 then cont b1 && utf8_valid l2
      else match l2 with
      | [] => false
      | b2 :: l3 =>
        if in_range 224 239 b0 then
          (if in_range 224 224 b0 then in_range 160 191 b1
           else if in_range 237 237 b0 then in_range 128 159 b1
           else cont b1) && cont b2 && utf8_valid l3
        else match l3 with
        | [] => false
        | b3 :: l4 =>
          in_range 240 244 b0 &&
          (if in_range 240 240 b0 then in_range 144 191 b1
           else if in_range 244 244 b0 then in_range 128 143 b1
           else cont b1) && cont b2 && cont b3 && utf8_valid l4
        end
      end
    end
  end.
(** The strings of the program: every Rust [String] is valid UTF-8. *)
Definition str_utf8 (s : string) : bool := utf8_valid (str_bytes s).

(** ** [String] (serialize.rs)

    The length is written [as u16]: a longer string gets a truncated length. *)
Definition codec_String : codec string := {|
  serialize s := serialize codec_u16 (wrap 16 (slen s)) ++ str_bytes s;
  serialized_len s := 2 + slen s;
  deserialize buf :=
    let* (len, buf) := deserialize codec_u16 buf in
    do* ensure "failed to deserialize string, buffer too short" (len <=? blen buf) in
    let str_bytes := take (N.to_nat len) buf in
    do* ensure "invalid utf-8" (utf8_valid str_bytes) in
    Ok (bytes_str str_bytes, drop (N.to_nat len) buf);
|}.

(** ** [IpAddr] and [SocketAddr] (serialize.rs) *)
Definition IpVersion_try_from (b : N) : res N :=
  if b =? 4 then Ok 4
  else if b =? 6 then Ok 6
  else Err "Invalid IP version byte".

Definition codec_IpAddr : codec IpAddr := {|
  serialize ip := match ip with
    | IpV4 a => u8 4 :: to_be_bytes 4 a
    | IpV6 a => u8 6 :: to_be_bytes 16 a
    end;
  serialized_len ip := 1 + match ip with IpV4 _ => 4 | IpV6 _ => 16 end;
  deserialize buf :=
    let* (b, buf) := read_array 1 buf in
    let* v := IpVersion_try_from (from_le_bytes b) in
    if v =? 4 then
      let* (bs, buf) := read_array 4 buf in Ok (IpV4 (from_be_bytes bs), buf)
    else
      let* (bs, buf) := read_array 16 buf in Ok (IpV6 (from_be_bytes bs), buf);
|}.

Definition codec_SocketAddr : codec SocketAddr := {|
  serialize a :=
    serialize codec_IpAddr (SocketAddr_ip a) ++
    serialize codec_u16 (SocketAddr_port a);
  serialized_len a :=
    serialized_len codec_IpAddr (SocketAddr_ip a) +
    serialized_len codec_u16 (SocketAddr_port a);
  deserialize buf :=
    let* (ip_addr, buf) := deserialize codec_IpAddr buf in
    let* (port, buf) := deserialize codec_u16 buf in
    Ok (SocketAddr_new ip_addr port, buf);
|}.

(** ** [ChitchatId] and [Heartbeat] (serialize.rs) *)
Definition codec_ChitchatId : codec ChitchatId := {|
  serialize c :=
    serialize codec_String (node_id c) ++
    serialize codec_u64 (generation_id c) ++
    serialize codec_SocketAddr (gossip_advertise_addr c);
  serialized_len c :=
    serialized_len codec_String (node_id c) +
    serialized_len codec_u64 (generation_id c) +
    serialized_len codec_SocketAddr (gossip_advertise_addr c);
  deserialize buf :=
    let* (node_id, buf) := deserialize codec_String buf in
    let* (generation_id, buf) := deserialize codec_u64 buf in
    let* (addr, buf) := deserialize codec_SocketAddr buf in
    Ok (mkChitchatId node_id generation_id addr, buf);
|}.

Definition codec_Heartbeat : codec Heartbeat := codec_u64.

(** ** [DeletionStatusMutation] and [KeyValueMutation] (types.rs) *)
Definition codec_DeletionStatusMutation : codec DeletionStatusMutation := {|
  serialize m := serialize codec_u8 (mutation_code m);
  serialized_len _ := 1;
  deserialize buf :=
    let* (code, buf) := deserialize codec_u8 buf in
    let* m := with_context "Invalid deletion status code" (mutation_of_code code) in
    Ok (m, buf);
|}.

Definition codec_KeyValueMutation : codec KeyValueMutation := {|
  serialize m :=
    serialize codec_String (kv_key m) ++
    serialize codec_String (kv_value m) ++
    serialize codec_u64 (kv_version m) ++
    serialize codec_DeletionStatusMutation (kv_status m);
  serialized_len m :=
    serialized_len codec_String (kv_key m) +
    serialized_len codec_String (kv_value m) +
    serialized_len codec_u64 (kv_version m) +
    serialized_len codec_DeletionStatusMutation (kv_status m);
  deserialize buf :=
    let* (key, buf) := deserialize codec_String buf in
    let* (value, buf) := deserialize codec_String buf in
    let* (version, buf) := deserialize codec_u64 buf in
    let* (state, buf) := deserialize codec_DeletionStatusMutation buf in
    Ok (mkKeyValueMutation key value version state, buf);
|}.

(** ** Well-formed values: what the Rust types and the 16-bit length allow *)
Definition wf_uint (w : N) (v : N) : Prop := fits w v.
Definition wf_String (s : string) : Prop := slen s ≤ u16_max ∧ str_utf8 s = true.
Definition wf_IpAddr (ip : IpAddr) : Prop :=
  match ip with IpV4 a => fits 32 a | IpV6 a => fits 128 a end.
Definition wf_SocketAddr (a : SocketAddr) : Prop :=
  wf_IpAddr (SocketAddr_ip a) ∧ fits 16 (SocketAddr_port a) ∧
  match a with SockV4 _ _ => True | SockV6 _ _ fl sc => fl = 0 ∧ sc = 0 end.
Definition wf_ChitchatId (c : ChitchatId) : Prop :=
  wf_String (node_id c) ∧ fits 64 (generation_id c) ∧
  wf_SocketAddr (gossip_advertise_addr c).
Definition wf_KeyValueMutation (m : KeyValueMutation) : Prop :=
  wf_String (kv_key m) ∧ wf_String (kv_value m) ∧ fits 64 (kv_version m).

#[global] Arguments read_array : simpl never.
#[global] Arguments wrap : simpl never.

(** ** Digits *)
Lemma length_to_le_bytes n v : length (to_le_bytes n v) = n.
Proof. revert v; induction n; intros; simpl; auto. Qed.
Lemma blen_to_le_bytes n v : blen (to_le_bytes n v) = N.of_nat n.
Proof. unfold blen. by rewrite length_to_le_bytes. Qed.
Lemma pow_8_succ n : 2 ^ (8 * N.of_nat (S n)) = 256 * 2 ^ (8 * N.of_nat n).
Proof.
  rewrite Nat2N.inj_succ, N.mul_succ_r, N.pow_add_r. change (2 ^ 8) with 256. lia.
Qed.
Lemma from_to_le_bytes n v : v < 2 ^ (8 * N.of_nat n) →
  from_le_bytes (to_le_bytes n v) = v.
Proof.
  revert v; induction n as [|n IH]; intros v Hv; simpl.
  - change (2 ^ (8 * N.of_nat 0)) with 1 in Hv. lia.
  - rewrite pow_8_succ in Hv. rewrite u8_N by (by apply N.mod_lt).
    rewrite IH by (apply N.Div0.div_lt_upper_bound; lia).
    symmetry. rewrite N.add_comm. by apply N.div_mod.
Qed.
Lemma from_le_bytes_bound l : from_le_bytes l < 2 ^ (8 * N.of_nat (length l)).
Proof.
  induction l as [|b l IH]; simpl length; [simpl; lia|].
  rewrite pow_8_succ. simpl. pose proof (byte_bound b) as Hb.
  change (2 ^ 8) with 256 in Hb. lia.
Qed.
Lemma to_from_le_bytes l : to_le_bytes (length l) (from_le_bytes l) = l.
Proof.
  induction l as [|b l IH]; simpl; [done|]. pose proof (byte_bound b) as Hb.
  change (2 ^ 8) with 256 in Hb. f_equal.
  - rewrite (N.mul_comm 256), N.Div0.mod_add, N.mod_small by done. apply N_u8.
  - by rewrite (N.mul_comm 256), N.div_add, N.div_small, N.add_0_l by done.
Qed.
Lemma blen_to_be_bytes n v : blen (to_be_bytes n v) = N.of_nat n.
Proof. unfold to_be_bytes, blen. by rewrite length_reverse, length_to_le_bytes. Qed.
Lemma from_to_be_bytes n v : v < 2 ^ (8 * N.of_nat n) →
  from_be_bytes (to_be_bytes n v) = v.
Proof.
  intros. unfold from_be_bytes, to_be_bytes.
  rewrite reverse_involutive. by apply from_to_le_bytes.
Qed.
Lemma from_be_bytes_bound l : from_be_bytes l < 2 ^ (8 * N.of_nat (length l)).
Proof.
  unfold from_be_bytes. rewrite <-(length_reverse l). apply from_le_bytes_bound.
Qed.
#[export] Hint Rewrite blen_to_le_bytes blen_to_be_bytes : blen.

(** ** Arrays *)
Lemma read_array_app n bs rest : blen bs = N.of_nat n →
  read_array n (bs ++ rest) = Ok (bs, rest).
Proof.
  intros Hn. unfold read_array. autorewrite with blen.
  destruct (N.ltb_spec (blen bs + blen rest) (N.of_nat n)); [lia|].
  unfold blen in Hn. by rewrite take_app_length', drop_app_length' by lia.
Qed.
Lemma read_array_1 b rest : read_array 1 (b :: rest) = Ok ([b], rest).
Proof. by apply (read_array_app 1 [b]). Qed.
Lemma read_array_sound n buf bs rest : read_array n buf = Ok (bs, rest) →
  buf = bs ++ rest ∧ blen bs = N.of_nat n.
Proof.
  unfold read_array. destruct (N.ltb_spec (blen buf) (N.of_nat n)); [done|].
  intros [= <- <-]. rewrite take_drop. autorewrite with blen. split; [done|lia].
Qed.

Lemma read_array_safe n buf : safe (read_array n buf).
Proof. unfold read_array. solve_safe. Qed.
#[export] Hint Resolve read_array_safe : safe.

(** ** Decomposing and running deserializers

    [de_inv] inverts a successful run into its steps, turning each step into
    its [deserialize_sound] fact; [de_run] executes a deserializer on the
    bytes that the serializer produced. *)
Ltac de_inv :=
  res_inv;
  repeat match goal with
  | H : read_array _ _ = Ok _ |- _ =>
      apply read_array_sound in H as [-> ?]
  | H : deserialize ?c _ = Ok _ |- _ =>
      apply (deserialize_sound (c:=c)) in H as (? & ? & -> & ?)
  end.
Ltac de_run :=
  repeat first
    [ rewrite <-(assoc_L (++))
    | rewrite read_array_app by (autorewrite with blen; done)
    | rewrite roundtrip by done
    | progress simpl rbind ].
(** The consumed bytes of a sequence of fields. *)
Ltac de_used :=
  rewrite ?(assoc_L (++)); eexists; split; [reflexivity|];
  simpl in *; autorewrite with blen in *; lia.

(** ** Instances

    Client proofs use the laws of a codec, never its body: each codec becomes
    opaque (to [simpl], not to evaluation) once its laws are proved. *)
#[export] Instance codec_uint_ok n : CodecOk (codec_uint n) (wf_uint (8 * N.of_nat n)).
Proof.
  split; simpl.
  - intros. apply blen_to_le_bytes.
  - intros a rest Ha. rewrite read_array_app by apply blen_to_le_bytes. simpl.
    by rewrite from_to_le_bytes.
  - intros buf a rest H. de_inv. split.
    + unfold wf_uint.
      match goal with H : blen _ = N.of_nat n |- _ => rewrite <-H end.
      apply from_le_bytes_bound.
    + eauto.
Qed.
#[export] Instance codec_uint_safe n : CodecSafe (codec_uint n).
Proof. intros buf. simpl. solve_safe. Qed.
#[export] Instance codec_u8_safe : CodecSafe codec_u8 := codec_uint_safe 1.
#[export] Instance codec_u16_safe : CodecSafe codec_u16 := codec_uint_safe 2.
#[export] Instance codec_u32_safe : CodecSafe codec_u32 := codec_uint_safe 4.
#[export] Instance codec_u64_safe : CodecSafe codec_u64 := codec_uint_safe 8.
#[export] Instance codec_u8_ok : CodecOk codec_u8 (wf_uint 8) := codec_uint_ok 1.
#[export] Instance codec_u16_ok : CodecOk codec_u16 (wf_uint 16) := codec_uint_ok 2.
#[export] Instance codec_u32_ok : CodecOk codec_u32 (wf_uint 32) := codec_uint_ok 4.
#[export] Instance codec_u64_ok : CodecOk codec_u64 (wf_uint 64) := codec_uint_ok 8.
Lemma slen_u8 v : serialized_len codec_u8 v = 1. Proof. done. Qed.
Lemma slen_u16 v : serialized_len codec_u16 v = 2. Proof. done. Qed.
Lemma slen_u32 v : serialized_len codec_u32 v = 4. Proof. done. Qed.
Lemma slen_u64 v : serialized_len codec_u64 v = 8. Proof. done. Qed.
#[export] Hint Rewrite slen_u8 slen_u16 slen_u32 slen_u64 : blen.
#[global] Opaque codec_uint codec_u8 codec_u16 codec_u32 codec_u64.

#[export] Instance codec_bool_ok : CodecOk codec_bool (λ _, True).
Proof.
  split; simpl; [done| |].
  - intros b rest _. rewrite read_array_1. by destruct b.
  - intros buf a rest H. de_inv. eauto.
Qed.

#[export] Instance codec_bool_safe : CodecSafe codec_bool.
Proof. intros buf. simpl. solve_safe. Qed.
#[export] Instance codec_String_ok : CodecOk codec_String wf_String.
Proof.
  split; simpl.
  - intros s. by rewrite blen_app, serialize_len, blen_str_bytes.
  - intros s rest [Hlen Hutf]. rewrite <-(assoc_L (++)).
    rewrite roundtrip by (unfold wf_uint, wrap; apply N.mod_lt; done). simpl.
    unfold wrap. rewrite N.mod_small by (unfold u16_max in *; simpl; lia).
    assert (slen s <=? blen (str_bytes s ++ rest) = true) as ->
      by (autorewrite with blen; lia).
    simpl. assert (N.to_nat (slen s) = length (str_bytes s)) as ->.
    { rewrite <-blen_str_bytes. unfold blen. lia. }
    rewrite take_app_length, drop_app_length. unfold str_utf8 in Hutf.
    rewrite Hutf. simpl. by rewrite bytes_str_bytes.
  - intros buf s rest H. de_inv.
    match goal with H : (_ <=? _) = true |- _ => rename H into Hle end.
    match type of Hle with (?n <=? blen ?l) = true => set (len := n) in *; set (buf := l) in * end.
    unfold wf_uint in *.
    assert (slen (bytes_str (take (N.to_nat len) buf)) = len) as Hn.
    { rewrite <-blen_str_bytes, str_bytes_str. autorewrite with blen. lia. }
    split; [split|].
    + rewrite Hn. unfold u16_max. lia.
    + unfold str_utf8. by rewrite str_bytes_str.
    + rewrite Hn. eexists (_ ++ _).
      rewrite <-(assoc_L (++)), take_drop. split; [done|].
      autorewrite with blen in *. lia.
Qed.
#[export] Instance codec_String_safe : CodecSafe codec_String.
Proof. intros buf. simpl. solve_safe. Qed.
Lemma slen_String s : serialized_len codec_String s = 2 + slen s.
Proof. done. Qed.
#[export] Hint Rewrite slen_String : blen.
#[global] Opaque codec_String codec_bool.

Lemma IpVersion_try_from_inv b v : IpVersion_try_from b = Ok v → v = 4 ∨ v = 6.
Proof. unfold IpVersion_try_from. repeat case_match; intros; simplify_eq; auto. Qed.
Lemma codec_IpAddr_roundtrip ip rest : wf_IpAddr ip →
  deserialize codec_IpAddr (serialize codec_IpAddr ip ++ rest) = Ok (ip, rest).
Proof.
  intros Hip. destruct ip as [a|a]; unfold codec_IpAddr;
    cbn [serialize deserialize app]; rewrite read_array_1; cbn [rbind].
  - change (IpVersion_try_from (from_le_bytes [u8 4])) with (Ok 4).
    cbn [rbind N.eqb Pos.eqb].
    rewrite read_array_app by apply blen_to_be_bytes. cbn [rbind].
    by rewrite from_to_be_bytes by exact Hip.
  - change (IpVersion_try_from (from_le_bytes [u8 6])) with (Ok 6).
    cbn [rbind N.eqb Pos.eqb].
    rewrite read_array_app by apply blen_to_be_bytes. cbn [rbind].
    by rewrite from_to_be_bytes by exact Hip.
Qed.
Lemma from_be_bytes_fits n l : blen l = N.of_nat n →
  from_be_bytes l < 2 ^ (8 * N.of_nat n).
Proof. intros <-. apply from_be_bytes_bound. Qed.

#[export] Instance codec_IpAddr_ok : CodecOk codec_IpAddr wf_IpAddr.
Proof.
  split.
  - intros []; cbn [codec_IpAddr serialize serialized_len];
      autorewrite with blen; done.
  - apply codec_IpAddr_roundtrip.
  - intros buf ip rest H. cbn [codec_IpAddr deserialize] in H. de_inv.
    match goal with H : IpVersion_try_from _ = Ok _ |- _ =>
      apply IpVersion_try_from_inv in H as [-> | ->] end;
      cbn [N.eqb Pos.eqb] in *; de_inv; cbn [codec_IpAddr serialized_len].
    + split; [by apply (from_be_bytes_fits 4)|de_used].
    + split; [by apply (from_be_bytes_fits 16)|de_used].
Qed.
#[export] Instance codec_IpAddr_safe : CodecSafe codec_IpAddr.
Proof.
  intros buf. cbn [codec_IpAddr deserialize]. unfold IpVersion_try_from. solve_safe.
Qed.
Lemma slen_IpAddr_le ip : serialized_len codec_IpAddr ip <= 17.
Proof. destruct ip; simpl; lia. Qed.
#[global] Opaque codec_IpAddr.

#[export] Instance codec_SocketAddr_ok : CodecOk codec_SocketAddr wf_SocketAddr.
Proof.
  split; simpl.
  - intros a. by rewrite blen_app, !serialize_len.
  - intros a rest (Hip & Hport & Hv6). de_run.
    destruct a; simpl; [done|]. by destruct Hv6 as [-> ->].
  - intros buf a rest H. de_inv.
    match goal with ip : IpAddr |- _ => destruct ip end; (split; [|de_used]);
      unfold wf_SocketAddr, wf_uint in *; done.
Qed.
#[export] Instance codec_SocketAddr_safe : CodecSafe codec_SocketAddr.
Proof. intros buf. simpl. solve_safe. Qed.
#[global] Opaque codec_SocketAddr.

#[export] Instance codec_ChitchatId_ok : CodecOk codec_ChitchatId wf_ChitchatId.
Proof.
  split; simpl.
  - intros c. by rewrite !blen_app, !serialize_len, !N.add_assoc.
  - intros c rest (Hid & Hgen & Haddr). de_run. by destruct c.
  - intros buf c rest H. de_inv. split; [done|de_used].
Qed.
#[export] Instance codec_ChitchatId_safe : CodecSafe codec_ChitchatId.
Proof. intros buf. simpl. solve_safe. Qed.
#[global] Opaque codec_ChitchatId.

#[export] Instance codec_Heartbeat_ok : CodecOk codec_Heartbeat (wf_uint 64) :=
  codec_u64_ok.

#[export] Instance codec_DeletionStatusMutation_ok :
  CodecOk codec_DeletionStatusMutation (λ _, True).
Proof.
  split; simpl.
  - intros m. by rewrite serialize_len.
  - intros m rest _. pose proof (mutation_code_bound m).
    rewrite (roundtrip (c:=codec_u8) (mutation_code m)) by
      (unfold wf_uint; change (2 ^ 8) with 256; lia).
    cbn [rbind]. by rewrite mutation_of_code_code.
  - intros buf m rest H. de_inv. split; [done|de_used].
Qed.
#[export] Instance codec_DeletionStatusMutation_safe : CodecSafe codec_DeletionStatusMutation.
Proof. intros buf. simpl. solve_safe. Qed.
Lemma slen_DeletionStatusMutation m :
  serialized_len codec_DeletionStatusMutation m = 1.
Proof. done. Qed.
#[export] Hint Rewrite slen_DeletionStatusMutation : blen.
#[global] Opaque codec_DeletionStatusMutation.

#[export] Instance codec_KeyValueMutation_ok :
  CodecOk codec_KeyValueMutation wf_KeyValueMutation.
Proof.
  split; simpl.
  - intros c. by rewrite !blen_app, !serialize_len, !N.add_assoc.
  - intros m rest (Hk & Hv & Hver). de_run. by destruct m.
  - intros buf m rest H. de_inv. split; [done|de_used].
Qed.
#[export] Instance codec_KeyValueMutation_safe : CodecSafe codec_KeyValueMutation.
Proof. intros buf. simpl. solve_safe. Qed.
#[global] Opaque codec_KeyValueMutation.
