(* ===== verification/Stream.v ===== *)
(** * The compressed block stream (chitchat/src/serialize.rs)

    [CompressedStreamWriter] cuts a sequence of serialized items into blocks
    of [block_threshold] bytes, stores each block compressed or raw, and
    announces an upper bound of the final length; [deserialize_stream] reads
    the blocks back and parses the items.  The zstd library is an interface
    ([Zstd], [ZstdOk]): only the documented behaviour of its four entry points
    is used. *)
From S2P Require Import Prelude Types Serialize.
Open Scope N_scope.

(** ** The zstd library *)
Class Zstd : Type := {
  (** [zstd::bulk::compress_to_buffer src dst]: the compressed bytes, or an
      error when they do not fit in the [N] bytes of [dst]. *)
  compress_to_buffer : bytes → N → option bytes;
  decompress_to_buffer : bytes → N → option bytes;
  (** [zstd::encode_all] and [zstd::decode_all] *)
  encode_all : bytes → option bytes;
  decode_all : bytes → option bytes;
}.
Class ZstdOk `{Zstd} : Prop := {
  compress_fits : ∀ x n c, compress_to_buffer x n = Some c → blen c ≤ n;
  decompress_compress : ∀ x n c m, compress_to_buffer x n = Some c →
    blen x ≤ m → decompress_to_buffer c m = Some x;
  decode_encode_all : ∀ x c, encode_all x = Some c → decode_all c = Some x;
}.

(** ** Block types (serialize.rs) *)
Inductive BlockType : Type := NoMoreBlocks | Compressed | Uncompressed.
Definition BlockType_code (b : BlockType) : N :=
  match b with NoMoreBlocks => 0 | Compressed => 1 | Uncompressed => 2 end.
Definition BlockType_of_code (b : N) : res BlockType :=
  match b with
  | 0 => Ok NoMoreBlocks
  | 1 => Ok Compressed
  | 2 => Ok Uncompressed
  | _ => Err "invalid block type"
  end.
Definition codec_BlockType : codec BlockType := {|
  serialize b := serialize codec_u8 (BlockType_code b);
  serialized_len _ := 1;
  deserialize buf :=
    let* (byte, buf) := deserialize codec_u8 buf in
    let* b := BlockType_of_code byte in
    Ok (b, buf);
|}.

(** ** The writer

    The scratch buffer [compressed_block] is overwritten by every flush
    before it is read, so it is not part of the state. *)
Record CompressedStreamWriter : Type := mkWriter {
  output : bytes;
  uncompressed_block : bytes;
  block_threshold : N;
}.

Definition with_block_threshold (t : N) : CompressedStreamWriter := mkWriter [] [] t.

Section writer.
Context `{Zstd} {A : Type} (c : codec A).

Definition BLOCK_META_LEN : N := 3.
Definition serialized_len_upperbound_after (w : CompressedStreamWriter) (item : A)
    : res N :=
  let new_item_serialized_len := serialized_len c item in
  do* rassert "assert!(new_item_serialized_len > 0)" (0 <? new_item_serialized_len) in
  let new_block_needed :=
    block_threshold w <? blen (uncompressed_block w) + new_item_serialized_len in
  Ok (if new_block_needed then
        BLOCK_META_LEN + blen (output w) + blen (uncompressed_block w) +
        BLOCK_META_LEN + new_item_serialized_len + 1
      else
        BLOCK_META_LEN + blen (output w) + blen (uncompressed_block w) +
        new_item_serialized_len + 1).

Definition flush_block (w : CompressedStreamWriter) : res CompressedStreamWriter :=
  if blen (uncompressed_block w) =? 0 then Ok w
  else
    let num_bytes_to_compress := N.min (blen (uncompressed_block w)) (block_threshold w) in
    let block := take (N.to_nat num_bytes_to_compress) (uncompressed_block w) in
    let rest := drop (N.to_nat num_bytes_to_compress) (uncompressed_block w) in
    match compress_to_buffer block num_bytes_to_compress with
    | Some compressed =>
        do* rassert "u16::try_from(compressed_len).unwrap()" (blen compressed <=? u16_max) in
        Ok (mkWriter
          (output w ++ serialize codec_BlockType Compressed ++
           serialize codec_u16 (blen compressed) ++ compressed)
          rest (block_threshold w))
    | None =>
        do* rassert "uncompressed block too big" (num_bytes_to_compress <=? u16_max) in
        Ok (mkWriter
          (output w ++ serialize codec_BlockType Uncompressed ++
           serialize codec_u16 num_bytes_to_compress ++ block)
          rest (block_threshold w))
    end.

(** [while self.uncompressed_block.len() > self.block_threshold] *)
Fixpoint flush_while (fuel : nat) (w : CompressedStreamWriter)
    : res CompressedStreamWriter :=
  if block_threshold w <? blen (uncompressed_block w) then
    match fuel with
    | O => OutOfFuel
    | S fuel => let* w := flush_block w in flush_while fuel w
    end
  else Ok w.

Definition append (w : CompressedStreamWriter) (item : A) : res CompressedStreamWriter :=
  do* rassert "assert!(item_len <= u16::MAX as usize)" (serialized_len c item <=? u16_max) in
  let block := uncompressed_block w ++ serialize c item in
  flush_while (length block) (mkWriter (output w) block (block_threshold w)).

Definition finish (w : CompressedStreamWriter) : res bytes :=
  let* w := flush_block w in
  Ok (output w ++ serialize codec_BlockType NoMoreBlocks).

(** The items of a list appended one after the other. *)
Fixpoint append_all (w : CompressedStreamWriter) (items : list A)
    : res CompressedStreamWriter :=
  match items with
  | [] => Ok w
  | item :: items => let* w := append w item in append_all w items
  end.

(** ** The reader (serialize.rs) *)
Fixpoint read_blocks (fuel : nat) (buf : bytes) (decompressed_data : bytes)
    : res (bytes * bytes) :=
  match fuel with
  | O => OutOfFuel
  | S fuel =>
    let* (block_type, buf) := deserialize codec_BlockType buf in
    match block_type with
    | Compressed =>
        let* (len, buf) := deserialize codec_u16 buf in
        do* ensure "compressed block: buffer too short" (len <=? blen buf) in
        let* data := with_context "failed to decompress block"
          (decompress_to_buffer (take (N.to_nat len) buf) u16_max) in
        read_blocks fuel (drop (N.to_nat len) buf) (decompressed_data ++ data)
    | Uncompressed =>
        let* (len, buf) := deserialize codec_u16 buf in
        do* ensure "uncompressed block: buffer too short" (len <=? blen buf) in
        read_blocks fuel (drop (N.to_nat len) buf)
          (decompressed_data ++ take (N.to_nat len) buf)
    | NoMoreBlocks => Ok (decompressed_data, buf)
    end
  end.

Fixpoint read_items (fuel : nat) (cursor : bytes) : res (list A) :=
  match cursor with
  | [] => Ok []
  | _ =>
    match fuel with
    | O => OutOfFuel
    | S fuel =>
      let* (item, cursor) := deserialize c cursor in
      let* items := read_items fuel cursor in
      Ok (item :: items)
    end
  end.

(** Each block takes at least the byte of its type, so the length of the
    buffer is enough fuel; each item of a codec without empty encodings
    takes at least one byte of the decompressed data. *)
Definition deserialize_stream (buf : bytes) : res (list A * bytes) :=
  let* (data, buf) := read_blocks (S (length buf)) buf [] in
  let* items := read_items (length data) data in
  Ok (items, buf).
End writer.

#[export] Instance codec_BlockType_ok : CodecOk codec_BlockType (λ _, True).
Proof.
  split; simpl.
  - intros. by rewrite serialize_len.
  - intros b rest _.
    rewrite (roundtrip (c:=codec_u8)) by (by destruct b). by destruct b.
  - intros buf b rest H. de_inv. split; [done|de_used].
Qed.
#[export] Instance codec_BlockType_safe : CodecSafe codec_BlockType.
Proof. intros buf. simpl. unfold BlockType_of_code. solve_safe. Qed.
Lemma slen_BlockType b : serialized_len codec_BlockType b = 1.
Proof. done. Qed.
#[export] Hint Rewrite slen_BlockType : blen.
#[global] Opaque codec_BlockType.

(** ** What a sequence of blocks decodes to

    [reads out data]: reading the blocks [out] in front of anything appends
    [data] to the decompressed data and leaves enough fuel for the rest. *)
Section correctness.
Context `{ZstdOk}.

Definition reads (out data : bytes) : Prop :=
  ∀ rest acc fuel, (length (out ++ rest) < fuel)%nat →
  ∃ fuel', (length rest < fuel')%nat ∧
    read_blocks fuel (out ++ rest) acc = read_blocks fuel' rest (acc ++ data).

Lemma reads_nil : reads [] [].
Proof. intros rest acc fuel Hf. exists fuel. by rewrite app_nil_r. Qed.
Lemma reads_app o1 d1 o2 d2 : reads o1 d1 → reads o2 d2 → reads (o1 ++ o2) (d1 ++ d2).
Proof.
  intros H1 H2 rest acc fuel Hf. rewrite <-(assoc_L (++)) in *.
  destruct (H1 (o2 ++ rest) acc fuel Hf) as (f1 & Hf1 & ->).
  destruct (H2 rest (acc ++ d1) f1 Hf1) as (f2 & Hf2 & ->).
  exists f2. by rewrite (assoc_L (++)).
Qed.

(** The shape shared by both kinds of data blocks. *)
Definition block_bytes (t : BlockType) (payload : bytes) : bytes :=
  serialize codec_BlockType t ++ serialize codec_u16 (blen payload) ++ payload.
Lemma blen_block_bytes t payload : blen (block_bytes t payload) = 3 + blen payload.
Proof.
  unfold block_bytes. rewrite !blen_app, !serialize_len. autorewrite with blen. lia.
Qed.
Lemma reads_block t payload data :
  blen payload ≤ u16_max →
  match t with
  | NoMoreBlocks => False
  | Compressed => decompress_to_buffer payload u16_max = Some data
  | Uncompressed => data = payload
  end →
  reads (block_bytes t payload) data.
Proof.
  intros Hlen Ht rest acc [|fuel] Hf; [lia|]. exists fuel.
  pose proof (blen_block_bytes t payload) as Hblen.
  rewrite length_app in Hf. unfold blen in Hblen. split; [lia|].
  unfold block_bytes. cbn [read_blocks]. rewrite <-!(assoc_L (++)).
  rewrite roundtrip by done. cbn [rbind].
  assert (wf_uint 16 (blen payload)) by
    (unfold wf_uint, u16_max in *; change (2 ^ 16) with 65536; lia).
  assert (blen payload <=? blen (payload ++ rest) = true) as Hle by
    (autorewrite with blen; lia).
  assert (N.to_nat (blen payload) = length payload) as Hn by (unfold blen; lia).
  destruct t; [done| |]; rewrite roundtrip by done; cbn [rbind]; rewrite Hle;
    cbn [ensure rbind]; rewrite Hn, take_app_length, drop_app_length.
  - by rewrite Ht.
  - by subst data.
Qed.

(** ** Flushing *)
Definition threshold_ok (w : CompressedStreamWriter) : Prop :=
  0 < block_threshold w ≤ u16_max.

Lemma flush_block_spec w : threshold_ok w → uncompressed_block w ≠ [] →
  let n := N.min (blen (uncompressed_block w)) (block_threshold w) in
  let block := take (N.to_nat n) (uncompressed_block w) in
  ∃ out, flush_block w = Ok (mkWriter (output w ++ out)
      (drop (N.to_nat n) (uncompressed_block w)) (block_threshold w)) ∧
    reads out block ∧ blen out ≤ 3 + n ∧ blen block = n.
Proof.
  intros [Hpos Hmax] Hne n block.
  assert (blen block = n) as Hblock.
  { subst block n. autorewrite with blen. lia. }
  assert (blen (uncompressed_block w) =? 0 = false) as Hnz.
  { apply N.eqb_neq. by rewrite blen_0. }
  unfold flush_block. rewrite Hnz. fold n. fold block.
  destruct (compress_to_buffer block n) as [payload|] eqn:Hc.
  - pose proof (compress_fits _ _ _ Hc) as Hfit.
    replace (blen payload <=? u16_max) with true by (symmetry; apply N.leb_le; lia).
    cbn [rassert rbind]. exists (block_bytes Compressed payload).
    split_and!; [done| | |done].
    + apply reads_block; [lia|]. eapply decompress_compress; [done|lia].
    + rewrite blen_block_bytes. lia.
  - replace (n <=? u16_max) with true by (symmetry; apply N.leb_le; lia).
    cbn [rassert rbind]. exists (block_bytes Uncompressed block).
    split_and!; [|apply reads_block; [lia|done]|rewrite blen_block_bytes; lia|done].
    unfold block_bytes. by rewrite Hblock.
Qed.

(** The loop of [append] terminates and writes [k] full blocks. *)
Lemma flush_while_spec fuel w : threshold_ok w →
  (length (uncompressed_block w) ≤ fuel)%nat →
  ∃ k out data rest,
    flush_while fuel w = Ok (mkWriter (output w ++ out) rest (block_threshold w)) ∧
    uncompressed_block w = data ++ rest ∧ reads out data ∧
    blen data = k * block_threshold w ∧ blen out ≤ blen data + 3 * k ∧
    blen rest ≤ block_threshold w ∧ (0 < k → 0 < blen rest).
Proof.
  revert w; induction fuel as [|fuel IH]; intros w [Hpos Hmax] Hfuel; simpl.
  - assert (uncompressed_block w = []) as E by (apply length_zero_iff_nil; lia).
    rewrite E. rewrite blen_nil. destruct (N.ltb_spec (block_threshold w) 0); [lia|].
    exists 0, [], [], []. destruct w; simpl in *. subst.
    rewrite app_nil_r, blen_nil. split_and!; try done; try lia. apply reads_nil.
  - destruct (N.ltb_spec (block_threshold w) (blen (uncompressed_block w))) as [Hlt|Hge].
    + assert (uncompressed_block w ≠ []) as Hne by (intros E; rewrite E in Hlt; by destruct (block_threshold w)).
      destruct (flush_block_spec w) as (out & -> & Hreads & Hlen & Hblk); [done..|].
      cbn [rbind]. set (n := N.min _ _) in *.
      assert (n = block_threshold w) as Hn by lia.
      destruct (IH (mkWriter (output w ++ out)
        (drop (N.to_nat n) (uncompressed_block w)) (block_threshold w)))
        as (k & out' & data & rest & -> & Hdata & Hreads' & Hk & Hcost & Hrest & Hkr);
        [done|simpl; rewrite length_drop; unfold blen in *; lia|].
      simpl in *. exists (k + 1), (out ++ out'),
        (take (N.to_nat n) (uncompressed_block w) ++ data), rest.
      rewrite <-!(assoc_L (++)), <-Hdata, take_drop. split_and!; try done.
      * by apply reads_app.
      * rewrite blen_app. lia.
      * rewrite !blen_app. lia.
      * intros _. destruct (N.eq_0_gt_0_cases k) as [->|]; [|auto].
        assert (blen data = 0) as Hd0 by lia. apply blen_0 in Hd0. subst data.
        simpl in Hdata. rewrite <-Hdata. autorewrite with blen. lia.
    + exists 0, [], [], (uncompressed_block w). destruct w; simpl in *.
      rewrite app_nil_r, blen_nil. split_and!; try done; try lia. apply reads_nil.
Qed.

(** ** The invariant of the writer: what it holds decodes to [data] *)
Definition writer_inv (w : CompressedStreamWriter) (data : bytes) : Prop :=
  threshold_ok w ∧ blen (uncompressed_block w) ≤ block_threshold w ∧
  ∃ d, reads (output w) d ∧ data = d ++ uncompressed_block w.

Lemma with_block_threshold_inv t : 0 < t ≤ u16_max →
  writer_inv (with_block_threshold t) [].
Proof.
  intros Ht. split; [done|]. split; [simpl; rewrite blen_nil; lia|].
  exists []. split; [apply reads_nil|done].
Qed.

Context {A} (c : codec A) {wf : A → Prop} `{!CodecOk c wf}.

(** Appending never panics on an item of at most [u16::MAX] bytes, and costs
    three bytes of metadata per block written. *)
Lemma append_spec w data item : writer_inv w data →
  serialized_len c item ≤ u16_max →
  ∃ w' k, append c w item = Ok w' ∧
    writer_inv w' (data ++ serialize c item) ∧
    block_threshold w' = block_threshold w ∧
    k * block_threshold w + blen (uncompressed_block w') =
      blen (uncompressed_block w) + serialized_len c item ∧
    blen (output w') ≤ blen (output w) + k * block_threshold w + 3 * k ∧
    (0 < k → 0 < blen (uncompressed_block w')).
Proof.
  intros (Hthr & Hunc & d & Hreads & ->) Hitem. unfold append.
  replace (serialized_len c item <=? u16_max) with true by (symmetry; by apply N.leb_le).
  cbn [rassert rbind]. set (block := uncompressed_block w ++ serialize c item).
  destruct (flush_while_spec (length block) (mkWriter (output w) block (block_threshold w)))
    as (k & out & d' & rest & Heq & Hblock & Hreads' & Hk & Hcost & Hrest & Hkr);
    [done..|].
  simpl in *. rewrite Heq.
  assert (blen block = blen (uncompressed_block w) + serialized_len c item) as Hb.
  { subst block. by rewrite blen_app, serialize_len. }
  rewrite Hblock, blen_app in Hb.
  eexists _, k. split; [done|]. simpl. split_and!; [|done|lia|rewrite blen_app; lia|done].
  split_and!; [done|done|]. exists (d ++ d'). split; [by apply reads_app|].
  rewrite <-!(assoc_L (++)). simpl. by rewrite <-Hblock.
Qed.

Lemma append_all_spec items w data : writer_inv w data →
  Forall (λ item, serialized_len c item ≤ u16_max) items →
  ∃ w', append_all c w items = Ok w' ∧ block_threshold w' = block_threshold w ∧
    writer_inv w' (data ++ concat (serialize c <$> items)).
Proof.
  intros Hinv Hall; revert w data Hinv.
  induction Hall as [|item items Hitem _ IH]; intros w data Hinv; simpl.
  - exists w. by rewrite app_nil_r.
  - destruct (append_spec w data item Hinv Hitem) as (w1 & k & -> & Hinv1 & Ht & _).
    cbn [rbind]. destruct (IH _ _ Hinv1) as (w2 & -> & Ht2 & Hinv2).
    exists w2. rewrite (assoc_L (++)). split_and!; [done|congruence|done].
Qed.

Lemma append_all_app w l k :
  append_all c w (l ++ k) = (let* w := append_all c w l in append_all c w k).
Proof.
  revert w; induction l as [|x l IH]; intros w; simpl; [done|].
  rewrite rbind_assoc. destruct (append c w x); simpl; auto.
Qed.
Lemma append_all_items w items w' : append_all c w items = Ok w' →
  Forall (λ item, serialized_len c item ≤ u16_max) items.
Proof.
  revert w; induction items as [|x items IH]; intros w Hap; [done|].
  cbn [append_all] in Hap. apply rbind_Ok in Hap as (w1 & Hx & Hap).
  constructor; [|by eapply IH]. unfold append in Hx. apply rbind_Ok in Hx as (? & Hx & _).
  apply rassert_Ok in Hx. by apply N.leb_le.
Qed.
(** Nothing is flushed while the data fits in one block. *)
Lemma append_all_single out blk t items :
  Forall (λ item, serialized_len c item ≤ u16_max) items →
  blen (blk ++ concat (serialize c <$> items)) ≤ t →
  append_all c (mkWriter out blk t) items =
    Ok (mkWriter out (blk ++ concat (serialize c <$> items)) t).
Proof.
  intros Hall; revert blk; induction Hall as [|x items Hx _ IH]; intros blk Hlen.
  - simpl. by rewrite app_nil_r.
  - rewrite fmap_cons in *. cbn [concat append_all] in *. rewrite (assoc_L (++)) in *.
    unfold append. rewrite (proj2 (N.leb_le _ _) Hx). cbn [rassert rbind].
    cbn [uncompressed_block output block_threshold].
    assert (flush_while (length (blk ++ serialize c x))
      (mkWriter out (blk ++ serialize c x) t) =
      Ok (mkWriter out (blk ++ serialize c x) t)) as ->.
    { destruct (length _); cbn [flush_while uncompressed_block block_threshold];
        rewrite blen_app in Hlen; destruct (N.ltb_spec t (blen (blk ++ serialize c x)));
        done || lia. }
    cbn [rbind]. by apply IH.
Qed.
Lemma finish_single out blk t t' : blen blk ≤ t → blen blk ≤ t' →
  finish (mkWriter out blk t) = finish (mkWriter out blk t').
Proof.
  intros H1 H2. unfold finish, flush_block. cbn [uncompressed_block block_threshold output].
  rewrite !N.min_l by done. destruct (blen blk =? 0); [done|].
  destruct (compress_to_buffer _ _) as [b|]; [|by destruct (blen blk <=? u16_max)].
  by destruct (blen b <=? u16_max).
Qed.

Lemma finish_spec w data : writer_inv w data →
  ∃ buf, finish w = Ok buf ∧
    (∀ rest, read_blocks (S (length (buf ++ rest))) (buf ++ rest) [] = Ok (data, rest)) ∧
    blen buf ≤ blen (output w) + 1 +
      (if blen (uncompressed_block w) =? 0 then 0
       else 3 + blen (uncompressed_block w)).
Proof.
  intros (Hthr & Hunc & d & Hreads & ->). unfold finish.
  assert (∃ out rest', flush_block w = Ok (mkWriter (output w ++ out) rest' (block_threshold w)) ∧
    reads out (uncompressed_block w) ∧
    blen out ≤ (if blen (uncompressed_block w) =? 0 then 0
       else 3 + blen (uncompressed_block w))) as (out & rest' & -> & Hout & Hlen).
  { destruct (decide (uncompressed_block w = [])) as [E|Hne].
    - exists [], []. unfold flush_block. rewrite E, blen_nil. simpl.
      rewrite app_nil_r. split_and!; [by destruct w; simpl in *; subst|apply reads_nil|done].
    - destruct (flush_block_spec w Hthr Hne) as (out & -> & Hr & Hl & Hb).
      assert (blen (uncompressed_block w) ≠ 0) as Hnz by (by rewrite blen_0).
      rewrite N.min_l in * by done. unfold blen in *. rewrite Nat2N.id in *.
      rewrite firstn_all in Hr.
      eexists _, _. split_and!; [done|done|].
      destruct (N.eqb_spec (N.of_nat (length (uncompressed_block w))) 0); lia. }
  cbn [rbind output]. eexists. split; [done|]. split.
  - intros rest. pose proof (reads_app _ _ _ _ Hreads Hout) as Hr.
    rewrite <-(assoc_L (++)).
    destruct (Hr (serialize codec_BlockType NoMoreBlocks ++ rest) [] _ (Nat.lt_succ_diag_r _))
      as ([|fuel] & Hf & ->); [lia|].
    cbn [read_blocks]. rewrite roundtrip by done. done.
  - rewrite !blen_app, serialize_len, slen_BlockType. lia.
Qed.

Lemma read_items_spec items fuel :
  Forall (λ item, wf item ∧ 0 < serialized_len c item) items →
  (length (concat (serialize c <$> items)) ≤ fuel)%nat →
  read_items c fuel (concat (serialize c <$> items)) = Ok items.
Proof.
  intros Hall; revert fuel; induction Hall as [|item items [Hwf Hpos] _ IH]; intros fuel Hf.
  - by destruct fuel.
  - rewrite fmap_cons in *. cbn [concat] in *. rewrite <-(serialize_len item) in Hpos.
    destruct (serialize c item) as [|b l] eqn:E; [done|].
    destruct fuel as [|fuel]; [simpl in Hf; lia|].
    change (read_items c (S fuel) ((b :: l) ++ concat (serialize c <$> items))) with
      (let* (item, cursor) := deserialize c ((b :: l) ++ concat (serialize c <$> items)) in
       let* items := read_items c fuel cursor in Ok (item :: items)).
    rewrite <-E, roundtrip by done. cbn [rbind]. rewrite IH; [done|].
    rewrite length_app in Hf. simpl in Hf. lia.
Qed.

(** What a whole stream decodes to, and its length. *)
Lemma stream_spec items t : 0 < t ≤ u16_max →
  Forall (λ item, wf item ∧ 0 < serialized_len c item ≤ u16_max) items →
  ∃ buf, (let* w := append_all c (with_block_threshold t) items in finish w) = Ok buf ∧
    ∀ rest, deserialize_stream c (buf ++ rest) = Ok (items, rest).
Proof.
  intros Ht Hall.
  destruct (append_all_spec items _ _ (with_block_threshold_inv t Ht))
    as (w & -> & _ & Hinv); [eapply Forall_impl; [exact Hall|]; simpl; intros ? (? & ? & ?); done|].
  rewrite app_nil_l in Hinv.
  destruct (finish_spec w _ Hinv) as (buf & Hfin & Hread & _).
  exists buf. split; [done|]. intros rest. unfold deserialize_stream.
  rewrite Hread. cbn [rbind]. rewrite read_items_spec; [done| |done].
  eapply Forall_impl; [exact Hall|]. simpl. intros ? (? & ? & ?). done.
Qed.
End correctness.

(** ** Reading arbitrary bytes *)
Section robustness.
Context `{Zstd} {A} (c : codec A) {wf : A → Prop} `{!CodecOk c wf, !CodecSafe c}.

Lemma codec_consumes buf a rest : deserialize c buf = Ok (a, rest) →
  length buf = (N.to_nat (serialized_len c a) + length rest)%nat.
Proof.
  intros Hd. apply (deserialize_sound (c:=c)) in Hd as (_ & used & -> & Hu).
  rewrite length_app. unfold blen in Hu. lia.
Qed.

Lemma read_blocks_safe fuel buf acc : (length buf < fuel)%nat →
  safe (read_blocks fuel buf acc).
Proof.
  revert buf acc; induction fuel as [|fuel IH]; intros buf acc Hf; [lia|].
  cbn [read_blocks]. apply safe_rbind; [auto with safe|].
  intros [t buf1] Hd. apply (deserialize_sound (c:=codec_BlockType)) in Hd as (_ & u & -> & Hu).
  rewrite length_app in Hf. autorewrite with blen in Hu. unfold blen in Hu.
  destruct t; [done| |]; (apply safe_rbind; [auto with safe|]; intros [len buf2] Hd2;
    apply (deserialize_sound (c:=codec_u16)) in Hd2 as (_ & u2 & -> & _);
    rewrite length_app in Hf; apply safe_rbind; [auto with safe|]; intros _ _).
  - apply safe_rbind; [auto with safe|]. intros data _. apply IH. rewrite length_drop. lia.
  - apply IH. rewrite length_drop. lia.
Qed.

Lemma read_items_safe fuel cursor : (∀ a, 0 < serialized_len c a) →
  (length cursor ≤ fuel)%nat → safe (read_items c fuel cursor).
Proof.
  intros Hpos. revert cursor; induction fuel as [|fuel IH]; intros [|b cursor] Hf; try done.
  { simpl in Hf. lia. }
  cbn [read_items]. apply safe_rbind; [auto with safe|]. intros [a rest] Hd.
  apply codec_consumes in Hd. pose proof (Hpos a).
  apply safe_rbind; [apply IH; simpl in *; lia|done].
Qed.

Lemma deserialize_stream_safe buf : (∀ a, 0 < serialized_len c a) →
  safe (deserialize_stream c buf).
Proof.
  intros Hpos. unfold deserialize_stream. apply safe_rbind; [apply read_blocks_safe; lia|].
  intros [data rest] _. apply safe_rbind; [by apply read_items_safe|done].
Qed.
End robustness.

(** ** Concrete zstd implementations, for evaluation *)
Module StoreZstd.
(** Stores its input when it fits. *)
#[export] Instance store : Zstd := {|
  compress_to_buffer x n := if blen x <=? n then Some x else None;
  decompress_to_buffer x n := if blen x <=? n then Some x else None;
  encode_all := Some;
  decode_all := Some;
|}.
#[export] Instance store_ok : ZstdOk.
Proof.
  split; simpl.
  - intros x n c Hc. destruct (N.leb_spec (blen x) n); naive_solver.
  - intros x n c m Hc ?. destruct (N.leb_spec (blen x) n); simplify_eq.
    by replace (blen c <=? m) with true by (symmetry; by apply N.leb_le).
  - congruence.
Qed.
End StoreZstd.
Module RawZstd.
(** Never manages to compress a block (high-entropy data). *)
#[export] Instance raw : Zstd := {|
  compress_to_buffer _ _ := None;
  decompress_to_buffer _ _ := None;
  encode_all := Some;
  decode_all := Some;
|}.
#[export] Instance raw_ok : ZstdOk.
Proof. split; simpl; congruence. Qed.
End RawZstd.

(** ** Properties *)

(** C18: every sequence of well-formed items of at most 65535 bytes is written
    without a panic, and read back from the front of any buffer. *)
Theorem stream_roundtrip `{ZstdOk} {A} (c : codec A) {wf : A → Prop} `{!CodecOk c wf} items t :
  0 < t ≤ u16_max → Forall (λ item, wf item ∧ 0 < serialized_len c item ≤ u16_max) items →
  ∃ buf, (let* w := append_all c (with_block_threshold t) items in finish w) = Ok buf ∧
    ∀ rest, deserialize_stream c (buf ++ rest) = Ok (items, rest).
Proof. apply (stream_spec c (wf:=wf)). Qed.
Lemma stream_roundtrip_witness :
  ∃ buf, (let* w := append_all (H:=StoreZstd.store) codec_u16 (with_block_threshold 3) [1; 2; 3] in
          finish (H:=StoreZstd.store) w) = Ok buf ∧
    ∀ rest, deserialize_stream (H:=StoreZstd.store) codec_u16 (buf ++ rest) = Ok ([1; 2; 3], rest).
Proof.
  apply (stream_roundtrip (H:=StoreZstd.store) (H0:=StoreZstd.store_ok) codec_u16 (wf:=wf_uint 16)).
  - unfold u16_max. lia.
  - repeat constructor; vm_compute; (reflexivity || discriminate).
Defined.

(** C40: the announced upper bound holds for items of at most one block: the
    stream that is finished after appending the item is no longer. *)
Theorem upperbound_after_sound `{ZstdOk} {A} (c : codec A) {wf : A → Prop} `{!CodecOk c wf}
    w data item : writer_inv w data → 0 < serialized_len c item ≤ block_threshold w →
  ∃ bound w' buf, serialized_len_upperbound_after c w item = Ok bound ∧
    append c w item = Ok w' ∧ finish w' = Ok buf ∧ blen buf ≤ bound.
Proof.
  intros Hw [Hpos Hitem]. pose proof Hw as ([Hp Hu] & Hunc & _).
  destruct (append_spec c w data item Hw) as (w' & k & Happ & Hw' & Ht & Hk & Hout & Hkr); [lia|].
  destruct (finish_spec w' _ Hw') as (buf & Hfin & _ & Hlen).
  unfold serialized_len_upperbound_after, BLOCK_META_LEN.
  rewrite (proj2 (N.ltb_lt _ _) Hpos). cbn [rassert rbind].
  eexists _, w', buf. split; [done|]. split; [done|]. split; [done|].
  pose proof (proj1 (proj2 Hw')) as Hunc'. rewrite Ht in Hunc'.
  assert (k = 0 ∨ k = 1) as Hk01 by (assert (k < 2) by nia; lia).
  assert (blen buf ≤ blen (output w') + 4 + blen (uncompressed_block w')) as Hb
    by (destruct (blen (uncompressed_block w') =? 0); lia).
  destruct (N.ltb_spec (block_threshold w) (blen (uncompressed_block w) + serialized_len c item));
    destruct Hk01 as [-> | ->]; lia.
Qed.
Lemma upperbound_after_sound_witness :
  ∃ bound w' buf,
    serialized_len_upperbound_after codec_u16 (with_block_threshold 3) 7 = Ok bound ∧
    append (H:=StoreZstd.store) codec_u16 (with_block_threshold 3) 7 = Ok w' ∧
    finish (H:=StoreZstd.store) w' = Ok buf ∧ blen buf ≤ bound.
Proof.
  apply (upperbound_after_sound (H:=StoreZstd.store) (H0:=StoreZstd.store_ok) codec_u16 (wf:=wf_uint 16) _ []).
  - apply with_block_threshold_inv. unfold u16_max. lia.
  - vm_compute. split; (reflexivity || discriminate).
Defined.

(** It is no upper bound for longer items: one item of 16 bytes, written
    in blocks of 2 bytes that do not compress, announces 23 bytes and takes
    41. *)
Theorem upperbound_after_exceeded :
  let item := "incompressible"%string in
  let w := with_block_threshold 2 in
  ∃ bound w' buf,
    serialized_len_upperbound_after codec_String w item = Ok bound ∧
    append (H:=RawZstd.raw) codec_String w item = Ok w' ∧
    finish (H:=RawZstd.raw) w' = Ok buf ∧ bound < blen buf.
Proof.
  eexists _, _, _. split; [vm_compute; reflexivity|]. split; [vm_compute; reflexivity|].
  split; [vm_compute; reflexivity|]. vm_compute. reflexivity.
Qed.
