(* ===== verification/Listener.v ===== *)
(** * Key-change listeners (chitchat/src/listener.rs, lib.rs)

    A registry maps key prefixes to callbacks.  A callback is an opaque token
    ([BoxedListener]): the effect of an event is the list of callbacks called,
    in order, each with the event it receives.  The registry is shared by all
    the node states of a cluster ([Arc<RwLock<..>>]); the operations on node
    states take it as an argument. *)
From S2P Require Import Prelude Types.

(** ** Events (lib.rs) *)
Record KeyChangeEvent : Type := mkEvent {
  ev_key : string;
  ev_value : string;
  ev_node : ChitchatId;
}.
Definition strip_key_prefix (e : KeyChangeEvent) (prefix : string) : option KeyChangeEvent :=
  match strip_prefix prefix (ev_key e) with
  | Some key_without_prefix => Some (mkEvent key_without_prefix (ev_value e) (ev_node e))
  | None => None
  end.

(** ** The registry (listener.rs) *)
Abbreviation BoxedListener := N.
Record Call : Type := mkCall {
  call_listener : BoxedListener;
  call_event : KeyChangeEvent;
}.
Record InnerListeners : Type := mkListeners {
  listeners : gmap string (gmap N BoxedListener);
  listener_idx : N;
}.
Definition no_listeners : InnerListeners := mkListeners ∅ 0.

(** [InnerListeners::subscribe_event] *)
Definition inner_subscribe_event (ls : InnerListeners) (key_prefix : string)
    (idx : N) (callback : BoxedListener) : InnerListeners :=
  match listeners ls !! key_prefix with
  | Some callbacks =>
      mkListeners (<[key_prefix := <[idx := callback]> callbacks]> (listeners ls))
        (listener_idx ls)
  | None =>
      mkListeners (<[key_prefix := {[idx := callback]}]> (listeners ls)) (listener_idx ls)
  end.

(** [InnerListeners::remove_listener] *)
Definition remove_listener (ls : InnerListeners) (key_prefix : string) (idx : N)
    : InnerListeners :=
  match listeners ls !! key_prefix with
  | Some callbacks =>
      mkListeners (<[key_prefix := delete idx callbacks]> (listeners ls)) (listener_idx ls)
  | None => ls
  end.

(** The callbacks of one prefix, all called with the same event. *)
Definition call_all (callbacks : gmap N BoxedListener) (e : KeyChangeEvent) : list Call :=
  (λ p, mkCall p.2 e) <$> map_to_list callbacks.

(** The loop over the range of prefixes; it stops at the first prefix above
    the key. *)
Fixpoint trigger_range (range : list (string * gmap N BoxedListener))
    (e : KeyChangeEvent) : list Call :=
  match range with
  | [] => []
  | (prefix_key, callbacks) :: range =>
      if bool_decide (cmp prefix_key (ev_key e) = Gt) then []
      else
        match strip_key_prefix e prefix_key with
        | Some stripped => call_all callbacks stripped
        | None => []
        end ++ trigger_range range e
  end.

(** [InnerListeners::trigger_event] *)
Definition trigger_event (ls : InnerListeners) (e : KeyChangeEvent) : res (list Call) :=
  let empty_calls :=
    match listeners ls !! EmptyString with
    | Some callbacks => call_all callbacks e
    | None => []
    end in
  if bool_decide (ev_key e = EmptyString) then Ok empty_calls
  else
    let* first := str_slice_0_1 (ev_key e) in
    let range := filter (λ p, cmp_le first p.1 ∧ cmp_le p.1 (ev_key e))
                        (btree_items (listeners ls)) in
    Ok (empty_calls ++ trigger_range range e).

(** ** Handles (listener.rs) *)
Record ListenerHandle : Type := mkHandle {
  handle_prefix : string;
  handle_listener_id : N;
  (** whether the weak pointer still leads to the registry *)
  handle_attached : bool;
}.
(** [Listeners::subscribe_event] *)
Definition subscribe_event (ls : InnerListeners) (key_prefix : string)
    (callback : BoxedListener) : InnerListeners * ListenerHandle :=
  let new_idx := listener_idx ls in
  let ls := mkListeners (listeners ls) (wrap64 (listener_idx ls + 1)) in
  (inner_subscribe_event ls key_prefix new_idx callback, mkHandle key_prefix new_idx true).
Definition forever (h : ListenerHandle) : ListenerHandle :=
  mkHandle (handle_prefix h) (handle_listener_id h) false.
(** [Drop for ListenerHandle] *)
Definition drop_handle (h : ListenerHandle) (ls : InnerListeners) : InnerListeners :=
  if handle_attached h then remove_listener ls (handle_prefix h) (handle_listener_id h)
  else ls.

(** ** Specification

    An event reaches the callbacks of every registered prefix of its key, in
    prefix order, each with the key stripped of that prefix. *)
Definition trigger_spec (ls : InnerListeners) (e : KeyChangeEvent) : list Call :=
  concat ((λ p, match strip_key_prefix e p.1 with
                | Some stripped => call_all p.2 stripped
                | None => []
                end) <$> btree_items (listeners ls)).

(** The key slice of [trigger_event] succeeds. *)
Definition event_key_ok (key : string) : bool :=
  match key with
  | String _ (String b _) => negb (is_continuation b)
  | _ => true
  end.

(** ** Lemmas *)
#[global] Arguments strip_key_prefix : simpl never.
Lemma strip_key_prefix_None e p :
  starts_with p (ev_key e) = false → strip_key_prefix e p = None.
Proof. unfold strip_key_prefix. by intros ->%starts_with_false. Qed.
Lemma strip_key_prefix_empty e : strip_key_prefix e EmptyString = Some e.
Proof. by destruct e. Qed.

Lemma trigger_range_spec range e :
  Forall (λ p, cmp_le p.1 (ev_key e)) range →
  trigger_range range e = concat ((λ p, match strip_key_prefix e p.1 with
    | Some stripped => call_all p.2 stripped | None => [] end) <$> range).
Proof.
  induction 1 as [|[p cbs] range Hle _ IH]; [done|]; simpl in *.
  rewrite bool_decide_false by done. by rewrite IH.
Qed.

(** The entries outside of the range match nothing. *)
Lemma concat_filter_ignored {A B} (P : A → Prop) `{∀ x, Decision (P x)} (f : A → list B) l :
  (∀ x, x ∈ l → ¬ P x → f x = []) →
  concat (f <$> filter P l) = concat (f <$> l).
Proof.
  induction l as [|x l IH]; intros Hf; [done|].
  rewrite filter_cons. case_decide as HP; simpl.
  - f_equal. apply IH. set_solver.
  - rewrite (Hf x) by set_solver. apply IH. set_solver.
Qed.

Lemma str_slice_0_1_Ok key first : str_slice_0_1 key = Ok first →
  ∃ a, first = String a EmptyString ∧ starts_with first key = true.
Proof.
  destruct key as [|a [|b key]]; simpl; [done| |].
  - intros [= <-]. exists a. split; [done|]. apply starts_with_true. by exists EmptyString.
  - destruct (is_continuation b); [done|]. intros [= <-]. exists a. split; [done|].
    apply starts_with_true. by exists (String b key).
Qed.
Lemma str_slice_0_1_ok key : key ≠ EmptyString → event_key_ok key = true →
  ∃ first, str_slice_0_1 key = Ok first.
Proof.
  destruct key as [|a [|b key]]; simpl; [done|eauto|].
  intros _ ?. destruct (is_continuation b); [done|eauto].
Qed.

(** A non-empty prefix of the key lies in the scanned range. *)
Lemma prefix_in_range first key p :
  str_slice_0_1 key = Ok first → p ≠ EmptyString → starts_with p key = true →
  cmp_le first p ∧ cmp_le p key.
Proof.
  intros (a & -> & Hf)%str_slice_0_1_Ok Hp Hs.
  apply starts_with_true in Hf as [r1 E1]. apply starts_with_true in Hs as [r2 E2].
  destruct p as [|a' p]; [done|]. simpl in *. rewrite E2 in E1. injection E1 as <- _.
  split.
  - apply (cmp_le_append (String a' EmptyString) p).
  - rewrite E2. apply (cmp_le_append (String a' p) r2).
Qed.

Lemma empty_not_in_range first key : str_slice_0_1 key = Ok first →
  ¬ cmp_le first EmptyString.
Proof. intros (a & -> & _)%str_slice_0_1_Ok. unfold cmp_le, cmp, string_cmp. simpl. auto. Qed.

(** The smallest entry of the registry is the one of the empty prefix. *)
Lemma btree_items_empty_first {V} (m : gmap string V) v :
  m !! EmptyString = Some v → ∃ l, btree_items m = (EmptyString, v) :: l.
Proof.
  intros Hv. apply elem_of_btree_items in Hv.
  pose proof (btree_items_sorted m) as Hs. pose proof (btree_items_NoDup m) as Hnd.
  destruct (btree_items m) as [|[k w] l]; [set_solver|].
  apply elem_of_cons in Hv as [[= <- <-]|Hv]; [by eexists|].
  apply StronglySorted_inv in Hs as [_ Hs]. rewrite Forall_forall in Hs.
  assert (cmp_le k EmptyString) as Hle by apply (Hs _ Hv).
  assert (k = EmptyString) as -> by (apply (anti_symm cmp_le); [done|apply cmp_le_empty]).
  simpl in Hnd. apply NoDup_cons in Hnd as [Hnin _]. destruct Hnin.
  apply list_elem_of_fmap. by exists (EmptyString, v).
Qed.

(** The range scan computes the specification. *)
(** What a listener registered for [p] is called with. *)
Definition called (e : KeyChangeEvent) (p : string * gmap N BoxedListener) : list Call :=
  match strip_key_prefix e p.1 with Some stripped => call_all p.2 stripped | None => [] end.
(** The listeners for every key come first. *)
Lemma called_empty_first ls e : concat (called e <$> btree_items (listeners ls)) =
  match listeners ls !! EmptyString with Some cbs => call_all cbs e | None => [] end ++
  concat (called e <$> filter (λ p, p.1 ≠ EmptyString) (btree_items (listeners ls))).
Proof.
  destruct (listeners ls !! EmptyString) as [cbs|] eqn:E.
  - destruct (btree_items_empty_first _ _ E) as [l Hl].
    pose proof (btree_items_NoDup (listeners ls)) as Hnd. rewrite Hl in *.
    rewrite filter_cons_False by (simpl; naive_solver).
    rewrite fmap_cons. cbn [concat].
    assert (called e (EmptyString, cbs) = call_all cbs e) as ->
      by (unfold called; cbn [fst snd]; by rewrite strip_key_prefix_empty).
    f_equal. symmetry.
    apply concat_filter_ignored. intros [k w] Hin Hk. simpl in *.
    apply NoDup_cons in Hnd as [Hnin _]. destruct Hnin. apply dec_stable in Hk. subst.
    apply list_elem_of_fmap. by exists (EmptyString, w).
  - simpl. symmetry. apply concat_filter_ignored. intros [k w] Hin Hk.
    apply elem_of_btree_items in Hin. apply dec_stable in Hk. simpl in Hk. congruence.
Qed.
Lemma trigger_event_spec ls e : event_key_ok (ev_key e) = true →
  trigger_event ls e = Ok (trigger_spec ls e).
Proof.
  intros Hok. unfold trigger_event, trigger_spec.
  change (λ p : string * gmap N BoxedListener, match strip_key_prefix e p.1 with
    | Some stripped => call_all p.2 stripped | None => [] end) with (called e). set (f := called e).
  set (items := btree_items (listeners ls)).
  rewrite (called_empty_first ls e : concat (f <$> items) = _). fold items.
  case_bool_decide as Hkey.
  - f_equal. rewrite <-(app_nil_r (match _ with Some _ => _ | None => _ end)) at 1. f_equal.
    assert (∀ l, concat (f <$> filter (λ p, p.1 ≠ EmptyString) l) = []) as ->; [|done].
    intros l. induction l as [|[k w] l IH]; [done|].
    rewrite filter_cons. case_decide as Hk; [|done]. rewrite fmap_cons. cbn [concat].
    rewrite IH, app_nil_r. unfold f, called. cbn [fst snd] in *. rewrite strip_key_prefix_None; [done|].
    rewrite Hkey. by destruct k.
  - destruct (str_slice_0_1_ok _ Hkey Hok) as [first Hfirst]. rewrite Hfirst. simpl.
    f_equal. f_equal. rewrite trigger_range_spec.
    2:{ apply Forall_forall. intros p [Hp _]%list_elem_of_filter. apply Hp. }
    fold f. rewrite <-(concat_filter_ignored
      (λ p, cmp_le first p.1 ∧ cmp_le p.1 (ev_key e)) f
      (filter (λ p, p.1 ≠ EmptyString) items)).
    + f_equal. f_equal. rewrite list_filter_filter. apply list_filter_iff.
      intros [k w]. simpl. split; [|by intros [[? ?] ?]]. intros [H1 H2]. split_and!; try done.
      intros ->. by apply (empty_not_in_range _ _ Hfirst).
    + intros [k w] [Hne _]%list_elem_of_filter Hout. unfold f, called. cbn [fst snd] in *.
      destruct (starts_with k (ev_key e)) eqn:E; [|by rewrite strip_key_prefix_None].
      destruct Hout. by apply prefix_in_range.
Qed.

(** ** Properties *)

(** An event calls exactly the callbacks of the registered prefixes of
    its key, in prefix order, with the key stripped of the prefix; the only
    exception is a key whose first character takes more than one byte, which
    panics, with or without callbacks. *)
Theorem trigger_event_exact ls e :
  trigger_event ls e =
  if event_key_ok (ev_key e) then Ok (trigger_spec ls e)
  else Panic "byte index 1 is not a char boundary".
Proof.
  destruct (event_key_ok (ev_key e)) eqn:E; [by apply trigger_event_spec|].
  unfold trigger_event. destruct (ev_key e) as [|a [|b key]]; [done|done|].
  rewrite bool_decide_eq_false_2 by done. simpl in *.
  by apply negb_false_iff in E as ->.
Qed.
