(* ===== verification/Delta.v ===== *)
(** * Deltas (chitchat/src/delta.rs)

    A [Delta] is what one node sends to update another.  On the wire it is a
    stream of operations ([DeltaOp]); [DeltaBuilder] rebuilds the delta from
    the operations, and [DeltaSerializer] does both at once while it keeps
    the encoded delta under an MTU. *)
From S2P Require Import Prelude Types Serialize Stream.
Open Scope N_scope.

(** ** Data (delta.rs) *)
Record NodeDelta : Type := mkNodeDelta {
  nd_chitchat_id : ChitchatId;
  nd_from_version_excluded : Version;
  nd_last_gc_version : Version;
  nd_key_values : list KeyValueMutation;
  nd_max_version : option Version;
}.
Record Delta : Type := mkDelta {
  node_deltas : list NodeDelta;
  delta_serialized_len : N;
}.
Definition Delta_default : Delta := mkDelta [] 1.

(** [DeltaOp], and [DeltaOpRef] for the borrowed form. *)
Inductive DeltaOp : Type :=
  | OpNode (chitchat_id : ChitchatId) (last_gc_version from_version_excluded : Version)
  | OpKeyValue (kv : KeyValueMutation)
  | OpSetMaxVersion (max_version : Version).

(** [Delta::get_operations] *)
Definition node_operations (nd : NodeDelta) : list DeltaOp :=
  OpNode (nd_chitchat_id nd) (nd_last_gc_version nd) (nd_from_version_excluded nd) ::
  (OpKeyValue <$> nd_key_values nd) ++
  match nd_max_version nd with Some v => [OpSetMaxVersion v] | None => [] end.
Definition operations (nds : list NodeDelta) : list DeltaOp :=
  concat (node_operations <$> nds).
Definition get_operations (d : Delta) : list DeltaOp := operations (node_deltas d).

(** ** Encoding of the operations (delta.rs) *)
Inductive DeltaOpTag : Type := TagNode | TagKeyValue | TagSetMaxVersion.
Definition DeltaOpTag_code (t : DeltaOpTag) : N :=
  match t with TagNode => 0 | TagKeyValue => 1 | TagSetMaxVersion => 2 end.
Definition DeltaOpTag_try_from (tag_byte : N) : res DeltaOpTag :=
  match tag_byte with
  | 0 => Ok TagNode
  | 1 => Ok TagKeyValue
  | 2 => Ok TagSetMaxVersion
  | _ => Err "Unknown tag"
  end.

Definition codec_DeltaOp : codec DeltaOp := {|
  serialize op := match op with
    | OpNode id last_gc from =>
        serialize codec_u8 (DeltaOpTag_code TagNode) ++
        serialize codec_ChitchatId id ++
        serialize codec_u64 last_gc ++ serialize codec_u64 from
    | OpKeyValue kv =>
        serialize codec_u8 (DeltaOpTag_code TagKeyValue) ++
        serialize codec_KeyValueMutation kv
    | OpSetMaxVersion v =>
        serialize codec_u8 (DeltaOpTag_code TagSetMaxVersion) ++
        serialize codec_u64 v
    end;
  serialized_len op := 1 + match op with
    | OpNode id last_gc from =>
        serialized_len codec_ChitchatId id + serialized_len codec_u64 last_gc +
        serialized_len codec_u64 from
    | OpKeyValue kv => serialized_len codec_KeyValueMutation kv
    | OpSetMaxVersion v => serialized_len codec_u64 v
    end;
  deserialize buf :=
    let* (tag_byte, buf) := deserialize codec_u8 buf in
    let* tag := DeltaOpTag_try_from tag_byte in
    match tag with
    | TagNode =>
        let* (id, buf) := deserialize codec_ChitchatId buf in
        let* (last_gc, buf) := deserialize codec_u64 buf in
        let* (from, buf) := deserialize codec_u64 buf in
        Ok (OpNode id last_gc from, buf)
    | TagKeyValue =>
        let* (kv, buf) := deserialize codec_KeyValueMutation buf in
        Ok (OpKeyValue kv, buf)
    | TagSetMaxVersion =>
        let* (v, buf) := deserialize codec_u64 buf in
        Ok (OpSetMaxVersion v, buf)
    end;
|}.

(** ** The builder (delta.rs) *)
Record DeltaBuilder : Type := mkDeltaBuilder {
  existing_nodes : gset ChitchatId;
  db_delta : Delta;
  current_node_delta : option NodeDelta;
}.
Definition DeltaBuilder_default : DeltaBuilder := mkDeltaBuilder ∅ Delta_default None.

(** [DeltaBuilder::flush] *)
Definition db_flush (b : DeltaBuilder) : DeltaBuilder :=
  match current_node_delta b with
  | None => b
  | Some nd =>
      mkDeltaBuilder (existing_nodes b)
        (mkDelta (node_deltas (db_delta b) ++ [nd]) (delta_serialized_len (db_delta b)))
        None
  end.

Definition apply_op (b : DeltaBuilder) (op : DeltaOp) : res DeltaBuilder :=
  match op with
  | OpNode id last_gc from =>
      let b := db_flush b in
      do* ensure "node already in the delta" (bool_decide (id ∉ existing_nodes b)) in
      Ok (mkDeltaBuilder ({[id]} ∪ existing_nodes b) (db_delta b)
            (Some (mkNodeDelta id from last_gc [] None)))
  | OpKeyValue kv =>
      let* nd := with_context "received a key-value op without a node op before."
                   (current_node_delta b) in
      do* match last (nd_key_values nd) with
          | Some previous =>
              ensure "kv version should be increasing" (kv_version previous <? kv_version kv)
          | None => Ok ()
          end in
      Ok (mkDeltaBuilder (existing_nodes b) (db_delta b)
            (Some (mkNodeDelta (nd_chitchat_id nd) (nd_from_version_excluded nd)
                     (nd_last_gc_version nd) (nd_key_values nd ++ [kv]) (nd_max_version nd))))
  | OpSetMaxVersion v =>
      let* nd := with_context "received a key-value op without a node op before."
                   (current_node_delta b) in
      Ok (mkDeltaBuilder (existing_nodes b) (db_delta b)
            (Some (mkNodeDelta (nd_chitchat_id nd) (nd_from_version_excluded nd)
                     (nd_last_gc_version nd) (nd_key_values nd) (Some v))))
  end.

Fixpoint apply_ops (b : DeltaBuilder) (ops : list DeltaOp) : res DeltaBuilder :=
  match ops with
  | [] => Ok b
  | op :: ops => let* b := apply_op b op in apply_ops b ops
  end.

(** [DeltaBuilder::finish] *)
Definition db_finish (b : DeltaBuilder) (len : N) : Delta :=
  mkDelta (node_deltas (db_delta (db_flush b))) len.

(** ** Encoding of a delta (delta.rs) *)
Section delta.
Context `{Zstd}.

Definition Delta_serialize (d : Delta) : res bytes :=
  let* w := append_all codec_DeltaOp (with_block_threshold 16384) (get_operations d) in
  let* payload := finish w in
  do* rassert "assert_eq!(payload.len(), self.serialized_len)"
    (blen payload =? delta_serialized_len d) in
  Ok payload.

Definition Delta_deserialize (buf : bytes) : res (Delta * bytes) :=
  let original_len := blen buf in
  let* (ops, buf) := deserialize_stream codec_DeltaOp buf in
  let consumed_len := original_len - blen buf in
  let* b := apply_ops DeltaBuilder_default ops in
  Ok (db_finish b consumed_len, buf).

(** ** The serializer under an MTU (delta.rs) *)
Record DeltaSerializer : Type := mkDeltaSerializer {
  ds_mtu : N;
  ds_delta_builder : DeltaBuilder;
  ds_writer : CompressedStreamWriter;
}.
Definition BLOCK_THRESHOLD : N := 16384.
Definition with_mtu (mtu : N) : res DeltaSerializer :=
  do* rassert "assert!(mtu >= 100)" (100 <=? mtu) in
  Ok (mkDeltaSerializer mtu DeltaBuilder_default
        (with_block_threshold (N.min BLOCK_THRESHOLD mtu))).

Definition try_add_op (ds : DeltaSerializer) (op : DeltaOp) : res (bool * DeltaSerializer) :=
  let* bound := serialized_len_upperbound_after codec_DeltaOp (ds_writer ds) op in
  if ds_mtu ds <? bound then Ok (false, ds)
  else
    let* w := append codec_DeltaOp (ds_writer ds) op in
    match apply_op (ds_delta_builder ds) op with
    | Ok b => Ok (true, mkDeltaSerializer (ds_mtu ds) b w)
    | _ => Panic "assert!(self.delta_builder.apply_op(delta_op).is_ok())"
    end.
Definition try_set_max_version (ds : DeltaSerializer) (v : Version) :=
  try_add_op ds (OpSetMaxVersion v).
Definition try_add_kv (ds : DeltaSerializer) (key : string) (v : VersionedValue) :=
  try_add_op ds (OpKeyValue (kv_of_vv key v)).
Definition try_add_node (ds : DeltaSerializer) (id : ChitchatId)
    (last_gc_version from_version : Version) :=
  try_add_op ds (OpNode id last_gc_version from_version).
Definition ds_finish (ds : DeltaSerializer) : res Delta :=
  let* buffer := finish (ds_writer ds) in
  Ok (db_finish (ds_delta_builder ds) (blen buffer)).
End delta.

(** ** Well-formed deltas: what a parsed delta satisfies *)
Definition kv_lt (x y : KeyValueMutation) : Prop := kv_version x < kv_version y.
#[export] Instance kv_lt_trans : Transitive kv_lt.
Proof. intros x y z. unfold kv_lt. lia. Qed.
Definition kv_increasing (l : list KeyValueMutation) : Prop := StronglySorted kv_lt l.

Record wf_NodeDelta (nd : NodeDelta) : Prop := {
  wf_nd_id : wf_ChitchatId (nd_chitchat_id nd);
  wf_nd_from : fits 64 (nd_from_version_excluded nd);
  wf_nd_gc : fits 64 (nd_last_gc_version nd);
  wf_nd_kvs : Forall wf_KeyValueMutation (nd_key_values nd);
  wf_nd_increasing : kv_increasing (nd_key_values nd);
  wf_nd_max : ∀ v, nd_max_version nd = Some v → fits 64 v;
}.
Definition wf_nodes (nds : list NodeDelta) : Prop :=
  NoDup (nd_chitchat_id <$> nds) ∧ Forall wf_NodeDelta nds.
Definition wf_DeltaOp (op : DeltaOp) : Prop :=
  match op with
  | OpNode id g f => wf_ChitchatId id ∧ fits 64 g ∧ fits 64 f
  | OpKeyValue kv => wf_KeyValueMutation kv
  | OpSetMaxVersion v => fits 64 v
  end.

(** ** The codec of the operations *)
#[export] Instance codec_DeltaOp_ok : CodecOk codec_DeltaOp wf_DeltaOp.
Proof.
  split.
  - intros []; cbn [codec_DeltaOp serialize serialized_len];
      rewrite !blen_app, !serialize_len, slen_u8; lia.
  - intros [] rest Hwf; cbn [codec_DeltaOp serialize deserialize DeltaOpTag_code] in *;
      rewrite <-!(assoc_L (++)), (roundtrip (c:=codec_u8)) by done;
      cbn [rbind DeltaOpTag_try_from]; unfold wf_DeltaOp in *; destruct_conj;
      repeat (rewrite roundtrip by done; cbn [rbind]); done.
  - intros buf op rest H. cbn [codec_DeltaOp deserialize] in H. res_inv.
    match goal with x : DeltaOpTag |- _ => destruct x end; de_inv;
      (split; [done|de_used]).
Qed.
#[export] Instance codec_DeltaOp_safe : CodecSafe codec_DeltaOp.
Proof. intros buf. cbn [codec_DeltaOp deserialize]. unfold DeltaOpTag_try_from. solve_safe. Qed.
Lemma slen_DeltaOp_pos op : 0 < serialized_len codec_DeltaOp op.
Proof. cbn [codec_DeltaOp serialized_len]. lia. Qed.
#[global] Opaque codec_DeltaOp.

(** ** The builder accepts exactly the operations of well-formed nodes *)
Lemma last_app_1 {A} (l : list A) x : last (l ++ [x]) = Some x.
Proof. apply last_snoc. Qed.
Lemma kv_increasing_snoc l kv : kv_increasing (l ++ [kv]) ↔
  kv_increasing l ∧ ∀ x, x ∈ l → kv_lt x kv.
Proof.
  unfold kv_increasing. induction l as [|y l IH]; simpl.
  - split; [|intros _; by repeat constructor]. intros _. split; [constructor|set_solver].
  - split.
    + intros [Hs Hf]%StronglySorted_inv. apply IH in Hs as [Hs Hlt].
      rewrite Forall_app, Forall_singleton in Hf. destruct Hf as [Hf Hy].
      split; [by constructor|]. intros x [->|Hx]%elem_of_cons; auto.
    + intros [[Hs Hf]%StronglySorted_inv Hlt]. constructor.
      * apply IH. split; [done|]. intros x Hx. apply Hlt. set_solver.
      * rewrite Forall_app, Forall_singleton. split; [done|]. apply Hlt. set_solver.
Qed.
Lemma kv_increasing_last l kv : kv_increasing l →
  match last l with Some p => kv_version p < kv_version kv | None => True end ↔
  kv_increasing (l ++ [kv]).
Proof.
  intros Hl. rewrite kv_increasing_snoc.
  destruct l as [|x l _] using rev_ind; simpl.
  - split; [|done]. intros _. split; [done|set_solver].
  - rewrite last_app_1. apply kv_increasing_snoc in Hl as Hl'. destruct Hl' as [_ Hx].
    split.
    + intros Hlt. split; [done|]. intros y [Hy| ->%list_elem_of_singleton]%elem_of_app.
      * specialize (Hx _ Hy). unfold kv_lt in *. lia.
      * done.
    + intros [_ Hlt]. apply Hlt. set_solver.
Qed.

(** The nodes a builder holds, the current one last. *)
Definition db_nodes (b : DeltaBuilder) : list NodeDelta :=
  node_deltas (db_delta (db_flush b)).
Lemma db_nodes_eq b : db_nodes b =
  node_deltas (db_delta b) ++ match current_node_delta b with Some nd => [nd] | None => [] end.
Proof.
  unfold db_nodes, db_flush. destruct (current_node_delta b); [done|]. by rewrite app_nil_r.
Qed.
Lemma db_finish_nodes b len : db_finish b len = mkDelta (db_nodes b) len.
Proof. done. Qed.

Record builder_inv (b : DeltaBuilder) : Prop := {
  bi_existing : existing_nodes b = list_to_set (nd_chitchat_id <$> db_nodes b);
  bi_nodup : NoDup (nd_chitchat_id <$> db_nodes b);
  bi_increasing : Forall (λ nd, kv_increasing (nd_key_values nd)) (db_nodes b);
}.
Lemma builder_inv_default : builder_inv DeltaBuilder_default.
Proof. split; [done|constructor|constructor]. Qed.

(** What one accepted operation does to the nodes. *)
Definition op_accepted (b : DeltaBuilder) (op : DeltaOp) : Prop :=
  match op with
  | OpNode id _ _ => id ∉ existing_nodes b
  | OpKeyValue kv =>
      ∃ nd, current_node_delta b = Some nd ∧ kv_increasing (nd_key_values nd ++ [kv])
  | OpSetMaxVersion _ => is_Some (current_node_delta b)
  end.
Lemma apply_op_inv b op b' : builder_inv b → apply_op b op = Ok b' →
  op_accepted b op ∧ builder_inv b'.
Proof.
  intros [He Hn Hi]. destruct op as [id g f|kv|v]; cbn [apply_op op_accepted].
  - intros H. res_inv. apply bool_decide_eq_true in H0.
    assert (existing_nodes (db_flush b) = existing_nodes b) as Hex
      by (unfold db_flush; by destruct (current_node_delta b)).
    rewrite Hex in *. split; [done|]. split; simpl; rewrite db_nodes_eq; simpl;
      fold (db_nodes b); rewrite ?fmap_app; simpl.
    + rewrite He, list_to_set_app_L. set_solver.
    + apply NoDup_app. split_and!; [done| |apply NoDup_singleton].
      intros x Hx Hx'. rewrite He, elem_of_list_to_set in H0. set_solver.
    + apply Forall_app. split; [done|]. constructor; [constructor|done].
  - intros H. res_inv. rewrite db_nodes_eq, H0 in *.
    rewrite Forall_app, Forall_singleton in Hi. destruct Hi as [Hi Hx].
    assert (kv_increasing (nd_key_values x ++ [kv])) as Hkv.
    { apply kv_increasing_last; [done|]. destruct (last _); [|done].
      res_inv. by apply N.ltb_lt. }
    split; [eauto|]. split; simpl; rewrite db_nodes_eq; simpl; rewrite fmap_app in *; try done.
    apply Forall_app. split; [done|]. by constructor.
  - intros H. res_inv. rewrite db_nodes_eq, H0 in *. split; [eauto|].
    rewrite Forall_app, Forall_singleton in Hi.
    split; simpl; rewrite db_nodes_eq; simpl; rewrite fmap_app in *; try done.
    apply Forall_app. split; [apply Hi|]. constructor; [apply Hi|done].
Qed.
Lemma apply_op_accepted b op : builder_inv b → op_accepted b op →
  ∃ b', apply_op b op = Ok b'.
Proof.
  intros [He Hn Hi]. destruct op as [id g f|kv|v]; cbn [apply_op op_accepted].
  - intros Hid. rewrite bool_decide_eq_true_2; [simpl; eauto|].
    unfold db_flush. by destruct (current_node_delta b).
  - intros (nd & Hnd & Hkv). rewrite Hnd. cbn [with_context rbind].
    rewrite db_nodes_eq, Hnd, Forall_app, Forall_singleton in Hi. destruct Hi as [_ Hi].
    apply (kv_increasing_last _ kv Hi) in Hkv. destruct (last _); cbn [rbind]; [|eauto].
    apply N.ltb_lt in Hkv as ->. simpl. eauto.
  - intros [nd ->]. simpl. eauto.
Qed.

Lemma apply_ops_app b l k :
  apply_ops b (l ++ k) = (let* b := apply_ops b l in apply_ops b k).
Proof.
  revert b; induction l as [|op l IH]; intros b; simpl; [done|].
  rewrite rbind_assoc. destruct (apply_op b op); simpl; auto.
Qed.
Lemma apply_ops_kvs b nd kvs : builder_inv b → current_node_delta b = Some nd →
  kv_increasing (nd_key_values nd ++ kvs) →
  apply_ops b (OpKeyValue <$> kvs) = Ok (mkDeltaBuilder (existing_nodes b) (db_delta b)
    (Some (mkNodeDelta (nd_chitchat_id nd) (nd_from_version_excluded nd)
       (nd_last_gc_version nd) (nd_key_values nd ++ kvs) (nd_max_version nd)))).
Proof.
  revert b nd; induction kvs as [|kv kvs IH]; intros b nd Hb Hnd Hkvs.
  - simpl. rewrite app_nil_r. destruct b, nd; simpl in *. by subst.
  - rewrite fmap_cons. cbn [apply_ops]. rewrite cons_middle, (assoc_L (++)) in Hkvs.
    assert (kv_increasing (nd_key_values nd ++ [kv])) as Hkv.
    { revert Hkvs. clear. unfold kv_increasing.
      induction (nd_key_values nd ++ [kv]) as [|x l IH]; simpl; [constructor|].
      intros [Hs Hf]%StronglySorted_inv. constructor; [auto|].
      by apply Forall_app in Hf as [Hf _]. }
    destruct (apply_op_accepted b (OpKeyValue kv) Hb) as [b' Hb'].
    { simpl. eauto. }
    destruct (apply_op_inv _ _ _ Hb Hb') as [_ Hinv].
    rewrite Hb'. cbn [rbind apply_op] in *. rewrite Hnd in Hb'. cbn [with_context] in Hb'.
    res_inv. erewrite IH; [|done|reflexivity|done]. simpl.
    by rewrite <-(assoc_L (++)).
Qed.
(** One node's operations, applied to a builder that does not know it. *)
Lemma apply_ops_node b nd : builder_inv b → kv_increasing (nd_key_values nd) →
  nd_chitchat_id nd ∉ existing_nodes b →
  ∃ b', apply_ops b (node_operations nd) = Ok b' ∧ builder_inv b' ∧
    db_nodes b' = db_nodes b ++ [nd].
Proof.
  intros Hb Hkvs Hid. unfold node_operations. cbn [apply_ops].
  destruct (apply_op_accepted b (OpNode (nd_chitchat_id nd) (nd_last_gc_version nd)
    (nd_from_version_excluded nd)) Hb Hid) as [b1 Hb1].
  destruct (apply_op_inv _ _ _ Hb Hb1) as [_ Hinv1].
  rewrite Hb1. cbn [rbind]. cbn [apply_op] in Hb1. res_inv.
  rewrite apply_ops_app.
  erewrite apply_ops_kvs; [|done|reflexivity|done].
  cbn [rbind nd_chitchat_id nd_from_version_excluded nd_last_gc_version nd_key_values
    nd_max_version app existing_nodes db_delta].
  assert (∀ mv, builder_inv (mkDeltaBuilder
    ({[nd_chitchat_id nd]} ∪ existing_nodes (db_flush b)) (db_delta (db_flush b))
    (Some (mkNodeDelta (nd_chitchat_id nd) (nd_from_version_excluded nd)
      (nd_last_gc_version nd) (nd_key_values nd) mv)))) as Hfin.
  { intros mv. destruct Hinv1 as [He Hn Hi]. rewrite db_nodes_eq in *. simpl in *.
    rewrite Forall_app, fmap_app in *. destruct Hi as [Hi _].
    split; rewrite ?db_nodes_eq, ?fmap_app, ?Forall_app; simpl; try done.
    split; [done|]. by constructor. }
  destruct nd as [id from gc kvs mv]; simpl in *.
  destruct mv as [v|]; simpl; eexists; (split; [done|]; split; [apply Hfin|]);
    rewrite db_nodes_eq; simpl; fold (db_nodes b); done.
Qed.
Lemma apply_ops_operations b nds : builder_inv b →
  Forall (λ nd, kv_increasing (nd_key_values nd)) nds →
  NoDup (nd_chitchat_id <$> nds) →
  (∀ nd, nd ∈ nds → nd_chitchat_id nd ∉ existing_nodes b) →
  ∃ b', apply_ops b (operations nds) = Ok b' ∧ builder_inv b' ∧
    db_nodes b' = db_nodes b ++ nds.
Proof.
  revert b; induction nds as [|nd nds IH]; intros b Hb Hinc Hnd Hnew.
  - exists b. rewrite app_nil_r. done.
  - apply Forall_cons in Hinc as [Hnd1 Hinc]. apply NoDup_cons in Hnd as [Hnin Hnd].
    unfold operations. rewrite fmap_cons. cbn [concat]. rewrite apply_ops_app.
    destruct (apply_ops_node b nd) as (b1 & -> & Hb1 & Hn1); [done..|set_solver|].
    cbn [rbind]. destruct (IH b1) as (b2 & Heq & Hb2 & Hn2); [done..| |].
    { intros nd' Hin. rewrite (bi_existing _ Hb1), Hn1, fmap_app, list_to_set_app_L,
        <-(bi_existing _ Hb). simpl. intros [Hx|Hx]%elem_of_union; [set_solver|].
      apply Hnin. assert (nd_chitchat_id nd = nd_chitchat_id nd') as -> by set_solver.
      by apply list_elem_of_fmap_2. }
    exists b2. split; [exact Heq|]. split; [done|].
    by rewrite Hn2, Hn1, <-(assoc_L (++)).
Qed.

Lemma wf_nodes_increasing nds : wf_nodes nds →
  Forall (λ nd, kv_increasing (nd_key_values nd)) nds.
Proof. intros [_ H]. eapply Forall_impl; [exact H|]. intros ? []; done. Qed.
Lemma operations_snoc nds nd : operations (nds ++ [nd]) = operations nds ++ node_operations nd.
Proof.
  unfold operations. rewrite fmap_app, concat_app. simpl. by rewrite app_nil_r.
Qed.
Lemma wf_operations nds : Forall wf_NodeDelta nds → Forall wf_DeltaOp (operations nds).
Proof.
  induction 1 as [|nd nds [] _ IH]; [constructor|].
  unfold operations. rewrite fmap_cons. cbn [concat]. apply Forall_app. split; [|done].
  unfold node_operations. constructor; [done|]. apply Forall_app. split.
  - apply Forall_fmap. eapply Forall_impl; [done|]. done.
  - destruct (nd_max_version nd); repeat constructor. simpl. auto.
Qed.
(** Well-formed operations build well-formed nodes. *)
Lemma apply_op_wf b op b' : builder_inv b → wf_DeltaOp op →
  Forall wf_NodeDelta (db_nodes b) → apply_op b op = Ok b' →
  Forall wf_NodeDelta (db_nodes b').
Proof.
  intros Hb Hop Hwf Happ. destruct (apply_op_inv _ _ _ Hb Happ) as [Hacc _].
  destruct op as [id g f|kv|v]; cbn [apply_op op_accepted wf_DeltaOp] in *.
  - res_inv. rewrite db_nodes_eq. simpl. fold (db_nodes b). apply Forall_app.
    split; [done|]. destruct_conj. apply Forall_singleton. split; simpl; done || constructor.
  - destruct Hacc as (nd & Hnd & Hkv). rewrite Hnd in Happ. cbn [with_context] in Happ. res_inv.
    rewrite db_nodes_eq in *. rewrite Hnd in *. simpl in *.
    apply Forall_app in Hwf as [Hwf [[] _]%Forall_cons]. apply Forall_app. split; [done|].
    apply Forall_singleton. split; simpl; try done.
    apply Forall_app. by rewrite Forall_singleton.
  - destruct Hacc as [nd Hnd]. rewrite Hnd in Happ. cbn [with_context] in Happ. res_inv.
    rewrite db_nodes_eq in *. rewrite Hnd in *. simpl in *.
    apply Forall_app in Hwf as [Hwf [[] _]%Forall_cons]. apply Forall_app. split; [done|].
    apply Forall_singleton. split; simpl; try done. by intros ? [= <-].
Qed.
Lemma apply_ops_wf ops b b' : builder_inv b → Forall wf_DeltaOp ops →
  Forall wf_NodeDelta (db_nodes b) → apply_ops b ops = Ok b' →
  builder_inv b' ∧ Forall wf_NodeDelta (db_nodes b').
Proof.
  intros Hb Hops. revert b Hb. induction Hops as [|op ops Hop _ IH]; intros b Hb Hwf H; simpl in H.
  - res_inv. done.
  - res_inv. apply (IH x); [by eapply apply_op_inv|by eapply apply_op_wf|done].
Qed.

(** ** The serializer *)
Section serializer.
Context `{ZstdOk}.
Implicit Types ds : DeltaSerializer.

Definition small_op (t : N) (op : DeltaOp) : Prop := serialized_len codec_DeltaOp op ≤ t.
Definition ds_operations ds : list DeltaOp := operations (db_nodes (ds_delta_builder ds)).

(** The writer holds exactly the operations of the builder. *)
Record ds_inv ds : Prop := {
  di_mtu : 100 ≤ ds_mtu ds;
  di_writer : append_all codec_DeltaOp
    (with_block_threshold (N.min BLOCK_THRESHOLD (ds_mtu ds))) (ds_operations ds) =
    Ok (ds_writer ds);
  di_builder : builder_inv (ds_delta_builder ds);
  di_wf : Forall wf_NodeDelta (db_nodes (ds_delta_builder ds));
  di_single : ds_mtu ds < BLOCK_THRESHOLD →
    blen (concat (serialize codec_DeltaOp <$> ds_operations ds)) ≤ ds_mtu ds;
  di_bound : Forall (small_op (N.min BLOCK_THRESHOLD (ds_mtu ds))) (ds_operations ds) →
    blen (output (ds_writer ds)) + 4 + blen (uncompressed_block (ds_writer ds)) ≤ ds_mtu ds;
}.

Lemma with_mtu_inv mtu ds : with_mtu mtu = Ok ds → ds_inv ds ∧ ds_mtu ds = mtu ∧
  db_nodes (ds_delta_builder ds) = [].
Proof.
  unfold with_mtu. intros Hw. res_inv.
  match goal with H : (100 <=? mtu) = true |- _ => apply N.leb_le in H as Hm end.
  split; [|done]. split; simpl; rewrite ?blen_nil; try done; try lia.
  apply builder_inv_default.
Qed.

Lemma di_writer_inv ds : ds_inv ds → writer_inv (ds_writer ds)
  (concat (serialize codec_DeltaOp <$> ds_operations ds)) ∧
  block_threshold (ds_writer ds) = N.min BLOCK_THRESHOLD (ds_mtu ds).
Proof.
  intros [Hm Hw _ _ _ _].
  assert (0 < N.min BLOCK_THRESHOLD (ds_mtu ds) ≤ u16_max) as Ht
    by (unfold BLOCK_THRESHOLD, u16_max; lia).
  destruct (append_all_spec codec_DeltaOp (ds_operations ds) _ _
    (with_block_threshold_inv _ Ht) (append_all_items codec_DeltaOp _ _ _ Hw))
    as (w & Hw' & Ht' & Hinv).
  assert (w = ds_writer ds) as -> by congruence. done.
Qed.
Lemma di_unflushed ds : ds_inv ds → ds_mtu ds < BLOCK_THRESHOLD →
  ds_writer ds = mkWriter [] (concat (serialize codec_DeltaOp <$> ds_operations ds))
    (N.min BLOCK_THRESHOLD (ds_mtu ds)).
Proof.
  intros [Hm Hw _ _ Hs _] Hlt. specialize (Hs Hlt).
  pose proof (append_all_items codec_DeltaOp _ _ _ Hw) as Hitems.
  unfold with_block_threshold in Hw. rewrite append_all_single in Hw; [|done|simpl; lia].
  simpl in Hw. by injection Hw.
Qed.

(** The operation keeps the canonical order of [get_operations]. *)
Definition op_canonical (b : DeltaBuilder) (op : DeltaOp) : Prop :=
  match op with
  | OpNode _ _ _ => True
  | _ => ∀ nd, current_node_delta b = Some nd → nd_max_version nd = None
  end.
Lemma apply_op_operations b op b' : builder_inv b → op_canonical b op →
  apply_op b op = Ok b' → operations (db_nodes b') = operations (db_nodes b) ++ [op].
Proof.
  intros Hb Hc Happ. destruct (apply_op_inv _ _ _ Hb Happ) as [Hacc _].
  destruct op as [id g f|kv|v]; cbn [apply_op op_accepted op_canonical] in *.
  - res_inv. rewrite (db_nodes_eq (mkDeltaBuilder _ _ _)). simpl. fold (db_nodes b).
    by rewrite operations_snoc.
  - destruct Hacc as (nd & Hnd & _). rewrite Hnd in Happ. cbn [with_context] in Happ. res_inv.
    rewrite !db_nodes_eq, Hnd. simpl. rewrite !operations_snoc, <-(assoc_L (++)). f_equal.
    unfold node_operations. simpl. rewrite (Hc _ Hnd), !app_nil_r, fmap_app. done.
  - destruct Hacc as [nd Hnd]. rewrite Hnd in Happ. cbn [with_context] in Happ. res_inv.
    rewrite !db_nodes_eq, Hnd. simpl. rewrite !operations_snoc, <-(assoc_L (++)). f_equal.
    unfold node_operations. simpl. by rewrite (Hc _ Hnd), !app_nil_r.
Qed.

Lemma upperbound_after_eq (w : CompressedStreamWriter) op :
  serialized_len_upperbound_after codec_DeltaOp w op = Ok
    (3 + blen (output w) + blen (uncompressed_block w) + serialized_len codec_DeltaOp op + 1 +
     if block_threshold w <? blen (uncompressed_block w) + serialized_len codec_DeltaOp op
     then 3 else 0).
Proof.
  unfold serialized_len_upperbound_after, BLOCK_META_LEN.
  rewrite (proj2 (N.ltb_lt _ _) (slen_DeltaOp_pos op)). cbn [rassert rbind].
  destruct (_ <? _); f_equal; lia.
Qed.

(** One [try_add_*] call: it never panics, a refusal changes nothing, and an
    accepted operation keeps the invariant. *)
Lemma try_add_op_spec ds op : ds_inv ds → wf_DeltaOp op →
  op_accepted (ds_delta_builder ds) op → op_canonical (ds_delta_builder ds) op →
  (ds_mtu ds ≤ u16_max ∨ small_op u16_max op) →
  ∃ ok ds', try_add_op ds op = Ok (ok, ds') ∧ ds_inv ds' ∧ ds_mtu ds' = ds_mtu ds ∧
    if (ok : bool) then apply_op (ds_delta_builder ds) op = Ok (ds_delta_builder ds')
    else ds' = ds.
Proof.
  intros Hinv Hwf Hacc Hcan Hsmall. unfold try_add_op.
  rewrite upperbound_after_eq. cbn [rbind].
  destruct (di_writer_inv _ Hinv) as [Hw Ht].
  match goal with |- context [ds_mtu ds <? ?b] => destruct (N.ltb_spec (ds_mtu ds) b) as [|Hle] end;
    [by exists false, ds|].
  assert (serialized_len codec_DeltaOp op ≤ u16_max) as Hitem
    by (unfold small_op in *; destruct Hsmall; lia).
  destruct (append_spec codec_DeltaOp _ _ op Hw Hitem)
    as (w' & k & Happ & Hw' & Ht' & Hk & Hout & Hpos).
  rewrite Happ. cbn [rbind].
  destruct (apply_op_accepted _ _ (di_builder _ Hinv) Hacc) as [b' Hb']. rewrite Hb'.
  exists true, (mkDeltaSerializer (ds_mtu ds) b' w'). split; [done|]. split; [|done].
  pose proof (apply_op_operations _ _ _ (di_builder _ Hinv) Hcan Hb') as Hops.
  split; cbn [ds_mtu ds_delta_builder ds_writer]; unfold ds_operations;
    cbn [ds_delta_builder]; rewrite ?Hops.
  - apply Hinv.
  - rewrite append_all_app. fold (ds_operations ds). rewrite (di_writer _ Hinv).
    cbn [rbind append_all]. by rewrite Happ.
  - by eapply apply_op_inv; [apply Hinv|].
  - eapply apply_op_wf; [apply Hinv|done|apply Hinv|done].
  - intros Hlt. rewrite fmap_app, concat_app, blen_app. simpl.
    rewrite app_nil_r, serialize_len. fold (ds_operations ds).
    rewrite (di_unflushed _ Hinv Hlt) in Hle. simpl in Hle. lia.
  - rewrite Forall_app, Forall_singleton. intros [_ Hop].
    unfold small_op in Hop. destruct Hw as [[Hp _] [Hunc _]]. rewrite Ht in *.
    revert Hle. destruct (N.ltb_spec (N.min BLOCK_THRESHOLD (ds_mtu ds))
      (blen (uncompressed_block (ds_writer ds)) + serialized_len codec_DeltaOp op)); intros Hle.
    + assert (k < 2) by nia. assert (k = 0 ∨ k = 1) as [-> | ->] by lia; lia.
    + assert (k < 1 ∨ k = 1) as [Hk0|Hk1] by nia;
        [assert (k = 0) as -> by lia; lia|]. subst k. lia.
Qed.

(** ** What the serializer returns is a delta that encodes as announced *)
Lemma ds_finish_encodes ds : ds_inv ds →
  ∃ payload, finish (ds_writer ds) = Ok payload ∧
    (let* w := append_all codec_DeltaOp (with_block_threshold 16384) (ds_operations ds) in
     finish w) = Ok payload ∧
    (Forall (small_op (N.min BLOCK_THRESHOLD (ds_mtu ds))) (ds_operations ds) →
     blen payload ≤ ds_mtu ds).
Proof.
  intros Hinv. destruct (di_writer_inv _ Hinv) as [Hw Ht].
  destruct (finish_spec _ _ Hw) as (payload & Hfin & _ & Hlen).
  exists payload. split; [done|]. split.
  - destruct (N.ltb_spec (ds_mtu ds) BLOCK_THRESHOLD) as [Hlt|Hge].
    + pose proof (di_unflushed _ Hinv Hlt) as Hun.
      pose proof (di_single _ Hinv Hlt) as Hs.
      pose proof (append_all_items codec_DeltaOp _ _ _ (di_writer _ Hinv)) as Hitems.
      unfold with_block_threshold. unfold BLOCK_THRESHOLD in *.
      rewrite append_all_single; [|done|simpl; lia]. cbn [rbind].
      rewrite <-Hfin, Hun. apply finish_single; simpl; lia.
    + pose proof (di_writer _ Hinv) as Hd. unfold BLOCK_THRESHOLD in *.
      rewrite N.min_l in Hd by done. rewrite Hd. done.
  - intros Hsm. pose proof (di_bound _ Hinv Hsm) as Hb.
    destruct (blen (uncompressed_block (ds_writer ds)) =? 0); lia.
Qed.

(** Parsing what [get_operations] writes. *)
Lemma Delta_stream_roundtrip nds payload : wf_nodes nds →
  Forall (small_op u16_max) (operations nds) →
  (let* w := append_all codec_DeltaOp (with_block_threshold 16384) (operations nds) in
   finish w) = Ok payload →
  ∀ rest, Delta_deserialize (payload ++ rest) = Ok (mkDelta nds (blen payload), rest).
Proof.
  intros Hwf Hsmall Hp rest. unfold Delta_deserialize.
  destruct (stream_spec codec_DeltaOp (operations nds) 16384) as (buf & Hbuf & Hread);
    [unfold u16_max; lia| |].
  { apply Forall_and. split; [apply wf_operations, Hwf|].
    eapply Forall_impl; [exact Hsmall|]. intros op ?. split; [apply slen_DeltaOp_pos|done]. }
  rewrite Hp in Hbuf. injection Hbuf as <-. rewrite Hread. cbn [rbind].
  destruct (apply_ops_operations DeltaBuilder_default nds) as (b & Hb & _ & Hn);
    [apply builder_inv_default|by apply wf_nodes_increasing|apply Hwf|set_solver|].
  rewrite Hb. cbn [rbind]. rewrite db_finish_nodes, Hn.
  rewrite blen_app, N.add_sub. done.
Qed.

Lemma Delta_serialize_Ok d payload : Delta_serialize d = Ok payload →
  (let* w := append_all codec_DeltaOp (with_block_threshold 16384) (get_operations d) in
   finish w) = Ok payload ∧ blen payload = delta_serialized_len d.
Proof.
  unfold Delta_serialize. intros Hd. apply rbind_Ok in Hd as (w & Hw & Hd).
  apply rbind_Ok in Hd as (p & Hp & Hd). res_inv. apply N.eqb_eq in H1.
  rewrite Hw. done.
Qed.
Lemma Delta_roundtrip d payload rest : wf_nodes (node_deltas d) →
  Delta_serialize d = Ok payload →
  Delta_deserialize (payload ++ rest) = Ok (d, rest) ∧ blen payload = delta_serialized_len d.
Proof.
  intros Hwf [Hs Hlen]%Delta_serialize_Ok. split; [|done].
  rewrite (Delta_stream_roundtrip (node_deltas d) payload Hwf); [|by apply rbind_Ok in Hs
    as (w & Hw%append_all_items & _)|done].
  rewrite Hlen. by destruct d.
Qed.

Lemma di_items_small ds : ds_inv ds → Forall (small_op u16_max) (ds_operations ds).
Proof. intros Hinv. eapply append_all_items, (di_writer _ Hinv). Qed.

Lemma ds_finish_spec ds : ds_inv ds →
  ∃ d payload, ds_finish ds = Ok d ∧ node_deltas d = db_nodes (ds_delta_builder ds) ∧
    Delta_serialize d = Ok payload ∧ blen payload = delta_serialized_len d ∧
    wf_nodes (node_deltas d) ∧
    (Forall (small_op (N.min BLOCK_THRESHOLD (ds_mtu ds))) (get_operations d) →
     delta_serialized_len d ≤ ds_mtu ds).
Proof.
  intros Hinv. destruct (ds_finish_encodes _ Hinv) as (payload & Hfin & Hser & Hlen).
  exists (mkDelta (db_nodes (ds_delta_builder ds)) (blen payload)), payload.
  unfold ds_finish. rewrite Hfin. cbn [rbind]. split; [done|]. split; [done|].
  split; [|split; [done|split]].
  - unfold Delta_serialize, get_operations. cbn [node_deltas delta_serialized_len].
    apply rbind_Ok in Hser as (w & Hw & Hp). unfold ds_operations in Hw. rewrite Hw.
    cbn [rbind]. rewrite Hp. cbn [rbind]. by rewrite N.eqb_refl.
  - split; [apply (di_builder _ Hinv)|apply (di_wf _ Hinv)].
  - exact Hlen.
Qed.

(** Below the block threshold everything accepted is small. *)
Lemma di_small ds : ds_inv ds → ds_mtu ds < BLOCK_THRESHOLD →
  Forall (small_op (N.min BLOCK_THRESHOLD (ds_mtu ds))) (ds_operations ds).
Proof.
  intros Hinv Hlt. pose proof (di_single _ Hinv Hlt) as Hs. apply Forall_forall.
  intros op Hop. unfold small_op. rewrite N.min_r by lia. etrans; [|exact Hs].
  apply list_elem_of_split in Hop as (l1 & l2 & ->).
  rewrite fmap_app, fmap_cons, concat_app. cbn [concat].
  rewrite !blen_app, <-(serialize_len (c:=codec_DeltaOp)). lia.
Qed.

Lemma read_items_wf {A} (c : codec A) wf `{!CodecOk c wf} fuel cursor items :
  read_items c fuel cursor = Ok items → Forall wf items.
Proof.
  revert cursor items; induction fuel as [|fuel IH]; intros [|b cursor] items Hr;
    cbn [read_items] in Hr; res_inv; try constructor; eauto.
  by eapply (deserialize_sound (c:=c)) in H1 as [? _].
Qed.
(** Whatever bytes arrive, what is parsed is a well-formed delta. *)
Lemma Delta_deserialize_sound buf d rest : Delta_deserialize buf = Ok (d, rest) →
  wf_nodes (node_deltas d).
Proof.
  unfold Delta_deserialize, deserialize_stream. intros Hd.
  apply rbind_Ok in Hd as ([ops buf'] & Hr & Hd). apply rbind_Ok in Hd as (b & Hb & Hd).
  apply rbind_Ok in Hr as ([data buf''] & _ & Hr). apply rbind_Ok in Hr as (items & Hi & Hr).
  simplify_eq. cbn [node_deltas db_finish].
  destruct (apply_ops_wf ops DeltaBuilder_default b) as [Hinv Hwf]; try done.
  - apply builder_inv_default.
  - eapply (read_items_wf codec_DeltaOp wf_DeltaOp), Hi.
  - split; [apply (bi_nodup _ Hinv)|done].
Qed.
End serializer.

Lemma apply_op_safe b op : safe (apply_op b op).
Proof. destruct op; cbn [apply_op]; solve_safe. Qed.
#[export] Hint Resolve apply_op_safe : safe.
Lemma apply_ops_safe b ops : safe (apply_ops b ops).
Proof. revert b; induction ops; intros b; simpl; solve_safe; auto. Qed.
#[export] Hint Resolve apply_ops_safe : safe.
Lemma Delta_deserialize_safe `{Zstd} buf : safe (Delta_deserialize buf).
Proof.
  unfold Delta_deserialize. apply safe_rbind.
  - apply (deserialize_stream_safe codec_DeltaOp), slen_DeltaOp_pos.
  - intros [] _. apply safe_rbind; [auto with safe|done].
Qed.
#[export] Hint Resolve Delta_deserialize_safe : safe.
