(* ===== verification/Message.v ===== *)
(** * Digests and messages (chitchat/src/digest.rs, chitchat/src/message.rs)

    A [Digest] says, for every known node, which heartbeat and versions the
    sender has; a [ChitchatMessage] is one step of the gossip handshake. *)
From S2P Require Import Prelude Types Serialize Stream Delta.
Open Scope N_scope.

(** ** Digests (digest.rs) *)
Record NodeDigest : Type := mkNodeDigest {
  dg_heartbeat : Heartbeat;
  dg_last_gc_version : Version;
  dg_max_version : Version;
}.
#[export] Instance NodeDigest_eq_dec : EqDecision NodeDigest.
Proof. solve_decision. Defined.
Definition NodeDigest_default : NodeDigest := mkNodeDigest 0 0 0.

Definition codec_NodeDigest : codec NodeDigest := {|
  serialize d :=
    serialize codec_Heartbeat (dg_heartbeat d) ++
    serialize codec_u64 (dg_last_gc_version d) ++
    serialize codec_u64 (dg_max_version d);
  serialized_len d :=
    serialized_len codec_Heartbeat (dg_heartbeat d) +
    serialized_len codec_u64 (dg_last_gc_version d) +
    serialized_len codec_u64 (dg_max_version d);
  deserialize buf :=
    let* (heartbeat, buf) := deserialize codec_Heartbeat buf in
    let* (last_gc_version, buf) := deserialize codec_u64 buf in
    let* (max_version, buf) := deserialize codec_u64 buf in
    Ok (mkNodeDigest heartbeat last_gc_version max_version, buf);
|}.
Definition wf_NodeDigest (d : NodeDigest) : Prop :=
  fits 64 (dg_heartbeat d) ∧ fits 64 (dg_last_gc_version d) ∧ fits 64 (dg_max_version d).
#[export] Instance codec_NodeDigest_ok : CodecOk codec_NodeDigest wf_NodeDigest.
Proof.
  split; simpl.
  - intros d. by rewrite !blen_app, !serialize_len, !N.add_assoc.
  - intros d rest (? & ? & ?). de_run. by destruct d.
  - intros buf d rest H. de_inv. split; [done|de_used].
Qed.
#[export] Instance codec_NodeDigest_safe : CodecSafe codec_NodeDigest.
Proof. intros buf. simpl. solve_safe. Qed.
#[global] Opaque codec_NodeDigest.

Abbreviation Digest := (gmap ChitchatId NodeDigest).

(** One entry of the uncompressed digest. *)
Definition codec_digest_entry : codec (ChitchatId * NodeDigest) := {|
  serialize p := serialize codec_ChitchatId p.1 ++ serialize codec_NodeDigest p.2;
  serialized_len p := serialized_len codec_ChitchatId p.1 + serialized_len codec_NodeDigest p.2;
  deserialize buf :=
    let* (chitchat_id, buf) := deserialize codec_ChitchatId buf in
    let* (node_digest, buf) := deserialize codec_NodeDigest buf in
    Ok ((chitchat_id, node_digest), buf);
|}.
Definition wf_digest_entry (p : ChitchatId * NodeDigest) : Prop :=
  wf_ChitchatId p.1 ∧ wf_NodeDigest p.2.
#[export] Instance codec_digest_entry_ok : CodecOk codec_digest_entry wf_digest_entry.
Proof.
  split; simpl.
  - intros d. by rewrite !blen_app, !serialize_len.
  - intros [i d] rest [Hi Hd]. simpl in *. de_run. done.
  - intros buf d rest H. de_inv. split; [done|de_used].
Qed.
#[export] Instance codec_digest_entry_safe : CodecSafe codec_digest_entry.
Proof. intros buf. simpl. solve_safe. Qed.
#[global] Opaque codec_digest_entry.

(** ** Encoding of a digest (digest.rs) *)
Definition digest_serialize_uncompressed (d : Digest) : bytes :=
  serialize codec_u16 (wrap 16 (N.of_nat (size d))) ++
  concat (serialize codec_digest_entry <$> btree_items d).

(** The loop [for _ in 0..num_nodes]. *)
Fixpoint read_digest_entries (n : nat) (buf : bytes) (acc : Digest) : res (Digest * bytes) :=
  match n with
  | O => Ok (acc, buf)
  | S n =>
      let* (entry, buf) := deserialize codec_digest_entry buf in
      read_digest_entries n buf (<[entry.1 := entry.2]> acc)
  end.
Definition digest_deserialize_uncompressed (buf : bytes) : res (Digest * bytes) :=
  let* (num_nodes, buf) := deserialize codec_u16 buf in
  read_digest_entries (N.to_nat num_nodes) buf ∅.

Section digest.
Context `{Zstd}.

Definition digest_serialize (d : Digest) : bytes :=
  let compressed := default [] (encode_all (digest_serialize_uncompressed d)) in
  serialize codec_u32 (wrap 32 (blen compressed)) ++ compressed.
Definition digest_serialized_len (d : Digest) : N := blen (digest_serialize d).

(** [buf.split_at(len)] panics when the announced length exceeds the
    buffer. *)
Definition digest_deserialize (buf : bytes) : res (Digest * bytes) :=
  let* (len, buf) := deserialize codec_u32 buf in
  do* rassert "split_at: mid > len" (len <=? blen buf) in
  let uncompressed := default [] (decode_all (take (N.to_nat len) buf)) in
  let* (digest, _) := digest_deserialize_uncompressed uncompressed in
  Ok (digest, drop (N.to_nat len) buf).
End digest.

(** ** Messages (message.rs) *)
Inductive ChitchatMessage : Type :=
  | Syn (cluster_id : string) (digest : Digest)
  | SynAck (digest : Digest) (delta : Delta)
  | Ack (delta : Delta)
  | BadCluster.

Definition MAGIC_NUMBER : N := 45139.
Inductive ProtocolVersion : Type := V0.
Definition ProtocolVersion_from_code (code : N) : option ProtocolVersion :=
  match code with 0 => Some V0 | _ => None end.
Definition ProtocolVersion_to_code (v : ProtocolVersion) : N := match v with V0 => 0 end.

Inductive MessageType : Type := MTSyn | MTSynAck | MTAck | MTBadCluster.
Definition MessageType_from_code (code : N) : option MessageType :=
  match code with
  | 0 => Some MTSyn
  | 1 => Some MTSynAck
  | 2 => Some MTAck
  | 3 => Some MTBadCluster
  | _ => None
  end.
Definition MessageType_to_code (t : MessageType) : N :=
  match t with MTSyn => 0 | MTSynAck => 1 | MTAck => 2 | MTBadCluster => 3 end.

Section message.
Context `{Zstd}.

Definition message_serialize (m : ChitchatMessage) : res bytes :=
  let header := to_le_bytes 2 MAGIC_NUMBER ++
                serialize codec_u8 (ProtocolVersion_to_code V0) in
  match m with
  | Syn cluster_id digest =>
      Ok (header ++ u8 (MessageType_to_code MTSyn) ::
          digest_serialize digest ++ serialize codec_String cluster_id)
  | SynAck digest delta =>
      let* d := Delta_serialize delta in
      Ok (header ++ u8 (MessageType_to_code MTSynAck) :: digest_serialize digest ++ d)
  | Ack delta =>
      let* d := Delta_serialize delta in
      Ok (header ++ u8 (MessageType_to_code MTAck) :: d)
  | BadCluster => Ok (header ++ [u8 (MessageType_to_code MTBadCluster)])
  end.

Definition message_serialized_len (m : ChitchatMessage) : N :=
  2 + 1 + match m with
  | Syn cluster_id digest =>
      1 + serialized_len codec_String cluster_id + digest_serialized_len digest
  | SynAck digest delta => 1 + digest_serialized_len digest + delta_serialized_len delta
  | Ack delta => 1 + delta_serialized_len delta
  | BadCluster => 1
  end.

Definition message_deserialize (buf : bytes) : res (ChitchatMessage * bytes) :=
  match buf with
  | b0 :: b1 :: b2 :: buf =>
      do* ensure "invalid chitchat magic number"
        (from_le_bytes [b0; b1] =? MAGIC_NUMBER) in
      do* with_context "invalid protocol version"
        (ProtocolVersion_from_code (N_of_ascii b2)) in
      let* message_type := with_context "invalid message type"
        (first ← head buf; MessageType_from_code (N_of_ascii first)) in
      let buf := drop 1 buf in
      match message_type with
      | MTSyn =>
          let* (digest, buf) := digest_deserialize buf in
          let* (cluster_id, buf) := deserialize codec_String buf in
          Ok (Syn cluster_id digest, buf)
      | MTSynAck =>
          let* (digest, buf) := digest_deserialize buf in
          let* (delta, buf) := Delta_deserialize buf in
          Ok (SynAck digest delta, buf)
      | MTAck =>
          let* (delta, buf) := Delta_deserialize buf in
          Ok (Ack delta, buf)
      | MTBadCluster => Ok (BadCluster, buf)
      end
  | _ => Err "buffer too small to store the magic number and the protocol version"
  end.
End message.

(** ** Well-formed digests and messages *)
Section wf.
Context `{Zstd}.

(** The digest fits in its 16-bit count, and zstd manages to encode it. *)
Record wf_Digest (d : Digest) : Prop := {
  wf_digest_entries : map_Forall (λ id nd, wf_ChitchatId id ∧ wf_NodeDigest nd) d;
  wf_digest_size : N.of_nat (size d) ≤ u16_max;
  wf_digest_encodes : ∃ c, encode_all (digest_serialize_uncompressed d) = Some c ∧ fits 32 (blen c);
}.
Definition wf_message (m : ChitchatMessage) : Prop :=
  match m with
  | Syn cluster_id digest => wf_String cluster_id ∧ wf_Digest digest
  | SynAck digest delta => wf_Digest digest ∧ wf_nodes (node_deltas delta)
  | Ack delta => wf_nodes (node_deltas delta)
  | BadCluster => True
  end.
End wf.

(** What the decoder guarantees of a digest. *)
Definition digest_wf (d : Digest) : Prop :=
  map_Forall (λ id nd, wf_ChitchatId id ∧ wf_NodeDigest nd) d.

(** ** Round trips *)
Lemma read_digest_entries_app l rest acc : Forall wf_digest_entry l →
  read_digest_entries (length l) (concat (serialize codec_digest_entry <$> l) ++ rest) acc =
  Ok (foldl (λ m p, <[p.1 := p.2]> m) acc l, rest).
Proof.
  intros Hl; revert acc; induction Hl as [|p l Hp _ IH]; intros acc; [done|].
  rewrite fmap_cons. cbn [concat length read_digest_entries foldl].
  rewrite <-(assoc_L (++)), roundtrip by done. cbn [rbind]. apply IH.
Qed.
Lemma foldl_insert_list_to_map {K V} `{Countable K} (l : list (K * V)) (acc : gmap K V) :
  NoDup l.*1 → (∀ k, k ∈ l.*1 → acc !! k = None) →
  foldl (λ m p, <[p.1 := p.2]> m) acc l = list_to_map l ∪ acc.
Proof.
  revert acc; induction l as [|[k v] l IH]; intros acc Hnd Hnew; cbn [foldl].
  - symmetry. apply (left_id_L ∅ (∪)).
  - rewrite fmap_cons in *. apply NoDup_cons in Hnd as [Hnin Hnd]. rewrite IH; [|done|].
    + rewrite list_to_map_cons. cbn [fst snd].
      rewrite <-insert_union_r, insert_union_l; [done|]. by apply not_elem_of_list_to_map_1.
    + intros k' Hk'. cbn [fst snd]. rewrite lookup_insert_ne by (intros ->; done).
      apply Hnew. set_solver.
Qed.

Section roundtrip.
Context `{ZstdOk}.

Lemma digest_uncompressed_roundtrip d : wf_Digest d →
  digest_deserialize_uncompressed (digest_serialize_uncompressed d) = Ok (d, []).
Proof.
  intros [He Hs _]. unfold digest_deserialize_uncompressed, digest_serialize_uncompressed.
  unfold wrap. rewrite N.mod_small by (unfold u16_max in Hs; change (2 ^ 16) with 65536; lia).
  rewrite roundtrip by (unfold wf_uint, u16_max in *; change (2 ^ 16) with 65536; lia).
  cbn [rbind]. rewrite Nat2N.id, <-length_btree_items.
  rewrite <-(app_nil_r (concat _)), read_digest_entries_app.
  - rewrite foldl_insert_list_to_map.
    + by rewrite (right_id_L ∅ (∪)), btree_items_list_to_map.
    + apply btree_items_NoDup.
    + intros. apply lookup_empty.
  - apply Forall_forall. intros [id nd] Hin%elem_of_btree_items. by apply (He id nd).
Qed.
Lemma digest_roundtrip d rest : wf_Digest d →
  digest_deserialize (digest_serialize d ++ rest) = Ok (d, rest).
Proof.
  intros Hwf. pose proof (wf_digest_encodes _ Hwf) as (c & Hc & Hlen).
  unfold digest_serialize, digest_deserialize. rewrite Hc. cbn [default from_option id].
  unfold wrap. rewrite N.mod_small by done. rewrite <-(assoc_L (++)), roundtrip by done.
  cbn [rbind]. replace (blen c <=? blen (c ++ rest)) with true
    by (symmetry; apply N.leb_le; rewrite blen_app; lia).
  cbn [rassert rbind]. assert (N.to_nat (blen c) = length c) as -> by (unfold blen; lia).
  rewrite take_app_length, drop_app_length, (decode_encode_all _ _ Hc). cbn [default from_option id].
  by rewrite digest_uncompressed_roundtrip.
Qed.

Lemma message_header_read t rest : ∀ buf,
  buf = (to_le_bytes 2 MAGIC_NUMBER ++ serialize codec_u8 (ProtocolVersion_to_code V0)) ++
    u8 (MessageType_to_code t) :: rest →
  ∃ b0 b1 b2, buf = b0 :: b1 :: b2 :: u8 (MessageType_to_code t) :: rest ∧
    from_le_bytes [b0; b1] = MAGIC_NUMBER ∧
    ProtocolVersion_from_code (N_of_ascii b2) = Some V0.
Proof. intros buf ->. eexists _, _, _. split; [reflexivity|]. done. Qed.
Lemma MessageType_code_roundtrip t :
  MessageType_from_code (N_of_ascii (u8 (MessageType_to_code t))) = Some t.
Proof. by destruct t. Qed.

Lemma message_roundtrip m buf rest : wf_message m → message_serialize m = Ok buf →
  message_deserialize (buf ++ rest) = Ok (m, rest).
Proof.
  assert (∀ t body, message_deserialize
    (((to_le_bytes 2 MAGIC_NUMBER ++ serialize codec_u8 (ProtocolVersion_to_code V0)) ++
      u8 (MessageType_to_code t) :: body) ++ rest) =
    match t with
    | MTSyn =>
        let* (digest, buf) := digest_deserialize (body ++ rest) in
        let* (cluster_id, buf) := deserialize codec_String buf in
        Ok (Syn cluster_id digest, buf)
    | MTSynAck =>
        let* (digest, buf) := digest_deserialize (body ++ rest) in
        let* (delta, buf) := Delta_deserialize buf in Ok (SynAck digest delta, buf)
    | MTAck => let* (delta, buf) := Delta_deserialize (body ++ rest) in Ok (Ack delta, buf)
    | MTBadCluster => Ok (BadCluster, body ++ rest)
    end) as Hhead.
  { intros t body. rewrite <-(assoc_L (++)). cbn [app].
    destruct (message_header_read t (body ++ rest) _ eq_refl) as (b0 & b1 & b2 & -> & Hm & Hv).
    unfold message_deserialize. rewrite Hm, Hv. cbn [ensure with_context rbind N.eqb].
    rewrite N.eqb_refl. cbn [ensure rbind head mbind option_bind].
    rewrite MessageType_code_roundtrip. cbn [with_context rbind drop]. by destruct t. }
  intros Hwf Hser. destruct m as [cid dg|dg d|d|]; cbn [message_serialize wf_message] in *.
  - apply Ok_inj in Hser as <-. rewrite Hhead. destruct Hwf as [Hc Hd].
    rewrite <-(assoc_L (++)), digest_roundtrip by done. cbn [rbind]. by rewrite roundtrip.
  - apply rbind_Ok in Hser as (x & Hx & Hser). apply Ok_inj in Hser as <-. rewrite Hhead.
    destruct Hwf as [Hd Hn]. rewrite <-(assoc_L (++)), digest_roundtrip by done. cbn [rbind].
    by destruct (Delta_roundtrip d x rest Hn Hx) as [-> _].
  - apply rbind_Ok in Hser as (x & Hx & Hser). apply Ok_inj in Hser as <-. rewrite Hhead.
    by destruct (Delta_roundtrip d x rest Hwf Hx) as [-> _].
  - apply Ok_inj in Hser as <-. by apply (Hhead MTBadCluster []).
Qed.
Lemma message_serialize_len m buf : message_serialize m = Ok buf →
  blen buf = message_serialized_len m.
Proof.
  intros Hser. destruct m as [cid dg|dg d|d|]; cbn [message_serialize message_serialized_len] in *.
  - apply Ok_inj in Hser as <-. rewrite !blen_app, !blen_cons, blen_to_le_bytes, !blen_app, !serialize_len, slen_u8.
    unfold message_serialized_len, digest_serialized_len. lia.
  - apply rbind_Ok in Hser as (x & [_ Hx]%Delta_serialize_Ok & Hser). apply Ok_inj in Hser as <-.
    rewrite !blen_app, !blen_cons, blen_to_le_bytes, !blen_app, !serialize_len, slen_u8, Hx.
    unfold message_serialized_len, digest_serialized_len. lia.
  - apply rbind_Ok in Hser as (x & [_ Hx]%Delta_serialize_Ok & Hser). apply Ok_inj in Hser as <-.
    rewrite !blen_app, !blen_cons, blen_to_le_bytes, !serialize_len, slen_u8, Hx. unfold message_serialized_len. lia.
  - by apply Ok_inj in Hser as <-.
Qed.
End roundtrip.

(** ** Robustness: what arbitrary bytes do to the parser *)
Section robust.
Context `{Zstd}.

Lemma read_digest_entries_safe n buf acc : safe (read_digest_entries n buf acc).
Proof. revert buf acc; induction n; intros; simpl; solve_safe; auto. Qed.
#[local] Hint Resolve read_digest_entries_safe : safe.

(** The announced length of a digest exceeds the bytes that follow. *)
Definition digest_overrun (buf : bytes) : bool :=
  match deserialize codec_u32 buf with
  | Ok (len, buf) => blen buf <? len
  | _ => false
  end.
Lemma digest_deserialize_panic buf :
  if digest_overrun buf then digest_deserialize buf = Panic "split_at: mid > len"
  else safe (digest_deserialize buf).
Proof.
  unfold digest_overrun, digest_deserialize.
  pose proof (deserialize_safe (c:=codec_u32) buf) as Hs.
  destruct (deserialize codec_u32 buf) as [[len buf']| | |]; cbn [rbind]; try done.
  destruct (N.ltb_spec (blen buf') len).
  - by rewrite (proj2 (N.leb_gt _ _)).
  - rewrite (proj2 (N.leb_le _ _)) by done. cbn [rassert rbind].
    unfold digest_deserialize_uncompressed. solve_safe.
Qed.

(** The datagram announces a digest that overruns it. *)
Definition message_overrun (buf : bytes) : bool :=
  match buf with
  | b0 :: b1 :: b2 :: t :: buf =>
      (from_le_bytes [b0; b1] =? MAGIC_NUMBER) && (N_of_ascii b2 =? 0) &&
      (N_of_ascii t <=? 1) && digest_overrun buf
  | _ => false
  end.
Lemma message_deserialize_safe buf :
  if message_overrun buf then is_panic (message_deserialize buf) = true
  else safe (message_deserialize buf).
Proof.
  destruct buf as [|b0 [|b1 [|b2 [|t buf]]]]; try done.
  - cbn [message_overrun message_deserialize head drop mbind option_bind].
    destruct (_ =? MAGIC_NUMBER); [|done]. by destruct (ProtocolVersion_from_code _).
  - cbn [message_overrun message_deserialize head drop mbind option_bind].
    destruct (_ =? MAGIC_NUMBER); cbn [ensure rbind andb]; [|done].
    destruct (N_of_ascii b2) as [|p]; [|done].
    cbn [ProtocolVersion_from_code with_context rbind N.eqb andb].
    pose proof (digest_deserialize_panic buf) as Hd.
    destruct (N.leb_spec (N_of_ascii t) 1) as [Ht|Ht]; cbn [andb].
    + assert (N_of_ascii t = 0 ∨ N_of_ascii t = 1) as [-> | ->] by lia;
        cbn [MessageType_from_code with_context rbind]; rewrite drop_0;
        (destruct (digest_overrun buf); [by rewrite Hd|]);
        (apply safe_rbind; [done|]); intros [] _; solve_safe.
    + destruct (MessageType_from_code (N_of_ascii t)) as [mt|] eqn:E; [|done].
      cbn [with_context rbind]. assert (mt = MTAck ∨ mt = MTBadCluster) as [-> | ->].
      { destruct (N_of_ascii t) as [|[[]|[]|]]; simplify_eq/=; auto; lia. }
      * solve_safe.
      * done.
Qed.
End robust.

(** ** What is parsed *)
Lemma read_digest_entries_sound n buf acc d rest : digest_wf acc →
  read_digest_entries n buf acc = Ok (d, rest) → digest_wf d.
Proof.
  revert buf acc. induction n as [|n IH]; intros buf acc Hacc Hd; simpl in Hd; [by simplify_eq|].
  apply rbind_Ok in Hd as ([[id nd] buf'] & He & Hd). apply deserialize_sound in He as [[Hid Hnd] _].
  apply IH in Hd; [done|]. by apply map_Forall_insert_2.
Qed.
Section parsed.
Context `{ZstdOk}.
Lemma digest_deserialize_sound buf d rest : digest_deserialize buf = Ok (d, rest) → digest_wf d.
Proof.
  unfold digest_deserialize, digest_deserialize_uncompressed. intros Hd.
  apply rbind_Ok in Hd as ([len ?] & _ & Hd). apply rbind_Ok in Hd as (? & _ & Hd).
  apply rbind_Ok in Hd as ([d' ?] & Hr & Hd). injection Hd as <- _.
  apply rbind_Ok in Hr as ([n ?] & _ & Hr). eapply read_digest_entries_sound, Hr. apply map_Forall_empty.
Qed.
Lemma message_deserialize_sound buf m rest : message_deserialize buf = Ok (m, rest) →
  match m with
  | Syn _ dg => digest_wf dg
  | SynAck dg d => digest_wf dg ∧ wf_nodes (node_deltas d)
  | Ack d => wf_nodes (node_deltas d)
  | BadCluster => True
  end.
Proof.
  intros Hd. destruct buf as [|b0 [|b1 [|b2 buf]]]; try done.
  cbn [message_deserialize] in Hd.
  apply rbind_Ok in Hd as (? & _ & Hd). apply rbind_Ok in Hd as (? & _ & Hd).
  apply rbind_Ok in Hd as (t & _ & Hd). destruct t.
  - apply rbind_Ok in Hd as ([dg ?] & Hdg & Hd). apply rbind_Ok in Hd as ([c ?] & _ & Hd).
    injection Hd as <- _. by eapply digest_deserialize_sound.
  - apply rbind_Ok in Hd as ([dg ?] & Hdg & Hd). apply rbind_Ok in Hd as ([d ?] & Hdl & Hd).
    injection Hd as <- _. split; [by eapply digest_deserialize_sound|by eapply Delta_deserialize_sound].
  - apply rbind_Ok in Hd as ([d ?] & Hdl & Hd).
    injection Hd as <- _. by eapply Delta_deserialize_sound.
  - by injection Hd as <- _.
Qed.
End parsed.

(** ** Properties *)

(** A digest and a delta about one node. *)
Module OneNodeMessage.
Definition id : ChitchatId := mkChitchatId "n" 7 (SockV4 1 2).
Definition digest : Digest := {[ id := mkNodeDigest 4 0 1 ]}.
Definition delta : Delta := mkDelta [mkNodeDelta id 1 0 [mkKeyValueMutation "b" "2" 2 MSet] None] 55.
Definition message : ChitchatMessage := SynAck digest delta.
Definition encoded : bytes :=
  match message_serialize (H:=StoreZstd.store) message with Ok buf => buf | _ => [] end.
Lemma wf : wf_message (H:=StoreZstd.store) message.
Proof.
  split; [split|split].
  - apply map_Forall_singleton.
    split_and!; try split; vm_compute; (reflexivity || discriminate || easy).
  - vm_compute. discriminate.
  - eexists. split; [reflexivity|vm_compute; reflexivity].
  - apply NoDup_singleton.
  - apply Forall_singleton. split.
    + split_and!; try split; vm_compute; (reflexivity || discriminate || easy).
    + vm_compute. reflexivity.
    + vm_compute. reflexivity.
    + apply Forall_singleton. split_and!; try split; vm_compute; (reflexivity || discriminate || easy).
    + by apply SSorted_cons; [constructor|].
    + discriminate.
Qed.
End OneNodeMessage.

(** C8: a message that was encoded is decoded to the same message, from the
    front of any buffer, and takes the announced length.  The message is
    well-formed: strings of at most 65535 bytes, fields of their width, at
    most 65535 entries in a digest that zstd encodes in less than 4 GiB, and
    in a delta distinct nodes whose key-values have increasing versions. *)
Theorem message_roundtrips `{ZstdOk} m buf rest : wf_message m → message_serialize m = Ok buf →
  message_deserialize (buf ++ rest) = Ok (m, rest) ∧ blen buf = message_serialized_len m.
Proof. intros Hm Hb. split; [by apply message_roundtrip|by apply message_serialize_len]. Qed.
Lemma message_roundtrips_witness :
  message_serialize (H:=StoreZstd.store) OneNodeMessage.message = Ok OneNodeMessage.encoded ∧
  blen OneNodeMessage.encoded = message_serialized_len (H:=StoreZstd.store) OneNodeMessage.message ∧
  message_deserialize (H:=StoreZstd.store) (OneNodeMessage.encoded ++ [zero]) =
    Ok (OneNodeMessage.message, [zero]).
Proof.
  assert (message_serialize (H:=StoreZstd.store) OneNodeMessage.message = Ok OneNodeMessage.encoded)
    as Hs by (vm_compute; reflexivity).
  destruct (message_roundtrips (H:=StoreZstd.store) (H0:=StoreZstd.store_ok) OneNodeMessage.message
    OneNodeMessage.encoded [zero] OneNodeMessage.wf Hs) as [Hr Hl].
  split_and!; [exact Hs|exact Hl|exact Hr].
Defined.

(** C39: on every datagram the decoder returns a message or an error, except
    that it panics exactly when the datagram announces a digest longer than
    the bytes that follow. *)
Theorem decoder_robust `{Zstd} buf :
  if message_overrun buf then is_panic (message_deserialize buf) = true
  else safe (message_deserialize buf).
Proof. apply message_deserialize_safe. Qed.

(** Eight bytes of a remote peer are enough. *)
Theorem malformed_syn_panics `{Zstd} :
  is_panic (message_deserialize (u8 83 :: u8 176 :: u8 0 :: u8 0 :: [u8 255; u8 255; u8 255; u8 255])) = true.
Proof. vm_compute. reflexivity. Qed.

(** C38: whatever bytes a message is parsed from, its digest has well-formed
    nodes and versions; the nodes of its delta are distinct, their fields are
    well-formed, and their key-values have increasing versions. *)
Theorem parsed_message_wf `{ZstdOk} buf m rest : message_deserialize buf = Ok (m, rest) →
  match m with
  | Syn _ dg => digest_wf dg
  | SynAck dg d => digest_wf dg ∧ wf_nodes (node_deltas d)
  | Ack d => wf_nodes (node_deltas d)
  | BadCluster => True
  end.
Proof. apply message_deserialize_sound. Qed.
Lemma parsed_message_wf_witness :
  digest_wf OneNodeMessage.digest ∧ wf_nodes (node_deltas OneNodeMessage.delta).
Proof.
  apply (parsed_message_wf (H:=StoreZstd.store) (H0:=StoreZstd.store_ok)
    OneNodeMessage.encoded OneNodeMessage.message []).
  vm_compute. reflexivity.
Defined.
