(* ===== verification/NodeState.v ===== *)
(** * The state of one node (chitchat/src/state.rs)

    A [NodeState] holds the versioned key-values that a node published, as
    far as this process knows them.  Operations take the shared registry of
    listeners as an argument and return the callbacks they called. *)
From S2P Require Import Prelude Types Listener Delta Message.
Open Scope N_scope.

(** ** Data (state.rs) *)
Record NodeState : Type := mkNodeState {
  chitchat_id : ChitchatId;
  heartbeat : Heartbeat;
  key_values : gmap string VersionedValue;
  max_version : Version;
  last_gc_version : Version;
}.
Definition NodeState_new (id : ChitchatId) : NodeState := mkNodeState id 0 ∅ 0 0.

Definition set_key_values (kvs : gmap string VersionedValue) (ns : NodeState) : NodeState :=
  mkNodeState (chitchat_id ns) (heartbeat ns) kvs (max_version ns) (last_gc_version ns).
Definition set_heartbeat (h : Heartbeat) (ns : NodeState) : NodeState :=
  mkNodeState (chitchat_id ns) h (key_values ns) (max_version ns) (last_gc_version ns).
Definition set_max_version (v : Version) (ns : NodeState) : NodeState :=
  mkNodeState (chitchat_id ns) (heartbeat ns) (key_values ns) v (last_gc_version ns).
Definition set_last_gc_version (v : Version) (ns : NodeState) : NodeState :=
  mkNodeState (chitchat_id ns) (heartbeat ns) (key_values ns) (max_version ns) v.

(** ** Readers (state.rs) *)
Definition key_values_including_deleted (ns : NodeState) : list (string * VersionedValue) :=
  btree_items (key_values ns).
Definition live_key_values (ns : NodeState) : list (string * string) :=
  (λ p, (p.1, vv_value p.2)) <$>
    filter (λ p, is_deleted p.2 = false) (key_values_including_deleted ns).
Definition num_key_values (ns : NodeState) : N := blen (live_key_values ns).
Definition get_versioned (ns : NodeState) (key : string) : option VersionedValue :=
  key_values ns !! key.
Definition get (ns : NodeState) (key : string) : option string :=
  versioned_value ← get_versioned ns key;
  if is_deleted versioned_value then None else Some (vv_value versioned_value).
Definition contains_key (ns : NodeState) (key : string) : bool :=
  match get ns key with Some _ => true | None => false end.
Definition digest (ns : NodeState) : NodeDigest :=
  mkNodeDigest (heartbeat ns) (last_gc_version ns) (max_version ns).

Fixpoint take_while {A} (f : A → bool) (l : list A) : list A :=
  match l with
  | [] => []
  | x :: l => if f x then x :: take_while f l else []
  end.
(** The range starts at the prefix and is unbounded above. *)
Definition iter_prefix (ns : NodeState) (prefix : string) : list (string * VersionedValue) :=
  filter (λ p, is_deleted p.2 = false)
    (take_while (λ p, starts_with prefix p.1)
       (filter (λ p, cmp_le prefix p.1) (btree_items (key_values ns)))).

(** Entries above a version, tombstones included (state.rs). *)
Definition stale_key_values (ns : NodeState) (floor_version : Version)
    : list (string * VersionedValue) :=
  filter (λ p, floor_version < vv_version p.2) (key_values_including_deleted ns).

(** ** Storing one entry (state.rs) *)
Definition set_versioned_value (ls : InnerListeners) (ns : NodeState) (key : string)
    (update : VersionedValue) : res (NodeState * list Call) :=
  let event := mkEvent key (vv_value update) (chitchat_id ns) in
  let ns := set_max_version (N.max (vv_version update) (max_version ns)) ns in
  let obsolete :=
    match key_values ns !! key with
    | Some occupied => vv_version update <=? vv_version occupied
    | None => false
    end in
  if obsolete then Ok (ns, [])
  else
    let ns := set_key_values (<[key := update]> (key_values ns)) ns in
    if is_deleted update then Ok (ns, [])
    else
      let* calls := trigger_event ls event in
      Ok (ns, calls).

Definition set_with_version (ls : InnerListeners) (ns : NodeState) (key value : string)
    (version : Version) : res (NodeState * list Call) :=
  do* rassert "assert!(version > self.max_version)" (max_version ns <? version) in
  set_versioned_value ls ns key (mkVersionedValue value version Set_).

(** ** The owner's updates (state.rs) *)
Definition set (ls : InnerListeners) (ns : NodeState) (key value : string)
    : res (NodeState * list Call) :=
  match get_versioned ns key with
  | Some previous =>
      if bool_decide (vv_value previous = value ∧ vv_status previous = Set_) then Ok (ns, [])
      else set_with_version ls ns key value (wrap64 (max_version ns + 1))
  | None => set_with_version ls ns key value (wrap64 (max_version ns + 1))
  end.

Definition is_delete_after_ttl (s : DeletionStatus) : bool :=
  match s with DeleteAfterTtl _ => true | _ => false end.
Definition set_with_ttl (ls : InnerListeners) (ns : NodeState) (key value : string)
    (now : Instant) : res (NodeState * list Call) :=
  let unchanged :=
    match get_versioned ns key with
    | Some previous =>
        bool_decide (vv_value previous = value) && is_delete_after_ttl (vv_status previous)
    | None => false
    end in
  if unchanged then Ok (ns, [])
  else
    set_versioned_value ls ns key
      (mkVersionedValue value (wrap64 (max_version ns + 1)) (DeleteAfterTtl now)).

Definition delete_ (ns : NodeState) (key : string) (now : Instant) : NodeState :=
  match key_values ns !! key with
  | None => ns
  | Some _ =>
      let ns := set_max_version (wrap64 (max_version ns + 1)) ns in
      set_key_values (<[key := mkVersionedValue "" (max_version ns) (into_status MDelete now)]>
                        (key_values ns)) ns
  end.
Definition delete_after_ttl (ns : NodeState) (key : string) (now : Instant) : NodeState :=
  match key_values ns !! key with
  | None => ns
  | Some versioned_value =>
      let ns := set_max_version (wrap64 (max_version ns + 1)) ns in
      set_key_values (<[key := mkVersionedValue (vv_value versioned_value) (max_version ns)
                                 (into_status MDeleteAfterTtl now)]> (key_values ns)) ns
  end.
Definition remove_key_value_internal (ns : NodeState) (key : string) : NodeState :=
  set_key_values (delete key (key_values ns)) ns.

(** ** Heartbeats (state.rs) *)
Definition inc_heartbeat (ns : NodeState) : NodeState :=
  set_heartbeat (Heartbeat_inc (heartbeat ns)) ns.
Definition try_set_heartbeat (ns : NodeState) (new_value : Heartbeat) : bool * NodeState :=
  if heartbeat ns =? 0 then (false, set_heartbeat new_value ns)
  else if heartbeat ns <? new_value then (true, set_heartbeat new_value ns)
  else (false, ns).

(** ** Garbage collection (state.rs) *)
Definition gc_expired (now : Instant) (grace_period : Duration) (v : VersionedValue) : bool :=
  match time_of_start_scheduled_for_deletion (vv_status v) with
  | None => false
  | Some start => negb (now <? start + grace_period)
  end.
Definition gc_keys_marked_for_deletion (ns : NodeState) (grace_period : Duration)
    (now : Instant) : NodeState :=
  let removed := filter (λ p, gc_expired now grace_period p.2 = true)
                        (btree_items (key_values ns)) in
  let kept := filter (λ p, gc_expired now grace_period p.2 = false) (key_values ns) in
  set_last_gc_version
    (foldl (λ acc p, N.max (vv_version p.2) acc) (last_gc_version ns) removed)
    (set_key_values kept ns).

(** ** Applying a delta (state.rs) *)
Definition delta_max_version (nd : NodeDelta) : option Version :=
  match kv_version <$> nd_key_values nd with
  | [] => nd_max_version nd
  | v :: vs => Some (foldl N.max v vs)
  end.

(** [self.max_version > .. && ..] in the order of the code: the state is
    returned unchanged with [false], unchanged with [true], or reset. *)
Definition prepare_apply_delta (ns : NodeState) (nd : NodeDelta) : bool * NodeState :=
  if max_version ns <? nd_from_version_excluded nd then (false, ns)
  else if nd_last_gc_version nd <? max_version ns then (true, ns)
  else if nd_last_gc_version nd <=? last_gc_version ns then (true, ns)
  else
    (* a warning is logged here when [from_version_excluded > 0] *)
    match delta_max_version nd with
    | None => (false, ns)
    | Some dmax =>
        if (nd_last_gc_version nd <? last_gc_version ns) ||
           ((nd_last_gc_version nd =? last_gc_version ns) && (dmax <=? max_version ns))
        then (false, ns)
        else
          let fresh := NodeState_new (nd_chitchat_id nd) in
          let fresh :=
            match nd_max_version nd with
            | Some mv => match nd_key_values nd with [] => set_max_version mv fresh | _ => fresh end
            | None => fresh
            end in
          (true, set_last_gc_version (nd_last_gc_version nd) fresh)
    end.

(** The loop of [apply_delta]; [cur] is [current_max_version]. *)
Fixpoint apply_kvs (ls : InnerListeners) (now : Instant) (cur : Version)
    (ns : NodeState) (kvs : list KeyValueMutation) : res (NodeState * list Call) :=
  match kvs with
  | [] => Ok (ns, [])
  | kv :: kvs =>
      if kv_version kv <=? cur then apply_kvs ls now cur ns kvs
      else if scheduled_for_deletion (kv_status kv) && (kv_version kv <=? last_gc_version ns)
      then apply_kvs ls now cur ns kvs
      else
        let* (ns, calls) := set_versioned_value ls ns (kv_key kv) (vv_of_kv kv now) in
        let* (ns, calls') := apply_kvs ls now cur ns kvs in
        Ok (ns, calls ++ calls')
  end.
Definition apply_delta (ls : InnerListeners) (ns : NodeState) (nd : NodeDelta)
    (now : Instant) : res (NodeState * list Call) :=
  let '(applicable, ns) := prepare_apply_delta ns nd in
  if applicable then apply_kvs ls now (max_version ns) ns (nd_key_values nd)
  else Ok (ns, []).

(** ** The invariant of a node state

    Every entry has a positive version of at most [max_version], and no two
    entries share a version (each version is one update of the owner). *)
Record ns_inv (ns : NodeState) : Prop := {
  ni_bound : ∀ k v, key_values ns !! k = Some v → 0 < vv_version v ≤ max_version ns;
  ni_distinct : ∀ k1 k2 v1 v2, key_values ns !! k1 = Some v1 → key_values ns !! k2 = Some v2 →
    vv_version v1 = vv_version v2 → k1 = k2;
}.
Lemma ns_inv_new id : ns_inv (NodeState_new id).
Proof. split; simpl; intros *; by rewrite lookup_empty. Qed.

(** Storing an entry with a version above everything known. *)
Definition store (ns : NodeState) (key : string) (v : VersionedValue) : NodeState :=
  set_max_version (vv_version v) (set_key_values (<[key := v]> (key_values ns)) ns).
Lemma store_inv ns key v : ns_inv ns → max_version ns < vv_version v →
  ns_inv (store ns key v).
Proof.
  intros [Hb Hd] Hv. split; simpl.
  - intros k w. rewrite lookup_insert_Some. intros [[_ <-]|[_ Hk]]; [lia|].
    apply Hb in Hk. lia.
  - intros k1 k2 v1 v2. rewrite !lookup_insert_Some.
    intros [[<- <-]|[Hn1 H1]] [[<- <-]|[Hn2 H2]] Heq; try done.
    + apply Hb in H2. lia.
    + apply Hb in H1. lia.
    + by eapply Hd.
Qed.
(** Keeping some of the entries. *)
Lemma ns_inv_subset ns kvs g : ns_inv ns → kvs ⊆ key_values ns →
  ns_inv (set_last_gc_version g (set_key_values kvs ns)).
Proof.
  intros [Hb Hd] Hsub. split; simpl.
  - intros k v Hk. eapply Hb, lookup_weaken; eauto.
  - intros k1 k2 v1 v2 H1 H2. eapply Hd; eapply lookup_weaken; eauto.
Qed.

(** The events that the listeners can take. *)
Definition calls_of (ls : InnerListeners) (ns : NodeState) (key : string)
    (v : VersionedValue) : list Call :=
  if is_deleted v then [] else trigger_spec ls (mkEvent key (vv_value v) (chitchat_id ns)).

Lemma set_versioned_value_fresh ls ns key v : ns_inv ns → max_version ns < vv_version v →
  event_key_ok key = true →
  set_versioned_value ls ns key v = Ok (store ns key v, calls_of ls ns key v).
Proof.
  intros Hinv Hv Hkey. unfold set_versioned_value, calls_of. simpl.
  assert (match key_values ns !! key with
    Some occupied => vv_version v <=? vv_version occupied | None => false end = false) as ->.
  { destruct (key_values ns !! key) as [w|] eqn:E; [|done].
    apply (ni_bound _ Hinv) in E. lia. }
  rewrite N.max_l by lia. destruct (is_deleted v); [done|].
  rewrite trigger_event_spec by done. done.
Qed.
(** The state it returns, whatever the listeners do. *)
Lemma set_versioned_value_state ls ns key v r : ns_inv ns → max_version ns < vv_version v →
  set_versioned_value ls ns key v = Ok r → r.1 = store ns key v.
Proof.
  intros Hinv Hv. unfold set_versioned_value. simpl.
  assert (match key_values ns !! key with
    Some occupied => vv_version v <=? vv_version occupied | None => false end = false) as ->.
  { destruct (key_values ns !! key) as [w|] eqn:E; [|done].
    apply (ni_bound _ Hinv) in E. lia. }
  rewrite N.max_l by lia. destruct (is_deleted v); intros Hr; [by injection Hr as <-|].
  apply rbind_Ok in Hr as (calls & _ & Hr). by injection Hr as <-.
Qed.

(** ** The owner's updates *)
Section owner.
Context (ls : InnerListeners) (ns : NodeState) (key : string).
Hypothesis Hinv : ns_inv ns.
Hypothesis Hroom : max_version ns < u64_max.

Lemma next_version : wrap64 (max_version ns + 1) = max_version ns + 1.
Proof. unfold wrap64, wrap, u64_max in *. rewrite N.mod_small; [done|]. lia. Qed.

Definition set_unchanged (value : string) : Prop :=
  ∃ v, key_values ns !! key = Some v ∧ vv_value v = value ∧ vv_status v = Set_.
Lemma set_cases value r : set ls ns key value = Ok r →
  (set_unchanged value ∧ r = (ns, [])) ∨
  (¬ set_unchanged value ∧
   r.1 = store ns key (mkVersionedValue value (max_version ns + 1) Set_)).
Proof.
  assert (∀ r, set_with_version ls ns key value (wrap64 (max_version ns + 1)) = Ok r →
    r.1 = store ns key (mkVersionedValue value (max_version ns + 1) Set_)) as Hset.
  { intros r' Hr. unfold set_with_version in Hr. rewrite next_version in Hr.
    apply rbind_Ok in Hr as (u & _ & Hr).
    eapply set_versioned_value_state; [| |exact Hr]; [done|simpl; lia]. }
  unfold set, get_versioned. destruct (key_values ns !! key) as [v|] eqn:E.
  - case_bool_decide as Hv.
    + intros [= <-]. left. split; [|done]. exists v. tauto.
    + intros Hr. right. split; [|by apply Hset]. intros (v' & Hv' & ?). naive_solver.
  - intros Hr. right. split; [|by apply Hset]. intros (v' & Hv' & ?). congruence.
Qed.
(** It does not panic on a key that the listeners accept. *)
Lemma set_total value : event_key_ok key = true → is_ok (set ls ns key value) = true.
Proof.
  intros Hkey.
  assert (is_ok (set_with_version ls ns key value (wrap64 (max_version ns + 1))) = true).
  { unfold set_with_version. rewrite next_version.
    rewrite (proj2 (N.ltb_lt _ _)) by lia. cbn [rassert rbind].
    rewrite set_versioned_value_fresh; [done|done|simpl; lia|done]. }
  unfold set. destruct (get_versioned ns key); [|done]. by case_bool_decide.
Qed.

Definition ttl_unchanged (value : string) : Prop :=
  ∃ v, key_values ns !! key = Some v ∧ vv_value v = value ∧
       is_delete_after_ttl (vv_status v) = true.
Lemma set_with_ttl_cases value now r : set_with_ttl ls ns key value now = Ok r →
  (ttl_unchanged value ∧ r = (ns, [])) ∨
  (¬ ttl_unchanged value ∧
   r.1 = store ns key (mkVersionedValue value (max_version ns + 1) (DeleteAfterTtl now))).
Proof.
  unfold set_with_ttl, get_versioned. rewrite next_version.
  match goal with |- context [if ?b then _ else _] => set (u := b) end.
  assert (u = true ↔ ttl_unchanged value) as Hu.
  { subst u. unfold ttl_unchanged. destruct (key_values ns !! key) as [v|].
    - rewrite andb_true_iff, bool_decide_eq_true. naive_solver.
    - split; [done|]. by intros (v' & ? & _). }
  destruct u.
  - intros [= <-]. left. split; [by apply Hu|done].
  - intros Hr. right. split; [intros ?%Hu; done|].
    eapply set_versioned_value_state; [| |exact Hr]; [done|simpl; lia].
Qed.

Lemma delete_cases now : delete_ ns key now =
  match key_values ns !! key with
  | None => ns
  | Some _ => store ns key (mkVersionedValue "" (max_version ns + 1) (Deleted now))
  end.
Proof. unfold delete_. rewrite next_version. by destruct (key_values ns !! key). Qed.
Lemma delete_after_ttl_cases now : delete_after_ttl ns key now =
  match key_values ns !! key with
  | None => ns
  | Some v => store ns key (mkVersionedValue (vv_value v) (max_version ns + 1) (DeleteAfterTtl now))
  end.
Proof. unfold delete_after_ttl. rewrite next_version. by destruct (key_values ns !! key). Qed.
End owner.

(** ** Garbage collection *)
Section gc.
Context (ns : NodeState) (grace : Duration) (now : Instant).
Let ns' := gc_keys_marked_for_deletion ns grace now.

Lemma gc_lookup k v : key_values ns' !! k = Some v ↔
  key_values ns !! k = Some v ∧ gc_expired now grace v = false.
Proof. subst ns'. simpl. apply map_lookup_filter_Some. Qed.
Lemma gc_subset : key_values ns' ⊆ key_values ns.
Proof. apply map_subseteq_spec. intros k v Hk%gc_lookup. apply Hk. Qed.
Lemma gc_max_version : max_version ns' = max_version ns. Proof. done. Qed.

Lemma foldl_max_ge {A} (f : A → N) l acc : acc ≤ foldl (λ acc p, N.max (f p) acc) acc l ∧
  (∀ x, x ∈ l → f x ≤ foldl (λ acc p, N.max (f p) acc) acc l).
Proof.
  revert acc; induction l as [|x l IH]; intros acc; simpl.
  - split; [lia|set_solver].
  - destruct (IH (N.max (f x) acc)) as [H1 H2]. split; [lia|].
    intros y [->|Hy]%elem_of_cons; [lia|auto].
Qed.
Lemma foldl_max_cases {A} (f : A → N) l acc :
  foldl (λ acc p, N.max (f p) acc) acc l = acc ∨
  ∃ x, x ∈ l ∧ foldl (λ acc p, N.max (f p) acc) acc l = f x.
Proof.
  revert acc; induction l as [|x l IH]; intros acc; simpl; [auto|].
  destruct (IH (N.max (f x) acc)) as [->|(y & Hy & ->)].
  - destruct (N.max_spec (f x) acc) as [[_ ->]|[_ ->]]; [auto|]. right. exists x. set_solver.
  - right. exists y. set_solver.
Qed.
Lemma gc_last_gc_ge : last_gc_version ns ≤ last_gc_version ns'.
Proof. apply (foldl_max_ge (λ p, vv_version p.2)). Qed.
Lemma gc_removed_le k v : key_values ns !! k = Some v → gc_expired now grace v = true →
  vv_version v ≤ last_gc_version ns'.
Proof.
  intros Hk He. apply (proj2 (foldl_max_ge (λ p, vv_version p.2) _ _) (k, v)).
  apply list_elem_of_filter. split; [done|]. by apply elem_of_btree_items.
Qed.
(** The watermark moves only to the version of a removed entry. *)
Lemma gc_last_gc_cases : last_gc_version ns' = last_gc_version ns ∨
  ∃ k v, key_values ns !! k = Some v ∧ gc_expired now grace v = true ∧
    last_gc_version ns' = vv_version v.
Proof.
  destruct (foldl_max_cases (λ p : string * VersionedValue, vv_version p.2)
    (filter (λ p, gc_expired now grace p.2 = true) (btree_items (key_values ns)))
    (last_gc_version ns)) as [H|((k & v) & Hin & H)]; [left; exact H|right].
  apply list_elem_of_filter in Hin as [He Hin]. apply elem_of_btree_items in Hin.
  exists k, v. done.
Qed.
Lemma gc_inv : ns_inv ns → ns_inv ns'.
Proof. intros Hinv. apply ns_inv_subset; [done|]. apply gc_subset. Qed.
(** Only entries scheduled for deletion are collected. *)
Lemma gc_expired_scheduled v : gc_expired now grace v = true →
  scheduled_for_deletion (status_mutation (vv_status v)) = true.
Proof. unfold gc_expired. by destruct (vv_status v). Qed.
End gc.

(** ** Prefix scans *)
Lemma take_while_filter {A} (f : A → bool) (R : relation A) l :
  StronglySorted R l → (∀ x y, x ∈ l → y ∈ l → R x y → f y = true → f x = true) →
  take_while f l = filter (λ x, f x = true) l.
Proof.
  intros Hs. induction Hs as [|x l Hs IH Hall]; intros Hdown; [done|].
  rewrite filter_cons. simpl. destruct (f x) eqn:E.
  - rewrite decide_True, IH; [done| |done]. intros y z ??. apply Hdown; by right.
  - rewrite decide_False by congruence. symmetry.
    assert (∀ y, y ∈ l → f y = false) as Hl.
    { intros y Hy. apply not_true_iff_false. intros Hf.
      rewrite Forall_forall in Hall. apply not_true_iff_false in E. apply E.
      apply (Hdown x y); [left|by right|by apply Hall|done]. }
    clear -Hl. induction l as [|y l IH]; [done|].
    rewrite filter_cons, decide_False by (rewrite (Hl y) by left; done).
    apply IH. intros z Hz. apply Hl. by right.
Qed.
Lemma StronglySorted_filter {A} (R : relation A) (P : A → Prop) `{∀ x, Decision (P x)} l :
  StronglySorted R l → StronglySorted R (filter P l).
Proof.
  induction 1 as [|x l Hs IH Hall]; [constructor|].
  rewrite filter_cons. case_decide; [|done]. constructor; [done|].
  rewrite Forall_forall in *. intros y [_ Hy]%list_elem_of_filter. auto.
Qed.
Lemma iter_prefix_spec ns prefix :
  iter_prefix ns prefix =
  filter (λ p, is_deleted p.2 = false)
    (filter (λ p, starts_with prefix p.1 = true) (btree_items (key_values ns))).
Proof.
  unfold iter_prefix. f_equal.
  rewrite (take_while_filter _ key_le).
  - rewrite list_filter_filter. apply list_filter_iff. intros [k v]. simpl.
    split; [tauto|]. intros Hs. split; [done|].
    apply starts_with_true in Hs as [r ->]. apply cmp_le_append.
  - apply StronglySorted_filter, btree_items_sorted.
  - intros [k v] [k' v'] [Hk _]%list_elem_of_filter _ Hle Hs. simpl in *.
    apply starts_with_true in Hs as [r ->]. by eapply cmp_le_between.
Qed.

(** ** Applying key-values *)
Definition kv_applies (ns : NodeState) (cur : Version) (kv : KeyValueMutation) : bool :=
  (cur <? kv_version kv) &&
  negb (scheduled_for_deletion (kv_status kv) && (kv_version kv <=? last_gc_version ns)).
Definition store_kv (now : Instant) (ns : NodeState) (kv : KeyValueMutation) : NodeState :=
  store ns (kv_key kv) (vv_of_kv kv now).
Definition accepted_kvs (ns : NodeState) (cur : Version) (kvs : list KeyValueMutation) :=
  filter (λ kv, kv_applies ns cur kv = true) kvs.

Lemma kv_increasing_cons kv kvs : kv_increasing (kv :: kvs) →
  kv_increasing kvs ∧ Forall (kv_lt kv) kvs.
Proof. apply StronglySorted_inv. Qed.
Lemma kv_increasing_filter P `{∀ x, Decision (P x)} kvs :
  kv_increasing kvs → kv_increasing (filter P kvs).
Proof. apply StronglySorted_filter. Qed.

Lemma apply_kvs_cons ls now cur ns kv kvs :
  apply_kvs ls now cur ns (kv :: kvs) =
  if kv_applies ns cur kv then
    let* (ns, calls) := set_versioned_value ls ns (kv_key kv) (vv_of_kv kv now) in
    let* (ns, calls') := apply_kvs ls now cur ns kvs in
    Ok (ns, calls ++ calls')
  else apply_kvs ls now cur ns kvs.
Proof.
  unfold kv_applies. cbn [apply_kvs]. rewrite N.ltb_antisym.
  destruct (kv_version kv <=? cur); [done|]. cbn [negb andb]. by destruct (_ && _).
Qed.
Lemma kv_applies_newer ns cur kv : kv_applies ns cur kv = true → cur < kv_version kv.
Proof. unfold kv_applies. rewrite andb_true_iff, N.ltb_lt. tauto. Qed.
(** The loop stores the accepted key-values one after the other. *)
Lemma apply_kvs_state ls now cur ns kvs r : ns_inv ns → kv_increasing kvs →
  Forall (λ kv, cur < kv_version kv → max_version ns < kv_version kv) kvs →
  apply_kvs ls now cur ns kvs = Ok r →
  r.1 = foldl (store_kv now) ns (accepted_kvs ns cur kvs) ∧ ns_inv r.1.
Proof.
  revert ns r; induction kvs as [|kv kvs IH]; intros ns r Hinv Hkvs Hmax Hr.
  - injection Hr as <-. done.
  - apply Forall_cons in Hmax as [Hkv Hmax].
    apply kv_increasing_cons in Hkvs as [Hkvs Hlt].
    unfold accepted_kvs. rewrite filter_cons, apply_kvs_cons in *.
    destruct (kv_applies ns cur kv) eqn:E.
    + apply kv_applies_newer in E. rewrite decide_True by done.
      apply rbind_Ok in Hr as ([ns1 calls] & H1 & Hr).
      apply rbind_Ok in Hr as ([ns2 calls'] & H2 & Hr). injection Hr as <-.
      apply set_versioned_value_state in H1; [|done|by apply Hkv]. simpl in H1. subst ns1.
      destruct (IH (store ns (kv_key kv) (vv_of_kv kv now)) (ns2, calls')) as [Heq Hinv2]; try done.
      * apply store_inv; [done|]. by apply Hkv.
      * eapply Forall_impl; [exact Hlt|]. intros kv' ? _. done.
    + rewrite decide_False by done. by apply (IH ns).
Qed.
Lemma apply_kvs_total ls now cur ns kvs : ns_inv ns → kv_increasing kvs →
  Forall (λ kv, cur < kv_version kv → max_version ns < kv_version kv) kvs →
  Forall (λ kv, event_key_ok (kv_key kv) = true) kvs →
  ∃ r, apply_kvs ls now cur ns kvs = Ok r.
Proof.
  intros Hinv Hkvs Hmax Hkeys. revert ns Hinv Hkvs Hmax.
  induction Hkeys as [|kv kvs Hkey _ IH]; intros ns Hinv Hkvs Hmax; [simpl; eauto|].
  apply Forall_cons in Hmax as [Hkv Hmax].
  apply kv_increasing_cons in Hkvs as [Hkvs Hlt]. rewrite apply_kvs_cons.
  destruct (kv_applies ns cur kv) eqn:E; [|by apply IH]. apply kv_applies_newer in E.
  rewrite set_versioned_value_fresh; [|done|by apply Hkv|done]. cbn [rbind].
  destruct (IH (store ns (kv_key kv) (vv_of_kv kv now))) as [[ns2 calls] ->].
  - apply store_inv; [done|]. by apply Hkv.
  - done.
  - eapply Forall_impl; [exact Hlt|]. intros kv' ? _. done.
  - cbn [rbind]. eauto.
Qed.

(** What a sequence of stores leaves under a key. *)
Lemma foldl_store_lookup now ns kvs k :
  key_values (foldl (store_kv now) ns kvs) !! k =
  match last (filter (λ kv, kv_key kv = k) kvs) with
  | Some kv => Some (vv_of_kv kv now)
  | None => key_values ns !! k
  end.
Proof.
  induction kvs as [|kv kvs IH] using rev_ind; [done|].
  rewrite foldl_app, filter_app. cbn [foldl]. rewrite filter_cons, filter_nil.
  unfold store_kv at 1, store. simpl. case_decide as Hk.
  - subst k. by rewrite lookup_insert_eq, last_snoc.
  - by rewrite lookup_insert_ne, app_nil_r.
Qed.
Lemma foldl_store_max now ns kvs :
  max_version (foldl (store_kv now) ns kvs) =
  match last kvs with Some kv => kv_version kv | None => max_version ns end.
Proof.
  induction kvs as [|kv kvs _] using rev_ind; [done|].
  rewrite foldl_app, last_snoc. done.
Qed.
Lemma foldl_store_gc now ns kvs :
  last_gc_version (foldl (store_kv now) ns kvs) = last_gc_version ns.
Proof. revert ns; induction kvs; intros ns; simpl; [done|]. by rewrite IHkvs. Qed.
Lemma foldl_store_id now ns kvs :
  chitchat_id (foldl (store_kv now) ns kvs) = chitchat_id ns.
Proof. revert ns; induction kvs; intros ns; simpl; [done|]. by rewrite IHkvs. Qed.

(** ** The decision of [prepare_apply_delta] *)

(** The state after a reset by [nd], before its key-values. *)
Definition reset_state (nd : NodeDelta) : NodeState :=
  mkNodeState (nd_chitchat_id nd) 0 ∅
    match nd_key_values nd with [] => default 0 (nd_max_version nd) | _ => 0 end
    (nd_last_gc_version nd).

Inductive delta_decision : Type := Reject | Extend | Reset.
(** The rule in closed form: a delta from the future is rejected; one that
    cannot hide a collected tombstone extends the state; any other one resets
    it, unless it carries no version at all. *)
Definition decide_delta (ns : NodeState) (nd : NodeDelta) : delta_decision :=
  if max_version ns <? nd_from_version_excluded nd then Reject
  else if (nd_last_gc_version nd <? max_version ns) ||
          (nd_last_gc_version nd <=? last_gc_version ns) then Extend
  else match delta_max_version nd with None => Reject | Some _ => Reset end.
Lemma prepare_apply_delta_decide ns nd : prepare_apply_delta ns nd =
  match decide_delta ns nd with
  | Reject => (false, ns)
  | Extend => (true, ns)
  | Reset => (true, reset_state nd)
  end.
Proof.
  unfold prepare_apply_delta, decide_delta.
  destruct (max_version ns <? _); [done|].
  destruct (nd_last_gc_version nd <? max_version ns); [done|]. cbn [orb].
  destruct (N.leb_spec (nd_last_gc_version nd) (last_gc_version ns)); [done|].
  destruct (delta_max_version nd); [|done].
  rewrite (proj2 (N.ltb_ge _ _)), (proj2 (N.eqb_neq _ _)) by lia. cbn [orb andb].
  unfold reset_state. destruct (nd_max_version nd), (nd_key_values nd); done.
Qed.
Lemma decide_delta_Extend ns nd : decide_delta ns nd = Extend ↔
  nd_from_version_excluded nd ≤ max_version ns ∧
  (nd_last_gc_version nd < max_version ns ∨ nd_last_gc_version nd ≤ last_gc_version ns).
Proof.
  unfold decide_delta.
  destruct (N.ltb_spec (max_version ns) (nd_from_version_excluded nd)); [split; [done|lia]|].
  destruct (N.ltb_spec (nd_last_gc_version nd) (max_version ns)); [split; [lia|done]|].
  destruct (N.leb_spec (nd_last_gc_version nd) (last_gc_version ns)); [split; [lia|done]|].
  cbn [orb]. destruct (delta_max_version nd); split; (done || lia).
Qed.
Lemma decide_delta_Reset ns nd : decide_delta ns nd = Reset ↔
  nd_from_version_excluded nd ≤ max_version ns ∧
  max_version ns ≤ nd_last_gc_version nd ∧ last_gc_version ns < nd_last_gc_version nd ∧
  is_Some (delta_max_version nd).
Proof.
  unfold decide_delta.
  destruct (N.ltb_spec (max_version ns) (nd_from_version_excluded nd)); [split; [done|lia]|].
  destruct (N.ltb_spec (nd_last_gc_version nd) (max_version ns)); [split; [done|lia]|].
  destruct (N.leb_spec (nd_last_gc_version nd) (last_gc_version ns)); [split; [done|lia]|].
  cbn [orb]. destruct (delta_max_version nd); split; try done.
  by intros (_ & _ & _ & [? ?]).
Qed.

Lemma reset_state_inv nd : ns_inv (reset_state nd).
Proof. split; simpl; intros *; by rewrite lookup_empty. Qed.

(** The state that [apply_delta] leaves. *)
Definition delta_result (now : Instant) (ns : NodeState) (nd : NodeDelta) : NodeState :=
  match decide_delta ns nd with
  | Reject => ns
  | Extend => foldl (store_kv now) ns (accepted_kvs ns (max_version ns) (nd_key_values nd))
  | Reset =>
      let ns := reset_state nd in
      foldl (store_kv now) ns (accepted_kvs ns (max_version ns) (nd_key_values nd))
  end.
Lemma apply_delta_state ls ns nd now r : ns_inv ns → kv_increasing (nd_key_values nd) →
  apply_delta ls ns nd now = Ok r → r.1 = delta_result now ns nd ∧ ns_inv r.1.
Proof.
  intros Hinv Hkvs Hr. unfold apply_delta in Hr. rewrite prepare_apply_delta_decide in Hr.
  unfold delta_result. destruct (decide_delta ns nd).
  - by injection Hr as <-.
  - eapply apply_kvs_state; [done|done| |exact Hr]. apply Forall_forall. auto.
  - eapply apply_kvs_state; [apply reset_state_inv|done| |exact Hr]. apply Forall_forall. auto.
Qed.
Lemma apply_delta_total ls ns nd now : ns_inv ns → kv_increasing (nd_key_values nd) →
  Forall (λ kv, event_key_ok (kv_key kv) = true) (nd_key_values nd) →
  ∃ r, apply_delta ls ns nd now = Ok r.
Proof.
  intros Hinv Hkvs Hkeys. unfold apply_delta. rewrite prepare_apply_delta_decide.
  destruct (decide_delta ns nd); [eauto| |];
    (apply apply_kvs_total; [done || apply reset_state_inv|done|apply Forall_forall; auto|done]).
Qed.
Lemma accepted_kvs_gt ns cur kvs :
  Forall (λ kv, cur < kv_version kv) (accepted_kvs ns cur kvs).
Proof.
  apply Forall_forall. intros kv [Hkv _]%list_elem_of_filter. by apply kv_applies_newer in Hkv.
Qed.
(** The identity of a node state is its key: a delta cannot change it. *)
Lemma delta_result_id now ns nd : nd_chitchat_id nd = chitchat_id ns →
  chitchat_id (delta_result now ns nd) = chitchat_id ns.
Proof.
  intros Hid. unfold delta_result. destruct (decide_delta ns nd); [done| |];
    by rewrite foldl_store_id.
Qed.
Lemma delta_result_max now ns nd :
  max_version (delta_result now ns nd) =
  match decide_delta ns nd with
  | Reject => max_version ns
  | Extend =>
      match last (accepted_kvs ns (max_version ns) (nd_key_values nd)) with
      | Some kv => kv_version kv | None => max_version ns
      end
  | Reset =>
      match last (accepted_kvs (reset_state nd) (max_version (reset_state nd)) (nd_key_values nd)) with
      | Some kv => kv_version kv | None => max_version (reset_state nd)
      end
  end.
Proof. unfold delta_result. destruct (decide_delta ns nd); [done| |]; apply foldl_store_max. Qed.
Lemma delta_result_gc now ns nd :
  last_gc_version (delta_result now ns nd) =
  match decide_delta ns nd with Reset => nd_last_gc_version nd | _ => last_gc_version ns end.
Proof.
  unfold delta_result. destruct (decide_delta ns nd); [done| |]; by rewrite foldl_store_gc.
Qed.
Lemma delta_result_gc_mono now ns nd :
  last_gc_version ns ≤ last_gc_version (delta_result now ns nd).
Proof.
  rewrite delta_result_gc. destruct (decide_delta ns nd) eqn:E; [done|done|].
  apply decide_delta_Reset in E. lia.
Qed.
(** An applied delta that does not reset never loses progress. *)
Lemma delta_result_max_mono now ns nd : decide_delta ns nd ≠ Reset →
  max_version ns ≤ max_version (delta_result now ns nd).
Proof.
  rewrite delta_result_max. destruct (decide_delta ns nd); [done| |done]. intros _.
  pose proof (accepted_kvs_gt ns (max_version ns) (nd_key_values nd)) as Hall.
  destruct (last _) as [kv|] eqn:E; [|done].
  rewrite Forall_forall in Hall. apply last_Some_elem_of in E. apply Hall in E. lia.
Qed.

(** ** Properties *)

(** A prefix scan returns exactly the live entries whose key starts with
    the prefix, in key order. *)
Theorem iter_prefix_exact ns prefix :
  iter_prefix ns prefix =
  filter (λ p, is_deleted p.2 = false)
    (filter (λ p, starts_with prefix p.1 = true) (btree_items (key_values ns))).
Proof. apply iter_prefix_spec. Qed.

(** The rule of [prepare_apply_delta] in closed form.  The test whether
    a delta brings a fresher state is never the one that rejects it, and a
    delta that is reported as inapplicable and ignored resets the state. *)
Theorem prepare_apply_delta_rule ns nd :
  prepare_apply_delta ns nd =
  match decide_delta ns nd with
  | Reject => (false, ns)
  | Extend => (true, ns)
  | Reset => (true, reset_state nd)
  end.
Proof. apply prepare_apply_delta_decide. Qed.

(** C6: applying a well-formed delta never panics (with keys that the
    listeners accept), keeps the entries' versions distinct and bounded, and
    gives the state of the closed form: [Reject] leaves it, [Extend] and
    [Reset] store the accepted key-values; the garbage-collection watermark
    never decreases. *)
Theorem apply_delta_correct ls ns nd now : ns_inv ns → kv_increasing (nd_key_values nd) →
  Forall (λ kv, event_key_ok (kv_key kv) = true) (nd_key_values nd) →
  ∃ calls, apply_delta ls ns nd now = Ok (delta_result now ns nd, calls) ∧
    ns_inv (delta_result now ns nd) ∧
    last_gc_version ns ≤ last_gc_version (delta_result now ns nd) ∧
    (decide_delta ns nd ≠ Reset → max_version ns ≤ max_version (delta_result now ns nd)).
Proof.
  intros Hi Hk Hkeys. destruct (apply_delta_total ls ns nd now Hi Hk Hkeys) as [[ns' calls] Hr].
  destruct (apply_delta_state _ _ _ _ _ Hi Hk Hr) as [E Hinv]. simpl in *. subst ns'.
  exists calls. split_and!; [done|done|apply delta_result_gc_mono|apply delta_result_max_mono].
Qed.
Lemma apply_delta_correct_witness :
  let ns := NodeState_new (mkChitchatId "n" 0 (SockV4 1 1)) in
  let nd := mkNodeDelta (mkChitchatId "n" 0 (SockV4 1 1)) 0 0
              [mkKeyValueMutation "k" "v" 1 MSet] None in
  ∃ calls, apply_delta no_listeners ns nd 0 = Ok (delta_result 0 ns nd, calls) ∧
    key_values (delta_result 0 ns nd) !! "k" = Some (mkVersionedValue "v" 1 Set_).
Proof.
  intros ns nd. destruct (apply_delta_correct no_listeners ns nd 0) as (calls & H & _).
  - apply ns_inv_new.
  - repeat constructor.
  - repeat constructor.
  - exists calls. split; [exact H|vm_compute; reflexivity].
Defined.

(** When an entry may go: it was deleted, or given a time to live, at
    [start], and the grace period has passed since. *)
Definition removal_due (now : Instant) (grace : Duration) (v : VersionedValue) : Prop :=
  ∃ start, (vv_status v = Deleted start ∨ vv_status v = DeleteAfterTtl start) ∧
    start + grace ≤ now.
Lemma removal_due_expired now grace v : removal_due now grace v ↔ gc_expired now grace v = true.
Proof.
  unfold removal_due, gc_expired. destruct (vv_status v) as [|t|t]; simpl.
  - split; [by intros (? & [?|?] & _)|done].
  - rewrite negb_true_iff, N.ltb_ge. split; [by intros (? & [[=->]|?] & ?)|eauto].
  - rewrite negb_true_iff, N.ltb_ge. split; [by intros (? & [?|[=->]] & ?)|eauto].
Qed.
Lemma removal_due_mono now1 now2 grace v : now1 ≤ now2 →
  removal_due now1 grace v → removal_due now2 grace v.
Proof. intros ? (t & ? & ?). exists t. split; [done|lia]. Qed.
Lemma gc_kept ns grace now k v :
  key_values (gc_keys_marked_for_deletion ns grace now) !! k = Some v ↔
  key_values ns !! k = Some v ∧ ¬ removal_due now grace v.
Proof. rewrite gc_lookup, removal_due_expired. by rewrite not_true_iff_false. Qed.
(** The watermark is the least bound of the old one and the removed versions. *)
Lemma gc_watermark ns grace now b :
  last_gc_version (gc_keys_marked_for_deletion ns grace now) ≤ b ↔
  last_gc_version ns ≤ b ∧
  (∀ k v, key_values ns !! k = Some v → removal_due now grace v → vv_version v ≤ b).
Proof.
  pose proof (gc_last_gc_ge ns grace now) as Hge. split.
  - intros Hb. split; [lia|]. intros k v Hk Hd%removal_due_expired.
    pose proof (gc_removed_le ns grace now k v Hk Hd). lia.
  - intros [Hb Hall]. destruct (gc_last_gc_cases ns grace now) as [->|(k & v & Hk & Hd & ->)];
      [done|]. apply (Hall k v Hk). by apply removal_due_expired.
Qed.
Lemma gc_twice ns grace now1 now2 : now1 ≤ now2 →
  gc_keys_marked_for_deletion (gc_keys_marked_for_deletion ns grace now1) grace now2 =
  gc_keys_marked_for_deletion ns grace now2.
Proof.
  intros Hle. set (once := gc_keys_marked_for_deletion ns grace now1).
  assert (key_values (gc_keys_marked_for_deletion once grace now2) =
          key_values (gc_keys_marked_for_deletion ns grace now2)) as Ek.
  { apply map_eq. intros k. apply option_eq. intros v. subst once. rewrite !gc_kept.
    pose proof (removal_due_mono now1 now2 grace v Hle). tauto. }
  assert (∀ b, last_gc_version (gc_keys_marked_for_deletion once grace now2) ≤ b ↔
               last_gc_version (gc_keys_marked_for_deletion ns grace now2) ≤ b) as El.
  { intros b. subst once. rewrite !gc_watermark. split.
    - intros [[H1 H2] H3]. split; [done|]. intros k v Hk Hd.
      destruct (gc_expired now1 grace v) eqn:E.
      + apply (H2 k v Hk). by apply removal_due_expired.
      + apply (H3 k v); [|done]. by apply gc_lookup.
    - intros [H1 H2]. split_and!; [done| |].
      + intros k v Hk Hd. apply (H2 k v Hk). by apply (removal_due_mono now1).
      + intros k v [Hk _]%gc_lookup Hd. by apply (H2 k v). }
  assert (last_gc_version (gc_keys_marked_for_deletion once grace now2) =
          last_gc_version (gc_keys_marked_for_deletion ns grace now2)) as Eg
    by (apply N.le_antisymm; apply El; lia).
  unfold gc_keys_marked_for_deletion in *. simpl in *. subst once. simpl in *.
  by rewrite Ek, Eg.
Qed.

(** C22: garbage collection removes exactly the entries that were deleted or
    given a time to live at least the grace period ago ([start + grace <=
    now]): a value that was set, or a younger tombstone, stays as it is.  The
    watermark becomes the least bound of its old value and the versions of
    the removed entries; nothing else of the state changes.  A reader sees a
    difference only for a key whose time to live is over, and collecting
    often is collecting once: a collection followed by a later one gives the
    state of the later one alone. *)
Theorem gc_exact ns grace now :
  let ns' := gc_keys_marked_for_deletion ns grace now in
  (∀ k v, key_values ns' !! k = Some v ↔
     key_values ns !! k = Some v ∧ ¬ removal_due now grace v) ∧
  (∀ b, last_gc_version ns' ≤ b ↔ last_gc_version ns ≤ b ∧
     ∀ k v, key_values ns !! k = Some v → removal_due now grace v → vv_version v ≤ b) ∧
  (chitchat_id ns', heartbeat ns', max_version ns') = (chitchat_id ns, heartbeat ns, max_version ns) ∧
  (∀ k, get ns' k = get ns k ∨ ∃ v start, key_values ns !! k = Some v ∧
     vv_status v = DeleteAfterTtl start ∧ start + grace ≤ now ∧ get ns' k = None) ∧
  (∀ later, now ≤ later →
     gc_keys_marked_for_deletion ns' grace later = gc_keys_marked_for_deletion ns grace later).
Proof.
  intros ns'. split_and!; [apply gc_kept|apply gc_watermark|done| |intros later; apply gc_twice].
  intros k. unfold get, get_versioned.
  destruct (key_values ns' !! k) as [v|] eqn:E.
  - apply gc_kept in E as [-> _]. by left.
  - destruct (key_values ns !! k) as [v|] eqn:E2; [|by left]. simpl.
    destruct (gc_expired now grace v) eqn:Hd.
    + apply removal_due_expired in Hd as (t & [Hs|Hs] & Ht).
      * left. unfold is_deleted. by rewrite Hs.
      * right. by exists v, t.
    + exfalso. assert (key_values ns' !! k = Some v) by (by apply gc_lookup). congruence.
Qed.

Lemma gc_exact_witness :
  let ns := mkNodeState (mkChitchatId "n" 0 (SockV4 1 1)) 7
    {[ "a" := mkVersionedValue "x" 1 Set_; "b" := mkVersionedValue "" 3 (Deleted 5);
       "c" := mkVersionedValue "y" 4 (DeleteAfterTtl 20) ]} 4 0 in
  let ns' := gc_keys_marked_for_deletion ns 10 16 in
  key_values ns' !! "b" = None ∧ get ns' "a" = Some "x" ∧ get ns' "c" = Some "y" ∧
  3 ≤ last_gc_version ns' ∧ last_gc_version ns' = 3 ∧
  gc_keys_marked_for_deletion ns' 10 40 = gc_keys_marked_for_deletion ns 10 40.
Proof.
  intros ns ns'. destruct (gc_exact ns 10 16) as (Hk & Hw & _ & _ & Htwice). split_and!.
  - vm_compute. reflexivity.
  - vm_compute. reflexivity.
  - vm_compute. reflexivity.
  - destruct (proj1 (Hw (last_gc_version ns')) (N.le_refl _)) as [_ Hall].
    apply (Hall "b" (mkVersionedValue "" 3 (Deleted 5)));
      [vm_compute; reflexivity|exists 5; split; [by left|lia]].
  - vm_compute. reflexivity.
  - apply Htwice. lia.
Defined.

(** The owner's updates: [set] and [set_with_ttl] change nothing for an
    unchanged value and otherwise store the value with the next version;
    [delete] leaves an empty tombstone with the next version. *)
Theorem owner_updates ls ns key value now r : ns_inv ns → max_version ns < u64_max →
  set ls ns key value = Ok r →
  (if bool_decide (option_map (λ v, (vv_value v, vv_status v)) (key_values ns !! key) =
                   Some (value, Set_))
   then r = (ns, [])
   else r.1 = store ns key (mkVersionedValue value (max_version ns + 1) Set_)) ∧
  delete_ ns key now =
    match key_values ns !! key with
    | None => ns
    | Some _ => store ns key (mkVersionedValue "" (max_version ns + 1) (Deleted now))
    end ∧
  ns_inv r.1 ∧ ns_inv (delete_ ns key now).
Proof.
  intros Hi Hroom Hr. pose proof (delete_cases ns key Hroom now) as Hd.
  assert (∀ v, vv_version v = max_version ns + 1 → ns_inv (store ns key v)) as Hst
    by (intros v Hv; apply store_inv; [done|lia]).
  assert (ns_inv (delete_ ns key now)) as Hdi
    by (rewrite Hd; destruct (key_values ns !! key); [by apply Hst|done]).
  destruct (set_cases _ _ _ Hi Hroom _ _ Hr) as [[(v & Hk & Hv & Hs) ->]|[Hn Hst']].
  - rewrite bool_decide_eq_true_2; [done|]. rewrite Hk. simpl. by rewrite Hv, Hs.
  - rewrite bool_decide_eq_false_2.
    + rewrite Hst'. split_and!; [done|done|by apply Hst|done].
    + destruct (key_values ns !! key) as [v|] eqn:E; [|done]. simpl. intros [= Hv Hs].
      apply Hn. by exists v.
Qed.
Lemma owner_updates_witness :
  let ns := NodeState_new (mkChitchatId "n" 0 (SockV4 1 1)) in
  ∃ r, set no_listeners ns "k" "v" = Ok r ∧ r.1 = store ns "k" (mkVersionedValue "v" 1 Set_).
Proof.
  intros ns. eexists. split; [vm_compute; reflexivity|].
  edestruct (owner_updates no_listeners ns "k" "v" 0) as (H & _).
  - apply ns_inv_new.
  - vm_compute. reflexivity.
  - vm_compute. reflexivity.
  - exact H.
Defined.
