(* ===== verification/Cluster.v ===== *)
(** * The state of the cluster (chitchat/src/state.rs)

    A [ClusterState] maps the identity of every known node to its
    [NodeState].  [compute_partial_delta_respecting_mtu] is the Scuttlebutt
    reconciliation: given the digest of a peer it selects the stale nodes,
    orders them by staleness and serializes as much as the MTU allows. *)
From S2P Require Import Prelude Types Serialize Stream Listener Delta Message NodeState.
Open Scope N_scope.

(** ** The random generator

    [SliceRandom::shuffle]; the number tells apart the calls made with one
    generator. *)
Class Shuffle : Type := shuffle : ∀ {A}, nat → list A → list A.
Class ShuffleOk `{Shuffle} : Prop := shuffle_perm : ∀ {A} n (l : list A), shuffle n l ≡ₚ l.

(** ** Data *)
Record ClusterState : Type := mkClusterState {
  node_states : gmap ChitchatId NodeState;
  seed_addrs : gset SocketAddr;
  cluster_listeners : InnerListeners;
}.
Definition set_node_states (m : gmap ChitchatId NodeState) (cs : ClusterState) : ClusterState :=
  mkClusterState m (seed_addrs cs) (cluster_listeners cs).
Definition with_seed_addrs (addrs : gset SocketAddr) : ClusterState :=
  mkClusterState ∅ addrs no_listeners.

(** [node_state_mut] returns a reference into the map, creating the entry
    when it is vacant: the state to update, and the write back. *)
Definition node_state_mut (cs : ClusterState) (id : ChitchatId) : NodeState :=
  match node_states cs !! id with Some ns => ns | None => NodeState_new id end.
Definition put_node_state (cs : ClusterState) (id : ChitchatId) (ns : NodeState) : ClusterState :=
  set_node_states (<[id := ns]> (node_states cs)) cs.
Definition node_state (cs : ClusterState) (id : ChitchatId) : option NodeState :=
  node_states cs !! id.
Definition nodes (cs : ClusterState) : list ChitchatId := (btree_items (node_states cs)).*1.
Definition remove_node (cs : ClusterState) (id : ChitchatId) : ClusterState :=
  set_node_states (delete id (node_states cs)) cs.

(** ** Applying a delta (state.rs) *)
Fixpoint apply_node_deltas (cs : ClusterState) (nds : list NodeDelta) (now : Instant)
    : res (ClusterState * list Call) :=
  match nds with
  | [] => Ok (cs, [])
  | nd :: nds =>
      let ns := node_state_mut cs (nd_chitchat_id nd) in
      let* (ns, calls) := apply_delta (cluster_listeners cs) ns nd now in
      let cs := put_node_state cs (nd_chitchat_id nd) ns in
      let* (cs, calls') := apply_node_deltas cs nds now in
      Ok (cs, calls ++ calls')
  end.
Definition cluster_apply_delta (cs : ClusterState) (d : Delta) (now : Instant)
    : res (ClusterState * list Call) :=
  apply_node_deltas cs (node_deltas d) now.

(** ** Digests and collection (state.rs) *)
Definition compute_digest (cs : ClusterState) (sched : gset ChitchatId) : Digest :=
  digest <$> filter (λ p, p.1 ∉ sched) (node_states cs).
Definition cluster_gc (cs : ClusterState) (grace_period : Duration) (now : Instant)
    : ClusterState :=
  set_node_states ((λ ns, gc_keys_marked_for_deletion ns grace_period now) <$> node_states cs) cs.

(** ** Staleness (state.rs) *)
Record Staleness : Type := mkStaleness {
  is_unknown : bool;
  st_max_version : Version;
  num_stale_key_values : N;
}.
Definition bool_cmp (a b : bool) : comparison :=
  match a, b with
  | false, true => Lt
  | true, false => Gt
  | _, _ => Eq
  end.
(** [Ord for Staleness] *)
Definition Staleness_cmp (a b : Staleness) : comparison :=
  match bool_cmp (is_unknown a) (is_unknown b) with
  | Eq =>
      if is_unknown a then CompOpp (st_max_version a ?= st_max_version b)
      else num_stale_key_values a ?= num_stale_key_values b
  | c => c
  end.
Definition staleness_score (ns : NodeState) (floor_version : Version) : option Staleness :=
  if max_version ns <=? floor_version then None
  else
    let is_unknown := floor_version =? 0 in
    let num_stale :=
      if is_unknown then num_key_values ns
      else blen (stale_key_values ns floor_version) in
    Some (mkStaleness is_unknown (max_version ns) num_stale).

(** ** The stale nodes (state.rs)

    [BTreeMap<Staleness, Vec<StaleNode>>] finds a key with [Ord::cmp], which
    identifies scores that are not equal; the model keeps the entries of the
    map as a list sorted by [Staleness_cmp]. *)
Record StaleNode : Type := mkStaleNode {
  sn_chitchat_id : ChitchatId;
  sn_node_state : NodeState;
  sn_from_version_excluded : Version;
}.
Abbreviation SortedStaleNodes := (list (Staleness * list StaleNode)).

(** [entry(staleness).or_default().push(stale_node)] *)
Fixpoint stale_push (s : Staleness) (sn : StaleNode) (l : SortedStaleNodes) : SortedStaleNodes :=
  match l with
  | [] => [(s, [sn])]
  | (s', sns) :: l' =>
      match Staleness_cmp s s' with
      | Lt => (s, [sn]) :: l
      | Eq => (s', sns ++ [sn]) :: l'
      | Gt => (s', sns) :: stale_push s sn l'
      end
  end.
Definition offer (l : SortedStaleNodes) (id : ChitchatId) (ns : NodeState) (from : Version)
    : SortedStaleNodes :=
  match staleness_score ns from with
  | None => l
  | Some s => stale_push s (mkStaleNode id ns from) l
  end.

(** [StaleNode::stale_key_values], in increasing order of version. *)
Definition version_le (x y : string * VersionedValue) : Prop := vv_version x.2 ≤ vv_version y.2.
#[export] Instance version_le_dec : RelDecision version_le.
Proof. intros x y. unfold version_le. apply _. Defined.
Definition sn_stale_key_values (sn : StaleNode) : list (string * VersionedValue) :=
  merge_sort version_le (stale_key_values (sn_node_state sn) (sn_from_version_excluded sn)).

(** The version a delta for a peer with this digest starts from
    (state.rs): [None] when there is nothing to offer. *)
Definition should_reset (ns : NodeState) (digest_last_gc digest_max : Version) : bool :=
  (digest_last_gc <? last_gc_version ns) && (digest_max <? last_gc_version ns).
Definition delta_from_version (ns : NodeState) (digest_last_gc digest_max : Version)
    : option Version :=
  if max_version ns <=? digest_max then None
  else Some (if should_reset ns digest_last_gc digest_max then 0 else digest_max).

(** ** The reconciliation (state.rs) *)
Definition digest_versions (d : Digest) (id : ChitchatId) : Version * Version :=
  match d !! id with
  | Some nd => (dg_last_gc_version nd, dg_max_version nd)
  | None => (0, 0)
  end.

Fixpoint collect_stale (d : Digest) (sched : gset ChitchatId)
    (items : list (ChitchatId * NodeState)) (acc : SortedStaleNodes) : SortedStaleNodes :=
  match items with
  | [] => acc
  | (id, ns) :: items =>
      collect_stale d sched items
        (if bool_decide (id ∈ sched) then acc
         else
           let '(dgc, dmax) := digest_versions d id in
           match delta_from_version ns dgc dmax with
           | None => acc
           | Some from => offer acc id ns from
           end)
  end.

Section reconciliation.
Context `{Zstd, Shuffle}.

(** [SortedStaleNodes::into_iter]: decreasing staleness, each group
    shuffled. *)
Fixpoint shuffle_groups (n : nat) (groups : list (list StaleNode)) : list StaleNode :=
  match groups with
  | [] => []
  | g :: groups => shuffle n g ++ shuffle_groups (S n) groups
  end.
Definition stale_into_iter (l : SortedStaleNodes) : list StaleNode :=
  shuffle_groups 0 (reverse l.*2).

(** The inner loop; the first component tells that the MTU was reached. *)
Fixpoint add_kvs (ds : DeltaSerializer) (kvs : list (string * VersionedValue))
    (added_something : bool) : res (bool * bool * DeltaSerializer) :=
  match kvs with
  | [] => Ok (false, added_something, ds)
  | (key, versioned_value) :: kvs =>
      let* (ok, ds) := try_add_kv ds key versioned_value in
      if (ok : bool) then add_kvs ds kvs true else Ok (true, added_something, ds)
  end.
Fixpoint add_stale_nodes (ds : DeltaSerializer) (sns : list StaleNode) : res DeltaSerializer :=
  match sns with
  | [] => Ok ds
  | sn :: sns =>
      let* (ok, ds) := try_add_node ds (sn_chitchat_id sn)
        (last_gc_version (sn_node_state sn)) (sn_from_version_excluded sn) in
      if (ok : bool) then
        let* (p, ds) := add_kvs ds (sn_stale_key_values sn) false in
        let '(full, added_something) := p in
        if (full : bool) then Ok ds
        else if (added_something : bool) then add_stale_nodes ds sns
        else
          let* (_, ds) := try_set_max_version ds (max_version (sn_node_state sn)) in
          add_stale_nodes ds sns
      else Ok ds
  end.
Definition compute_partial_delta_respecting_mtu (cs : ClusterState) (d : Digest) (mtu : N)
    (sched : gset ChitchatId) : res Delta :=
  let stale_nodes := collect_stale d sched (btree_items (node_states cs)) [] in
  let* ds := with_mtu mtu in
  let* ds := add_stale_nodes ds (stale_into_iter stale_nodes) in
  ds_finish ds.
End reconciliation.

(** ** Snapshots (state.rs) *)
Record ClusterStateSnapshot : Type := mkSnapshot {
  snap_node_states : list NodeState;
  snap_seed_addrs : gset SocketAddr;
}.
Definition snapshot (cs : ClusterState) : ClusterStateSnapshot :=
  mkSnapshot (btree_items (node_states cs)).*2 (seed_addrs cs).

(** ** Well-formed clusters

    What the decoder guarantees of everything that comes from the network,
    and the 16-bit length of strings requires of local keys and values. *)
Record wf_ns (id : ChitchatId) (ns : NodeState) : Prop := {
  wn_id : wf_ChitchatId id;
  wn_key : chitchat_id ns = id;
  wn_inv : ns_inv ns;
  wn_kvs : map_Forall (λ k v, wf_KeyValueMutation (kv_of_vv k v)) (key_values ns);
  wn_max : fits 64 (max_version ns);
  wn_gc : fits 64 (last_gc_version ns);
  wn_heartbeat : fits 64 (heartbeat ns);
}.
Definition cs_inv (cs : ClusterState) : Prop := map_Forall wf_ns (node_states cs).

Lemma wf_ns_new id : wf_ChitchatId id → wf_ns id (NodeState_new id).
Proof.
  intros Hid. by split; try apply ns_inv_new.
Qed.
Lemma wf_ns_store id ns key v : wf_ns id ns → max_version ns < vv_version v →
  wf_KeyValueMutation (kv_of_vv key v) → wf_ns id (store ns key v).
Proof.
  intros [] Hv Hwf. split; simpl; try done.
  - by apply store_inv.
  - by apply map_Forall_insert_2.
  - apply Hwf.
Qed.
Lemma wf_ns_foldl_store id now ns kvs : wf_ns id ns →
  Forall wf_KeyValueMutation kvs → kv_increasing kvs →
  Forall (λ kv, max_version ns < kv_version kv) kvs →
  wf_ns id (foldl (store_kv now) ns kvs).
Proof.
  revert ns; induction kvs as [|kv kvs IH]; intros ns Hns Hwf Hinc Hgt; [done|]. simpl.
  apply Forall_cons in Hwf as [Hkv Hwf]. apply Forall_cons in Hgt as [Hgt _].
  apply kv_increasing_cons in Hinc as [Hinc Hlt]. apply IH; [|done..].
  apply wf_ns_store; [done|done|]. by rewrite kv_of_vv_of_kv.
Qed.
Lemma wf_ns_delta id now ns nd : wf_ns id ns → wf_NodeDelta nd → nd_chitchat_id nd = id →
  wf_ns id (delta_result now ns nd).
Proof.
  intros Hns Hnd Hid.
  assert (∀ ns0, wf_ns id ns0 → wf_ns id
    (foldl (store_kv now) ns0 (accepted_kvs ns0 (max_version ns0) (nd_key_values nd)))) as Hfold.
  { intros ns0 Hns0. apply wf_ns_foldl_store; [done| | |apply accepted_kvs_gt].
    - apply Forall_forall. intros kv [_ Hin]%list_elem_of_filter.
      pose proof (wf_nd_kvs _ Hnd) as Hall. rewrite Forall_forall in Hall. auto.
    - apply kv_increasing_filter, (wf_nd_increasing _ Hnd). }
  unfold delta_result. destruct (decide_delta ns nd); [done|by apply Hfold|].
  apply Hfold. destruct Hnd.
  split; simpl; [by subst|by subst|apply reset_state_inv|done| |done|done].
  destruct (nd_key_values nd); [|done]. destruct (nd_max_version nd); [auto|done].
Qed.

(** Whatever well-formed delta arrives, the cluster stays well-formed. *)
Lemma apply_node_deltas_inv cs nds now r : cs_inv cs → Forall wf_NodeDelta nds →
  apply_node_deltas cs nds now = Ok r → cs_inv r.1.
Proof.
  intros Hcs Hnds. revert cs Hcs r. induction Hnds as [|nd nds Hnd _ IH]; intros cs Hcs r Hr.
  - by injection Hr as <-.
  - cbn [apply_node_deltas] in Hr. apply rbind_Ok in Hr as ([ns calls] & H1 & Hr).
    apply rbind_Ok in Hr as ([cs2 calls2] & H2 & Hr). injection Hr as <-.
    assert (wf_ns (nd_chitchat_id nd) (node_state_mut cs (nd_chitchat_id nd))) as Hns.
    { unfold node_state_mut. destruct (node_states cs !! _) as [ns0|] eqn:E.
      - by apply (Hcs _ _ E).
      - apply wf_ns_new, (wf_nd_id _ Hnd). }
    apply apply_delta_state in H1 as [H1 _]; [|apply (wn_inv _ _ Hns)|apply (wf_nd_increasing _ Hnd)].
    simpl in H1. subst ns. apply (IH _) in H2; [done|].
    intros id ns. simpl. rewrite lookup_insert_Some. intros [[<- <-]|[_ Hid]].
    + by apply wf_ns_delta.
    + by apply (Hcs _ _ Hid).
Qed.
Lemma apply_node_deltas_total cs nds now : cs_inv cs → Forall wf_NodeDelta nds →
  Forall (λ nd, Forall (λ kv, event_key_ok (kv_key kv) = true) (nd_key_values nd)) nds →
  ∃ r, apply_node_deltas cs nds now = Ok r.
Proof.
  intros Hcs Hnds. revert cs Hcs. induction Hnds as [|nd nds Hnd _ IH]; intros cs Hcs Hkeys.
  - simpl. eauto.
  - apply Forall_cons in Hkeys as [Hk Hkeys].
    assert (wf_ns (nd_chitchat_id nd) (node_state_mut cs (nd_chitchat_id nd))) as Hns.
    { unfold node_state_mut. destruct (node_states cs !! _) as [ns0|] eqn:E.
      - by apply (Hcs _ _ E).
      - apply wf_ns_new, (wf_nd_id _ Hnd). }
    destruct (apply_delta_total (cluster_listeners cs) _ nd now (wn_inv _ _ Hns)
      (wf_nd_increasing _ Hnd) Hk) as [[ns calls] H1].
    cbn [apply_node_deltas]. rewrite H1. cbn [rbind].
    apply apply_delta_state in H1 as [H1 _]; [|apply (wn_inv _ _ Hns)|apply (wf_nd_increasing _ Hnd)].
    simpl in H1. subst ns.
    destruct (IH (put_node_state cs (nd_chitchat_id nd)
      (delta_result now (node_state_mut cs (nd_chitchat_id nd)) nd))) as [[cs2 calls2] ->]; [|done|].
    + intros id ns. simpl. rewrite lookup_insert_Some. intros [[<- <-]|[_ Hid]].
      * by apply wf_ns_delta.
      * by apply (Hcs _ _ Hid).
    + simpl. eauto.
Qed.
Lemma cluster_gc_inv cs grace now : cs_inv cs → cs_inv (cluster_gc cs grace now).
Proof.
  intros Hcs id ns. simpl. rewrite lookup_fmap_Some. intros (ns0 & <- & Hid).
  destruct (Hcs _ _ Hid) as [? ? ? Hkvs Hm Hg Hhb]. split; try done.
  - by apply gc_inv.
  - intros k v Hk%gc_lookup. apply (Hkvs k v), Hk.
  - destruct (gc_last_gc_cases ns0 grace now) as [->|(k & v & Hk & _ & ->)]; [done|].
    apply (Hkvs k v Hk).
Qed.

(** ** The candidates *)
Definition stale_candidate (d : Digest) (sched : gset ChitchatId)
    (p : ChitchatId * NodeState) : option StaleNode :=
  if bool_decide (p.1 ∈ sched) then None
  else
    let '(dgc, dmax) := digest_versions d p.1 in
    mkStaleNode p.1 p.2 <$> delta_from_version p.2 dgc dmax.

Lemma stale_push_perm s sn l : concat (stale_push s sn l).*2 ≡ₚ sn :: concat l.*2.
Proof.
  induction l as [|[s' sns] l IH]; [done|]. cbn [stale_push].
  destruct (Staleness_cmp s s'); rewrite ?fmap_cons; cbn [concat snd].
  - rewrite <-(assoc_L (++)). cbn [app]. by rewrite Permutation_middle.
  - done.
  - rewrite IH. by rewrite Permutation_middle.
Qed.
Lemma delta_from_version_lt ns dgc dmax from : delta_from_version ns dgc dmax = Some from →
  from < max_version ns ∧ from ≤ dmax ∧ dmax < max_version ns.
Proof.
  unfold delta_from_version. destruct (N.leb_spec (max_version ns) dmax); [done|].
  intros [= <-]. destruct (should_reset ns dgc dmax); lia.
Qed.
Lemma offer_perm l id ns from : from < max_version ns →
  concat (offer l id ns from).*2 ≡ₚ mkStaleNode id ns from :: concat l.*2.
Proof.
  intros Hlt. unfold offer, staleness_score.
  rewrite (proj2 (N.leb_gt _ _)) by done. apply stale_push_perm.
Qed.
Lemma collect_stale_perm d sched items acc :
  concat (collect_stale d sched items acc).*2 ≡ₚ
  omap (stale_candidate d sched) items ++ concat acc.*2.
Proof.
  revert acc; induction items as [|[id ns] items IH]; intros acc; [done|].
  cbn [collect_stale omap list_omap]. rewrite IH. clear IH.
  unfold stale_candidate at 2. cbn [fst snd].
  case_bool_decide; [done|]. destruct (digest_versions d id) as [dgc dmax].
  destruct (delta_from_version ns dgc dmax) as [from|] eqn:E; cbn [fmap option_fmap option_map]; [|done].
  apply delta_from_version_lt in E as [E _]. rewrite offer_perm by done.
  by rewrite <-Permutation_middle.
Qed.
Lemma shuffle_groups_perm `{ShuffleOk} n gs : shuffle_groups n gs ≡ₚ concat gs.
Proof.
  revert n; induction gs as [|g gs IH]; intros n; [done|].
  cbn [shuffle_groups concat]. by rewrite shuffle_perm, IH.
Qed.
(** Every candidate is in the iteration, exactly once. *)
Lemma stale_into_iter_perm `{ShuffleOk} d sched items :
  stale_into_iter (collect_stale d sched items []) ≡ₚ omap (stale_candidate d sched) items.
Proof.
  unfold stale_into_iter. rewrite shuffle_groups_perm.
  assert (∀ gs : list (list StaleNode), concat (reverse gs) ≡ₚ concat gs) as Hrev.
  { induction gs as [|g gs IH]; [done|]. rewrite reverse_cons, concat_app. simpl.
    rewrite app_nil_r, IH. apply Permutation_app_comm. }
  rewrite Hrev, collect_stale_perm. simpl. by rewrite app_nil_r.
Qed.

(** ** What one stale node contributes to the delta *)
Definition sn_mutations (sn : StaleNode) : list KeyValueMutation :=
  (λ p, kv_of_vv p.1 p.2) <$> sn_stale_key_values sn.
Record sn_delta (sn : StaleNode) (nd : NodeDelta) : Prop := {
  sd_id : nd_chitchat_id nd = sn_chitchat_id sn;
  sd_from : nd_from_version_excluded nd = sn_from_version_excluded sn;
  sd_gc : nd_last_gc_version nd = last_gc_version (sn_node_state sn);
  sd_kvs : nd_key_values nd `prefix_of` sn_mutations sn;
  sd_max : nd_max_version nd = None ∨
    sn_mutations sn = [] ∧ nd_max_version nd = Some (max_version (sn_node_state sn));
}.

#[export] Instance version_le_trans : Transitive version_le.
Proof. intros x y z. unfold version_le. lia. Qed.
#[export] Instance version_le_total : Total version_le.
Proof. intros x y. unfold version_le. lia. Qed.

Definition wf_sn (sn : StaleNode) : Prop := wf_ns (sn_chitchat_id sn) (sn_node_state sn).

Lemma elem_of_sn_stale sn k v : (k, v) ∈ sn_stale_key_values sn ↔
  key_values (sn_node_state sn) !! k = Some v ∧ sn_from_version_excluded sn < vv_version v.
Proof.
  unfold sn_stale_key_values, stale_key_values, key_values_including_deleted.
  rewrite merge_sort_Permutation, list_elem_of_filter, elem_of_btree_items. simpl. tauto.
Qed.
Lemma sn_stale_NoDup sn : NoDup (sn_stale_key_values sn).*1.
Proof.
  unfold sn_stale_key_values, stale_key_values, key_values_including_deleted.
  rewrite merge_sort_Permutation.
  apply (sublist_NoDup _ (btree_items (key_values (sn_node_state sn))).*1);
    [apply btree_items_NoDup|apply fmap_sublist, sublist_filter].
Qed.
(** Distinct versions: the sorted entries are strictly increasing. *)
Lemma sn_mutations_increasing sn : ns_inv (sn_node_state sn) → kv_increasing (sn_mutations sn).
Proof.
  intros Hinv. unfold kv_increasing, sn_mutations.
  assert (StronglySorted version_le (sn_stale_key_values sn)) as Hs
    by apply (StronglySorted_merge_sort version_le).
  pose proof (sn_stale_NoDup sn) as Hnd.
  assert (∀ k v, (k, v) ∈ sn_stale_key_values sn → key_values (sn_node_state sn) !! k = Some v)
    as Hin by (intros k v Hk; apply elem_of_sn_stale in Hk; apply Hk).
  induction Hs as [|[k v] l Hs IH Hall]; [constructor|].
  rewrite fmap_cons in *. apply NoDup_cons in Hnd as [Hk Hnd]. constructor.
  - apply IH; [done|]. intros k' v' ?. apply Hin. by right.
  - apply Forall_fmap, Forall_forall. intros [k' v'] Hin'. unfold kv_lt. simpl.
    rewrite Forall_forall in Hall. specialize (Hall _ Hin'). unfold version_le in Hall. simpl in *.
    assert (vv_version v ≠ vv_version v'); [|lia]. intros Heq. apply Hk.
    assert (k = k') as -> by (eapply (ni_distinct _ Hinv);
      [apply Hin; by left|apply Hin; by right|done]).
    apply list_elem_of_fmap. by exists (k', v').
Qed.
Lemma sn_mutations_wf sn : wf_sn sn → Forall wf_KeyValueMutation (sn_mutations sn).
Proof.
  intros Hsn. apply Forall_fmap, Forall_forall. intros [k v] Hin%elem_of_sn_stale.
  apply (wn_kvs _ _ Hsn k v), Hin.
Qed.

(** ** The loop *)
Definition at_node (b : DeltaBuilder) (pre : list NodeDelta) (nd : NodeDelta) : Prop :=
  node_deltas (db_delta b) = pre ∧ current_node_delta b = Some nd.
Lemma at_node_nodes b pre nd : at_node b pre nd → db_nodes b = pre ++ [nd].
Proof. intros [<- E]. by rewrite db_nodes_eq, E. Qed.
Lemma apply_op_node b id g f b' : apply_op b (OpNode id g f) = Ok b' →
  at_node b' (db_nodes b) (mkNodeDelta id f g [] None).
Proof.
  cbn [apply_op]. intros Hb. apply rbind_Ok in Hb as (u & _ & Hb). injection Hb as <-. done.
Qed.
Lemma apply_op_kv b pre nd kv b' : at_node b pre nd → apply_op b (OpKeyValue kv) = Ok b' →
  at_node b' pre (mkNodeDelta (nd_chitchat_id nd) (nd_from_version_excluded nd)
    (nd_last_gc_version nd) (nd_key_values nd ++ [kv]) (nd_max_version nd)).
Proof.
  intros [Hp Hc]. cbn [apply_op]. rewrite Hc. cbn [with_context rbind]. intros Hb.
  apply rbind_Ok in Hb as (u & _ & Hb). injection Hb as <-. done.
Qed.
Lemma apply_op_max b pre nd v b' : at_node b pre nd → apply_op b (OpSetMaxVersion v) = Ok b' →
  at_node b' pre (mkNodeDelta (nd_chitchat_id nd) (nd_from_version_excluded nd)
    (nd_last_gc_version nd) (nd_key_values nd) (Some v)).
Proof.
  intros [Hp Hc]. cbn [apply_op]. rewrite Hc. cbn [with_context rbind]. intros Hb.
  by injection Hb as <-.
Qed.

Section loop.
Context `{ZstdOk, Shuffle}.
Implicit Types ds : DeltaSerializer.

(** Every operation fits in an item of the stream. *)
Definition ops_fit (mtu : N) (sn : StaleNode) : Prop :=
  mtu ≤ u16_max ∨
  Forall (λ kv, small_op u16_max (OpKeyValue kv)) (sn_mutations sn) ∧
  (∀ g f, small_op u16_max (OpNode (sn_chitchat_id sn) g f)) ∧
  (∀ v, small_op u16_max (OpSetMaxVersion v)).

Lemma add_kvs_spec ds pre nd kvs added : ds_inv ds →
  at_node (ds_delta_builder ds) pre nd → nd_max_version nd = None →
  let kvms := (λ p, kv_of_vv p.1 p.2) <$> kvs in
  kv_increasing (nd_key_values nd ++ kvms) → Forall wf_KeyValueMutation kvms →
  (ds_mtu ds ≤ u16_max ∨ Forall (λ kv, small_op u16_max (OpKeyValue kv)) kvms) →
  ∃ full added' ds' done rest, add_kvs ds kvs added = Ok (full, added', ds') ∧
    ds_inv ds' ∧ ds_mtu ds' = ds_mtu ds ∧ kvms = done ++ rest ∧
    at_node (ds_delta_builder ds') pre
      (mkNodeDelta (nd_chitchat_id nd) (nd_from_version_excluded nd)
         (nd_last_gc_version nd) (nd_key_values nd ++ done) None) ∧
    (full = false → rest = [] ∧ added' = match kvs with [] => added | _ => true end).
Proof.
  revert ds nd added. induction kvs as [|[k v] kvs IH]; intros ds nd added Hds Hat Hmax kvms Hinc Hwf Hfit.
  - exists false, added, ds, [], []. split_and!; try done.
    rewrite app_nil_r. destruct nd; simpl in *. by subst.
  - subst kvms. rewrite fmap_cons in *. cbn [fst snd] in *.
    apply Forall_cons in Hwf as [Hkv Hwf].
    destruct (try_add_op_spec ds (OpKeyValue (kv_of_vv k v))) as (ok & ds1 & Hadd & Hds1 & Hmtu & Hok).
    + done.
    + done.
    + exists nd. split; [apply Hat|]. rewrite cons_middle, (assoc_L (++)) in Hinc.
      clear -Hinc. unfold kv_increasing in *. revert Hinc.
      induction (nd_key_values nd ++ [kv_of_vv k v]) as [|x l IH]; simpl; [constructor|].
      intros [Hs Hf]%StronglySorted_inv. constructor; [auto|]. by apply Forall_app in Hf as [Hf _].
    + intros nd' Hnd'. destruct Hat as [_ Hat]. congruence.
    + destruct Hfit as [?|Hfit]; [by left|right]. by apply Forall_cons in Hfit as [? _].
    + cbn [add_kvs]. unfold try_add_kv. rewrite Hadd. cbn [rbind]. destruct ok.
      * apply (apply_op_kv _ _ _ _ _ Hat) in Hok.
        destruct (IH ds1 _ true Hds1 Hok) as (full & added' & ds' & done & rest & Heq & Hinv' & Hm' & Happ & Hat' & Hfull).
        -- done.
        -- simpl. by rewrite <-(assoc_L (++)).
        -- done.
        -- rewrite Hmtu. destruct Hfit as [?|Hfit]; [by left|right]. by apply Forall_cons in Hfit as [_ ?].
        -- exists full, added', ds', (kv_of_vv k v :: done), rest. split; [done|].
           split; [done|]. split; [congruence|]. split; [by rewrite Happ|]. simpl in Hat'.
           rewrite <-(assoc_L (++)) in Hat'. split; [done|]. intros Hf.
           destruct (Hfull Hf) as [-> ->]. split; [done|]. by destruct kvs.
      * subst ds1. exists true, added, ds, [], (kv_of_vv k v :: ((λ p, kv_of_vv p.1 p.2) <$> kvs)).
        split_and!; try done. rewrite app_nil_r. destruct nd; simpl in *. by subst.
Qed.

(** The nodes written are those of a prefix of the iteration, in order. *)
(** A node that is written is the only one that is no longer new. *)
Lemma still_new ds ds' nd sn sns : ds_inv ds → ds_inv ds' →
  db_nodes (ds_delta_builder ds') = db_nodes (ds_delta_builder ds) ++ [nd] → nd_chitchat_id nd = sn_chitchat_id sn →
  sn_chitchat_id sn ∉ sn_chitchat_id <$> sns →
  (∀ sn', sn' ∈ sn :: sns → sn_chitchat_id sn' ∉ existing_nodes (ds_delta_builder ds)) →
  ∀ sn', sn' ∈ sns → sn_chitchat_id sn' ∉ existing_nodes (ds_delta_builder ds').
Proof.
  intros Hds Hds' Hn Hid Hsn Hnew sn' Hin.
  rewrite (bi_existing _ (di_builder _ Hds')), Hn, fmap_app, list_to_set_app_L, <-(bi_existing _ (di_builder _ Hds)).
  simpl. rewrite Hid. intros [Hx|Hx]%elem_of_union; [by eapply (Hnew sn'); [right|]|].
  apply Hsn. assert (sn_chitchat_id sn = sn_chitchat_id sn') as -> by set_solver. by apply list_elem_of_fmap_2.
Qed.
(** One node: it does not fit, or it is written, and then the delta is full
    or goes on with the others. *)
Lemma add_stale_node_spec sn ds : ds_inv ds → wf_sn sn → sn_from_version_excluded sn < max_version (sn_node_state sn) →
  ops_fit (ds_mtu ds) sn → sn_chitchat_id sn ∉ existing_nodes (ds_delta_builder ds) →
  (∀ sns, add_stale_nodes ds (sn :: sns) = Ok ds) ∨
  ∃ ds' nd, ds_inv ds' ∧ ds_mtu ds' = ds_mtu ds ∧
    db_nodes (ds_delta_builder ds') = db_nodes (ds_delta_builder ds) ++ [nd] ∧
    nd_chitchat_id nd = sn_chitchat_id sn ∧ sn_delta sn nd ∧
    ((∀ sns, add_stale_nodes ds (sn :: sns) = Ok ds') ∨ (∀ sns, add_stale_nodes ds (sn :: sns) = add_stale_nodes ds' sns)).
Proof.
  intros Hds Hwf Hlt Hfit Hnew. cbn [add_stale_nodes]. unfold try_add_node.
  destruct (try_add_op_spec ds (OpNode (sn_chitchat_id sn)
    (last_gc_version (sn_node_state sn)) (sn_from_version_excluded sn)))
    as (ok & ds1 & -> & Hds1 & Hm1 & Hok); [done| |done|done| |].
  { destruct Hwf. split_and!; [done|done|]. simpl in *. lia. }
  { destruct Hfit as [?|(_ & Hfit & _)]; [by left|right; apply Hfit]. }
  cbn [rbind]. destruct ok; [right|subst ds1; by left].
  pose proof (apply_op_inv _ _ _ (di_builder _ Hds) Hok) as [_ Hb1].
  apply apply_op_node in Hok as Hat.
  destruct (add_kvs_spec ds1 _ _ (sn_stale_key_values sn) false Hds1 Hat eq_refl)
    as (full & added & ds2 & dn & rest & -> & Hds2 & Hm2 & Hkvs & Hat2 & Hfull).
  { simpl. apply (sn_mutations_increasing sn), (wn_inv _ _ Hwf). }
  { by apply sn_mutations_wf. }
  { rewrite Hm1. destruct Hfit as [?|(Hfit & _)]; [by left|by right]. }
  cbn [rbind]. simpl in Hat2. fold (sn_mutations sn) in Hkvs.
  set (nd := mkNodeDelta (sn_chitchat_id sn) (sn_from_version_excluded sn)
    (last_gc_version (sn_node_state sn)) dn None) in *.
  assert (sn_delta sn nd) as Hsd by (split; simpl; try done; [by exists rest|by left]).
  pose proof (at_node_nodes _ _ _ Hat2) as Hn2.
  destruct full; [exists ds2, nd; split_and!; try done; [congruence|by left]|].
  destruct (Hfull eq_refl) as [-> Hadded]. rewrite app_nil_r in Hkvs.
  destruct added; [exists ds2, nd; split_and!; try done; [congruence|by right]|].
  assert (sn_mutations sn = []) as Hempty by (unfold sn_mutations; by destruct (sn_stale_key_values sn)).
  unfold try_set_max_version.
  destruct (try_add_op_spec ds2 (OpSetMaxVersion (max_version (sn_node_state sn))))
    as (ok & ds3 & -> & Hds3 & Hm3 & Hok3); [done|apply (wn_max _ _ Hwf)|by exists nd; apply Hat2| | |].
  { intros nd' Hnd'. destruct Hat2 as [_ Hc]. simplify_eq. done. }
  { rewrite Hm2, Hm1. destruct Hfit as [?|(_ & _ & Hfit)]; [by left|right; apply Hfit]. }
  cbn [rbind]. destruct ok; [|subst ds3; exists ds2, nd; split_and!; try done; [congruence|by right]].
  apply (apply_op_max _ _ _ _ _ Hat2), at_node_nodes in Hok3. eexists ds3, _.
  split_and!; [done|congruence|exact Hok3|done| |by right]. split; simpl; try done; [by exists []; rewrite app_nil_r|by right].
Qed.
Lemma add_stale_nodes_spec sns ds : ds_inv ds →
  Forall (λ sn, wf_sn sn ∧ sn_from_version_excluded sn < max_version (sn_node_state sn) ∧
                ops_fit (ds_mtu ds) sn) sns →
  NoDup (sn_chitchat_id <$> sns) →
  (∀ sn, sn ∈ sns → sn_chitchat_id sn ∉ existing_nodes (ds_delta_builder ds)) →
  ∃ ds' done rest new, add_stale_nodes ds sns = Ok ds' ∧ ds_inv ds' ∧ ds_mtu ds' = ds_mtu ds ∧
    sns = done ++ rest ∧ Forall2 sn_delta done new ∧
    db_nodes (ds_delta_builder ds') = db_nodes (ds_delta_builder ds) ++ new.
Proof.
  revert ds. induction sns as [|sn sns IH]; intros ds Hds Hall Hnd Hnew.
  { exists ds, [], [], []. split_and!; try done. by rewrite app_nil_r. }
  apply Forall_cons in Hall as [(Hwf & Hlt & Hfit) Hall].
  rewrite fmap_cons in Hnd. apply NoDup_cons in Hnd as [Hid Hnd].
  destruct (add_stale_node_spec sn ds Hds Hwf Hlt Hfit) as [->|(ds1 & nd & Hds1 & Hm1 & Hn1 & Hid1 & Hsd & Hrun)];
    [apply Hnew; by left|exists ds, [], (sn :: sns), []; split_and!; try done; by rewrite app_nil_r|].
  destruct Hrun as [->| ->].
  { exists ds1, [sn], sns, [nd]. split_and!; try done. constructor; [exact Hsd|constructor]. }
  destruct (IH ds1) as (ds' & d & r & new & -> & Hinv' & Hm' & Hsns & Hf2 & Hnodes);
    [done|by rewrite Hm1|done|by apply (still_new ds ds1 nd sn)|].
  exists ds', (sn :: d), r, (nd :: new). split_and!; [done|done|congruence|by rewrite Hsns|by constructor|].
  by rewrite Hnodes, Hn1, <-(assoc_L (++)).
Qed.

(** ** The reconciliation as a whole *)
Definition cluster_fits (mtu : N) (cs : ClusterState) : Prop :=
  ∀ id ns from, node_states cs !! id = Some ns → ops_fit mtu (mkStaleNode id ns from).
Lemma cluster_fits_u16 mtu cs : mtu ≤ u16_max → cluster_fits mtu cs.
Proof. intros ? id ns from _. by left. Qed.

(** Where the node deltas of a delta come from. *)
Definition delta_of_cluster (cs : ClusterState) (d : Digest) (sched : gset ChitchatId)
    (nd : NodeDelta) : Prop :=
  ∃ ns, node_states cs !! nd_chitchat_id nd = Some ns ∧ nd_chitchat_id nd ∉ sched ∧
    delta_from_version ns (digest_versions d (nd_chitchat_id nd)).1
      (digest_versions d (nd_chitchat_id nd)).2 = Some (nd_from_version_excluded nd) ∧
    sn_delta (mkStaleNode (nd_chitchat_id nd) ns (nd_from_version_excluded nd)) nd.

Lemma stale_candidate_Some d sched p sn : stale_candidate d sched p = Some sn →
  sn_chitchat_id sn = p.1 ∧ sn_node_state sn = p.2 ∧ p.1 ∉ sched ∧
  delta_from_version p.2 (digest_versions d p.1).1 (digest_versions d p.1).2 =
    Some (sn_from_version_excluded sn).
Proof.
  unfold stale_candidate. case_bool_decide; [done|].
  destruct (digest_versions d p.1) as [dgc dmax]. cbn [fst snd].
  destruct (delta_from_version p.2 dgc dmax) as [from|]; [|done].
  intros Hsn. injection Hsn as <-. done.
Qed.
Lemma stale_candidates_NoDup d sched (m : gmap ChitchatId NodeState) :
  NoDup (sn_chitchat_id <$> omap (stale_candidate d sched) (btree_items m)).
Proof.
  pose proof (btree_items_NoDup m) as Hnd.
  induction (btree_items m) as [|p l IH]; [constructor|].
  rewrite fmap_cons in Hnd. apply NoDup_cons in Hnd as [Hp Hnd].
  cbn [omap list_omap]. destruct (stale_candidate d sched p) as [sn|] eqn:E; [|by apply IH].
  rewrite fmap_cons. constructor; [|by apply IH].
  apply stale_candidate_Some in E as (-> & _ & _ & _).
  intros (sn' & Hid & Hin)%list_elem_of_fmap. apply Hp.
  apply list_elem_of_omap in Hin as (p' & Hin' & (Hid' & _)%stale_candidate_Some).
  apply list_elem_of_fmap. exists p'. split; [congruence|done].
Qed.
End loop.

Section compute.
Context `{ZstdOk, ShuffleOk}.

Lemma compute_partial_delta_spec cs d mtu sched :
  cs_inv cs → 100 ≤ mtu → cluster_fits mtu cs →
  ∃ delta payload, compute_partial_delta_respecting_mtu cs d mtu sched = Ok delta ∧
    Forall (delta_of_cluster cs d sched) (node_deltas delta) ∧
    wf_nodes (node_deltas delta) ∧
    Delta_serialize delta = Ok payload ∧ blen payload = delta_serialized_len delta ∧
    (mtu < BLOCK_THRESHOLD ∨ Forall (small_op BLOCK_THRESHOLD) (get_operations delta) →
     delta_serialized_len delta ≤ mtu).
Proof.
  intros Hcs Hmtu Hfits. unfold compute_partial_delta_respecting_mtu.
  destruct (with_mtu mtu) as [ds0| | |] eqn:Hw;
    [|by unfold with_mtu in Hw; rewrite (proj2 (N.leb_le _ _) Hmtu) in Hw..].
  apply with_mtu_inv in Hw as (Hds0 & Hm0 & Hn0). cbn [rbind].
  set (sns := stale_into_iter _).
  assert (sns ≡ₚ omap (stale_candidate d sched) (btree_items (node_states cs))) as Hperm
    by apply stale_into_iter_perm.
  assert (∀ sn, sn ∈ sns → node_states cs !! sn_chitchat_id sn = Some (sn_node_state sn) ∧
    sn_chitchat_id sn ∉ sched ∧
    delta_from_version (sn_node_state sn) (digest_versions d (sn_chitchat_id sn)).1
      (digest_versions d (sn_chitchat_id sn)).2 = Some (sn_from_version_excluded sn)) as Hsns.
  { intros sn. rewrite Hperm. intros (p & Hin & Hc)%list_elem_of_omap.
    destruct p as [id ns]. apply elem_of_btree_items in Hin.
    apply stale_candidate_Some in Hc as (-> & -> & ? & ?). done. }
  destruct (add_stale_nodes_spec sns ds0) as (ds & dn & rest & new & -> & Hds & Hm & Happ & Hf2 & Hnodes).
  - done.
  - apply Forall_forall. intros sn Hsn. destruct (Hsns _ Hsn) as (Hst & _ & Hfrom).
    split; [by apply (Hcs _ _ Hst)|]. split; [apply delta_from_version_lt in Hfrom; apply Hfrom|].
    rewrite Hm0. destruct sn. by apply Hfits.
  - rewrite Hperm. apply stale_candidates_NoDup.
  - intros sn _. rewrite (bi_existing _ (di_builder _ Hds0)), Hn0. set_solver.
  - cbn [rbind]. destruct (ds_finish_spec ds Hds) as (delta & payload & -> & Hnd & Hser & Hlen & Hwf & Hb).
    exists delta, payload. split; [done|]. rewrite Hnodes, Hn0 in Hnd. simpl in Hnd.
    split_and!; try done.
    + rewrite Hnd. apply Forall_forall. intros nd Hin.
      apply list_elem_of_lookup in Hin as [i Hi].
      destruct (Forall2_lookup_r _ _ _ _ _ Hf2 Hi) as (sn & Hsn & Hsd).
      assert (sn ∈ sns) as Hsnin by (rewrite Happ; apply elem_of_app; left; by eapply list_elem_of_lookup_2).
      destruct (Hsns _ Hsnin) as (Hst & Hsc & Hfrom).
      destruct sn as [id ns from]; simpl in *.
      assert (nd_chitchat_id nd = id ∧ nd_from_version_excluded nd = from) as [Hid Hfr]
        by (by destruct Hsd).
      exists ns. rewrite Hid, Hfr. done.
    + intros Hsm. rewrite <-Hm0, <-Hm. apply Hb. unfold get_operations. rewrite Hnd.
      assert (operations new = ds_operations ds) as Hops
        by (unfold ds_operations; by rewrite Hnodes, Hn0).
      destruct (N.lt_ge_cases mtu BLOCK_THRESHOLD) as [Hlt|Hge].
      * rewrite Hops. apply di_small; [done|]. by rewrite Hm, Hm0.
      * destruct Hsm as [?|Hsm]; [lia|]. unfold get_operations in Hsm. rewrite Hnd in Hsm.
        by rewrite N.min_l by (rewrite Hm, Hm0; lia).
Qed.
End compute.

(** ** Properties *)

(** C9: the reconciliation is total and faithful: for a well-formed cluster,
    an MTU of at least 100 bytes, and operations that fit in an item of the
    stream (65535 bytes, which an MTU of at most 65535 ensures; above it an
    entry may be too long, and then the code panics), it returns, without a
    panic, a well-formed delta that encodes in its announced length, decodes
    back, and whose every node delta is a prefix of the entries that the
    peer's digest misses.  It is at most as long as the MTU when the MTU is
    below 16384 bytes, or when none of its operations exceeds a block of that
    size. *)
Theorem reconciliation_total `{ZstdOk, ShuffleOk} cs d mtu sched :
  cs_inv cs → 100 ≤ mtu → cluster_fits mtu cs →
  ∃ delta payload, compute_partial_delta_respecting_mtu cs d mtu sched = Ok delta ∧
    Forall (delta_of_cluster cs d sched) (node_deltas delta) ∧
    wf_nodes (node_deltas delta) ∧
    Delta_serialize delta = Ok payload ∧ blen payload = delta_serialized_len delta ∧
    (∀ rest, Delta_deserialize (payload ++ rest) = Ok (delta, rest)) ∧
    (mtu < BLOCK_THRESHOLD ∨ Forall (small_op BLOCK_THRESHOLD) (get_operations delta) →
     delta_serialized_len delta ≤ mtu).
Proof.
  intros Hcs Hmtu Hfits.
  destruct (compute_partial_delta_spec cs d mtu sched Hcs Hmtu Hfits)
    as (delta & payload & Hc & Hf & Hwf & Hs & Hl & Hb).
  exists delta, payload. split_and!; try done. intros rest.
  by apply Delta_roundtrip.
Qed.
Module EmptyCluster.
#[export] Instance same_order : Shuffle := λ A _ l, l.
Definition empty : ClusterState := with_seed_addrs ∅.
End EmptyCluster.
(** A cluster of one node with two entries, and a peer that has the first. *)
Module OneNode.
Definition id : ChitchatId := mkChitchatId "n" 0 (SockV4 1 1).
Definition state : NodeState :=
  store (store (NodeState_new id) "a" (mkVersionedValue "1" 1 Set_)) "b" (mkVersionedValue "2" 2 Set_).
Definition cs : ClusterState := put_node_state EmptyCluster.empty id state.
Definition digest : Digest := {[ id := mkNodeDigest 0 0 1 ]}.
Definition answer : Delta := mkDelta [mkNodeDelta id 1 0 [mkKeyValueMutation "b" "2" 2 MSet] None] 0.
Lemma cs_ok : cs_inv cs.
Proof.
  intros i ns Hi. simpl in Hi. apply lookup_insert_Some in Hi as [[<- <-]|[_ Hi]];
    [|by rewrite lookup_empty in Hi].
  apply wf_ns_store; [apply wf_ns_store; [apply wf_ns_new| |]| |]; vm_compute; naive_solver.
Qed.
End OneNode.
Lemma reconciliation_total_witness :
  ∃ delta, @compute_partial_delta_respecting_mtu StoreZstd.store EmptyCluster.same_order
    OneNode.cs OneNode.digest 100 ∅ = Ok delta ∧ wf_nodes (node_deltas delta) ∧
    node_deltas delta ≠ [] ∧ delta_serialized_len delta ≤ 100.
Proof.
  destruct (@reconciliation_total StoreZstd.store StoreZstd.store_ok EmptyCluster.same_order
    (λ A n l, Permutation_refl l) OneNode.cs OneNode.digest 100 ∅)
    as (delta & p & H1 & _ & Hwf & _ & _ & _ & H2).
  - exact OneNode.cs_ok.
  - lia.
  - apply cluster_fits_u16. vm_compute. discriminate.
  - exists delta. split_and!; [exact H1|exact Hwf| |apply H2; left; vm_compute; reflexivity].
    intros E. vm_compute in H1. injection H1 as <-. discriminate E.
Defined.

(** No delta from the network breaks the cluster: applying a parsed
    delta keeps every node state well-formed, so the next reconciliation is
    total again. *)
Theorem apply_delta_keeps_cluster cs d now r : cs_inv cs → wf_nodes (node_deltas d) →
  cluster_apply_delta cs d now = Ok r → cs_inv r.1.
Proof. intros Hcs [_ Hwf] Hr. by eapply apply_node_deltas_inv. Qed.
Lemma apply_delta_keeps_cluster_witness : cs_inv EmptyCluster.empty.
Proof.
  apply (apply_delta_keeps_cluster EmptyCluster.empty Delta_default 0 (EmptyCluster.empty, [])).
  - intros id ns Hid. simpl in Hid. by rewrite lookup_empty in Hid.
  - split; constructor.
  - reflexivity.
Defined.

(** Every node with news for the peer is offered exactly once, whatever
    the shuffle does. *)
Theorem stale_nodes_complete `{ShuffleOk} d sched cs :
  stale_into_iter (collect_stale d sched (btree_items (node_states cs)) []) ≡ₚ
  omap (stale_candidate d sched) (btree_items (node_states cs)).
Proof. apply stale_into_iter_perm. Qed.
