(* ===== verification/Packing.v ===== *)
(** * What the MTU leaves room for (chitchat/src/state.rs, delta.rs)

    [Cluster] says that the delta computed for a digest is faithful; here it is
    not empty-handed.  With room for the header of every node and for any one
    entry, a delta carries an entry, unless no entry is missing, and then it
    carries the [max_version] of every stale node. *)
From S2P Require Import Prelude Types Serialize Stream Listener Delta Message NodeState Cluster.
Open Scope N_scope.

(** ** The length of headers *)
#[local] Transparent codec_DeltaOp.
Definition node_op_len (id : ChitchatId) : N := 17 + serialized_len codec_ChitchatId id.
Lemma slen_OpNode id g f : serialized_len codec_DeltaOp (OpNode id g f) = node_op_len id.
Proof. unfold node_op_len. cbn [codec_DeltaOp serialized_len]. rewrite !slen_u64. lia. Qed.
Lemma slen_OpSetMaxVersion v : serialized_len codec_DeltaOp (OpSetMaxVersion v) = 9.
Proof. cbn [codec_DeltaOp serialized_len]. by rewrite slen_u64. Qed.
#[local] Opaque codec_DeltaOp.
(** What a stale node without entries costs at most: its two operations, and
    a block started by each. *)
Definition header_room (id : ChitchatId) : N := node_op_len id + 9 + 6.

Section packing.
Context `{ZstdOk}.
Implicit Types ds : DeltaSerializer.

(** ** Room is enough for an operation to be accepted *)
Definition weight ds : N := blen (output (ds_writer ds)) + blen (uncompressed_block (ds_writer ds)).
Lemma try_add_op_room ds op : ds_inv ds → wf_DeltaOp op →
  op_accepted (ds_delta_builder ds) op → op_canonical (ds_delta_builder ds) op →
  (ds_mtu ds ≤ u16_max ∨ small_op u16_max op) →
  weight ds + serialized_len codec_DeltaOp op + 7 ≤ ds_mtu ds →
  ∃ ds', try_add_op ds op = Ok (true, ds') ∧ ds_inv ds' ∧ ds_mtu ds' = ds_mtu ds ∧
    apply_op (ds_delta_builder ds) op = Ok (ds_delta_builder ds') ∧
    (small_op (N.min BLOCK_THRESHOLD (ds_mtu ds)) op →
     weight ds' ≤ weight ds + serialized_len codec_DeltaOp op + 3).
Proof.
  intros Hinv Hwf Hacc Hcan Hsmall Hroom.
  destruct (try_add_op_spec ds op Hinv Hwf Hacc Hcan Hsmall) as (ok & ds' & Hadd & Hinv' & Hm & Hok).
  destruct (di_writer_inv _ Hinv) as [Hw Ht]. unfold weight in *.
  pose proof Hadd as Hrun. unfold try_add_op in Hrun. rewrite upperbound_after_eq in Hrun. cbn [rbind] in Hrun.
  match type of Hrun with context [ds_mtu ds <? ?b] => assert (ds_mtu ds <? b = false) as Hb end.
  { apply N.ltb_ge. destruct (block_threshold _ <? _); lia. }
  rewrite Hb in Hrun. assert (serialized_len codec_DeltaOp op ≤ u16_max) as Hitem
    by (unfold small_op in *; destruct Hsmall; lia).
  destruct (append_spec codec_DeltaOp _ _ op Hw Hitem) as (w' & k & Happ & Hw' & _ & Hk & Hout & Hpos).
  rewrite Happ in Hrun. cbn [rbind] in Hrun.
  destruct (apply_op_accepted _ _ (di_builder _ Hinv) Hacc) as [b' Hb']. rewrite Hb' in Hrun.
  apply Ok_inj in Hrun. injection Hrun as <- <-. exists (mkDeltaSerializer (ds_mtu ds) b' w').
  split_and!; [done|done|done|done|]. simpl. intros Hop. unfold small_op in Hop.
  destruct Hw as [[Hp _] [Hunc _]]. rewrite Ht in *.
  assert (k < 2) by nia. assert (k = 0 ∨ k = 1) as [-> | ->] by lia; lia.
Qed.

(** ** The loop over the stale nodes *)
Context `{Shuffle}.
Record sns_room (mtu weight : N) (sns : list StaleNode) : Prop := {
  sr_small : ∀ sn, sn ∈ sns → node_op_len (sn_chitchat_id sn) ≤ N.min BLOCK_THRESHOLD mtu;
  sr_headers : weight + sum_of (header_room ∘ sn_chitchat_id) sns + 7 ≤ mtu;
  sr_entries : ∀ sn kv, sn ∈ sns → kv ∈ sn_mutations sn →
    weight + sum_of (header_room ∘ sn_chitchat_id) sns + serialized_len codec_DeltaOp (OpKeyValue kv) + 7 ≤ mtu;
}.
Lemma sns_room_tail mtu w w' sn sns : sns_room mtu w (sn :: sns) → w' ≤ w + header_room (sn_chitchat_id sn) →
  sns_room mtu w' sns.
Proof.
  intros [Hs Hh He] Hw. simpl in *. split.
  - intros sn' Hin. apply Hs. by right.
  - lia.
  - intros sn' kv Hin Hkv. specialize (He sn' kv ltac:(by right) Hkv). lia.
Qed.
Definition announced (sn : StaleNode) (nds : list NodeDelta) : Prop :=
  ∃ nd, nd ∈ nds ∧ nd_chitchat_id nd = sn_chitchat_id sn ∧ nd_max_version nd = Some (max_version (sn_node_state sn)).
Definition carries_something (sns : list StaleNode) (nds : list NodeDelta) : Prop :=
  (∃ nd, nd ∈ nds ∧ nd_key_values nd ≠ []) ∨
  (∀ sn, sn ∈ sns → sn_mutations sn = [] ∧ announced sn nds).

Lemma carries_later sn sns nd new : sn_mutations sn = [] → nd_chitchat_id nd = sn_chitchat_id sn →
  nd_max_version nd = Some (max_version (sn_node_state sn)) →
  carries_something sns new → carries_something (sn :: sns) (nd :: new).
Proof.
  intros Hnil Hid Hmax [(nd' & Hin & Hne)|Hc]; [left; exists nd'; split; [by right|done]|right].
  intros sn' [->|Hin]%elem_of_cons.
  - split; [done|]. exists nd. split; [by left|done].
  - destruct (Hc sn' Hin) as [? (nd' & Hin' & ?)]. split; [done|]. exists nd'. split; [by right|done].
Qed.

(** The header of a node. *)
Lemma try_add_node_room ds sn sns : ds_inv ds → wf_sn sn → sn_from_version_excluded sn < max_version (sn_node_state sn) →
  ops_fit (ds_mtu ds) sn → sn_chitchat_id sn ∉ existing_nodes (ds_delta_builder ds) →
  sns_room (ds_mtu ds) (weight ds) (sn :: sns) →
  ∃ ds', try_add_node ds (sn_chitchat_id sn) (last_gc_version (sn_node_state sn)) (sn_from_version_excluded sn) = Ok (true, ds') ∧
    ds_inv ds' ∧ ds_mtu ds' = ds_mtu ds ∧ weight ds' ≤ weight ds + node_op_len (sn_chitchat_id sn) + 3 ∧
    at_node (ds_delta_builder ds') (db_nodes (ds_delta_builder ds))
      (mkNodeDelta (sn_chitchat_id sn) (sn_from_version_excluded sn) (last_gc_version (sn_node_state sn)) [] None).
Proof.
  intros Hds Hwf Hlt Hfit Hid Hr. unfold try_add_node.
  destruct (try_add_op_room ds (OpNode (sn_chitchat_id sn) (last_gc_version (sn_node_state sn))
    (sn_from_version_excluded sn)) Hds) as (ds1 & Hadd & Hds1 & Hm1 & Happ & Hw1).
  - destruct Hwf. split_and!; [done|done|]. simpl in *. lia.
  - exact Hid.
  - done.
  - destruct Hfit as [?|(_ & Hfit & _)]; [by left|right; apply Hfit].
  - rewrite slen_OpNode. pose proof (sr_headers _ _ _ Hr) as Hh. simpl in Hh. unfold header_room in Hh. lia.
  - exists ds1. split_and!; [done|done|done| |by apply apply_op_node in Happ].
    rewrite slen_OpNode in Hw1. apply Hw1. unfold small_op. rewrite slen_OpNode.
    apply (sr_small _ _ _ Hr). by left.
Qed.
(** A node without entries announces its [max_version]. *)
Lemma try_set_max_room ds pre nd v : ds_inv ds → at_node (ds_delta_builder ds) pre nd → nd_max_version nd = None →
  fits 64 v → (ds_mtu ds ≤ u16_max ∨ small_op u16_max (OpSetMaxVersion v)) → weight ds + 16 ≤ ds_mtu ds →
  ∃ ds', try_set_max_version ds v = Ok (true, ds') ∧ ds_inv ds' ∧ ds_mtu ds' = ds_mtu ds ∧ weight ds' ≤ weight ds + 12 ∧
    at_node (ds_delta_builder ds') pre (mkNodeDelta (nd_chitchat_id nd) (nd_from_version_excluded nd)
      (nd_last_gc_version nd) (nd_key_values nd) (Some v)).
Proof.
  intros Hds Hat Hmax Hv Hfit Hr. unfold try_set_max_version. destruct Hat as [Hpre Hcur].
  destruct (try_add_op_room ds (OpSetMaxVersion v) Hds) as (ds1 & Hadd & Hds1 & Hm1 & Happ & Hw1).
  - exact Hv.
  - by exists nd.
  - intros nd' Hnd'. congruence.
  - done.
  - rewrite slen_OpSetMaxVersion. lia.
  - exists ds1. split_and!; [done|done|done| |by eapply apply_op_max; [split|]].
    rewrite slen_OpSetMaxVersion in Hw1. assert (weight ds1 ≤ weight ds + 9 + 3); [|lia]. apply Hw1.
    unfold small_op. rewrite slen_OpSetMaxVersion. pose proof (di_mtu _ Hds). unfold BLOCK_THRESHOLD. lia.
Qed.
(** The first entry of a node gets in, and the others go on from there. *)
Lemma add_kvs_room ds pre nd kv kvs added : ds_inv ds →
  at_node (ds_delta_builder ds) pre nd → nd_max_version nd = None → nd_key_values nd = [] →
  let kvms := (λ p, kv_of_vv p.1 p.2) <$> (kv :: kvs) in
  kv_increasing kvms → Forall wf_KeyValueMutation kvms →
  (ds_mtu ds ≤ u16_max ∨ Forall (λ kv, small_op u16_max (OpKeyValue kv)) kvms) →
  weight ds + serialized_len codec_DeltaOp (OpKeyValue (kv_of_vv kv.1 kv.2)) + 7 ≤ ds_mtu ds →
  ∃ full ds' nd', add_kvs ds (kv :: kvs) added = Ok (full, true, ds') ∧ ds_inv ds' ∧ ds_mtu ds' = ds_mtu ds ∧
    at_node (ds_delta_builder ds') pre nd' ∧ nd_chitchat_id nd' = nd_chitchat_id nd ∧ nd_key_values nd' ≠ [].
Proof.
  intros Hds Hat Hmax Hnil kvms Hinc Hwf Hfit Hroom. subst kvms. destruct kv as [k v].
  rewrite fmap_cons in *. cbn [fst snd] in *. apply Forall_cons in Hwf as [Hkv Hwf].
  destruct (try_add_op_room ds (OpKeyValue (kv_of_vv k v)) Hds) as (ds1 & Hadd & Hds1 & Hm1 & Happ & _).
  - done.
  - exists nd. split; [apply Hat|]. rewrite Hnil. simpl. constructor; constructor.
  - intros nd' Hnd'. destruct Hat as [_ Hat]. congruence.
  - destruct Hfit as [?|Hfit]; [by left|right]. by apply Forall_cons in Hfit as [? _].
  - done.
  - apply (apply_op_kv _ _ _ _ _ Hat) in Happ. rewrite Hnil in Happ. simpl in Happ.
    cbn [add_kvs]. unfold try_add_kv. rewrite Hadd. cbn [rbind].
    destruct (add_kvs_spec ds1 pre _ kvs true Hds1 Happ Hmax)
      as (full & added' & ds' & dn & rest & Heq & Hds' & Hm' & _ & Hat' & Hfull).
    + done.
    + done.
    + rewrite Hm1. destruct Hfit as [?|Hfit]; [by left|right]. by apply Forall_cons in Hfit as [_ ?].
    + assert (added' = true) as ->.
      { clear -Heq. revert ds1 Heq. induction kvs as [|[k' v'] kvs IH]; intros ds1; cbn [add_kvs].
        - intros Heq. by injection Heq.
        - unfold try_add_kv. destruct (try_add_op ds1 _) as [[ok ds2]| | |]; try done. cbn [rbind].
          destruct ok; [apply IH|]. intros Heq. by injection Heq. }
      eexists full, ds', _. split; [exact Heq|]. split; [done|]. split; [congruence|]. split; [exact Hat'|]. done.
Qed.
(** The nodes before the first one with entries are announced. *)
Lemma add_stale_nodes_room sns ds : ds_inv ds →
  Forall (λ sn, wf_sn sn ∧ sn_from_version_excluded sn < max_version (sn_node_state sn) ∧
                ops_fit (ds_mtu ds) sn) sns →
  NoDup (sn_chitchat_id <$> sns) →
  (∀ sn, sn ∈ sns → sn_chitchat_id sn ∉ existing_nodes (ds_delta_builder ds)) →
  sns_room (ds_mtu ds) (weight ds) sns →
  ∃ ds' new, add_stale_nodes ds sns = Ok ds' ∧
    db_nodes (ds_delta_builder ds') = db_nodes (ds_delta_builder ds) ++ new ∧ carries_something sns new.
Proof.
  revert ds. induction sns as [|sn sns IH]; intros ds Hds Hall Hnd Hnew Hr.
  { exists ds, []. split_and!; [done|by rewrite app_nil_r|]. right. set_solver. }
  pose proof Hall as [(Hwf & Hlt & Hfit) Hall']%Forall_cons.
  rewrite fmap_cons in Hnd. apply NoDup_cons in Hnd as [Hid Hnd].
  destruct (try_add_node_room ds sn sns) as (ds1 & Hnode & Hds1 & Hm1 & Hw1 & Hat1); [done..|apply Hnew; by left|done|].
  (* the other nodes, once this one is written as [nd] *)
  assert (∀ ds2 nd, ds_inv ds2 → ds_mtu ds2 = ds_mtu ds → at_node (ds_delta_builder ds2) (db_nodes (ds_delta_builder ds)) nd →
    nd_chitchat_id nd = sn_chitchat_id sn →
    ∀ sn', sn' ∈ sns → sn_chitchat_id sn' ∉ existing_nodes (ds_delta_builder ds2)) as Hfresh.
  { intros ds2 nd Hds2 Hm2 Hat2%at_node_nodes Hid2. by apply (still_new ds ds2 nd sn). }
  cbn [add_stale_nodes]. rewrite Hnode. cbn [rbind].
  destruct (sn_stale_key_values sn) as [|kv kvs] eqn:Ekvs.
  - assert (sn_mutations sn = []) as Hnil by (unfold sn_mutations; by rewrite Ekvs).
    cbn [add_kvs rbind]. pose proof (sr_headers _ _ _ Hr) as Hh. simpl in Hh. unfold header_room in Hh.
    destruct (try_set_max_room ds1 _ _ (max_version (sn_node_state sn)) Hds1 Hat1 eq_refl)
      as (ds2 & Hset & Hds2 & Hm2 & Hw2 & Hat2).
    + apply (wn_max _ _ Hwf).
    + rewrite Hm1. destruct Hfit as [?|(_ & _ & Hfit)]; [by left|right; apply Hfit].
    + lia.
    + rewrite Hset. cbn [rbind]. simpl in Hat2.
      destruct (IH ds2) as (ds' & new & Hrun & Hnodes & Hc); [done| |done|by eapply Hfresh; [|congruence|..]| |].
      { by rewrite Hm2, Hm1. }
      { rewrite Hm2, Hm1. eapply sns_room_tail; [exact Hr|]. unfold header_room. lia. }
      eexists ds', (_ :: new). split; [exact Hrun|]. rewrite Hnodes, (at_node_nodes _ _ _ Hat2), <-app_assoc.
      split; [reflexivity|]. by apply carries_later.
  - assert (sn_mutations sn = (λ p, kv_of_vv p.1 p.2) <$> (kv :: kvs)) as Hmut by (unfold sn_mutations; by rewrite Ekvs).
    destruct (add_kvs_room ds1 _ _ kv kvs false Hds1 Hat1 eq_refl eq_refl)
      as (full & ds2 & nd & Hrun & Hds2 & Hm2 & Hat2 & Hid2 & Hne).
    + rewrite <-Hmut. apply sn_mutations_increasing, (wn_inv _ _ Hwf).
    + rewrite <-Hmut. by apply sn_mutations_wf.
    + rewrite <-Hmut, Hm1. destruct Hfit as [?|(Hfit & _)]; [by left|by right].
    + pose proof (sr_entries _ _ _ Hr sn (kv_of_vv kv.1 kv.2) ltac:(by left)) as He.
      rewrite Hm1. simpl in He. unfold header_room in He. rewrite Hmut in He. specialize (He ltac:(by left)). lia.
    + rewrite Hrun. cbn [rbind]. simpl in Hid2. rewrite Hm1 in Hm2.
      assert (∃ ds' new, (if full then Ok ds2 else add_stale_nodes ds2 sns) = Ok ds' ∧
        db_nodes (ds_delta_builder ds') = db_nodes (ds_delta_builder ds2) ++ new) as (ds' & new & Hrest & Hnodes).
      { destruct full; [exists ds2, []; by rewrite app_nil_r|].
        destruct (add_stale_nodes_spec sns ds2 Hds2) as (ds' & dn & rest & new & Hq1 & _ & _ & _ & _ & Hq2);
          [by rewrite Hm2|done|by eapply Hfresh|]. by exists ds', new. }
      exists ds', (nd :: new). split; [by destruct full|].
      rewrite Hnodes, (at_node_nodes _ _ _ Hat2), <-app_assoc. split; [done|]. left. exists nd. split; [by left|done].
Qed.

(** ** A whole cluster *)
Definition headers (cs : ClusterState) : N := sum_of header_room (btree_items (node_states cs)).*1.
Record roomy (mtu : N) (cs : ClusterState) : Prop := {
  rm_small : ∀ id ns, node_states cs !! id = Some ns → node_op_len id ≤ N.min BLOCK_THRESHOLD mtu;
  rm_headers : headers cs + 7 ≤ mtu;
  rm_entries : ∀ id ns k v, node_states cs !! id = Some ns → key_values ns !! k = Some v →
    headers cs + serialized_len codec_DeltaOp (OpKeyValue (kv_of_vv k v)) + 7 ≤ mtu;
}.
End packing.

Section compute.
Context `{ZstdOk, ShuffleOk}.
Definition stale_nodes (cs : ClusterState) (d : Digest) (sched : gset ChitchatId) : list StaleNode :=
  omap (stale_candidate d sched) (btree_items (node_states cs)).
Lemma elem_of_stale_nodes cs d sched sn : sn ∈ stale_nodes cs d sched ↔
  node_states cs !! sn_chitchat_id sn = Some (sn_node_state sn) ∧ sn_chitchat_id sn ∉ sched ∧
  delta_from_version (sn_node_state sn) (digest_versions d (sn_chitchat_id sn)).1
    (digest_versions d (sn_chitchat_id sn)).2 = Some (sn_from_version_excluded sn).
Proof.
  unfold stale_nodes. rewrite list_elem_of_omap. split.
  - intros ([id ns] & Hin & Hc). apply elem_of_btree_items in Hin.
    by apply stale_candidate_Some in Hc as (-> & -> & ? & ?).
  - destruct sn as [id ns from]. simpl. intros (Hin & Hs & Hf). exists (id, ns). split; [by apply elem_of_btree_items|].
    unfold stale_candidate. simpl. rewrite bool_decide_eq_false_2 by done.
    destruct (digest_versions d id) as [dgc dmax]. simpl in Hf. by rewrite Hf.
Qed.
Lemma stale_headers cs d sched sns : sns ≡ₚ stale_nodes cs d sched →
  sum_of (header_room ∘ sn_chitchat_id) sns ≤ headers cs.
Proof.
  intros ->. unfold headers.
  assert (∀ l, sum_of (header_room ∘ sn_chitchat_id) l = sum_of header_room (sn_chitchat_id <$> l)) as ->.
  { intros l. induction l as [|x l IH]; simpl; [done|]. by rewrite IH. }
  apply sum_of_submseteq, NoDup_submseteq; [apply stale_candidates_NoDup|].
  intros id (sn & -> & Hin)%list_elem_of_fmap. apply elem_of_stale_nodes in Hin as (Hin & _ & _).
  apply list_elem_of_fmap. exists (sn_chitchat_id sn, sn_node_state sn). split; [done|]. by apply elem_of_btree_items.
Qed.
Lemma computed_carries_something cs d mtu sched : cs_inv cs → 100 ≤ mtu → cluster_fits mtu cs → roomy mtu cs →
  ∃ delta, compute_partial_delta_respecting_mtu cs d mtu sched = Ok delta ∧
    carries_something (stale_nodes cs d sched) (node_deltas delta).
Proof.
  intros Hcs Hmtu Hfits Hroom. unfold compute_partial_delta_respecting_mtu.
  destruct (with_mtu mtu) as [ds0| | |] eqn:Hw;
    [|by unfold with_mtu in Hw; rewrite (proj2 (N.leb_le _ _) Hmtu) in Hw..].
  assert (weight ds0 = 0) as Hw0.
  { unfold with_mtu in Hw. rewrite (proj2 (N.leb_le _ _) Hmtu) in Hw. by injection Hw as <-. }
  apply with_mtu_inv in Hw as (Hds0 & Hm0 & Hn0). cbn [rbind].
  set (sns := stale_into_iter _).
  assert (sns ≡ₚ stale_nodes cs d sched) as Hperm by apply stale_into_iter_perm.
  assert (∀ sn, sn ∈ sns → node_states cs !! sn_chitchat_id sn = Some (sn_node_state sn) ∧
    sn_from_version_excluded sn < max_version (sn_node_state sn)) as Hsns.
  { intros sn. rewrite Hperm. intros (Hin & _ & Hf)%elem_of_stale_nodes.
    split; [done|]. apply delta_from_version_lt in Hf. apply Hf. }
  pose proof (stale_headers cs d sched sns Hperm) as Hh. destruct Hroom as [Rs Rh Re].
  destruct (add_stale_nodes_room sns ds0 Hds0) as (ds & new & Hrun & Hnodes & Hc).
  - apply Forall_forall. intros sn Hin. destruct (Hsns sn Hin) as [Hst Hlt].
    split; [by apply (Hcs _ _ Hst)|]. split; [done|]. rewrite Hm0. destruct sn. by apply Hfits.
  - rewrite Hperm. apply stale_candidates_NoDup.
  - intros sn _. rewrite (bi_existing _ (di_builder _ Hds0)), Hn0. set_solver.
  - rewrite Hm0, Hw0. split.
    + intros sn Hin. destruct (Hsns sn Hin) as [Hst _]. by apply (Rs _ _ Hst).
    + lia.
    + intros sn kv Hin Hkv. destruct (Hsns sn Hin) as [Hst _]. unfold sn_mutations in Hkv.
      apply list_elem_of_fmap in Hkv as ([k v] & -> & Hkv). apply elem_of_sn_stale in Hkv as [Hkv _].
      pose proof (Re _ _ k v Hst Hkv). simpl in *. lia.
  - rewrite Hrun. cbn [rbind]. destruct (add_stale_nodes_spec sns ds0 Hds0)
      as (ds' & dn & rest & new' & Hrun' & Hds & _); [| | |rewrite Hrun in Hrun'; injection Hrun' as <-].
    + apply Forall_forall. intros sn Hin. destruct (Hsns sn Hin) as [Hst Hlt].
      split; [by apply (Hcs _ _ Hst)|]. split; [done|]. rewrite Hm0. destruct sn. by apply Hfits.
    + rewrite Hperm. apply stale_candidates_NoDup.
    + intros sn _. rewrite (bi_existing _ (di_builder _ Hds0)), Hn0. set_solver.
    + destruct (ds_finish_spec ds Hds) as (delta & payload & Hfin & Hnd & _). exists delta. split; [done|].
      rewrite Hnd, Hnodes, Hn0. simpl. destruct Hc as [?|Hc]; [by left|right].
      intros sn. rewrite <-Hperm. apply Hc.
Qed.
End compute.
