(* ===== verification/Replication.v ===== *)
(** * Replication of one node's key-values

    The contract behind [apply_delta] and the deltas computed by
    [compute_partial_delta_respecting_mtu] (state.rs).  One node, the owner,
    writes; every process keeps a replica of the owner's [NodeState] and
    forwards deltas computed from its replica.  The history of the owner's
    writes is the abstract specification: [replica_ok] says which part of the
    history a replica represents, and is kept by every operation as long as
    deliveries are safe ([safe_delivery]). *)
From S2P Require Import Prelude Types Serialize Stream Listener Delta Message NodeState Cluster.
Open Scope N_scope.

(** ** Histories *)

(** The [i]-th write of the owner has version [i + 1]. *)
Abbreviation history := (list KeyValueMutation).
Definition hist_ok (h : history) : Prop :=
  ∀ i kv, h !! i = Some kv → kv_version kv = N.of_nat i + 1.
Definition latest (h : history) (k : string) : option KeyValueMutation :=
  last (filter (λ kv, kv_key kv = k) h).
Abbreviation kv_sched kv := (scheduled_for_deletion (kv_status kv) = true).

Lemma latest_snoc h kv k : latest (h ++ [kv]) k = if decide (kv_key kv = k) then Some kv else latest h k.
Proof.
  unfold latest. rewrite filter_app, filter_cons, filter_nil.
  case_decide; [by rewrite last_snoc|]. by rewrite app_nil_r.
Qed.
Lemma latest_elem h k kv : latest h k = Some kv → kv ∈ h ∧ kv_key kv = k.
Proof. intros Hl%last_Some_elem_of. apply list_elem_of_filter in Hl. tauto. Qed.
Lemma hist_ok_snoc h kv : hist_ok h → kv_version kv = blen h + 1 → hist_ok (h ++ [kv]).
Proof.
  intros Hh Hkv i kv'. rewrite lookup_app_Some. intros [Hi|[Hi Hkv']]; [by apply Hh|].
  apply list_lookup_singleton_Some in Hkv' as [Hz <-]. rewrite Hkv. unfold blen.
  assert (i = length h) as -> by lia. lia.
Qed.
Lemma hist_ok_snoc_inv h kv : hist_ok (h ++ [kv]) → hist_ok h ∧ kv_version kv = blen h + 1.
Proof.
  intros Hh. split.
  - intros i kv' Hi. apply Hh. by apply lookup_app_l_Some.
  - rewrite (Hh (length h) kv); [done|]. by rewrite lookup_app_r, Nat.sub_diag.
Qed.
Lemma hist_version_bound h kv : hist_ok h → kv ∈ h → 0 < kv_version kv ≤ blen h.
Proof.
  intros Hh [i Hi]%list_elem_of_lookup. rewrite (Hh _ _ Hi).
  apply lookup_lt_Some in Hi. unfold blen. lia.
Qed.
Lemma hist_version_inj h kv1 kv2 : hist_ok h → kv1 ∈ h → kv2 ∈ h →
  kv_version kv1 = kv_version kv2 → kv1 = kv2.
Proof.
  intros Hh [i Hi]%list_elem_of_lookup [j Hj]%list_elem_of_lookup.
  rewrite (Hh _ _ Hi), (Hh _ _ Hj). intros Heq.
  assert (i = j) as -> by lia. congruence.
Qed.
(** The latest write of a key has the greatest version. *)
Lemma latest_max h k kv kv' : hist_ok h → latest h k = Some kv → kv' ∈ h → kv_key kv' = k →
  kv_version kv' ≤ kv_version kv.
Proof.
  induction h as [|x h IH] using rev_ind; [set_solver|].
  intros Hh. rewrite latest_snoc. apply hist_ok_snoc_inv in Hh as Hh'. destruct Hh' as [Hh' Hx].
  intros Hl [Hin| ->%list_elem_of_singleton]%elem_of_app Hk.
  - apply (hist_version_bound _ _ Hh') in Hin as Hb. case_decide; simplify_eq; [lia|]. by apply IH.
  - rewrite decide_True in Hl by done. by simplify_eq.
Qed.

(** ** What a replica represents *)
Record replica_ok (h : history) (ns : NodeState) : Prop := {
  ro_inv : ns_inv ns;
  (** entries are writes of the owner *)
  ro_genuine : ∀ k v, key_values ns !! k = Some v → kv_of_vv k v ∈ h;
  (** the latest write of a key, up to [max_version], is there or was a
      collected deletion *)
  ro_complete : ∀ k kv, latest h k = Some kv → kv_version kv ≤ max_version ns →
    (∃ v, key_values ns !! k = Some v ∧ kv_of_vv k v = kv) ∨
    (key_values ns !! k = None ∧ kv_sched kv ∧ kv_version kv ≤ last_gc_version ns);
  (** an overwritten entry is going to be replaced *)
  ro_stale : ∀ k v kv, key_values ns !! k = Some v → latest h k = Some kv →
    vv_version v < kv_version kv →
    max_version ns < kv_version kv ∧ last_gc_version ns < kv_version kv;
  ro_max : max_version ns ≤ blen h;
  ro_gc : last_gc_version ns ≤ blen h;
}.

(** ** What a delta promises *)
Definition nd_upto (nd : NodeDelta) : Version :=
  match last (nd_key_values nd) with
  | Some kv => kv_version kv
  | None => default (nd_from_version_excluded nd) (nd_max_version nd)
  end.
Record delta_ok (h : history) (nd : NodeDelta) : Prop := {
  do_increasing : kv_increasing (nd_key_values nd);
  do_keys : NoDup (kv_key <$> nd_key_values nd);
  do_genuine : ∀ kv, kv ∈ nd_key_values nd → kv ∈ h;
  do_complete : ∀ k kv, latest h k = Some kv →
    nd_from_version_excluded nd < kv_version kv ≤ nd_upto nd →
    kv ∈ nd_key_values nd ∨ (kv_sched kv ∧ kv_version kv ≤ nd_last_gc_version nd);
  do_stale : ∀ kv0 kv, kv0 ∈ nd_key_values nd → latest h (kv_key kv0) = Some kv →
    kv_version kv0 < kv_version kv →
    nd_upto nd < kv_version kv ∧ nd_last_gc_version nd < kv_version kv;
  do_upto : nd_upto nd ≤ blen h;
  do_gc : nd_last_gc_version nd ≤ blen h;
}.

(** The deliveries for which [apply_delta] keeps its promise: an extension
    must not let the receiver's own watermark hide a deletion that the delta
    does not cover, and a reset must be computed from version 0. *)
Definition safe_delivery (ns : NodeState) (nd : NodeDelta) : Prop :=
  match decide_delta ns nd with
  | Reject => True
  | Extend => last_gc_version ns ≤ N.max (max_version ns) (nd_last_gc_version nd)
  | Reset => nd_from_version_excluded nd = 0
  end.
#[export] Instance safe_delivery_dec ns nd : Decision (safe_delivery ns nd).
Proof. unfold safe_delivery. destruct (decide_delta ns nd); apply _. Defined.

(** ** The history grows *)
Lemma replica_ok_grow h kv ns : hist_ok (h ++ [kv]) → replica_ok h ns → replica_ok (h ++ [kv]) ns.
Proof.
  intros [Hh Hkv]%hist_ok_snoc_inv [Hi Hg Hc Hs Hm Hgc].
  split; [done| | | |rewrite blen_app; lia|rewrite blen_app; lia].
  - intros k v Hk. apply elem_of_app. left. auto.
  - intros k kv'. rewrite latest_snoc. case_decide; [|by apply Hc].
    intros [= <-]. lia.
  - intros k v kv' Hk. rewrite latest_snoc. case_decide; [|by apply Hs].
    intros [= <-]. lia.
Qed.
Lemma delta_ok_grow h kv nd : hist_ok (h ++ [kv]) → delta_ok h nd → delta_ok (h ++ [kv]) nd.
Proof.
  intros [Hh Hkv]%hist_ok_snoc_inv [Hi Hk Hg Hc Hs Hm Hgc].
  split; [done|done| | | |rewrite blen_app; lia|rewrite blen_app; lia].
  - intros kv' Hkv'. apply elem_of_app. left. auto.
  - intros k kv'. rewrite latest_snoc. case_decide; [|by apply Hc].
    intros [= <-]. lia.
  - intros kv0 kv' Hkv0. rewrite latest_snoc. case_decide; [|by apply Hs].
    intros [= <-]. lia.
Qed.

(** ** The owner *)
Definition owner_ok (h : history) (ns : NodeState) : Prop :=
  replica_ok h ns ∧ max_version ns = blen h.
Lemma replica_ok_new id : replica_ok [] (NodeState_new id).
Proof.
  split; simpl; try lia; try (intros *; by rewrite lookup_empty); done || apply ns_inv_new.
Qed.
Lemma owner_ok_store h ns key v : hist_ok h → owner_ok h ns →
  vv_version v = max_version ns + 1 →
  hist_ok (h ++ [kv_of_vv key v]) ∧ owner_ok (h ++ [kv_of_vv key v]) (store ns key v).
Proof.
  intros Hh [Hr Hmax] Hv.
  assert (hist_ok (h ++ [kv_of_vv key v])) as Hh' by (apply hist_ok_snoc; [done|cbn [kv_of_vv kv_version]; lia]).
  split; [done|]. split; [|rewrite blen_app, blen_cons, blen_nil; cbn [store set_max_version max_version]; lia].
  destruct (replica_ok_grow _ _ _ Hh' Hr) as [Hi Hg Hc Hs Hm Hgc].
  split; cbn [store set_max_version set_key_values max_version key_values last_gc_version];
    [apply store_inv; [done|lia]| | | |rewrite blen_app, blen_cons, blen_nil; lia|done].
  - intros k w. rewrite lookup_insert_Some. intros [[<- <-]|[_ Hk]]; [|by apply Hg].
    apply elem_of_app. right. by left.
  - intros k kv. rewrite latest_snoc. simpl. case_decide as Hk.
    + intros [= <-] _. subst. left. exists v. by rewrite lookup_insert_eq.
    + rewrite lookup_insert_ne by done. intros Hl _. apply Hc; [by rewrite latest_snoc, decide_False|].
      apply latest_elem in Hl as [Hin _]. apply (hist_version_bound _ _ Hh) in Hin. lia.
  - intros k w kv. rewrite lookup_insert_Some, latest_snoc. simpl.
    intros [[<- <-]|[Hne Hk]].
    + rewrite decide_True by done. intros [= <-]. simpl. lia.
    + rewrite decide_False by done. intros Hl Hlt. exfalso.
      pose proof (latest_elem _ _ _ Hl) as [Hin _].
      pose proof (hist_version_bound _ _ Hh Hin).
      destruct (ro_stale _ _ Hr k w kv Hk Hl Hlt). lia.
Qed.

(** ** Garbage collection *)
Lemma replica_ok_gc h ns grace now : hist_ok h → replica_ok h ns →
  replica_ok h (gc_keys_marked_for_deletion ns grace now).
Proof.
  intros Hh Hr. pose proof Hr as [Hi Hg Hc Hs Hm Hgc].
  pose proof (gc_last_gc_ge ns grace now) as Hge.
  assert (∀ n, last_gc_version ns < n → max_version ns < n →
    last_gc_version (gc_keys_marked_for_deletion ns grace now) < n) as Hlt.
  { intros n H1 H2. destruct (gc_last_gc_cases ns grace now) as [->|(k & v & Hk & _ & ->)]; [done|].
    apply (ni_bound _ Hi) in Hk. lia. }
  split; rewrite ?gc_max_version; [by apply gc_inv| | | |done|].
  - intros k v [Hk _]%gc_lookup. auto.
  - intros k kv Hl Hv. destruct (Hc _ _ Hl Hv) as [(v & Hk & <-)|(Hk & Hsch & Hle)].
    + destruct (gc_expired now grace v) eqn:E.
      * right. split_and!.
        -- destruct (key_values (gc_keys_marked_for_deletion ns grace now) !! k) eqn:E2; [|done].
           apply gc_lookup in E2 as [E2 E3]. simplify_eq. congruence.
        -- simpl. by eapply gc_expired_scheduled.
        -- simpl. by eapply gc_removed_le.
      * left. exists v. split; [|done]. by apply gc_lookup.
    + right. split_and!; [|done|lia].
      destruct (key_values (gc_keys_marked_for_deletion ns grace now) !! k) eqn:E2; [|done].
      apply gc_lookup in E2 as [E2 _]. congruence.
  - intros k v kv [Hk _]%gc_lookup Hl Hv. destruct (Hs _ _ _ Hk Hl Hv) as [H1 H2].
    split; [done|]. by apply Hlt.
  - destruct (gc_last_gc_cases ns grace now) as [->|(k & v & Hk & _ & ->)]; [done|].
    apply (ni_bound _ Hi) in Hk. lia.
Qed.

(** ** Sending *)
Lemma elem_of_sn_mutations id ns from kv : kv ∈ sn_mutations (mkStaleNode id ns from) ↔
  ∃ v, key_values ns !! kv_key kv = Some v ∧ from < vv_version v ∧ kv = kv_of_vv (kv_key kv) v.
Proof.
  unfold sn_mutations. rewrite list_elem_of_fmap. split.
  - intros ([k v] & -> & Hin). apply elem_of_sn_stale in Hin as [Hk Hv].
    exists v. simpl in *. done.
  - intros (v & Hk & Hv & Heq). exists (kv_key kv, v). split; [exact Heq|].
    by apply elem_of_sn_stale.
Qed.
Lemma sn_delta_ok h id ns from nd : hist_ok h → replica_ok h ns → from < max_version ns →
  sn_delta (mkStaleNode id ns from) nd → delta_ok h nd.
Proof.
  intros Hh Hr Hlt [Hid Hfrom Hgc [rest Hkvs] Hmax]. simpl in *.
  pose proof (sn_mutations_increasing (mkStaleNode id ns from) (ro_inv _ _ Hr)) as Hinc.
  rewrite Hkvs in Hinc.
  pose proof (elem_of_sn_mutations id ns from) as Hmut.
  assert (∀ kv, kv ∈ nd_key_values nd → kv ∈ sn_mutations (mkStaleNode id ns from)) as Hsub.
  { intros kv Hkv. rewrite Hkvs. apply elem_of_app. by left. }
  assert (nd_upto nd ≤ max_version ns) as Hupto.
  { unfold nd_upto. destruct (last (nd_key_values nd)) as [kv|] eqn:E.
    - apply last_Some_elem_of in E. apply Hsub, Hmut in E as (v & Hk & _ & Heq).
      assert (kv_version kv = vv_version v) as -> by (by rewrite Heq).
      apply (ni_bound _ (ro_inv _ _ Hr) _ _ Hk).
    - destruct Hmax as [-> | [_ ->]]; simpl; lia. }
  assert (kv_increasing (nd_key_values nd) ∧ (∀ kv1 kv2, kv1 ∈ nd_key_values nd → kv2 ∈ rest →
    kv_lt kv1 kv2)) as [Hinc1 Hinc2].
  { clear -Hinc. unfold kv_increasing in *. apply StronglySorted_app in Hinc. tauto. }
  pose proof (ro_max _ _ Hr) as Hrmax. split.
  - done.
  - assert (NoDup (kv_key <$> sn_mutations (mkStaleNode id ns from))) as Hnd.
    { unfold sn_mutations. rewrite <-list_fmap_compose.
      replace (kv_key ∘ _) with (@fst string VersionedValue) by done. apply sn_stale_NoDup. }
    rewrite Hkvs, fmap_app in Hnd. by apply NoDup_app in Hnd as [Hnd _].
  - intros kv Hkv. apply Hsub, Hmut in Hkv as (v & Hk & _ & Heq). rewrite Heq. by apply (ro_genuine _ _ Hr).
  - intros k kv Hl Hv. rewrite Hfrom in Hv.
    destruct (ro_complete _ _ Hr k kv Hl ltac:(lia)) as [(v & Hk & <-)|(_ & Hs & Hle)];
      [left|right; split; [done|lia]].
    assert (kv_of_vv k v ∈ sn_mutations (mkStaleNode id ns from)) as Hin.
    { apply Hmut. exists v. split; [done|]. split; [simpl in Hv; lia|done]. }
    rewrite Hkvs in Hin. apply elem_of_app in Hin as [Hin|Hin]; [done|]. exfalso.
    unfold nd_upto in Hv. destruct (last (nd_key_values nd)) as [kv|] eqn:E.
    + apply last_Some_elem_of in E. specialize (Hinc2 _ _ E Hin). unfold kv_lt in Hinc2. lia.
    + destruct Hmax as [Hm|[Hm _]]; [rewrite Hm in Hv; simpl in Hv; lia|].
      rewrite Hkvs in Hm. apply app_eq_nil in Hm as [_ ->]. set_solver.
  - intros kv0 kv Hkv0 Hl Hv. apply Hsub, Hmut in Hkv0 as (v & Hk & _ & E).
    rewrite E in Hv. simpl in Hv. destruct (ro_stale _ _ Hr _ _ _ Hk Hl Hv). lia.
  - lia.
  - rewrite Hgc. apply (ro_gc _ _ Hr).
Qed.

(** ** Receiving *)
Lemma last_filter_unique (l : list KeyValueMutation) k kv : NoDup (kv_key <$> l) →
  last (filter (λ x, kv_key x = k) l) = Some kv ↔ kv ∈ l ∧ kv_key kv = k.
Proof.
  intros Hnd. split.
  - intros Hl%last_Some_elem_of. apply list_elem_of_filter in Hl. tauto.
  - intros [Hin <-]. apply list_elem_of_split in Hin as (l1 & l2 & ->).
    rewrite fmap_app, fmap_cons in Hnd. apply NoDup_app in Hnd as (_ & Hnd1 & Hnd2).
    apply NoDup_cons in Hnd2 as [Hnd2 _].
    rewrite filter_app, filter_cons, decide_True by done.
    assert (filter (λ x, kv_key x = kv_key kv) l2 = []) as ->; [|apply last_snoc].
    destruct (filter _ l2) as [|x l] eqn:E; [done|].
    assert (x ∈ filter (λ x, kv_key x = kv_key kv) l2) as Hx by (rewrite E; by left).
    apply list_elem_of_filter in Hx as [Heq Hx]. destruct Hnd2.
    rewrite <-Heq. by apply list_elem_of_fmap_2.
Qed.

Section extend.
Context (h : history) (ns : NodeState) (nd : NodeDelta) (now : Instant).
Hypotheses (Hh : hist_ok h) (Hr : replica_ok h ns) (Hd : delta_ok h nd).
Hypothesis Hfrom : nd_from_version_excluded nd ≤ max_version ns.
Hypothesis Hgc : nd_last_gc_version nd < max_version ns ∨
  nd_last_gc_version nd ≤ last_gc_version ns.
Hypothesis Hsafe : last_gc_version ns ≤ N.max (max_version ns) (nd_last_gc_version nd).

Let acc := accepted_kvs ns (max_version ns) (nd_key_values nd).
Let ns' := foldl (store_kv now) ns acc.

Lemma elem_of_acc kv : kv ∈ acc ↔ kv ∈ nd_key_values nd ∧ max_version ns < kv_version kv ∧
  ¬ (kv_sched kv ∧ kv_version kv ≤ last_gc_version ns).
Proof.
  subst acc. unfold accepted_kvs, kv_applies.
  rewrite list_elem_of_filter, andb_true_iff, N.ltb_lt, negb_true_iff, andb_false_iff.
  destruct (scheduled_for_deletion (kv_status kv)), (N.leb_spec (kv_version kv) (last_gc_version ns));
    intuition (try lia; try done).
Qed.
Lemma acc_NoDup : NoDup (kv_key <$> acc).
Proof.
  apply (sublist_NoDup _ (kv_key <$> nd_key_values nd)); [apply (do_keys _ _ Hd)|].
  apply fmap_sublist, sublist_filter.
Qed.
Lemma extend_lookup k v : key_values ns' !! k = Some v ↔
  (∃ kv, kv ∈ acc ∧ kv_key kv = k ∧ v = vv_of_kv kv now) ∨
  ((∀ kv, kv ∈ acc → kv_key kv ≠ k) ∧ key_values ns !! k = Some v).
Proof.
  subst ns'. rewrite foldl_store_lookup.
  destruct (last (filter (λ kv, kv_key kv = k) acc)) as [kv|] eqn:E.
  - apply (last_filter_unique _ _ _ acc_NoDup) in E as [Hin Hk]. split.
    + intros [= <-]. left. eauto.
    + intros [(kv' & Hin' & Hk' & ->)|[Hno _]]; [|by destruct (Hno kv)].
      f_equal. f_equal. assert (last (filter (λ x, kv_key x = k) acc) = Some kv') as E'
        by (by apply last_filter_unique, conj; [apply acc_NoDup|..]).
      assert (last (filter (λ x, kv_key x = k) acc) = Some kv) as E2
        by (by apply last_filter_unique, conj; [apply acc_NoDup|..]). congruence.
  - assert (∀ kv, kv ∈ acc → kv_key kv ≠ k) as Hno.
    { intros kv Hin Hk. assert (last (filter (λ x, kv_key x = k) acc) = Some kv) as E'
        by (by apply last_filter_unique, conj; [apply acc_NoDup|..]). congruence. }
    split; [by right|]. intros [(kv & Hin & Hk & _)|[_ ?]]; [by destruct (Hno kv)|done].
Qed.
Lemma extend_lookup_None k : key_values ns !! k = None → (∀ kv, kv ∈ acc → kv_key kv ≠ k) →
  key_values ns' !! k = None.
Proof.
  intros Hk Hno. destruct (key_values ns' !! k) as [v|] eqn:E; [|done].
  apply extend_lookup in E as [(kv & Hin & Hk' & _)|[_ ?]]; [by destruct (Hno kv)|congruence].
Qed.
Lemma extend_max : max_version ns ≤ max_version ns' ∧
  (max_version ns' = max_version ns ∨
   max_version ns < max_version ns' ≤ nd_upto nd).
Proof.
  subst ns'. rewrite foldl_store_max. destruct (last acc) as [kv|] eqn:E; [|auto].
  apply last_Some_elem_of, elem_of_acc in E as (Hin & Hlt & _). split; [lia|]. right.
  split; [done|]. unfold nd_upto.
  destruct (last (nd_key_values nd)) as [kv'|] eqn:E'.
  - apply last_Some in E' as [l' El]. pose proof (do_increasing _ _ Hd) as Hinc.
    rewrite El in Hin, Hinc. apply kv_increasing_snoc in Hinc as [_ Hlast].
    apply elem_of_app in Hin as [Hin| ->%list_elem_of_singleton]; [|done].
    specialize (Hlast _ Hin). unfold kv_lt in Hlast. lia.
  - apply last_None in E'. rewrite E' in Hin. set_solver.
Qed.
Lemma extend_gc : last_gc_version ns' = last_gc_version ns.
Proof. apply foldl_store_gc. Qed.

(** An entry of the old state whose key has a newer write is older than the
    receiver's versions. *)
Lemma old_entry_newer k v kv : key_values ns !! k = Some v → latest h k = Some kv →
  max_version ns < kv_version kv → last_gc_version ns < kv_version kv.
Proof.
  intros Hk Hl Hlt. pose proof (ni_bound _ (ro_inv _ _ Hr) _ _ Hk).
  eapply (ro_stale _ _ Hr k v kv Hk Hl). lia.
Qed.
(** A write that the receiver misses is accepted, or was collected. *)
Lemma missing_write k kv : latest h k = Some kv →
  max_version ns < kv_version kv ≤ max_version ns' →
  kv ∈ acc ∨ (kv_sched kv ∧ kv_version kv ≤ last_gc_version ns).
Proof.
  intros Hl Hv. destruct extend_max as [_ [Hm|Hm]]; [lia|].
  destruct (do_complete _ _ Hd k kv Hl ltac:(lia)) as [Hin|[Hs Hle]].
  - destruct (decide (kv_sched kv ∧ kv_version kv ≤ last_gc_version ns)); [by right|].
    left. apply elem_of_acc. split_and!; [done|lia|done].
  - right. split; [done|]. lia.
Qed.
Lemma acc_latest kv0 k kv : kv0 ∈ acc → kv_key kv0 = k → latest h k = Some kv →
  kv_version kv0 ≤ kv_version kv ∧
  (kv0 = kv ∨ (kv_version kv0 < kv_version kv ∧ nd_upto nd < kv_version kv ∧
               nd_last_gc_version nd < kv_version kv)).
Proof.
  intros [Hin [Hlt _]]%elem_of_acc Hk Hl.
  pose proof (latest_max _ _ _ _ Hh Hl (do_genuine _ _ Hd _ Hin) Hk) as Hle. split; [done|].
  destruct (decide (kv_version kv0 = kv_version kv)) as [Heq|Hne].
  - left. eapply (hist_version_inj h); [done|by apply (do_genuine _ _ Hd)| |done].
    by apply latest_elem in Hl as [? _].
  - right. subst k. destruct (do_stale _ _ Hd kv0 kv Hin Hl ltac:(lia)). lia.
Qed.

Lemma extend_complete k kv : latest h k = Some kv → kv_version kv ≤ max_version ns' →
  (∃ v, key_values ns' !! k = Some v ∧ kv_of_vv k v = kv) ∨
  (key_values ns' !! k = None ∧ kv_sched kv ∧ kv_version kv ≤ last_gc_version ns').
Proof.
  intros Hl Hv. rewrite extend_gc.
  pose proof (latest_elem _ _ _ Hl) as [Hkh Hkk].
  destruct (N.le_gt_cases (kv_version kv) (max_version ns)) as [Hle|Hgt].
  - assert (∀ kv0, kv0 ∈ acc → kv_key kv0 ≠ k) as Hno.
    { intros kv0 Hin Hk. destruct (acc_latest _ _ _ Hin Hk Hl) as [Hle' _].
      apply elem_of_acc in Hin as (_ & Hlt & _). lia. }
    destruct (ro_complete _ _ Hr k kv Hl Hle) as [(v & Hk & Heq)|(Hk & Hs & Hg)].
    + left. exists v. split; [|done]. apply extend_lookup. by right.
    + right. split_and!; [by apply extend_lookup_None|done|done].
  - destruct (missing_write k kv Hl ltac:(lia)) as [Hin|[Hs Hg]].
    + left. exists (vv_of_kv kv now). split; [apply extend_lookup; eauto|].
      rewrite <-Hkk. apply kv_of_vv_of_kv.
    + right. split_and!; [|done|done]. apply extend_lookup_None.
      * destruct (key_values ns !! k) as [v|] eqn:E; [|done].
        pose proof (old_entry_newer _ _ _ E Hl Hgt). lia.
      * intros kv0 Hin Hk. destruct (acc_latest _ _ _ Hin Hk Hl) as [_ [->|(_ & _ & Hlt)]].
        -- apply elem_of_acc in Hin as (_ & _ & Hn). by destruct Hn.
        -- destruct Hgc; lia.
Qed.
Lemma extend_stale k v kv : key_values ns' !! k = Some v → latest h k = Some kv →
  vv_version v < kv_version kv →
  max_version ns' < kv_version kv ∧ last_gc_version ns' < kv_version kv.
Proof.
  intros Hk Hl Hv. rewrite extend_gc. pose proof extend_max as [_ Hmax].
  apply extend_lookup in Hk as [(kv0 & Hin & Hk & ->)|[Hno Hk]].
  - simpl in Hv. destruct (acc_latest _ _ _ Hin Hk Hl) as [_ [->|(_ & Hu & Hg)]]; [lia|].
    apply elem_of_acc in Hin as (_ & Hlt & _). lia.
  - destruct (ro_stale _ _ Hr k v kv Hk Hl Hv) as [H1 H2]. split; [|done].
    destruct (N.lt_ge_cases (max_version ns') (kv_version kv)) as [|Hge]; [done|].
    destruct (missing_write k kv Hl ltac:(lia)) as [Hin|[_ Hg]]; [|lia].
    apply latest_elem in Hl as [_ Hkk]. by destruct (Hno kv).
Qed.
Lemma extend_ok : replica_ok h ns'.
Proof.
  split.
  - subst ns' acc. clear Hfrom Hgc Hsafe.
    assert (ns_inv ns) as Hi by apply (ro_inv _ _ Hr).
    assert (kv_increasing (accepted_kvs ns (max_version ns) (nd_key_values nd))) as Hinc
      by (apply kv_increasing_filter, (do_increasing _ _ Hd)).
    pose proof (accepted_kvs_gt ns (max_version ns) (nd_key_values nd)) as Hgt.
    revert Hi Hinc Hgt. clear. generalize (accepted_kvs ns (max_version ns) (nd_key_values nd)).
    intros l. revert ns. induction l as [|kv l IH]; intros ns Hi Hinc Hgt; [done|]. simpl.
    apply kv_increasing_cons in Hinc as [Hinc Hlt]. apply Forall_cons in Hgt as [Hkv _].
    apply IH; [by apply store_inv|done|done].
  - intros k v [(kv & Hin & Hk & ->)|[_ Hk]]%extend_lookup; [|by apply (ro_genuine _ _ Hr)].
    rewrite <-Hk, kv_of_vv_of_kv. apply elem_of_acc in Hin as [Hin _].
    by apply (do_genuine _ _ Hd).
  - apply extend_complete.
  - apply extend_stale.
  - pose proof extend_max as [_ [->|Hm]]; [apply (ro_max _ _ Hr)|].
    pose proof (do_upto _ _ Hd). lia.
  - rewrite extend_gc. apply (ro_gc _ _ Hr).
Qed.
End extend.

(** A reset computed from version 0 starts from a faithful empty state. *)
Lemma reset_state_ok h nd : hist_ok h → delta_ok h nd → nd_from_version_excluded nd = 0 →
  replica_ok h (reset_state nd).
Proof.
  intros Hh Hd Hfrom.
  assert (∀ k v, key_values (reset_state nd) !! k = Some v → False) as Hnone
    by (intros k v; simpl; by rewrite lookup_empty).
  pose proof (do_upto _ _ Hd) as Hu. unfold nd_upto in Hu.
  split; try (intros *; intros Hk; by apply Hnone in Hk).
  - apply reset_state_inv.
  - intros k kv Hl Hv. right. split; [done|]. simpl in Hv |- *.
    pose proof (latest_elem _ _ _ Hl) as [Hin _].
    pose proof (hist_version_bound _ _ Hh Hin).
    destruct (nd_key_values nd) as [|kv1 kvs] eqn:Ekvs; [|lia].
    destruct (do_complete _ _ Hd k kv Hl) as [Hin'|?]; [|by rewrite Ekvs in Hin'; set_solver|done].
    rewrite Hfrom. unfold nd_upto. rewrite Ekvs. simpl.
    destruct (nd_max_version nd); simpl in *; lia.
  - simpl. destruct (nd_key_values nd) as [|kv1 kvs]; [|lia]. simpl in Hu.
    destruct (nd_max_version nd); simpl in *; lia.
  - apply (do_gc _ _ Hd).
Qed.

Lemma replica_ok_delta h ns nd now : hist_ok h → replica_ok h ns → delta_ok h nd →
  safe_delivery ns nd → replica_ok h (delta_result now ns nd).
Proof.
  intros Hh Hr Hd Hsafe. unfold safe_delivery, delta_result in *.
  destruct (decide_delta ns nd) eqn:E; [done| |].
  - apply decide_delta_Extend in E as [H1 H2]. by apply extend_ok.
  - apply extend_ok; [done|by apply reset_state_ok|done| | |]; simpl; lia.
Qed.

(** ** When deliveries are safe *)

(** A reset is safe unless it hits one boundary case: the delta starts
    exactly at the receiver's [max_version], which is also the watermark of
    the sender. *)
Lemma reset_delivery ns s nd digest_last_gc digest_max :
  delta_from_version s digest_last_gc digest_max = Some (nd_from_version_excluded nd) →
  nd_last_gc_version nd = last_gc_version s → digest_last_gc ≤ last_gc_version ns →
  decide_delta ns nd = Reset →
  nd_from_version_excluded nd = 0 ∨
  (nd_from_version_excluded nd = max_version ns ∧ max_version ns = last_gc_version s).
Proof.
  unfold delta_from_version, should_reset. intros Hf Hg Hd (Hle & Hmax & Hgc & _)%decide_delta_Reset.
  destruct (max_version s <=? digest_max); [done|].
  destruct (N.ltb_spec digest_last_gc (last_gc_version s)); [|lia].
  destruct (N.ltb_spec digest_max (last_gc_version s)); simpl in Hf; injection Hf as Hf; lia.
Qed.
(** An extension is safe when the receiver is not behind its own watermark,
    or the sender collected at least as much. *)
Lemma extend_delivery ns nd : decide_delta ns nd = Extend →
  last_gc_version ns ≤ max_version ns ∨ last_gc_version ns ≤ nd_last_gc_version nd →
  safe_delivery ns nd.
Proof. unfold safe_delivery. intros ->. lia. Qed.

(** A delta for a digest of the receiver is safe, but for the boundary. *)
Lemma digest_driven_safe id r sender from nd digest_last_gc digest_max :
  delta_from_version sender digest_last_gc digest_max = Some from →
  sn_delta (mkStaleNode id sender from) nd →
  digest_last_gc ≤ last_gc_version r →
  last_gc_version r ≤ max_version r ∨ last_gc_version r ≤ last_gc_version sender →
  ¬ (0 < from ∧ from = max_version r ∧ max_version r = last_gc_version sender ∧
     last_gc_version r < last_gc_version sender) →
  safe_delivery r nd.
Proof.
  intros Hf [_ Hfrom Hg _ _] Hd Hgc Hb. simpl in *. destruct (decide_delta r nd) eqn:E.
  - unfold safe_delivery. by rewrite E.
  - apply extend_delivery; [done|]. by rewrite Hg.
  - rewrite <- Hfrom in Hf. destruct (reset_delivery _ _ _ _ _ Hf Hg Hd E) as [H0|[H1 H2]].
    + unfold safe_delivery. by rewrite E.
    + destruct (decide (from = 0)) as [->|]; [unfold safe_delivery; by rewrite E|].
      apply decide_delta_Reset in E as (_ & _ & Hgc' & _). exfalso. apply Hb. lia.
Qed.

(** ** The system: one owner, any number of replicas, an unreliable network *)
Inductive owner_op : Type :=
  | OSet (key value : string)
  | OSetWithTtl (key value : string)
  | ODelete (key : string)
  | ODeleteAfterTtl (key : string).
Definition op_key (op : owner_op) : string :=
  match op with OSet k _ | OSetWithTtl k _ | ODelete k | ODeleteAfterTtl k => k end.
Definition run_owner_op (ls : InnerListeners) (now : Instant) (op : owner_op) (ns : NodeState)
    : res NodeState :=
  match op with
  | OSet k v => rmap fst (set ls ns k v)
  | OSetWithTtl k v => rmap fst (set_with_ttl ls ns k v now)
  | ODelete k => Ok (delete_ ns k now)
  | ODeleteAfterTtl k => Ok (delete_after_ttl ns k now)
  end.
(** The write that an operation appends to the history, if it changed
    anything. *)
Definition record_write (h : history) (key : string) (ns ns' : NodeState) : history :=
  if max_version ns =? max_version ns' then h
  else match key_values ns' !! key with
       | Some v => h ++ [kv_of_vv key v]
       | None => h
       end.

Record system : Type := mkSystem {
  sy_history : history;
  sy_owner : NodeState;
  sy_replicas : gmap N NodeState;
  sy_net : list NodeDelta;
}.
Section system.
Context (owner_id : ChitchatId) (ls : InnerListeners).
Definition replica (s : system) (i : N) : NodeState :=
  default (NodeState_new owner_id) (sy_replicas s !! i).
Definition sys_init : system := mkSystem [] (NodeState_new owner_id) ∅ [].

Inductive sys_step : system → system → Prop :=
  | step_write s op now ns' :
      max_version (sy_owner s) < u64_max →
      run_owner_op ls now op (sy_owner s) = Ok ns' →
      sys_step s (mkSystem (record_write (sy_history s) (op_key op) (sy_owner s) ns') ns'
        (sy_replicas s) (sy_net s))
  | step_owner_gc s grace now :
      sys_step s (mkSystem (sy_history s)
        (gc_keys_marked_for_deletion (sy_owner s) grace now) (sy_replicas s) (sy_net s))
  | step_replica_gc s i grace now :
      sys_step s (mkSystem (sy_history s) (sy_owner s)
        (<[i := gc_keys_marked_for_deletion (replica s i) grace now]> (sy_replicas s)) (sy_net s))
  | step_send s sender dgc dmax from nd :
      sender = sy_owner s ∨ (∃ i, sender = replica s i) →
      delta_from_version sender dgc dmax = Some from →
      sn_delta (mkStaleNode owner_id sender from) nd →
      sys_step s (mkSystem (sy_history s) (sy_owner s) (sy_replicas s) (nd :: sy_net s))
  | step_deliver s i nd now r :
      nd ∈ sy_net s →
      safe_delivery (replica s i) nd →
      apply_delta ls (replica s i) nd now = Ok r →
      sys_step s (mkSystem (sy_history s) (sy_owner s) (<[i := r.1]> (sy_replicas s)) (sy_net s))
  | step_lose s net :
      (∀ nd, nd ∈ net → nd ∈ sy_net s) →
      sys_step s (mkSystem (sy_history s) (sy_owner s) (sy_replicas s) net).

Record sys_ok (s : system) : Prop := {
  so_hist : hist_ok (sy_history s);
  so_owner : owner_ok (sy_history s) (sy_owner s);
  so_replicas : ∀ i, replica_ok (sy_history s) (replica s i);
  so_net : ∀ nd, nd ∈ sy_net s → delta_ok (sy_history s) nd;
}.

Lemma run_owner_op_cases now op ns ns' : ns_inv ns → max_version ns < u64_max →
  run_owner_op ls now op ns = Ok ns' →
  ns' = ns ∨ ∃ v, vv_version v = max_version ns + 1 ∧ ns' = store ns (op_key op) v.
Proof.
  intros Hi Hroom Hrun. destruct op as [k v|k v|k|k]; cbn [run_owner_op op_key] in *.
  - apply rbind_Ok in Hrun as (r & Hr & Hrun). injection Hrun as <-.
    destruct (set_cases _ _ _ Hi Hroom _ _ Hr) as [[_ ->]|[_ ->]];
      [by left|right; eexists; (split; [|reflexivity]); done].
  - apply rbind_Ok in Hrun as (r & Hr & Hrun). injection Hrun as <-.
    destruct (set_with_ttl_cases _ _ _ Hi Hroom _ _ _ Hr) as [[_ ->]|[_ ->]];
      [by left|right; eexists; (split; [|reflexivity]); done].
  - injection Hrun as <-. rewrite delete_cases by done. destruct (key_values ns !! k);
      [right; eexists; (split; [|reflexivity]); done|by left].
  - injection Hrun as <-. rewrite delete_after_ttl_cases by done.
    destruct (key_values ns !! k);
      [right; eexists; (split; [|reflexivity]); done|by left].
Qed.
Lemma record_write_cases h ns op now ns' : ns_inv ns → max_version ns < u64_max →
  run_owner_op ls now op ns = Ok ns' →
  (ns' = ns ∧ record_write h (op_key op) ns ns' = h) ∨
  ∃ v, vv_version v = max_version ns + 1 ∧ ns' = store ns (op_key op) v ∧
    record_write h (op_key op) ns ns' = h ++ [kv_of_vv (op_key op) v].
Proof.
  intros Hi Hroom [->|(v & Hv & ->)]%run_owner_op_cases; [left| |done|done].
  - unfold record_write. by rewrite N.eqb_refl.
  - right. exists v. split_and!; [done|done|]. unfold record_write, store. simpl.
    rewrite (proj2 (N.eqb_neq _ _)) by lia. by rewrite lookup_insert_eq.
Qed.

Lemma replica_insert s i ns h o net j :
  replica (mkSystem h o (<[i := ns]> (sy_replicas s)) net) j =
  if decide (i = j) then ns else replica s j.
Proof.
  unfold replica. simpl. case_decide; [subst; by rewrite lookup_insert_eq|].
  by rewrite lookup_insert_ne.
Qed.
Lemma sys_step_ok s s' : sys_ok s → sys_step s s' → sys_ok s'.
Proof.
  intros [Hh Ho Hr Hn] Hstep. destruct Hstep as
    [s op now ns' Hroom Hrun|s grace now|s i grace now|s sender dgc dmax from nd Hs Hf Hsd
    |s i nd now r Hin Hsafe Happ|s net Hsub]; simpl in *.
  - pose proof (ro_inv _ _ (proj1 Ho)) as Hi.
    destruct (record_write_cases (sy_history s) _ _ _ _ Hi Hroom Hrun)
      as [[-> ->]|(v & Hv & -> & ->)]; [done|].
    destruct (owner_ok_store _ _ (op_key op) v Hh Ho Hv) as [Hh' Ho'].
    split; simpl; [done|done| |].
    + intros i. by apply replica_ok_grow, Hr.
    + intros nd Hnd. by apply delta_ok_grow, Hn.
  - split; simpl; [done| |done|done]. destruct Ho as [Ho Hm]. split; [by apply replica_ok_gc|done].
  - split; simpl; [done|done| |done]. intros j. rewrite replica_insert.
    case_decide; [by apply replica_ok_gc|done].
  - split; simpl; [done|done|done|]. intros nd' [->|Hin]%elem_of_cons; [|auto].
    apply delta_from_version_lt in Hf as [Hlt _].
    eapply sn_delta_ok; [done| |exact Hlt|exact Hsd].
    destruct Hs as [->|[i ->]]; [apply Ho|apply Hr].
  - split; simpl; [done|done| |done]. intros j. rewrite replica_insert.
    case_decide; [|done].
    apply apply_delta_state in Happ as [-> _];
      [|apply (ro_inv _ _ (Hr i))|apply (do_increasing _ _ (Hn _ Hin))].
    by apply replica_ok_delta; [|apply Hr|apply Hn|].
  - split; simpl; auto.
Qed.
Lemma sys_reachable_ok s : rtc sys_step sys_init s → sys_ok s.
Proof.
  intros Hs.
  assert (sys_ok sys_init) as Hinit.
  { split; simpl.
    - intros i kv Hi. by rewrite lookup_nil in Hi.
    - split; [apply replica_ok_new|done].
    - intros i. unfold replica. simpl. rewrite lookup_empty. apply replica_ok_new.
    - set_solver. }
  revert Hinit. induction Hs as [|s1 s2 s3 Hstep _ IH]; [done|].
  intros Hok. apply IH. by eapply sys_step_ok.
Qed.
End system.

(** ** Convergence *)

(** Two states that are complete up to the same version show the same value
    for every key, except that the expiry of a TTL is local. *)
Lemma get_kv ns k v : key_values ns !! k = Some v →
  get ns k = match kv_status (kv_of_vv k v) with MDelete => None | _ => Some (kv_value (kv_of_vv k v)) end.
Proof.
  intros Hk. unfold get, get_versioned. rewrite Hk. cbn [mbind option_bind].
  unfold is_deleted, kv_of_vv. simpl. by destruct (vv_status v).
Qed.
Lemma replica_get h ns k kv : replica_ok h ns → latest h k = Some kv →
  kv_version kv ≤ max_version ns →
  match kv_status kv with
  | MSet => get ns k = Some (kv_value kv)
  | MDelete => get ns k = None
  | MDeleteAfterTtl => get ns k = Some (kv_value kv) ∨ get ns k = None
  end.
Proof.
  intros Hr Hl Hv. destruct (ro_complete _ _ Hr _ _ Hl Hv) as [(v & Hk & <-)|(Hk & Hs & _)].
  - rewrite (get_kv _ _ _ Hk). destruct (kv_status _); auto.
  - assert (get ns k = None) as -> by (unfold get, get_versioned; by rewrite Hk).
    destruct (kv_status kv); auto. done.
Qed.
Lemma latest_None h ns k : replica_ok h ns → latest h k = None → get ns k = None.
Proof.
  intros Hr Hl. unfold get, get_versioned. destruct (key_values ns !! k) as [v|] eqn:E; [|done].
  exfalso. apply (ro_genuine _ _ Hr) in E. unfold latest in Hl. apply last_None in Hl.
  assert (kv_of_vv k v ∈ filter (λ kv, kv_key kv = k) h) as Hin
    by (by apply list_elem_of_filter). rewrite Hl in Hin. set_solver.
Qed.

(** ** Limits of the protocol, on concrete runs of the code

    Two clusters, each with the state of one owner, exchange deltas through
    [compute_partial_delta_respecting_mtu] and [apply_delta]. *)
Module Runs.
Import StoreZstd.
#[export] Instance no_shuffle : Shuffle := λ A _ l, l.
#[export] Instance no_shuffle_ok : ShuffleOk.
Proof. intros A n l. done. Qed.

Definition owner_id : ChitchatId := mkChitchatId "owner" 0 (SockV4 2130706433 7280).
(** One delivery: the receiver's digest, the sender's delta, and its
    application; [None] when the code panics. *)
Definition exchange (sender receiver : ClusterState) (now : Instant) : option ClusterState :=
  match compute_partial_delta_respecting_mtu sender (compute_digest receiver ∅) 1000 ∅ with
  | Ok d =>
      match cluster_apply_delta receiver d now with
      | Ok r => Some r.1
      | _ => None
      end
  | _ => None
  end.
Definition do_op (op : owner_op) (cs : ClusterState) : ClusterState :=
  match run_owner_op no_listeners 0 op (node_state_mut cs owner_id) with
  | Ok ns => put_node_state cs owner_id ns
  | _ => cs
  end.
Definition empty_cluster : ClusterState := with_seed_addrs ∅.
Definition shown_value (cs : ClusterState) (k : string) : option string :=
  get (node_state_mut cs owner_id) k.
Definition progress (cs : ClusterState) : Version * Version :=
  (max_version (node_state_mut cs owner_id), last_gc_version (node_state_mut cs owner_id)).

(** The owner writes [a], then writes and deletes [b]. *)
Definition owner1 : ClusterState :=
  do_op (ODelete "b") (do_op (OSet "b" "2") (do_op (OSet "a" "1") empty_cluster)).
(** It collects the tombstone, and writes [c]. *)
Definition owner2 : ClusterState := cluster_gc owner1 10 100.
Definition owner3 : ClusterState := do_op (OSet "c" "3") owner2.
(** A replica that received everything before the collection. *)
Definition synced : option ClusterState := exchange owner1 empty_cluster 0.
(** It then receives the next write. *)
Definition after_boundary : option ClusterState := r ← synced; exchange owner3 r 0.

(** A replica that joined after the collection. *)
Definition joined : option ClusterState := exchange owner2 empty_cluster 0.
(** A lagging process that saw [b] but not its deletion. *)
Definition lagging : option ClusterState :=
  exchange (do_op (OSet "b" "2") (do_op (OSet "a" "1") empty_cluster)) empty_cluster 0.
(** The newcomer hears from the lagging process, then from the owner. *)
Definition resurrected : option ClusterState :=
  r ← joined; s ← lagging; exchange s r 0.
Definition after_owner : option ClusterState := r ← resurrected; exchange owner2 r 0.
End Runs.

(** A run of the system with one write, one delta and one delivery. *)
Module SmallRun.
Definition o0 : NodeState := NodeState_new Runs.owner_id.
Definition o1 : NodeState :=
  store o0 "a" (mkVersionedValue "1" 1 Set_).
Definition nd1 : NodeDelta :=
  mkNodeDelta Runs.owner_id 0 0 [mkKeyValueMutation "a" "1" 1 MSet] None.
Definition h1 : history := [mkKeyValueMutation "a" "1" 1 MSet].
Definition s1 : system := mkSystem h1 o1 ∅ [].
Definition s2 : system := mkSystem h1 o1 ∅ [nd1].
Definition s3 : system := mkSystem h1 o1 {[0 := o1]} [nd1].

Lemma reachable : rtc (sys_step Runs.owner_id no_listeners) (sys_init Runs.owner_id) s3.
Proof.
  apply (rtc_l _ _ s1).
  { apply (step_write Runs.owner_id no_listeners (sys_init Runs.owner_id) (OSet "a" "1") 0 o1);
      vm_compute; reflexivity. }
  apply (rtc_l _ _ s2).
  { apply (step_send _ _ s1 o1 0 0 0 nd1); [by left|vm_compute; reflexivity|].
    split; try (vm_compute; reflexivity); [|by left].
    exists []. vm_compute. reflexivity. }
  apply rtc_once.
  apply (step_deliver Runs.owner_id no_listeners s2 0 nd1 0 (o1, [])); [by left| |].
  - apply (bool_decide_unpack _). vm_compute. exact I.
  - vm_compute. reflexivity.
Qed.
End SmallRun.

(** A run in which a replica misses a deletion that the owner then collects:
    it got [a] and [b]; [b] is deleted and collected, and [c] is written. *)
Module ResetRun.
Definition write (op : owner_op) (o : NodeState) : NodeState :=
  match run_owner_op no_listeners 0 op o with Ok o' => o' | _ => o end.
Definition o1 : NodeState := write (OSet "a" "1") (NodeState_new Runs.owner_id).
Definition o2 : NodeState := write (OSet "b" "2") o1.
Definition o3 : NodeState := write (ODelete "b") o2.
Definition o4 : NodeState := gc_keys_marked_for_deletion o3 10 100.
Definition o5 : NodeState := write (OSet "c" "3") o4.
Definition first : NodeDelta :=
  mkNodeDelta Runs.owner_id 0 0
    [mkKeyValueMutation "a" "1" 1 MSet; mkKeyValueMutation "b" "2" 2 MSet] None.
Definition behind : NodeState := delta_result 0 (NodeState_new Runs.owner_id) first.
Definition answer : NodeDelta :=
  mkNodeDelta Runs.owner_id 0 3
    [mkKeyValueMutation "a" "1" 1 MSet; mkKeyValueMutation "c" "3" 4 MSet] None.
Definition h1 : history := [mkKeyValueMutation "a" "1" 1 MSet].
Definition h2 : history := [mkKeyValueMutation "a" "1" 1 MSet; mkKeyValueMutation "b" "2" 2 MSet].
Definition h3 : history := h2 ++ [mkKeyValueMutation "b" "" 3 MDelete].
Definition h5 : history := h3 ++ [mkKeyValueMutation "c" "3" 4 MSet].
Definition replicas1 : gmap N NodeState := {[0 := behind]}.

Lemma first_sent : sn_delta (mkStaleNode Runs.owner_id o2 0) first.
Proof. split; try (vm_compute; reflexivity); [|by left]. exists []. vm_compute. reflexivity. Qed.
Lemma answer_sent : sn_delta (mkStaleNode Runs.owner_id o5 0) answer.
Proof. split; try (vm_compute; reflexivity); [|by left]. exists []. vm_compute. reflexivity. Qed.
Lemma step_write_to s op o h : max_version (sy_owner s) < u64_max →
  run_owner_op no_listeners 0 op (sy_owner s) = Ok o →
  record_write (sy_history s) (op_key op) (sy_owner s) o = h →
  sys_step Runs.owner_id no_listeners s (mkSystem h o (sy_replicas s) (sy_net s)).
Proof. intros Hm Hr <-. by apply (step_write _ _ s op 0 o). Qed.
Lemma reset_reachable : rtc (sys_step Runs.owner_id no_listeners) (sys_init Runs.owner_id)
  (mkSystem h5 o5 replicas1 [first]).
Proof.
  apply (rtc_l _ _ (mkSystem h1 o1 ∅ [])).
  { apply (step_write_to (sys_init Runs.owner_id) (OSet "a" "1") o1 h1);
      vm_compute; reflexivity. }
  apply (rtc_l _ _ (mkSystem h2 o2 ∅ [])).
  { apply (step_write_to (mkSystem h1 o1 ∅ []) (OSet "b" "2") o2 h2);
      vm_compute; reflexivity. }
  apply (rtc_l _ _ (mkSystem h2 o2 ∅ [first])).
  { apply (step_send _ _ (mkSystem h2 o2 ∅ []) o2 0 0 0 first);
      [by left|vm_compute; reflexivity|apply first_sent]. }
  apply (rtc_l _ _ (mkSystem h2 o2 replicas1 [first])).
  { apply (step_deliver Runs.owner_id no_listeners (mkSystem h2 o2 ∅ [first]) 0 first 0
      (behind, [])); [by left| |vm_compute; reflexivity].
    apply (bool_decide_unpack _). vm_compute. exact I. }
  apply (rtc_l _ _ (mkSystem h3 o3 replicas1 [first])).
  { apply (step_write_to (mkSystem h2 o2 replicas1 [first]) (ODelete "b") o3 h3); vm_compute; reflexivity. }
  apply (rtc_l _ _ (mkSystem h3 o4 replicas1 [first])).
  { apply (step_owner_gc _ _ (mkSystem h3 o3 replicas1 [first]) 10 100). }
  apply rtc_once.
  apply (step_write_to (mkSystem h3 o4 replicas1 [first]) (OSet "c" "3") o5 h5); vm_compute; reflexivity.
Qed.
End ResetRun.

(** ** Properties *)

(** C1: in every run with safe deliveries, a replica shows for each key the
    owner's latest write among those up to the replica's [max_version]: the
    value if it is set, nothing if it is deleted, and the value or nothing if
    it expires with a TTL; and everything it holds was written by the owner. *)
Theorem replica_shows_history owner_id ls s i k :
  rtc (sys_step owner_id ls) (sys_init owner_id) s →
  (∀ kv, latest (sy_history s) k = Some kv → kv_version kv ≤ max_version (replica owner_id s i) →
     match kv_status kv with
     | MSet => get (replica owner_id s i) k = Some (kv_value kv)
     | MDelete => get (replica owner_id s i) k = None
     | MDeleteAfterTtl =>
         get (replica owner_id s i) k = Some (kv_value kv) ∨ get (replica owner_id s i) k = None
     end) ∧
  (∀ v, key_values (replica owner_id s i) !! k = Some v → kv_of_vv k v ∈ sy_history s).
Proof.
  intros Hs%sys_reachable_ok. pose proof (so_replicas _ _ Hs i) as Hr. split.
  - intros kv. by apply replica_get.
  - intros v. apply (ro_genuine _ _ Hr).
Qed.
Lemma replica_shows_history_witness :
  latest (sy_history SmallRun.s3) "a" = Some (mkKeyValueMutation "a" "1" 1 MSet) ∧
  get (replica Runs.owner_id SmallRun.s3 0) "a" = Some "1"%string.
Proof.
  split; [vm_compute; reflexivity|].
  apply (proj1 (replica_shows_history _ _ _ 0 "a" SmallRun.reachable)
    (mkKeyValueMutation "a" "1" 1 MSet)); vm_compute; [reflexivity|discriminate].
Defined.

(** C2: agreement: in every run with safe deliveries ([safe_delivery]: a
    delta that extends a replica covers what the replica's own watermark may
    hide, and one that resets it starts from version 0), a replica whose
    [max_version] reached the owner's shows the same value as the owner for
    every key without a pending TTL.  The condition is needed: a reset by a
    delta that starts above 0 can leave a replica that counts as caught up and
    has lost a key ([boundary_reset_loses_key]). *)
Theorem caught_up_replica_agrees owner_id ls s i k :
  rtc (sys_step owner_id ls) (sys_init owner_id) s →
  max_version (replica owner_id s i) = max_version (sy_owner s) →
  (∀ kv, latest (sy_history s) k = Some kv → kv_status kv ≠ MDeleteAfterTtl) →
  get (replica owner_id s i) k = get (sy_owner s) k.
Proof.
  intros Hs%sys_reachable_ok Hmax Httl.
  pose proof (so_replicas _ _ Hs i) as Hr. pose proof (so_owner _ _ Hs) as [Ho Hom].
  destruct (latest (sy_history s) k) as [kv|] eqn:Hl.
  - pose proof (latest_elem _ _ _ Hl) as [Hin _].
    pose proof (hist_version_bound _ _ (so_hist _ _ Hs) Hin) as Hb.
    pose proof (replica_get _ _ _ _ Hr Hl ltac:(lia)) as H1.
    pose proof (replica_get _ _ _ _ Ho Hl ltac:(lia)) as H2.
    specialize (Httl kv eq_refl). destruct (kv_status kv); [congruence|congruence|done].
  - by rewrite (latest_None _ _ k Hr Hl), (latest_None _ _ k Ho Hl).
Qed.
Lemma caught_up_replica_agrees_witness :
  get (replica Runs.owner_id SmallRun.s3 0) "a" = get (sy_owner SmallRun.s3) "a".
Proof.
  apply (caught_up_replica_agrees _ _ _ 0 "a" SmallRun.reachable); [vm_compute; reflexivity|].
  intros kv Hkv. vm_compute in Hkv. injection Hkv as <-. discriminate.
Defined.

(** C3: a delta computed for a digest of the receiver may be delivered.  In
    any run with safe deliveries, let a sender (the owner or a replica) build
    a delta for a digest that the receiver sent, now or earlier, and let the
    receiver apply it at once.  This does not panic (for keys that the
    listeners accept), and the receiver then shows for each key the owner's
    latest write among those up to its new [max_version], and holds only what
    the owner wrote.  Two conditions: the receiver is not behind its own
    watermark (or the sender collected at least as much), and it is not the
    boundary case, in which the delta starts at the receiver's [max_version],
    that version is the sender's watermark, and the sender collected more than
    the receiver. *)
Theorem digest_driven_delivery owner_id ls s i sender digest_last_gc digest_max from nd now :
  let r := replica owner_id s i in
  let r' := delta_result now r nd in
  rtc (sys_step owner_id ls) (sys_init owner_id) s →
  sender = sy_owner s ∨ (∃ j, sender = replica owner_id s j) →
  digest_last_gc ≤ last_gc_version r →
  delta_from_version sender digest_last_gc digest_max = Some from →
  sn_delta (mkStaleNode owner_id sender from) nd →
  Forall (λ kv, event_key_ok (kv_key kv) = true) (nd_key_values nd) →
  last_gc_version r ≤ max_version r ∨ last_gc_version r ≤ last_gc_version sender →
  ¬ (0 < from ∧ from = max_version r ∧ max_version r = last_gc_version sender ∧
     last_gc_version r < last_gc_version sender) →
  (∃ calls, apply_delta ls r nd now = Ok (r', calls)) ∧
  (∀ k kv, latest (sy_history s) k = Some kv → kv_version kv ≤ max_version r' →
     match kv_status kv with
     | MSet => get r' k = Some (kv_value kv)
     | MDelete => get r' k = None
     | MDeleteAfterTtl => get r' k = Some (kv_value kv) ∨ get r' k = None
     end) ∧
  (∀ k v, key_values r' !! k = Some v → kv_of_vv k v ∈ sy_history s).
Proof.
  intros r r' Hs%sys_reachable_ok Hsender Hdg Hf Hsd Hkeys Hgc Hb.
  pose proof (so_replicas _ _ Hs i) as Hr. fold r in Hr.
  assert (replica_ok (sy_history s) sender) as Hsr
    by (destruct Hsender as [->|[j ->]]; [apply (so_owner _ _ Hs)|apply (so_replicas _ _ Hs)]).
  pose proof (sn_delta_ok _ _ _ _ _ (so_hist _ _ Hs) Hsr
    (proj1 (delta_from_version_lt _ _ _ _ Hf)) Hsd) as Hd.
  assert (safe_delivery r nd) as Hsafe by (by eapply digest_driven_safe).
  pose proof (replica_ok_delta _ _ _ now (so_hist _ _ Hs) Hr Hd Hsafe) as Hr'. fold r' in Hr'.
  destruct (apply_delta_total ls r nd now (ro_inv _ _ Hr) (do_increasing _ _ Hd) Hkeys)
    as [[ns' calls] Ha].
  destruct (apply_delta_state _ _ _ _ _ (ro_inv _ _ Hr) (do_increasing _ _ Hd) Ha) as [E _].
  simpl in E. subst ns'. split_and!; [by exists calls| |apply (ro_genuine _ _ Hr')].
  intros k kv. by apply replica_get.
Qed.
(** The replica of [ResetRun] missed a deletion that the owner has collected:
    the delta for its digest resets it, and it shows both keys that remain. *)
Lemma digest_driven_delivery_witness :
  decide_delta ResetRun.behind ResetRun.answer = Reset ∧
  get (delta_result 0 ResetRun.behind ResetRun.answer) "a" = Some "1"%string ∧
  get (delta_result 0 ResetRun.behind ResetRun.answer) "b" = None ∧
  get (delta_result 0 ResetRun.behind ResetRun.answer) "c" = Some "3"%string.
Proof.
  destruct (digest_driven_delivery _ _ _ 0 ResetRun.o5 0 2 0 ResetRun.answer 0 ResetRun.reset_reachable)
    as (_ & Hshown & _).
  - by left.
  - vm_compute. discriminate.
  - vm_compute. reflexivity.
  - apply ResetRun.answer_sent.
  - repeat constructor.
  - left. vm_compute. discriminate.
  - vm_compute. intros [? _]. discriminate.
  - split_and!; [vm_compute; reflexivity| | |].
    + apply (Hshown "a" (mkKeyValueMutation "a" "1" 1 MSet)); vm_compute; [reflexivity|discriminate].
    + apply (Hshown "b" (mkKeyValueMutation "b" "" 3 MDelete)); vm_compute; [reflexivity|discriminate].
    + apply (Hshown "c" (mkKeyValueMutation "c" "3" 4 MSet)); vm_compute; [reflexivity|discriminate].
Defined.

(** The boundary is real.  A replica in sync with the owner up to the
    deletion of [b] receives the owner's next write after the owner collected
    that deletion: although the delta starts at version 3, the replica is
    reset, loses [a] for good, and counts as caught up. *)
Theorem boundary_reset_loses_key :
  let show k := fmap (λ cs, Runs.shown_value cs k) in
  show "a"%string Runs.synced = Some (Some "1"%string) ∧
  Runs.shown_value Runs.owner3 "a" = Some "1"%string ∧
  show "a"%string Runs.after_boundary = Some None ∧
  Runs.progress <$> Runs.after_boundary = Some (Runs.progress Runs.owner3).
Proof. split_and!; vm_compute; reflexivity. Qed.

(** A deleted key can come back for good.  A process that joined after
    the deletion of [b] was collected hears of [b] from a lagging peer and
    keeps showing it, also after it hears from the owner again. *)
Theorem lagging_peer_resurrects_key :
  let show k := fmap (λ cs, Runs.shown_value cs k) in
  Runs.shown_value Runs.owner2 "b" = None ∧
  show "b"%string Runs.joined = Some None ∧
  show "b"%string Runs.resurrected = Some (Some "2"%string) ∧
  show "b"%string Runs.after_owner = Some (Some "2"%string) ∧
  Runs.progress <$> Runs.after_owner = Runs.progress <$> Runs.resurrected.
Proof. split_and!; vm_compute; reflexivity. Qed.

(** A delta that only announces a [max_version] changes nothing unless it
    resets the receiver. *)
Theorem set_max_version_ignored ls ns nd now : nd_key_values nd = [] →
  decide_delta ns nd ≠ Reset → apply_delta ls ns nd now = Ok (ns, []).
Proof.
  intros Hkvs Hd. unfold apply_delta. rewrite prepare_apply_delta_decide.
  destruct (decide_delta ns nd); [done| |done]. by rewrite Hkvs.
Qed.
Lemma set_max_version_ignored_witness :
  apply_delta no_listeners (set_max_version 1 (set_last_gc_version 3 SmallRun.o0))
    (mkNodeDelta Runs.owner_id 1 3 [] (Some 3)) 0 =
  Ok (set_max_version 1 (set_last_gc_version 3 SmallRun.o0), []).
Proof. apply set_max_version_ignored; vm_compute; [reflexivity|discriminate]. Defined.
