(* ===== verification/Convergence.v ===== *)
(** * Anti-entropy converges

    [Replication] says what a replica shows; here a replica gets there.  A
    peer that hears again and again from the owner, by deltas computed for its
    current digest, comes to show what the owner shows, in a bounded number of
    deltas that bring something. *)
From S2P Require Import Prelude Types Serialize Stream Listener Delta Message NodeState Cluster Replication.
Open Scope N_scope.

(** ** Rounds *)
(** The delta that the sender computes for the digest of the receiver. *)
Definition answers_digest (id : ChitchatId) (sender r : NodeState) (nd : NodeDelta) : Prop :=
  ∃ from, delta_from_version sender (last_gc_version r) (max_version r) = Some from ∧
    sn_delta (mkStaleNode id sender from) nd.
(** It brings something: an entry, or the [max_version] of a state without
    entries to a receiver that it resets. *)
Definition effective (r : NodeState) (nd : NodeDelta) : Prop :=
  nd_key_values nd ≠ [] ∨ (is_Some (nd_max_version nd) ∧ decide_delta r nd = Reset).
Inductive catch_up (id : ChitchatId) (ls : InnerListeners) (sender : NodeState) : NodeState → NodeState → Prop :=
  | catch_up_delta r nd now r' :
      answers_digest id sender r nd → effective r nd →
      apply_delta ls r nd now = Ok r' → catch_up id ls sender r r'.1.

(** The tombstones that the sender has left are younger than those it has
    collected, which are the oldest. *)
Definition young_tombstones (ns : NodeState) : Prop :=
  ∀ k v, key_values ns !! k = Some v → kv_sched (kv_of_vv k v) → last_gc_version ns < vv_version v.
(** No key makes the notification of listeners panic. *)
Definition keys_ok (ns : NodeState) : Prop := ∀ k v, key_values ns !! k = Some v → event_key_ok k = true.
(** The receiver has collected no more than the sender, and is not at the
    one version at which a delta resets it without starting anew. *)
Record can_follow (sender r : NodeState) : Prop := {
  cf_gc : last_gc_version r ≤ last_gc_version sender;
  cf_boundary : last_gc_version r < last_gc_version sender → max_version r ≠ last_gc_version sender;
}.
(** How far the receiver is behind: a reset to come counts for more than all
    versions. *)
Definition lag (sender r : NodeState) : N :=
  (if last_gc_version r <? last_gc_version sender then 1 + max_version sender else 0) +
  (max_version sender - max_version r).

Section catch_up.
Context (id : ChitchatId) (ls : InnerListeners) (h : history) (sender : NodeState).
Context (Hh : hist_ok h) (Hs : replica_ok h sender).
Context (Hyoung : young_tombstones sender).

Lemma answers_digest_spec r nd : answers_digest id sender r nd →
  delta_ok h nd ∧ nd_last_gc_version nd = last_gc_version sender ∧
  nd_from_version_excluded nd ≤ max_version r ∧ max_version r < max_version sender ∧
  (should_reset sender (last_gc_version r) (max_version r) = false → nd_from_version_excluded nd = max_version r) ∧
  delta_from_version sender (last_gc_version r) (max_version r) = Some (nd_from_version_excluded nd) ∧
  (∀ kv, kv ∈ nd_key_values nd → nd_from_version_excluded nd < kv_version kv ∧
     (kv_sched kv → last_gc_version sender < kv_version kv)).
Proof.
  intros (from & Hf & Hsd). pose proof (delta_from_version_lt _ _ _ _ Hf) as (H1 & H2 & H3).
  pose proof (sn_delta_ok h id sender from nd Hh Hs H1 Hsd) as Hd.
  destruct Hsd as [_ Hfrom Hgc [rest Hkvs] _]. simpl in *. rewrite Hfrom. split_and!; try done.
  - unfold delta_from_version in Hf. intros E. rewrite E in Hf. destruct (_ <=? _); by simplify_eq.
  - intros kv Hin. assert (kv ∈ sn_mutations (mkStaleNode id sender from)) as Hm
      by (rewrite Hkvs; apply elem_of_app; by left).
    unfold sn_mutations in Hm. apply list_elem_of_fmap in Hm as ([k v] & -> & Hin').
    apply elem_of_sn_stale in Hin' as [Hk Hv]. simpl in *. split; [done|]. by apply (Hyoung k v).
Qed.
(** No delivery of a round is unsafe. *)
Lemma round_safe r nd : can_follow sender r → answers_digest id sender r nd → safe_delivery r nd.
Proof.
  intros [Hgc Hb] Ha. destruct (answers_digest_spec r nd Ha) as (_ & Hng & _ & _ & _ & Hf & _).
  destruct (decide_delta r nd) eqn:E.
  - unfold safe_delivery. by rewrite E.
  - apply extend_delivery; [done|]. rewrite Hng. by right.
  - destruct (reset_delivery r sender nd _ _ Hf Hng (N.le_refl _) E) as [H0|[_ Heq]].
    + unfold safe_delivery. by rewrite E.
    + apply decide_delta_Reset in E as (_ & _ & Hlt & _). rewrite Hng in Hlt. by destruct Hb.
Qed.
(** The last entry of an extension is taken. *)
Lemma extension_advances r nd now : can_follow sender r → answers_digest id sender r nd →
  nd_key_values nd ≠ [] → decide_delta r nd = Extend →
  max_version r < max_version (delta_result now r nd).
Proof.
  intros [Hgc _] Ha Hne E. destruct (answers_digest_spec r nd Ha) as (_ & Hng & _ & _ & Hfrom & _ & Hkvs).
  rewrite delta_result_max, E.
  destruct (nd_key_values nd) as [|kv kvs] eqn:Ekvs; [done|].
  assert (kv ∈ accepted_kvs r (max_version r) (kv :: kvs)) as Hacc.
  { destruct (Hkvs kv) as [Hlt Hsched]; [by left|]. apply list_elem_of_filter. split; [|by left].
    rewrite Hfrom in Hlt.
    - unfold kv_applies. rewrite (proj2 (N.ltb_lt _ _) Hlt). cbn [andb]. apply negb_true_iff, andb_false_iff.
      destruct (scheduled_for_deletion _); [right|by left]. apply N.leb_gt. specialize (Hsched eq_refl). lia.
    - unfold should_reset. apply decide_delta_Extend in E as [_ E]. rewrite Hng in E.
      apply andb_false_iff. rewrite !N.ltb_ge. lia. }
  pose proof (accepted_kvs_gt r (max_version r) (kv :: kvs)) as Hall. rewrite Forall_forall in Hall.
  destruct (last _) as [kv'|] eqn:El; [by apply Hall, last_Some_elem_of|].
  apply last_None in El. rewrite El in Hacc. set_solver.
Qed.
Lemma effective_not_rejected r nd : answers_digest id sender r nd → effective r nd → decide_delta r nd ≠ Reject.
Proof.
  intros Ha He. destruct (answers_digest_spec r nd Ha) as (_ & _ & Hle & _).
  destruct He as [Hne|[_ ->]]; [|done]. unfold decide_delta. rewrite (proj2 (N.ltb_ge _ _) Hle).
  destruct (_ || _); [done|]. unfold delta_max_version. by destruct (nd_key_values nd).
Qed.

(** ** A round is progress *)
Lemma delta_progress r nd now : replica_ok h r → can_follow sender r → answers_digest id sender r nd → effective r nd →
  replica_ok h (delta_result now r nd) ∧ can_follow sender (delta_result now r nd) ∧
  lag sender (delta_result now r nd) < lag sender r.
Proof.
  intros Hr Hcf Ha He. destruct (answers_digest_spec r nd Ha) as (Hd & Hng & _ & Hlt & _).
  split; [exact (replica_ok_delta h r nd now Hh Hr Hd (round_safe r nd Hcf Ha))|].
  pose proof (effective_not_rejected r nd Ha He) as Hnr. pose proof Hcf as [Hgc Hb].
  pose proof (delta_result_gc now r nd) as Hgc'. unfold lag.
  destruct (decide_delta r nd) eqn:E; [done| |].
  - assert (nd_key_values nd ≠ []) as Hne by (destruct He as [?|[_ ?]]; congruence).
    pose proof (extension_advances r nd now Hcf Ha Hne E) as Hadv. rewrite Hgc'. split.
    + split; [by rewrite Hgc'|]. rewrite Hgc'. intros Hg.
      apply decide_delta_Extend in E as [_ E]. lia.
    + lia.
  - apply decide_delta_Reset in E as (_ & _ & Hg & _). rewrite Hgc', Hng in *. split.
    + split; rewrite Hgc'; lia.
    + rewrite N.ltb_irrefl, (proj2 (N.ltb_lt _ _) Hg). lia.
Qed.
Lemma catch_up_step r r' : replica_ok h r → can_follow sender r → catch_up id ls sender r r' →
  replica_ok h r' ∧ can_follow sender r' ∧ lag sender r' < lag sender r.
Proof.
  intros Hr Hcf Hstep. destruct Hstep as [r nd now r' Ha He Happ].
  destruct (answers_digest_spec r nd Ha) as (Hd & _).
  apply apply_delta_state in Happ as [-> _]; [|apply (ro_inv _ _ Hr)|apply (do_increasing _ _ Hd)].
  by apply delta_progress.
Qed.
(** A delta that brings nothing changes nothing. *)
Lemma ineffective_delta r nd now : nd_key_values nd = [] → decide_delta r nd ≠ Reset → delta_result now r nd = r.
Proof. intros Hnil Hne. unfold delta_result. rewrite Hnil. by destruct (decide_delta r nd). Qed.
Lemma delta_cases r nd now : replica_ok h r → can_follow sender r → answers_digest id sender r nd →
  effective r nd ∨ delta_result now r nd = r.
Proof.
  intros Hr Hcf Ha. destruct (nd_key_values nd) eqn:E; [|left; left; by rewrite E].
  destruct (decide_delta r nd) eqn:Ed; [right|right|left]; try (apply ineffective_delta; congruence).
  right. split; [|done]. apply decide_delta_Reset in Ed as (_ & _ & _ & Hm).
  unfold delta_max_version in Hm. by rewrite E in Hm.
Qed.
Lemma catch_up_run n r r' : replica_ok h r → can_follow sender r → nsteps (catch_up id ls sender) n r r' →
  replica_ok h r' ∧ can_follow sender r' ∧ N.of_nat n + lag sender r' ≤ lag sender r.
Proof.
  intros Hr Hcf Hn. revert Hr Hcf. induction Hn as [r|n r r1 r' Hs1 Hn IH]; intros Hr Hcf.
  - split_and!; [done|done|lia].
  - destruct (catch_up_step r r1 Hr Hcf Hs1) as (Hr1 & Hcf1 & Hl). destruct (IH Hr1 Hcf1) as (? & ? & ?).
    split_and!; [done|done|lia].
Qed.

(** ** No more rounds: nothing is missing *)
(** All that the digest misses, as one delta. *)
Definition whole_delta (from : Version) : NodeDelta :=
  let kvs := sn_mutations (mkStaleNode id sender from) in
  mkNodeDelta id from (last_gc_version sender) kvs
    (match kvs with [] => Some (max_version sender) | _ => None end).
Lemma whole_delta_ok from : sn_delta (mkStaleNode id sender from) (whole_delta from).
Proof.
  split; try done. unfold whole_delta. cbn [nd_max_version sn_node_state].
  destruct (sn_mutations _); [by right|by left].
Qed.
Lemma catch_up_possible r from : replica_ok h r → keys_ok sender →
  delta_from_version sender (last_gc_version r) (max_version r) = Some from →
  effective r (whole_delta from) → ∃ r', catch_up id ls sender r r'.
Proof.
  intros Hr Hk Hf He. assert (answers_digest id sender r (whole_delta from)) as Ha
    by (exists from; split; [done|apply whole_delta_ok]).
  destruct (answers_digest_spec r _ Ha) as (Hd & _).
  destruct (apply_delta_total ls r (whole_delta from) 0 (ro_inv _ _ Hr) (do_increasing _ _ Hd)) as [r' Hr'].
  - apply Forall_forall. intros kv Hin. unfold whole_delta, sn_mutations in Hin. simpl in Hin.
    apply list_elem_of_fmap in Hin as ([k v] & -> & Hin). apply elem_of_sn_stale in Hin as [Hin _].
    by apply (Hk k v).
  - exists r'.1. by eapply catch_up_delta.
Qed.
(** A receiver that misses no entry, and need not be reset, knows of every
    deletion. *)
Definition behind (r : NodeState) : bool :=
  match delta_from_version sender (last_gc_version r) (max_version r) with
  | None => false
  | Some from =>
      should_reset sender (last_gc_version r) (max_version r) ||
      match sn_mutations (mkStaleNode id sender from) with [] => false | _ => true end
  end.
(** Both have seen the latest write of the key, and it does not expire. *)
Definition settled_key (k : string) : Prop :=
  ∀ kv, latest h k = Some kv → kv_status kv ≠ MDeleteAfterTtl ∧ kv_version kv ≤ max_version sender.
Lemma known_agree r k kv : replica_ok h r → latest h k = Some kv → kv_status kv ≠ MDeleteAfterTtl →
  kv_version kv ≤ max_version sender → kv_version kv ≤ max_version r → get r k = get sender k.
Proof.
  intros Hr Hl Httl Hms Hmr. pose proof (replica_get _ _ _ _ Hs Hl Hms) as HS.
  pose proof (replica_get _ _ _ _ Hr Hl Hmr) as HR. destruct (kv_status kv); [congruence|congruence|done].
Qed.
Lemma nothing_missing r k kv : replica_ok h r →
  should_reset sender (last_gc_version r) (max_version r) = false →
  sn_mutations (mkStaleNode id sender (max_version r)) = [] →
  latest h k = Some kv → kv_status kv ≠ MDeleteAfterTtl → kv_version kv ≤ max_version sender →
  get r k = get sender k.
Proof.
  intros Hr Hno Hnil Hl Httl Hms.
  destruct (N.le_gt_cases (kv_version kv) (max_version r)) as [Hle|Hgt]; [by eapply known_agree|].
  pose proof (replica_get _ _ _ _ Hs Hl Hms) as HS.
  destruct (ro_complete _ _ Hs k kv Hl Hms) as [(v & Hk & <-)|(Hk & Hsch & Hg)].
  { assert (kv_of_vv k v ∈ sn_mutations (mkStaleNode id sender (max_version r))) as Hm; [|rewrite Hnil in Hm; set_solver].
    apply list_elem_of_fmap. exists (k, v). split; [done|]. by apply elem_of_sn_stale. }
  destruct (kv_status kv) eqn:Est; [done| |done]. rewrite HS. unfold get, get_versioned.
  destruct (key_values r !! k) as [v|] eqn:Ek; [|done]. exfalso.
  pose proof (ni_bound _ (ro_inv _ _ Hr) _ _ Ek).
  destruct (ro_stale _ _ Hr k v kv Ek Hl ltac:(lia)) as [_ Hlt].
  unfold should_reset in Hno. apply andb_false_iff in Hno. rewrite !N.ltb_ge in Hno. lia.
Qed.
Lemma not_behind_agrees r k : replica_ok h r → behind r = false → settled_key k → get r k = get sender k.
Proof.
  intros Hr Hb Hk. destruct (latest h k) as [kv|] eqn:Hl;
    [|by rewrite (latest_None _ _ k Hr Hl), (latest_None _ _ k Hs Hl)].
  destruct (Hk kv Hl) as [Httl Hms]. unfold behind in Hb.
  destruct (delta_from_version sender (last_gc_version r) (max_version r)) as [from|] eqn:Hf.
  - apply orb_false_iff in Hb as [Hno Hm]. assert (from = max_version r) as ->.
    { unfold delta_from_version in Hf. rewrite Hno in Hf. destruct (_ <=? _); by simplify_eq. }
    destruct (sn_mutations _) eqn:Em; [|done]. by eapply nothing_missing.
  - unfold delta_from_version in Hf. destruct (N.leb_spec (max_version sender) (max_version r)); [|done].
    eapply known_agree; [done..|]. lia.
Qed.
(** A reset of a receiver that is behind its sender's watermark. *)
Lemma behind_reset r nd : answers_digest id sender r nd → should_reset sender (last_gc_version r) (max_version r) = true →
  is_Some (delta_max_version nd) → decide_delta r nd = Reset.
Proof.
  intros Ha Hre Hm. destruct (answers_digest_spec r nd Ha) as (_ & Hng & Hle & _).
  apply decide_delta_Reset. rewrite Hng. unfold should_reset in Hre.
  apply andb_true_iff in Hre as [Hg%N.ltb_lt Hmx%N.ltb_lt]. split_and!; [done|lia|done|done].
Qed.
Lemma catch_up_or_agree r : replica_ok h r → keys_ok sender →
  (∃ r', catch_up id ls sender r r') ∨ ∀ k, settled_key k → get r k = get sender k.
Proof.
  intros Hr Hk. destruct (behind r) eqn:Hb; [left|right; intros k; by apply not_behind_agrees].
  unfold behind in Hb. destruct (delta_from_version _ _ _) as [from|] eqn:Hf; [|done].
  eapply catch_up_possible; [done|done|exact Hf|]. unfold effective.
  destruct (sn_mutations (mkStaleNode id sender from)) as [|kv kvs] eqn:Em.
  - right. rewrite orb_false_r in Hb. unfold whole_delta. rewrite Em. split; [done|].
    apply behind_reset; [|done|done]. exists from. split; [done|]. pose proof (whole_delta_ok from) as Hw.
    unfold whole_delta in Hw. by rewrite Em in Hw.
  - left. unfold whole_delta. simpl. by rewrite Em.
Qed.
End catch_up.

(** ** The rounds of the engine
    What a process computes for the digest of another are such deltas, one
    for each node of which it knows more. *)
Lemma digest_versions_own receiver id :
  digest_versions (compute_digest receiver ∅) id =
  (last_gc_version (node_state_mut receiver id), max_version (node_state_mut receiver id)).
Proof.
  unfold digest_versions, compute_digest, node_state_mut. rewrite lookup_fmap.
  destruct (node_states receiver !! id) as [r|] eqn:E.
  - rewrite (proj2 (map_lookup_filter_Some _ _ _ r)); [done|]. split; [done|]. simpl. set_solver.
  - rewrite (proj2 (map_lookup_filter_None _ _ _)); [done|by left].
Qed.
Lemma computed_delta_answers `{ZstdOk, ShuffleOk} sender receiver mtu delta nd :
  cs_inv sender → 100 ≤ mtu → cluster_fits mtu sender →
  compute_partial_delta_respecting_mtu sender (compute_digest receiver ∅) mtu ∅ = Ok delta →
  nd ∈ node_deltas delta →
  ∃ ns, node_states sender !! nd_chitchat_id nd = Some ns ∧
    answers_digest (nd_chitchat_id nd) ns (node_state_mut receiver (nd_chitchat_id nd)) nd.
Proof.
  intros Hcs Hmtu Hfits Hc Hin.
  destruct (compute_partial_delta_spec sender (compute_digest receiver ∅) mtu ∅ Hcs Hmtu Hfits)
    as (d & payload & Hd & Hall & _). rewrite Hd in Hc. apply Ok_inj in Hc as ->.
  rewrite Forall_forall in Hall. destruct (Hall nd Hin) as (ns & Hns & _ & Hf & Hsd).
  exists ns. split; [done|]. exists (nd_from_version_excluded nd). split; [|done]. rewrite <-Hf.
  by rewrite digest_versions_own.
Qed.

(** ** An owner's tombstones are young
    The owner's clock does not go back, and its grace period is always the
    same: so it collects its tombstones in the order of their versions. *)
Inductive owner_step (ls : InnerListeners) (grace : Duration) : Instant * NodeState → Instant * NodeState → Prop :=
  | owner_writes t now op ns ns' :
      t ≤ now → max_version ns < u64_max → run_owner_op ls now op ns = Ok ns' →
      owner_step ls grace (t, ns) (now, ns')
  | owner_collects t now ns :
      t ≤ now → owner_step ls grace (t, ns) (now, gc_keys_marked_for_deletion ns grace now).
Definition deleted_at (ns : NodeState) (k : string) (v : VersionedValue) (start : Instant) : Prop :=
  key_values ns !! k = Some v ∧ time_of_start_scheduled_for_deletion (vv_status v) = Some start.
Record clocked (t : Instant) (ns : NodeState) : Prop := {
  ck_inv : ns_inv ns;
  ck_gc : last_gc_version ns ≤ max_version ns;
  ck_young : young_tombstones ns;
  ck_past : ∀ k v start, deleted_at ns k v start → start ≤ t;
  ck_order : ∀ k1 v1 s1 k2 v2 s2, deleted_at ns k1 v1 s1 → deleted_at ns k2 v2 s2 →
    vv_version v1 ≤ vv_version v2 → s1 ≤ s2;
}.
Lemma deleted_sched ns k v : kv_sched (kv_of_vv k v) → key_values ns !! k = Some v → ∃ start, deleted_at ns k v start.
Proof. unfold deleted_at. simpl. destruct (vv_status v); simpl; [done|eauto|eauto]. Qed.
Lemma run_owner_op_stamp ls now op ns ns' : ns_inv ns → max_version ns < u64_max → run_owner_op ls now op ns = Ok ns' →
  ns' = ns ∨ ∃ v, vv_version v = max_version ns + 1 ∧ ns' = store ns (op_key op) v ∧
    ∀ start, time_of_start_scheduled_for_deletion (vv_status v) = Some start → start = now.
Proof.
  intros Hi Hroom Hrun. destruct op as [k v|k v|k|k]; cbn [run_owner_op op_key] in *.
  - apply rbind_Ok in Hrun as (r & Hr & Hrun). injection Hrun as <-.
    destruct (set_cases _ _ _ Hi Hroom _ _ Hr) as [[_ ->]|[_ ->]]; [by left|right].
    eexists. split; [|split; [reflexivity|]]; done.
  - apply rbind_Ok in Hrun as (r & Hr & Hrun). injection Hrun as <-.
    destruct (set_with_ttl_cases _ _ _ Hi Hroom _ _ _ Hr) as [[_ ->]|[_ ->]]; [by left|right].
    eexists. split; [|split; [reflexivity|]]; [done|]. simpl. congruence.
  - injection Hrun as <-. rewrite delete_cases by done. destruct (key_values ns !! k); [right|by left].
    eexists. split; [|split; [reflexivity|]]; [done|]. simpl. congruence.
  - injection Hrun as <-. rewrite delete_after_ttl_cases by done. destruct (key_values ns !! k); [right|by left].
    eexists. split; [|split; [reflexivity|]]; [done|]. simpl. congruence.
Qed.
Lemma clocked_later t t' ns : t ≤ t' → clocked t ns → clocked t' ns.
Proof. intros Ht [? ? ? Hp ?]. split; try done. intros k v start Hd. specialize (Hp _ _ _ Hd). lia. Qed.
Lemma clocked_store now ns key v : clocked now ns → vv_version v = max_version ns + 1 →
  (∀ start, time_of_start_scheduled_for_deletion (vv_status v) = Some start → start = now) →
  clocked now (store ns key v).
Proof.
  intros [Hi Hg Hy Hp Ho] Hv Ht.
  assert (∀ k w s, deleted_at (store ns key v) k w s → (w = v ∧ s = now) ∨ deleted_at ns k w s) as Hcases.
  { intros k w s [Hk Hs]. simpl in Hk. apply lookup_insert_Some in Hk as [[_ <-]|[_ Hk]]; [left|by right].
    split; [done|by apply Ht]. }
  split.
  - apply store_inv; [done|lia].
  - simpl. lia.
  - intros k w Hk Hs. simpl in *. apply lookup_insert_Some in Hk as [[_ <-]|[_ Hk]]; [lia|by apply (Hy k w)].
  - intros k w s [[_ ->]|Hd]%Hcases; [done|by eapply Hp].
  - intros k1 v1 s1 k2 v2 s2 H1 H2 Hle. destruct (Hcases _ _ _ H2) as [[-> ->]|H2'].
    + destruct (Hcases _ _ _ H1) as [[_ ->]|H1']; [done|by eapply Hp].
    + destruct (Hcases _ _ _ H1) as [[-> ->]|H1']; [|by eapply Ho].
      destruct H2' as [Hk _]. apply (ni_bound _ Hi) in Hk. lia.
Qed.
Lemma clocked_gc t ns grace now : t ≤ now → clocked t ns → clocked now (gc_keys_marked_for_deletion ns grace now).
Proof.
  intros Ht [Hi Hg Hy Hp Ho].
  assert (∀ k v s, deleted_at (gc_keys_marked_for_deletion ns grace now) k v s → deleted_at ns k v s) as Hsub.
  { intros k v s [[Hk _]%gc_lookup Hs]. done. }
  split.
  - by apply gc_inv.
  - rewrite gc_max_version. destruct (gc_last_gc_cases ns grace now) as [->|(k & v & Hk & _ & ->)]; [done|].
    by apply (ni_bound _ Hi) in Hk as [_ ?].
  - intros k v [Hk He]%gc_lookup Hs. destruct (gc_last_gc_cases ns grace now) as [->|(k' & v' & Hk' & He' & ->)];
      [by apply (Hy k v)|].
    destruct (deleted_sched ns k v Hs Hk) as [start Hd].
    destruct (deleted_sched ns k' v' (gc_expired_scheduled _ _ _ He') Hk') as [start' Hd'].
    apply N.lt_nge. intros Hle. pose proof (Ho _ _ _ _ _ _ Hd Hd' Hle) as Hst.
    unfold gc_expired in He, He'. rewrite (proj2 Hd) in He. rewrite (proj2 Hd') in He'.
    apply negb_false_iff, N.ltb_lt in He. apply negb_true_iff, N.ltb_ge in He'. lia.
  - intros k v s Hd%Hsub. specialize (Hp _ _ _ Hd). lia.
  - intros k1 v1 s1 k2 v2 s2 H1%Hsub H2%Hsub. by eapply Ho.
Qed.
Lemma owner_young ls grace id t s : rtc (owner_step ls grace) (t, NodeState_new id) s → clocked s.1 s.2.
Proof.
  intros Hr. assert (clocked t (NodeState_new id)) as Hc.
  { split; [apply ns_inv_new|simpl; lia| | |].
    - intros k v Hk. simpl in Hk. by rewrite lookup_empty in Hk.
    - intros k v start [Hk _]. simpl in Hk. by rewrite lookup_empty in Hk.
    - intros k v start ? ? ? [Hk _]. simpl in Hk. by rewrite lookup_empty in Hk. }
  remember (t, NodeState_new id) as s0 eqn:E. assert (clocked s0.1 s0.2) as Hc0 by by subst. clear E Hc.
  induction Hr as [s|s0 s1 s Hstep Hr IH]; [done|]. apply IH. clear IH Hr.
  destruct Hstep as [t0 now op ns ns' Ht Hroom Hrun|t0 now ns Ht]; simpl in *.
  - apply (clocked_later _ _ _ Ht) in Hc0.
    destruct (run_owner_op_stamp _ _ _ _ _ (ck_inv _ _ Hc0) Hroom Hrun) as [->|(v & Hv & -> & Hst)]; [done|].
    by apply clocked_store.
  - by eapply clocked_gc.
Qed.

(** ** Properties *)

(** Anti-entropy converges.  A replica that has collected no more than
    the owner, and hears from it by deltas computed for its digests, takes
    only finitely many that bring something (at most one per version, and as
    many again if it must be reset); and as long as it shows for some key
    (without a pending TTL) something else than the owner, there is such a
    delta. *)
Theorem anti_entropy_converges owner_id ls s i n r :
  rtc (sys_step owner_id ls) (sys_init owner_id) s →
  young_tombstones (sy_owner s) → keys_ok (sy_owner s) → can_follow (sy_owner s) (replica owner_id s i) →
  nsteps (catch_up owner_id ls (sy_owner s)) n (replica owner_id s i) r →
  N.of_nat n ≤ lag (sy_owner s) (replica owner_id s i) ∧
  ((∃ r', catch_up owner_id ls (sy_owner s) r r') ∨
   ∀ k, (∀ kv, latest (sy_history s) k = Some kv → kv_status kv ≠ MDeleteAfterTtl) →
     get r k = get (sy_owner s) k).
Proof.
  intros Hs%sys_reachable_ok Hy Hk Hcf Hn. pose proof (so_owner _ _ Hs) as [Ho Hom].
  destruct (catch_up_run owner_id ls (sy_history s) (sy_owner s) (so_hist _ _ Hs) Ho Hy n
    (replica owner_id s i) r (so_replicas _ _ Hs i) Hcf Hn) as (Hr & _ & Hlag). split; [lia|].
  destruct (catch_up_or_agree owner_id ls (sy_history s) (sy_owner s) (so_hist _ _ Hs) Ho Hy r Hr Hk) as [?|Hag];
    [by left|right]. intros k Httl. apply Hag. intros kv Hl. split; [by apply Httl|].
  pose proof (latest_elem _ _ _ Hl) as [Hin _]. pose proof (hist_version_bound _ _ (so_hist _ _ Hs) Hin). lia.
Qed.
(** A new replica gets the one entry of the owner in one delta. *)
Lemma anti_entropy_converges_witness : get SmallRun.o1 "a" = Some "1"%string ∧
  (1 ≤ lag SmallRun.o1 SmallRun.o0 ∧
   ((∃ r', catch_up Runs.owner_id no_listeners SmallRun.o1 SmallRun.o1 r') ∨
    ∀ k, (∀ kv, latest SmallRun.h1 k = Some kv → kv_status kv ≠ MDeleteAfterTtl) →
      get SmallRun.o1 k = get SmallRun.o1 k)).
Proof.
  split; [reflexivity|].
  refine (anti_entropy_converges Runs.owner_id no_listeners SmallRun.s2 7 1 SmallRun.o1 _ _ _ _ _).
  - eapply rtc_l; [|apply rtc_once].
    + apply (step_write Runs.owner_id no_listeners (sys_init Runs.owner_id) (OSet "a" "1") 0 SmallRun.o1);
        vm_compute; reflexivity.
    + apply (step_send _ _ SmallRun.s1 SmallRun.o1 0 0 0 SmallRun.nd1); [by left|vm_compute; reflexivity|].
      split; try (vm_compute; reflexivity); [|by left]. exists []. vm_compute. reflexivity.
  - intros k v Hk Hs. simpl in Hk. apply lookup_insert_Some in Hk as [[_ <-]|[_ Hk]]; [done|by rewrite lookup_empty in Hk].
  - intros k v Hk. simpl in Hk. apply lookup_insert_Some in Hk as [[<- _]|[_ Hk]]; [reflexivity|by rewrite lookup_empty in Hk].
  - split; vm_compute; discriminate.
  - eapply nsteps_l; [|apply nsteps_O].
    apply (catch_up_delta Runs.owner_id no_listeners SmallRun.o1 _ SmallRun.nd1 0 (SmallRun.o1, [])).
    + exists 0. split; [vm_compute; reflexivity|].
      split; try (vm_compute; reflexivity); [|by left]. exists []. vm_compute. reflexivity.
    + left. discriminate.
    + vm_compute. reflexivity.
Defined.
