(* ===== verification/Gossip.v ===== *)
(** * Gossip makes clusters agree

    [Convergence] is about one node; here a whole cluster hears from another
    through the code: each round the sender computes the delta for the
    receiver's digest under the MTU ([compute_partial_delta_respecting_mtu],
    whatever the shuffle does), and the receiver applies it. *)
From S2P Require Import Prelude Types Serialize Stream Listener Delta Message NodeState Cluster.
From S2P Require Import Packing Replication Convergence.
Open Scope N_scope.

(** ** One delta after the other *)
Lemma node_state_mut_put cs id ns id' :
  node_state_mut (put_node_state cs id ns) id' = if decide (id = id') then ns else node_state_mut cs id'.
Proof.
  unfold node_state_mut. simpl. case_decide as E.
  - subst. by rewrite lookup_insert_eq.
  - by rewrite lookup_insert_ne.
Qed.
(** A delta changes the state of each node it names, by its node delta. *)
Lemma apply_node_deltas_result cs nds now r : NoDup (nd_chitchat_id <$> nds) →
  (∀ nd, nd ∈ nds → ns_inv (node_state_mut cs (nd_chitchat_id nd)) ∧ kv_increasing (nd_key_values nd)) →
  apply_node_deltas cs nds now = Ok r → ∀ id,
  (∃ nd, nd ∈ nds ∧ nd_chitchat_id nd = id ∧ node_state_mut r.1 id = delta_result now (node_state_mut cs id) nd) ∨
  (id ∉ nd_chitchat_id <$> nds ∧ node_state_mut r.1 id = node_state_mut cs id).
Proof.
  revert cs r. induction nds as [|nd nds IH]; intros cs r Hnd Hall Hr id.
  { injection Hr as <-. right. split; [set_solver|done]. }
  rewrite fmap_cons in Hnd. apply NoDup_cons in Hnd as [Hid Hnd].
  cbn [apply_node_deltas] in Hr. apply rbind_Ok in Hr as ([ns calls] & Happ & Hr).
  apply rbind_Ok in Hr as ([cs2 calls2] & Hrest & Hr). injection Hr as <-.
  destruct (Hall nd ltac:(by left)) as [Hinv Hinc].
  apply apply_delta_state in Happ as [Happ _]; [|done..]. simpl in Happ. subst ns.
  assert (∀ id', id' ≠ nd_chitchat_id nd →
    node_state_mut (put_node_state cs (nd_chitchat_id nd) (delta_result now (node_state_mut cs (nd_chitchat_id nd)) nd)) id' =
    node_state_mut cs id') as Hput by (intros id' Hne; by rewrite node_state_mut_put, decide_False).
  assert (∀ nd', nd' ∈ nds → nd_chitchat_id nd' ≠ nd_chitchat_id nd) as Hne
    by (intros nd' Hin Heq; apply Hid; rewrite <-Heq; by apply list_elem_of_fmap_2).
  apply IH with (id := id) in Hrest; [|done|].
  2: { intros nd' Hin. rewrite Hput by by apply Hne. apply Hall. by right. }
  destruct Hrest as [(nd' & Hin & <- & Hres)|[Hnin Hres]].
  - left. exists nd'. split; [by right|]. split; [done|]. simpl in *. by rewrite Hres, Hput by by apply Hne.
  - destruct (decide (id = nd_chitchat_id nd)) as [->|Hid'].
    + left. exists nd. split; [by left|]. split; [done|]. simpl in *. by rewrite Hres, node_state_mut_put, decide_True.
    + right. rewrite fmap_cons. split; [set_solver|]. simpl in *. by rewrite Hres, Hput.
Qed.

Section gossip.
Context `{ZstdOk, ShuffleOk} (hist : ChitchatId → history) (mtu : N) (cs : ClusterState).

(** ** Rounds *)
Inductive round : ClusterState → ClusterState → Prop :=
  | gossip_round r delta now r' calls :
      compute_partial_delta_respecting_mtu cs (compute_digest r ∅) mtu ∅ = Ok delta →
      cluster_apply_delta r delta now = Ok (r', calls) → round r r'.
Record sender_ok : Prop := {
  sk_inv : cs_inv cs;
  sk_mtu : 100 ≤ mtu;
  sk_fits : cluster_fits mtu cs;
  sk_room : roomy mtu cs;
  sk_nodes : ∀ id ns, node_states cs !! id = Some ns →
    hist_ok (hist id) ∧ replica_ok (hist id) ns ∧ young_tombstones ns ∧ keys_ok ns;
}.
Record receiver_ok (r : ClusterState) : Prop := {
  rk_inv : cs_inv r;
  rk_nodes : ∀ id ns, node_states cs !! id = Some ns →
    replica_ok (hist id) (node_state_mut r id) ∧ can_follow ns (node_state_mut r id);
}.
Definition total_lag (r : ClusterState) : N :=
  sum_of (λ p, lag p.2 (node_state_mut r p.1)) (btree_items (node_states cs)).
Definition settled (r : ClusterState) : Prop :=
  Forall (λ p, behind p.1 p.2 (node_state_mut r p.1) = false) (btree_items (node_states cs)).

Context (Hs : sender_ok).

(** The delta of a round, and what it does to each node. *)
Lemma round_delta r : ∃ delta,
  compute_partial_delta_respecting_mtu cs (compute_digest r ∅) mtu ∅ = Ok delta ∧ wf_nodes (node_deltas delta) ∧
  (∀ nd, nd ∈ node_deltas delta → ∃ ns, node_states cs !! nd_chitchat_id nd = Some ns ∧
     answers_digest (nd_chitchat_id nd) ns (node_state_mut r (nd_chitchat_id nd)) nd) ∧
  carries_something (stale_nodes cs (compute_digest r ∅) ∅) (node_deltas delta).
Proof.
  destruct Hs as [Hcs Hmtu Hfits Hroom _].
  destruct (compute_partial_delta_spec cs (compute_digest r ∅) mtu ∅ Hcs Hmtu Hfits) as (delta & p & Hd & _ & Hwf & _).
  destruct (computed_carries_something cs (compute_digest r ∅) mtu ∅ Hcs Hmtu Hfits Hroom) as (delta' & Hd' & Hc).
  assert (delta' = delta) as -> by congruence. exists delta. split_and!; try done.
  intros nd Hin. by eapply computed_delta_answers.
Qed.
Lemma round_possible r (now : Instant) : receiver_ok r → ∃ r', round r r'.
Proof.
  intros [Hr _]. destruct (round_delta r) as (delta & Hd & [Hnd Hwf] & Hans & _).
  destruct (apply_node_deltas_total r (node_deltas delta) now Hr Hwf) as [[r' calls] Happ]; [|by exists r'; econstructor].
  apply Forall_forall. intros nd Hin. destruct (Hans nd Hin) as (ns & Hns & from & _ & [_ _ _ [rest Hkvs] _]).
  apply Forall_forall. intros kv Hkv. destruct (sk_nodes Hs _ _ Hns) as (_ & _ & _ & Hk).
  assert (kv ∈ sn_mutations (mkStaleNode (nd_chitchat_id nd) ns from)) as Hm by (rewrite Hkvs; apply elem_of_app; by left).
  apply list_elem_of_fmap in Hm as ([k v] & -> & Hm). apply elem_of_sn_stale in Hm as [Hm _]. by apply (Hk k v).
Qed.

(** *** One node in a round *)
Definition node_kept (id : ChitchatId) (ns x x' : NodeState) : Prop :=
  replica_ok (hist id) x' ∧ can_follow ns x' ∧ lag ns x' ≤ lag ns x.
Lemma delta_keeps id ns x nd now : node_states cs !! id = Some ns → replica_ok (hist id) x → can_follow ns x →
  answers_digest id ns x nd → node_kept id ns x (delta_result now x nd).
Proof.
  intros Hid Hx Hcf Ha. destruct (sk_nodes Hs _ _ Hid) as (Hh & Hrep & Hy & _).
  destruct (delta_cases id (hist id) ns x nd now Hx Hcf Ha) as [He| ->]; [|by split_and!].
  destruct (delta_progress id (hist id) ns Hh Hrep Hy x nd now Hx Hcf Ha He) as (? & ? & ?). split_and!; [done|done|lia].
Qed.
Lemma round_nodes r r' : receiver_ok r → round r r' → ∃ delta now,
  compute_partial_delta_respecting_mtu cs (compute_digest r ∅) mtu ∅ = Ok delta ∧ cs_inv r' ∧
  (∀ nd, nd ∈ node_deltas delta →
     node_state_mut r' (nd_chitchat_id nd) = delta_result now (node_state_mut r (nd_chitchat_id nd)) nd) ∧
  (∀ id, id ∉ nd_chitchat_id <$> node_deltas delta → node_state_mut r' id = node_state_mut r id).
Proof.
  intros [Hr Hnodes] Hround. destruct Hround as [r delta now r' calls Hd Happ]. exists delta, now.
  destruct (round_delta r) as (d & Hd' & [Hnd Hwf] & Hans & _). assert (d = delta) as -> by congruence.
  unfold cluster_apply_delta in Happ.
  pose proof (apply_node_deltas_inv r (node_deltas delta) now _ Hr Hwf Happ) as Hr'.
  assert (∀ nd, nd ∈ node_deltas delta → ns_inv (node_state_mut r (nd_chitchat_id nd)) ∧ kv_increasing (nd_key_values nd)) as Hpre.
  { intros nd Hin. destruct (Hans nd Hin) as (ns & Hns & _). split.
    - apply (ro_inv (hist (nd_chitchat_id nd))). by apply (Hnodes _ _ Hns).
    - rewrite Forall_forall in Hwf. apply (wf_nd_increasing _ (Hwf nd Hin)). }
  pose proof (apply_node_deltas_result r (node_deltas delta) now _ Hnd Hpre Happ) as Hres. simpl in Hr', Hres.
  split_and!; [done|done| |].
  - intros nd Hin. destruct (Hres (nd_chitchat_id nd)) as [(nd' & Hin' & Hid & ->)|[Hnin _]];
      [|by destruct Hnin; apply list_elem_of_fmap_2].
    assert (nd' = nd) as ->; [|done]. apply list_elem_of_lookup in Hin as [i Hi], Hin' as [j Hj].
    assert (i = j) as ->; [|congruence]. eapply (NoDup_lookup _ i j (nd_chitchat_id nd) Hnd);
      rewrite list_lookup_fmap; [by rewrite Hi|by rewrite Hj; simpl; rewrite Hid].
  - intros id Hnin. destruct (Hres id) as [(nd & Hin & <- & _)|[_ ?]]; [|done]. by destruct Hnin; apply list_elem_of_fmap_2.
Qed.

(** *** The whole cluster in a round *)
Lemma round_node r r' : receiver_ok r → round r r' → ∀ id,
  node_state_mut r' id = node_state_mut r id ∨
  ∃ ns nd now, node_states cs !! id = Some ns ∧ answers_digest id ns (node_state_mut r id) nd ∧
    node_state_mut r' id = delta_result now (node_state_mut r id) nd.
Proof.
  intros Hr Hround id. destruct (round_nodes r r' Hr Hround) as (delta & now & Hd & _ & Hin & Hout).
  destruct (round_delta r) as (d & Hd' & _ & Hans & _). assert (d = delta) as -> by congruence.
  destruct (decide (id ∈ nd_chitchat_id <$> node_deltas delta)) as [(nd & -> & Hnd)%list_elem_of_fmap|Hnin]; [right|left; auto].
  destruct (Hans nd Hnd) as (ns & Hns & Ha). exists ns, nd, now. auto.
Qed.
Lemma node_in_round r r' : receiver_ok r → round r r' → ∀ id ns, node_states cs !! id = Some ns →
  node_kept id ns (node_state_mut r id) (node_state_mut r' id).
Proof.
  intros Hr Hround id ns Hid. destruct (rk_nodes _ Hr id ns Hid) as [Hx Hcf].
  destruct (round_node r r' Hr Hround id) as [->|(ns' & nd & now & Hns' & Ha & ->)]; [by split_and!|].
  assert (ns' = ns) as -> by congruence. by apply delta_keeps.
Qed.
Lemma round_keeps r r' : receiver_ok r → round r r' → receiver_ok r' ∧ total_lag r' ≤ total_lag r.
Proof.
  intros Hr Hround. pose proof (node_in_round r r' Hr Hround) as Hn. split.
  - destruct (round_nodes r r' Hr Hround) as (delta & now & _ & Hinv & _). split; [done|].
    intros id ns Hid. by destruct (Hn id ns Hid) as (? & ? & _).
  - apply sum_of_le. intros [id ns] Hin%elem_of_btree_items. by destruct (Hn id ns Hin) as (_ & _ & ?).
Qed.
(** As long as something is missing, a round brings something. *)
Lemma something_effective r delta : receiver_ok r → ¬ settled r →
  compute_partial_delta_respecting_mtu cs (compute_digest r ∅) mtu ∅ = Ok delta →
  ∃ nd, nd ∈ node_deltas delta ∧ effective (node_state_mut r (nd_chitchat_id nd)) nd.
Proof.
  intros Hr Hns Hd. destruct (round_delta r) as (d & Hd' & [Hnd _] & Hans & Hc). assert (d = delta) as -> by congruence.
  destruct Hc as [(nd & Hin & Hne)|Hall]; [exists nd; split; [done|by left]|].
  apply not_Forall_Exists, Exists_exists in Hns as ([id ns] & Hid%elem_of_btree_items & Hb); [|intros ?; apply _].
  apply not_false_iff_true in Hb. unfold behind in Hb. cbn [fst snd] in Hb.
  destruct (delta_from_version _ _ _) as [from|] eqn:Hf; [|done].
  destruct (Hall (mkStaleNode id ns from)) as [Hnil (nd & Hin & Hid' & Hmax)].
  { apply elem_of_stale_nodes. rewrite digest_versions_own. simpl. split_and!; [done|set_solver|done]. }
  rewrite Hnil, orb_false_r in Hb. simpl in Hid', Hmax. subst id. destruct (Hans nd Hin) as (ns' & Hns' & Ha).
  assert (ns' = ns) as -> by congruence. destruct (sk_nodes Hs _ _ Hid) as (Hh & Hrep & Hy & _).
  exists nd. split; [done|].
  destruct (nd_key_values nd) eqn:E; [right|left; by rewrite E]. split; [by rewrite Hmax|].
  eapply behind_reset; [exact Hh|exact Hrep|exact Hy|exact Ha|done|]. unfold delta_max_version. by rewrite E, Hmax.
Qed.
Lemma round_brings_at r r' : receiver_ok r → ¬ settled r → round r r' → ∃ id ns,
  node_states cs !! id = Some ns ∧ lag ns (node_state_mut r' id) < lag ns (node_state_mut r id).
Proof.
  intros Hr Hns Hround. destruct (round_nodes r r' Hr Hround) as (delta & now & Hd & _ & Hin & _).
  destruct (something_effective r delta Hr Hns Hd) as (nd & Hnd & He).
  destruct (round_delta r) as (d & Hd' & _ & Hans & _). assert (d = delta) as -> by congruence.
  destruct (Hans nd Hnd) as (ns & Hid & Ha). destruct (rk_nodes _ Hr _ ns Hid) as [Hx Hcf].
  destruct (sk_nodes Hs _ _ Hid) as (Hh & Hrep & Hy & _). exists (nd_chitchat_id nd), ns. split; [done|].
  rewrite (Hin nd Hnd). apply (delta_progress (nd_chitchat_id nd) (hist (nd_chitchat_id nd)) ns Hh Hrep Hy _ nd now Hx Hcf Ha He).
Qed.
Lemma round_brings r r' : receiver_ok r → ¬ settled r → round r r' → total_lag r' < total_lag r.
Proof.
  intros Hr Hns Hround. destruct (round_brings_at r r' Hr Hns Hround) as (id & ns & Hid & Hlt).
  apply (sum_of_lt _ _ _ ((id, ns) : ChitchatId * NodeState)); [|by apply elem_of_btree_items|done].
  intros [id' ns'] Hin%elem_of_btree_items. by destruct (node_in_round r r' Hr Hround id' ns' Hin) as (_ & _ & ?).
Qed.
(** When nothing is missing any more, nothing changes any more. *)
Lemma settled_node id ns x nd now : node_states cs !! id = Some ns → can_follow ns x →
  behind id ns x = false → answers_digest id ns x nd → delta_result now x nd = x.
Proof.
  intros Hid [Hgc Hb] Hbeh Ha. destruct (sk_nodes Hs _ _ Hid) as (Hh & Hrep & Hy & _).
  destruct (answers_digest_spec id (hist id) ns Hh Hrep Hy x nd Ha) as (_ & Hng & _).
  destruct Ha as (from & Hf & [_ _ _ [rest Hkvs] _]). unfold behind in Hbeh. rewrite Hf in Hbeh.
  apply orb_false_iff in Hbeh as [Hno Hm]. simpl in Hkvs. destruct (sn_mutations _) eqn:Em; [|done].
  apply (ineffective_delta x nd); [by destruct (nd_key_values nd)|].
  intros (_ & Hle & Hlt & _)%decide_delta_Reset. rewrite Hng in *. unfold should_reset in Hno.
  apply andb_false_iff in Hno. rewrite !N.ltb_ge in Hno. specialize (Hb Hlt). lia.
Qed.
Lemma settled_same r r' : receiver_ok r → settled r → round r r' → ∀ id, node_state_mut r' id = node_state_mut r id.
Proof.
  intros Hr Hse Hround id. destruct (round_node r r' Hr Hround id) as [?|(ns & nd & now & Hid & Ha & ->)]; [done|].
  destruct (rk_nodes _ Hr _ ns Hid) as [_ Hcf]. apply (settled_node id ns); [done..| |done].
  unfold settled in Hse. rewrite Forall_forall in Hse. by apply (Hse (id, ns)), elem_of_btree_items.
Qed.
Lemma settled_stays r r' : receiver_ok r → settled r → round r r' → settled r'.
Proof.
  intros Hr Hse Hround. unfold settled in *. rewrite Forall_forall in *. intros p Hp.
  rewrite (settled_same r r' Hr) by (done || by apply Forall_forall). by apply Hse.
Qed.
#[local] Instance settled_dec r : Decision (settled r).
Proof. apply Forall_dec. intros p. apply bool_eq_dec. Defined.
Lemma rounds_settle n r r' : receiver_ok r → nsteps round n r r' → total_lag r < N.of_nat n →
  receiver_ok r' ∧ settled r'.
Proof.
  assert (∀ n r r', receiver_ok r → settled r → nsteps round n r r' → receiver_ok r' ∧ settled r') as Hstay.
  { clear n r r'. intros n r r' Hr Hse Hn. induction Hn as [|n r r1 r' Hround Hn IH]; [done|].
    apply IH; [by eapply round_keeps|by eapply settled_stays]. }
  intros Hr Hn. revert Hr. induction Hn as [r|n r r1 r' Hround Hn IH]; intros Hr Hlag; [lia|].
  destruct (round_keeps r r1 Hr Hround) as [Hr1 _].
  destruct (decide (settled r)) as [Hse|Hns].
  - apply (Hstay _ r1 r' Hr1 (settled_stays r r1 Hr Hse Hround) Hn).
  - apply IH; [done|]. pose proof (round_brings r r1 Hr Hns Hround). lia.
Qed.

(** C4: Gossip makes clusters agree, away from the boundary.  A receiver that
    hears from a sender round after round, through the deltas that the code
    packs under the MTU, can always take a further round (nothing panics), and
    after more rounds than its total lag it shows what the sender shows: for
    every node the sender knows and every key whose latest write the sender
    has seen and that is not about to expire.  The conditions: both hold
    states of the nodes' histories; the sender's keys are ones that listeners
    accept, its remaining tombstones are younger than its watermark, its
    operations fit in the stream, and the MTU (at least 100) has room for the
    headers of its nodes and any one entry ([sender_ok]); for each of these
    nodes the receiver has collected no more than the sender, and, where it
    has collected less, its [max_version] is not the sender's watermark, the
    boundary at which a delta loses keys ([receiver_ok], [can_follow]). *)
Theorem gossip_converges r n r' : receiver_ok r → nsteps round n r r' →
  (∃ r'', round r' r'') ∧
  (total_lag r < N.of_nat n → ∀ id ns k, node_states cs !! id = Some ns → settled_key (hist id) ns k →
     get (node_state_mut r' id) k = get ns k).
Proof.
  intros Hr Hn. split.
  - apply (round_possible r' 0). revert Hr. induction Hn; [done|]. intros Hr. apply IHHn. by eapply round_keeps.
  - intros Hlag id ns k Hid Hk. destruct (rounds_settle n r r' Hr Hn Hlag) as [Hr' Hse].
    destruct (sk_nodes Hs _ _ Hid) as (Hh & Hrep & Hy & _). destruct (rk_nodes _ Hr' _ _ Hid) as [Hx _].
    unfold settled in Hse. rewrite Forall_forall in Hse.
    apply (not_behind_agrees id (hist id) ns Hh Hrep); [done|done| |done].
    apply (Hse (id, ns)). by apply elem_of_btree_items.
Qed.
End gossip.

(** A process that knows one owner, and one that knows nobody. *)
Module SmallGossip.
Definition cs : ClusterState := put_node_state EmptyCluster.empty Runs.owner_id SmallRun.o1.
Definition hist (_ : ChitchatId) : history := SmallRun.h1.
Lemma cs_lookup id ns : node_states cs !! id = Some ns → id = Runs.owner_id ∧ ns = SmallRun.o1.
Proof. simpl. intros [[<- <-]|[_ Hid]]%lookup_insert_Some; [done|by rewrite lookup_empty in Hid]. Qed.
Lemma o1_lookup k v : key_values SmallRun.o1 !! k = Some v → k = "a"%string ∧ v = mkVersionedValue "1" 1 Set_.
Proof. simpl. intros [[<- <-]|[_ Hk]]%lookup_insert_Some; [done|by rewrite lookup_empty in Hk]. Qed.
Lemma o1_wf : wf_ns Runs.owner_id SmallRun.o1.
Proof.
  apply wf_ns_store; [apply wf_ns_new|reflexivity|].
  - vm_compute. naive_solver.
  - vm_compute. naive_solver.
Qed.
Lemma sends_ok : @sender_ok hist 1000 cs.
Proof.
  pose proof (sys_reachable_ok _ _ _ SmallRun.reachable) as Hok.
  split.
  - intros id ns Hid. apply cs_lookup in Hid as [-> ->]. apply o1_wf.
  - done.
  - by apply cluster_fits_u16.
  - split.
    + intros id ns Hid. apply cs_lookup in Hid as [-> _]. vm_compute. discriminate.
    + vm_compute. discriminate.
    + intros id ns k v Hid Hk. apply cs_lookup in Hid as [-> ->]. apply o1_lookup in Hk as [-> ->]. vm_compute. discriminate.
  - intros id ns Hid. apply cs_lookup in Hid as [-> ->]. split_and!.
    + apply (so_hist _ _ Hok).
    + apply (so_owner _ _ Hok).
    + intros k v Hk Hs. by apply o1_lookup in Hk as [-> ->].
    + intros k v Hk. by apply o1_lookup in Hk as [-> ->].
Qed.
Lemma empty_receives : receiver_ok hist cs EmptyCluster.empty.
Proof.
  split; [intros id ns Hid; simpl in Hid; by rewrite lookup_empty in Hid|].
  intros id ns Hid. apply cs_lookup in Hid as [-> ->]. split.
  { apply (so_replicas _ _ (sys_reachable_ok _ _ _ SmallRun.reachable) 1). }
  split; vm_compute; discriminate.
Qed.
(** Two rounds: the second has nothing to say. *)
Definition after_first : ClusterState := default EmptyCluster.empty (Runs.exchange cs EmptyCluster.empty 0).
Lemma exchange_is_round r r' : Runs.exchange cs r 0 = Some r' →
  @round StoreZstd.store Runs.no_shuffle 1000 cs r r'.
Proof.
  unfold Runs.exchange. intros Hx.
  destruct (compute_partial_delta_respecting_mtu _ _ _ _) as [d| | |] eqn:Hd; [|discriminate Hx..].
  destruct (cluster_apply_delta r d 0) as [[r1 calls]| | |] eqn:Hr; [|discriminate Hx..].
  injection Hx as <-. exact (gossip_round 1000 cs r d 0 r1 calls Hd Hr).
Qed.
Lemma two_rounds : nsteps (@round StoreZstd.store Runs.no_shuffle 1000 cs) 2 EmptyCluster.empty after_first.
Proof.
  apply (nsteps_l _ _ _ after_first); [|apply (nsteps_l _ _ _ after_first); [|apply nsteps_O]].
  all: apply exchange_is_round; vm_compute; reflexivity.
Qed.
End SmallGossip.
Lemma gossip_converges_witness : get (node_state_mut SmallGossip.after_first Runs.owner_id) "a" = Some "1"%string.
Proof.
  refine (eq_trans (proj2 (@gossip_converges StoreZstd.store StoreZstd.store_ok Runs.no_shuffle
    Runs.no_shuffle_ok SmallGossip.hist 1000 SmallGossip.cs SmallGossip.sends_ok
    EmptyCluster.empty 2 SmallGossip.after_first SmallGossip.empty_receives SmallGossip.two_rounds) _
    Runs.owner_id SmallRun.o1 "a" _ _) _).
  - vm_compute. reflexivity.
  - reflexivity.
  - intros kv Hkv. vm_compute in Hkv. injection Hkv as <-. split; vm_compute; discriminate.
  - reflexivity.
Defined.
