(* ===== verification/FailureDetector.v ===== *)
(** * The phi accrual failure detector (chitchat/src/failure_detector.rs)

    Double-precision numbers are [spec_float]s of the Standard Library (the
    IEEE 754 specification floats), so phi values can be computed.  Every
    operation takes the reading of the clock as an argument. *)
From Stdlib Require Import Floats.SpecFloat ZArith.
From S2P Require Import Prelude Types.
Open Scope N_scope.

(** ** [f64] *)
Abbreviation f64 := spec_float.
Definition f64_add (x y : f64) : f64 := SFadd 53 1024 x y.
Definition f64_sub (x y : f64) : f64 := SFsub 53 1024 x y.
Definition f64_mul (x y : f64) : f64 := SFmul 53 1024 x y.
Definition f64_div (x y : f64) : f64 := SFdiv 53 1024 x y.
(** [x <= y]: false when one of them is a NaN. *)
Definition f64_le (x y : f64) : bool := SFleb x y.
Definition f64_lt (x y : f64) : bool := SFltb x y.
(** [n as f64] *)
Definition f64_of_N (n : N) : f64 := binary_normalize 53 1024 (Z.of_N n) 0 false.
Definition f64_0 : f64 := S754_zero false.

Definition NANOS_PER_SEC : N := 1000000000.
(** [Duration::as_secs_f64] *)
Definition as_secs_f64 (d : Duration) : f64 :=
  f64_add (f64_of_N (d / NANOS_PER_SEC))
          (f64_div (f64_of_N (d mod NANOS_PER_SEC)) (f64_of_N NANOS_PER_SEC)).

(** [Duration::div_f32(2.0)]: through single precision, back to the nearest
    nanosecond (ties to even). *)
Definition f32_of_N (n : N) : spec_float := binary_normalize 24 128 (Z.of_N n) 0 false.
Definition as_secs_f32 (d : Duration) : spec_float :=
  SFadd 24 128 (f32_of_N (d / NANOS_PER_SEC))
    (SFdiv 24 128 (f32_of_N (d mod NANOS_PER_SEC)) (f32_of_N NANOS_PER_SEC)).
Definition round_half_even (num den : N) : N :=
  let q := num / den in
  let r := num mod den in
  if 2 * r <? den then q
  else if den <? 2 * r then q + 1
  else if N.even q then q else q + 1.
Definition from_secs_float (x : spec_float) : Duration :=
  match x with
  | S754_finite false m e =>
      match e with
      | Z0 => Npos m * NANOS_PER_SEC
      | Zpos p => Npos m * 2 ^ Npos p * NANOS_PER_SEC
      | Zneg p => round_half_even (Npos m * NANOS_PER_SEC) (2 ^ Npos p)
      end
  | _ => 0
  end.
Definition half_duration (d : Duration) : Duration :=
  from_secs_float (SFdiv 24 128 (as_secs_f32 d) (f32_of_N 2)).

(** ** [BoundedArrayStats] *)
Record BoundedArrayStats : Type := mkStats {
  ba_values : list f64;
  ba_is_filled : bool;
  ba_index : nat;
  ba_sum : f64;
}.
Definition ba_with_capacity (capacity : nat) : BoundedArrayStats :=
  mkStats (replicate capacity f64_0) false 0 f64_0.
Definition ba_append (b : BoundedArrayStats) (interval : f64) : res BoundedArrayStats :=
  let* old := unwrap "index out of bounds" (ba_values b !! ba_index b) in
  let sum := if ba_is_filled b then f64_sub (ba_sum b) old else ba_sum b in
  let values := <[ba_index b := interval]> (ba_values b) in
  let sum := f64_add sum interval in
  Ok (if bool_decide (ba_index b = length values - 1)%nat then mkStats values true 0 sum
      else mkStats values (ba_is_filled b) (S (ba_index b)) sum).
Definition ba_clear (b : BoundedArrayStats) : BoundedArrayStats :=
  mkStats (ba_values b) false 0 f64_0.
Definition ba_len (b : BoundedArrayStats) : nat :=
  if ba_is_filled b then length (ba_values b) else ba_index b.

(** ** [AdditiveSmoothing] and [SamplingWindow] *)
Record AdditiveSmoothing : Type := mkSmoothing {
  prior_mean : f64;
  prior_weight : f64;
}.
Definition compute_mean (s : AdditiveSmoothing) (len : nat) (sum : f64) : f64 :=
  f64_div (f64_add sum (f64_mul (prior_weight s) (prior_mean s)))
          (f64_add (f64_of_N (N.of_nat len)) (prior_weight s)).

Record SamplingWindow : Type := mkWindow {
  intervals : BoundedArrayStats;
  last_heartbeat : option Instant;
  max_interval : Duration;
  additive_smoothing : AdditiveSmoothing;
}.
Definition SamplingWindow_new (window_size : nat) (max_interval prior_interval : Duration)
    : SamplingWindow :=
  mkWindow (ba_with_capacity window_size) None max_interval
    (mkSmoothing (as_secs_f64 prior_interval) (f64_of_N 5)).
(** [Instant::duration_since] saturates at zero. *)
Definition window_report_heartbeat (w : SamplingWindow) (now : Instant) : res SamplingWindow :=
  let* ints :=
    match last_heartbeat w with
    | Some last_value =>
        let interval := now - last_value in
        if interval <=? max_interval w then ba_append (intervals w) (as_secs_f64 interval)
        else Ok (intervals w)
    | None => Ok (intervals w)
    end in
  Ok (mkWindow ints (Some now) (max_interval w) (additive_smoothing w)).
Definition window_reset (w : SamplingWindow) : SamplingWindow :=
  mkWindow (ba_clear (intervals w)) (last_heartbeat w) (max_interval w) (additive_smoothing w).
Definition window_phi (w : SamplingWindow) (now : Instant) : option f64 :=
  match ba_len (intervals w) with
  | O => None
  | len =>
      last ← last_heartbeat w;
      let interval_mean := compute_mean (additive_smoothing w) len (ba_sum (intervals w)) in
      Some (f64_div (as_secs_f64 (now - last)) interval_mean)
  end.

(** ** The detector *)
Record FailureDetectorConfig : Type := mkFdConfig {
  phi_threshold : f64;
  sampling_window_size : nat;
  fd_max_interval : Duration;
  initial_interval : Duration;
  dead_node_grace_period : Duration;
}.
Definition fd_config_default : FailureDetectorConfig :=
  mkFdConfig (f64_of_N 8) 1000 (10 * NANOS_PER_SEC) (5 * NANOS_PER_SEC) (20 * NANOS_PER_SEC).

Record FailureDetector : Type := mkFd {
  node_samples : gmap ChitchatId SamplingWindow;
  fd_config : FailureDetectorConfig;
  fd_live_nodes : gset ChitchatId;
  fd_dead_nodes : gmap ChitchatId Instant;
}.
Definition FailureDetector_new (config : FailureDetectorConfig) : FailureDetector :=
  mkFd ∅ config ∅ ∅.

(** The window that [get_or_create_sampling_window] returns a reference to,
    and the detector that holds it. *)
Definition sampling_window_of (fd : FailureDetector) (id : ChitchatId) : SamplingWindow :=
  match node_samples fd !! id with
  | Some w => w
  | None =>
      SamplingWindow_new (sampling_window_size (fd_config fd)) (fd_max_interval (fd_config fd))
        (initial_interval (fd_config fd))
  end.
Definition put_sampling_window (fd : FailureDetector) (id : ChitchatId) (w : SamplingWindow)
    : FailureDetector :=
  mkFd (<[id := w]> (node_samples fd)) (fd_config fd) (fd_live_nodes fd) (fd_dead_nodes fd).
Definition get_or_create_sampling_window (fd : FailureDetector) (id : ChitchatId)
    : FailureDetector :=
  put_sampling_window fd id (sampling_window_of fd id).
Definition fd_report_heartbeat (fd : FailureDetector) (id : ChitchatId) (now : Instant)
    : res FailureDetector :=
  let* w := window_report_heartbeat (sampling_window_of fd id) now in
  Ok (put_sampling_window fd id w).

Definition phi (fd : FailureDetector) (id : ChitchatId) (now : Instant) : option f64 :=
  w ← node_samples fd !! id; window_phi w now.
Definition is_alive (fd : FailureDetector) (id : ChitchatId) (now : Instant) : bool :=
  match phi fd id now with
  | Some p => f64_le p (phi_threshold (fd_config fd))
  | None => false
  end.
Definition update_node_liveness (fd : FailureDetector) (id : ChitchatId) (now : Instant)
    : FailureDetector :=
  if is_alive fd id now then
    mkFd (node_samples fd) (fd_config fd) ({[id]} ∪ fd_live_nodes fd) (delete id (fd_dead_nodes fd))
  else
    mkFd (alter window_reset id (node_samples fd)) (fd_config fd) (fd_live_nodes fd ∖ {[id]})
      (match fd_dead_nodes fd !! id with
       | Some _ => fd_dead_nodes fd
       | None => <[id := now]> (fd_dead_nodes fd)
       end).

(** The nodes to collect, and the detector without them. *)
Definition garbage_of (fd : FailureDetector) (now : Instant) : list ChitchatId :=
  (filter (λ p, p.2 + dead_node_grace_period (fd_config fd) ≤ now)
          (map_to_list (fd_dead_nodes fd))).*1.
Definition remove_dead (fd : FailureDetector) (id : ChitchatId) : FailureDetector :=
  mkFd (delete id (node_samples fd)) (fd_config fd) (fd_live_nodes fd)
    (delete id (fd_dead_nodes fd)).
Definition garbage_collect (fd : FailureDetector) (now : Instant)
    : list ChitchatId * FailureDetector :=
  let nodes := garbage_of fd now in
  (nodes, foldl remove_dead fd nodes).

Definition scheduled_for_deletion_nodes (fd : FailureDetector) (now : Instant)
    : gset ChitchatId :=
  dom (filter (λ p, p.2 + half_duration (dead_node_grace_period (fd_config fd)) < now)
              (fd_dead_nodes fd)).

(** ** The ring buffer is a queue of the latest values

    The abstract window is the list of the values appended since the last
    [ba_clear], of which the ring keeps the latest [capacity] ones. *)
Definition ring_content (b : BoundedArrayStats) : list f64 :=
  if ba_is_filled b then drop (ba_index b) (ba_values b) ++ take (ba_index b) (ba_values b)
  else take (ba_index b) (ba_values b).
Definition latest_values (capacity : nat) (xs : list f64) : list f64 :=
  drop (length xs - capacity) xs.
Record ring_ok (capacity : nat) (b : BoundedArrayStats) (xs : list f64) : Prop := {
  rg_capacity : length (ba_values b) = capacity;
  rg_index : (ba_index b < capacity)%nat;
  rg_filled : ba_is_filled b = bool_decide (capacity ≤ length xs)%nat;
  rg_content : ring_content b = latest_values capacity xs;
}.

Lemma ring_ok_new capacity : (0 < capacity)%nat → ring_ok capacity (ba_with_capacity capacity) [].
Proof.
  intros Hc. split; simpl; [apply length_replicate|done| |].
  - by rewrite bool_decide_eq_false_2 by lia.
  - by destruct capacity.
Qed.
Lemma ring_ok_clear capacity b xs : ring_ok capacity b xs → ring_ok capacity (ba_clear b) [].
Proof.
  intros [Hc Hi _ _]. split; simpl; [done|lia| |].
  - by rewrite bool_decide_eq_false_2 by lia.
  - by destruct capacity.
Qed.
Lemma ring_ok_len capacity b xs : ring_ok capacity b xs →
  ba_len b = Nat.min capacity (length xs).
Proof.
  intros [Hc Hi Hf Hx]. unfold ba_len. rewrite Hf in *.
  unfold ring_content in Hx. rewrite Hf in Hx. apply (f_equal length) in Hx. revert Hx.
  unfold latest_values. case_bool_decide; rewrite ?length_app, ?length_take, ?length_drop; lia.
Qed.
(** The values kept after one more, oldest first. *)
Lemma ring_latest capacity b xs x : ring_ok capacity b xs →
  latest_values capacity (xs ++ [x]) =
    (if ba_is_filled b then drop (S (ba_index b)) (ba_values b) ++ take (ba_index b) (ba_values b)
     else take (ba_index b) (ba_values b)) ++ [x].
Proof.
  intros [Hc Hi Hf Hx]. destruct (lookup_lt_is_Some_2 (ba_values b) (ba_index b)) as [old Hold]; [lia|].
  unfold ring_content in Hx. rewrite Hf in *. unfold latest_values in *.
  rewrite length_app. cbn [length]. case_bool_decide as Hcap.
  - rewrite (drop_S _ old) in Hx by done. rewrite drop_app_le by lia.
    assert (drop (length xs + 1 - capacity) xs = drop 1 (drop (length xs - capacity) xs)) as ->
      by (rewrite drop_drop; f_equal; lia).
    by rewrite <-Hx.
  - replace (length xs + 1 - capacity)%nat with 0%nat by lia.
    replace (length xs - capacity)%nat with 0%nat in Hx by lia.
    rewrite drop_0 in *. by rewrite Hx.
Qed.
Lemma ring_not_filled capacity b xs : ring_ok capacity b xs → ba_is_filled b = false → ba_index b = length xs.
Proof.
  intros [Hc Hi Hf Hx] Hn. rewrite Hn in Hf. symmetry in Hf. apply bool_decide_eq_false in Hf.
  unfold ring_content, latest_values in Hx. rewrite Hn in Hx.
  apply (f_equal length) in Hx. rewrite length_drop, length_take in Hx. lia.
Qed.
Lemma ring_ok_append capacity b xs x : ring_ok capacity b xs →
  ∃ b', ba_append b x = Ok b' ∧ ring_ok capacity b' (xs ++ [x]).
Proof.
  intros Hb. pose proof Hb as [Hc Hi Hf Hx].
  destruct (lookup_lt_is_Some_2 (ba_values b) (ba_index b)) as [old Hold]; [lia|].
  unfold ba_append. rewrite Hold. cbn [unwrap rbind]. rewrite length_insert, Hc.
  pose proof (take_drop_middle _ _ _ Hold) as Hsplit.
  set (l1 := take (ba_index b) (ba_values b)) in *.
  set (l2 := drop (S (ba_index b)) (ba_values b)) in *.
  assert (length l1 = ba_index b) as Hl1 by (subst l1; rewrite length_take; lia).
  assert (<[ba_index b := x]> (ba_values b) = l1 ++ x :: l2) as Hins.
  { rewrite <-Hsplit. rewrite insert_app_r_alt by lia. by rewrite Hl1, Nat.sub_diag. }
  assert (length l1 + S (length l2) = capacity)%nat as Hlen
    by (rewrite <-Hc, <-Hsplit, length_app; simpl; lia).
  pose proof (ring_latest capacity b xs x Hb) as Hnew. fold l1 l2 in Hnew.
  assert (ba_is_filled b = false → length l1 = length xs) as Hxs by (rewrite Hl1; by apply (ring_not_filled capacity)).
  eexists. split; [done|]. rewrite Hins. clear Hx.
  destruct (decide (ba_index b = capacity - 1)%nat) as [Hlast|Hlast];
    [rewrite (bool_decide_eq_true_2 _ Hlast)|rewrite (bool_decide_eq_false_2 _ Hlast)].
  - assert (l2 = []) as El2 by (apply length_zero_iff_nil; lia). rewrite El2 in *.
    split; simpl; [rewrite length_app; simpl; lia|lia| |].
    + symmetry. apply bool_decide_eq_true. rewrite length_app. simpl.
      destruct (ba_is_filled b) eqn:E; [|specialize (Hxs eq_refl); lia].
      symmetry in Hf. apply bool_decide_eq_true in Hf. lia.
    + unfold ring_content. simpl. rewrite Hnew, app_nil_r. by destruct (ba_is_filled b).
  - split; simpl; [rewrite length_app; simpl; lia|lia| |].
    + destruct (ba_is_filled b) eqn:E; rewrite length_app; simpl.
      * rewrite bool_decide_eq_true_2; [done|]. symmetry in Hf. apply bool_decide_eq_true in Hf. lia.
      * rewrite bool_decide_eq_false_2; [done|]. specialize (Hxs eq_refl). lia.
    + unfold ring_content. simpl ba_is_filled. simpl ba_index. simpl ba_values.
      assert (l1 ++ x :: l2 = (l1 ++ [x]) ++ l2) as -> by (by rewrite <-(assoc_L (++))).
      assert (length (l1 ++ [x]) = S (ba_index b)) as Hl by (rewrite length_app; simpl; lia).
      rewrite take_app_length', drop_app_length' by done. rewrite Hnew.
      destruct (ba_is_filled b); [by rewrite (assoc_L (++))|done].
Qed.

(** ** The invariant of the detector

    No node is both live and dead, and every window is a ring of the
    configured capacity, so that appending an interval never panics. *)
Record fd_inv (fd : FailureDetector) : Prop := {
  fi_disjoint : ∀ id, id ∈ fd_live_nodes fd → fd_dead_nodes fd !! id = None;
  fi_windows : ∀ id w, node_samples fd !! id = Some w →
    ∃ xs, ring_ok (sampling_window_size (fd_config fd)) (intervals w) xs;
  fi_capacity : (0 < sampling_window_size (fd_config fd))%nat;
}.
Lemma fd_inv_new config : (0 < sampling_window_size config)%nat → fd_inv (FailureDetector_new config).
Proof.
  intros Hc. split; simpl; [set_solver| |done]. intros id w. by rewrite lookup_empty.
Qed.
Lemma sampling_window_of_ok fd id : fd_inv fd →
  ∃ xs, ring_ok (sampling_window_size (fd_config fd)) (intervals (sampling_window_of fd id)) xs.
Proof.
  intros Hfd. unfold sampling_window_of. destruct (node_samples fd !! id) as [w|] eqn:E.
  - by eapply fi_windows.
  - exists []. apply ring_ok_new, Hfd.
Qed.
Lemma put_sampling_window_inv fd id w xs : fd_inv fd →
  ring_ok (sampling_window_size (fd_config fd)) (intervals w) xs →
  fd_inv (put_sampling_window fd id w).
Proof.
  intros [Hd Hw Hc] Hring. split; simpl; [done| |done].
  intros id' w'. rewrite lookup_insert_Some. intros [[_ <-]|[_ Hl]]; eauto.
Qed.
Lemma get_or_create_inv fd id : fd_inv fd → fd_inv (get_or_create_sampling_window fd id).
Proof.
  intros Hfd. destruct (sampling_window_of_ok fd id Hfd) as [xs Hxs].
  by eapply put_sampling_window_inv.
Qed.
(** What a heartbeat adds to the window. *)
Definition new_interval (w : SamplingWindow) (now : Instant) : list f64 :=
  match last_heartbeat w with
  | Some last => if now - last <=? max_interval w then [as_secs_f64 (now - last)] else []
  | None => []
  end.
Lemma window_report_heartbeat_spec w now capacity xs : ring_ok capacity (intervals w) xs →
  ∃ w', window_report_heartbeat w now = Ok w' ∧
    ring_ok capacity (intervals w') (xs ++ new_interval w now) ∧ last_heartbeat w' = Some now.
Proof.
  intros Hring. unfold window_report_heartbeat, new_interval.
  destruct (last_heartbeat w) as [t|]; [destruct (now - t <=? max_interval w)|].
  - destruct (ring_ok_append _ _ _ (as_secs_f64 (now - t)) Hring) as (b & -> & Hb).
    cbn [rbind]. eauto.
  - cbn [rbind]. rewrite app_nil_r. eauto.
  - cbn [rbind]. rewrite app_nil_r. eauto.
Qed.
Lemma fd_report_heartbeat_ok fd id now : fd_inv fd →
  ∃ fd', fd_report_heartbeat fd id now = Ok fd' ∧ fd_inv fd' ∧
    fd_config fd' = fd_config fd ∧ fd_live_nodes fd' = fd_live_nodes fd ∧
    fd_dead_nodes fd' = fd_dead_nodes fd.
Proof.
  intros Hfd. destruct (sampling_window_of_ok fd id Hfd) as [xs Hxs].
  destruct (window_report_heartbeat_spec _ now _ _ Hxs) as (w & Hw & Hring & _).
  unfold fd_report_heartbeat. rewrite Hw. cbn [rbind]. eexists. split; [done|].
  split; [|done]. by eapply put_sampling_window_inv.
Qed.
Lemma update_node_liveness_inv fd id now : fd_inv fd → fd_inv (update_node_liveness fd id now).
Proof.
  intros [Hd Hw Hc]. unfold update_node_liveness. destruct (is_alive fd id now).
  - split; simpl; [|done|done]. intros id'. rewrite elem_of_union, elem_of_singleton.
    intros [->|Hin]; [by rewrite lookup_delete_eq|].
    rewrite lookup_delete_None. auto.
  - split; simpl; [| |done].
    + intros id'. rewrite elem_of_difference, elem_of_singleton. intros [Hin Hne].
      specialize (Hd _ Hin). destruct (fd_dead_nodes fd !! id) as [t|]; [done|].
      by rewrite lookup_insert_ne.
    + intros id' w. rewrite lookup_alter_Some.
      intros [(-> & w0 & Hl & ->)|[_ Hl]]; [|eauto].
      destruct (Hw _ _ Hl) as [xs Hxs]. exists []. by eapply ring_ok_clear.
Qed.
(** After an update the node is live or dead, never both, never neither; the
    time of death is that of the first update that found it dead. *)
Lemma update_node_liveness_spec fd id now : fd_inv fd →
  let fd' := update_node_liveness fd id now in
  if is_alive fd id now then id ∈ fd_live_nodes fd' ∧ fd_dead_nodes fd' !! id = None
  else id ∉ fd_live_nodes fd' ∧
    fd_dead_nodes fd' !! id = Some (default now (fd_dead_nodes fd !! id)) ∧
    phi fd' id now = None.
Proof.
  intros Hfd fd'. subst fd'. unfold update_node_liveness.
  destruct (is_alive fd id now); simpl.
  - split; [set_solver|apply lookup_delete_eq].
  - split_and!; [set_solver| |].
    + destruct (fd_dead_nodes fd !! id) as [t|] eqn:E; [by rewrite E|]. apply lookup_insert_eq.
    + unfold phi. simpl. rewrite lookup_alter_eq.
      by destruct (node_samples fd !! id) as [w|].
Qed.
Lemma update_node_liveness_frame fd id now id' : id' ≠ id →
  let fd' := update_node_liveness fd id now in
  (id' ∈ fd_live_nodes fd' ↔ id' ∈ fd_live_nodes fd) ∧
  fd_dead_nodes fd' !! id' = fd_dead_nodes fd !! id' ∧
  node_samples fd' !! id' = node_samples fd !! id'.
Proof.
  intros Hne fd'. subst fd'. unfold update_node_liveness.
  destruct (is_alive fd id now); simpl.
  - split_and!; [set_solver|by apply lookup_delete_ne|done].
  - split_and!; [set_solver| |by apply lookup_alter_ne].
    destruct (fd_dead_nodes fd !! id); [done|]. by apply lookup_insert_ne.
Qed.

(** ** Collection *)
Lemma elem_of_garbage fd now id : id ∈ garbage_of fd now ↔
  ∃ t, fd_dead_nodes fd !! id = Some t ∧ t + dead_node_grace_period (fd_config fd) ≤ now.
Proof.
  unfold garbage_of. rewrite list_elem_of_fmap. split.
  - intros ([id' t] & -> & Hin). apply list_elem_of_filter in Hin as [Ht Hin].
    apply elem_of_map_to_list in Hin. eauto.
  - intros (t & Hl & Ht). exists (id, t). split; [done|]. apply list_elem_of_filter.
    split; [done|]. by apply elem_of_map_to_list.
Qed.
Lemma foldl_remove_dead ids fd :
  let fd' := foldl remove_dead fd ids in
  fd_live_nodes fd' = fd_live_nodes fd ∧ fd_config fd' = fd_config fd ∧
  (∀ id, fd_dead_nodes fd' !! id = if decide (id ∈ ids) then None else fd_dead_nodes fd !! id) ∧
  (∀ id, node_samples fd' !! id = if decide (id ∈ ids) then None else node_samples fd !! id).
Proof.
  revert fd; induction ids as [|i ids IH]; intros fd; simpl; [done|].
  destruct (IH (remove_dead fd i)) as (-> & -> & Hd & Hs). split_and!; [done|done| |];
    intros id; rewrite ?Hd, ?Hs; simpl; destruct (decide (id = i)) as [->|Hne].
  - rewrite lookup_delete_eq, (decide_True (P:=i ∈ i :: ids)) by (by left). by case_decide.
  - rewrite lookup_delete_ne by done. repeat case_decide; set_solver.
  - rewrite lookup_delete_eq, (decide_True (P:=i ∈ i :: ids)) by (by left). by case_decide.
  - rewrite lookup_delete_ne by done. repeat case_decide; set_solver.
Qed.
Lemma garbage_collect_inv fd now : fd_inv fd → fd_inv (garbage_collect fd now).2.
Proof.
  intros [Hd Hw Hc]. destruct (foldl_remove_dead (garbage_of fd now) fd) as (Hl & Hcfg & Hdead & Hs).
  simpl. split; rewrite ?Hl, ?Hcfg; [| |done].
  - intros id Hin. rewrite Hdead. case_decide; auto.
  - intros id w. rewrite Hs. case_decide; [done|]. apply Hw.
Qed.

(** A node is trusted when it has a phi, which is not above the threshold. *)
Definition trusted (fd : FailureDetector) (id : ChitchatId) (now : Instant) : Prop :=
  ∃ p, phi fd id now = Some p ∧ f64_le p (phi_threshold (fd_config fd)) = true.
Lemma is_alive_trusted fd id now : is_alive fd id now = true ↔ trusted fd id now.
Proof.
  unfold is_alive, trusted. destruct (phi fd id now) as [p|]; [|naive_solver].
  split; [eauto|]. by intros (? & [= <-] & ?).
Qed.

(** ** What the detector is meant to compute

    Node by node, from what happened so far: the intervals between its
    heartbeats since it was last found dead, and since when it is dead. *)
Record NodeHistory : Type := mkHistory {
  h_last : option Instant;
  h_intervals : list f64;
  h_live : bool;
  h_dead : option Instant;
}.
Definition unseen : NodeHistory := mkHistory None [] false None.
(** The sum of the last [capacity] values as it is kept up to date: the
    latest is added after the one that falls out is subtracted. *)
Definition rolling_sum (capacity : nat) (xs : list f64) : f64 :=
  foldl (λ s k, f64_add (if (k <? capacity)%nat then s else f64_sub s (nth (k - capacity) xs f64_0)) (nth k xs f64_0))
    f64_0 (seq 0 (length xs)).
Inductive FdOp : Type :=
  | OpReport (id : ChitchatId) (now : Instant)
  | OpGetOrCreate (id : ChitchatId)
  | OpUpdate (id : ChitchatId) (now : Instant)
  | OpCollect (now : Instant).
Section history.
Context (cfg : FailureDetectorConfig).
(** The time since the last heartbeat over the mean interval, where five
    intervals of the initial length are counted in. *)
Definition spec_phi (h : NodeHistory) (now : Instant) : option f64 :=
  match h_intervals h, h_last h with
  | _ :: _, Some last =>
      let n := f64_of_N (N.of_nat (Nat.min (sampling_window_size cfg) (length (h_intervals h)))) in
      let sum := rolling_sum (sampling_window_size cfg) (h_intervals h) in
      Some (f64_div (as_secs_f64 (now - last))
        (f64_div (f64_add sum (f64_mul (f64_of_N 5) (as_secs_f64 (initial_interval cfg)))) (f64_add n (f64_of_N 5))))
  | _, _ => None
  end.
Definition spec_step (id : ChitchatId) (h : NodeHistory) (op : FdOp) : NodeHistory :=
  match op with
  | OpReport id' now =>
      if bool_decide (id' = id) then
        mkHistory (Some now)
          (h_intervals h ++ match h_last h with
                            | Some last => if now - last <=? fd_max_interval cfg then [as_secs_f64 (now - last)] else []
                            | None => []
                            end) (h_live h) (h_dead h)
      else h
  | OpGetOrCreate _ => h
  | OpUpdate id' now =>
      if bool_decide (id' = id) then
        match spec_phi h now with
        | Some p => if f64_le p (phi_threshold cfg) then mkHistory (h_last h) (h_intervals h) true None
                    else mkHistory (h_last h) [] false (Some (default now (h_dead h)))
        | None => mkHistory (h_last h) [] false (Some (default now (h_dead h)))
        end
      else h
  | OpCollect now =>
      match h_dead h with
      | Some t => if t + dead_node_grace_period cfg <=? now then mkHistory None [] (h_live h) None else h
      | None => h
      end
  end.
Definition history (id : ChitchatId) (ops : list FdOp) : NodeHistory := foldl (spec_step id) unseen ops.
End history.
Definition fd_op (fd : FailureDetector) (op : FdOp) : res FailureDetector :=
  match op with
  | OpReport id now => fd_report_heartbeat fd id now
  | OpGetOrCreate id => Ok (get_or_create_sampling_window fd id)
  | OpUpdate id now => Ok (update_node_liveness fd id now)
  | OpCollect now => Ok (garbage_collect fd now).2
  end.
Fixpoint fd_run (fd : FailureDetector) (ops : list FdOp) : res FailureDetector :=
  match ops with
  | [] => Ok fd
  | op :: ops => let* fd := fd_op fd op in fd_run fd ops
  end.

(** *** The window of a node against its history *)
Lemma rolling_sum_snoc capacity xs x :
  rolling_sum capacity (xs ++ [x]) =
  f64_add (if (length xs <? capacity)%nat then rolling_sum capacity xs
           else f64_sub (rolling_sum capacity xs) (nth (length xs - capacity) (xs ++ [x]) f64_0)) x.
Proof.
  unfold rolling_sum. rewrite length_app, Nat.add_1_r, seq_S, foldl_app. simpl.
  rewrite (nth_middle xs [] x f64_0).
  assert (∀ ks s, Forall (λ k, k < length xs)%nat ks →
    foldl (λ s k, f64_add (if (k <? capacity)%nat then s else f64_sub s (nth (k - capacity) (xs ++ [x]) f64_0)) (nth k (xs ++ [x]) f64_0)) s ks =
    foldl (λ s k, f64_add (if (k <? capacity)%nat then s else f64_sub s (nth (k - capacity) xs f64_0)) (nth k xs f64_0)) s ks) as Hext.
  { induction ks as [|k ks IH]; intros s Hks; [done|]. apply Forall_cons in Hks as [Hk Hks]. simpl.
    rewrite IH by done. by rewrite !app_nth1 by lia. }
  rewrite Hext; [done|]. apply Forall_forall. intros k Hk%elem_of_seq. lia.
Qed.
(** The ring holds the latest values of [xs], and their rolling sum. *)
Record window_ok (cfg : FailureDetectorConfig) (w : SamplingWindow) (h : NodeHistory) : Prop := {
  wo_ring : ring_ok (sampling_window_size cfg) (intervals w) (h_intervals h);
  wo_sum : ba_sum (intervals w) = rolling_sum (sampling_window_size cfg) (h_intervals h);
  wo_last : last_heartbeat w = h_last h;
  wo_max : max_interval w = fd_max_interval cfg;
  wo_prior : additive_smoothing w = mkSmoothing (as_secs_f64 (initial_interval cfg)) (f64_of_N 5);
}.
Lemma ba_append_sum capacity b xs x b' : ring_ok capacity b xs → ba_sum b = rolling_sum capacity xs →
  ba_append b x = Ok b' → ba_sum b' = rolling_sum capacity (xs ++ [x]).
Proof.
  intros Hb Hs Ha. pose proof Hb as [Hc Hi Hf Hx]. rewrite rolling_sum_snoc, <-Hs.
  destruct (lookup_lt_is_Some_2 (ba_values b) (ba_index b)) as [old Hold]; [lia|].
  unfold ba_append in Ha. rewrite Hold in Ha. cbn [unwrap rbind] in Ha.
  assert (ba_sum b' = f64_add (if ba_is_filled b then f64_sub (ba_sum b) old else ba_sum b) x) as ->.
  { apply Ok_inj in Ha. subst b'. match goal with |- ba_sum (if ?c then _ else _) = _ => destruct c end; reflexivity. }
  f_equal. unfold ring_content in Hx. rewrite Hf in *. case_bool_decide as Hcap.
  - rewrite (proj2 (Nat.ltb_ge _ _)) by done. f_equal.
    rewrite (drop_S _ old) in Hx by done. unfold latest_values in Hx. rewrite app_nth1 by lia.
    apply (f_equal (λ l, nth 0 l f64_0)) in Hx. simpl in Hx. rewrite Hx, nth_lookup, lookup_drop, nth_lookup.
    by rewrite Nat.add_0_r.
  - rewrite (proj2 (Nat.ltb_lt _ _)) by lia. done.
Qed.
Lemma window_ok_new cfg : (0 < sampling_window_size cfg)%nat →
  window_ok cfg (SamplingWindow_new (sampling_window_size cfg) (fd_max_interval cfg) (initial_interval cfg)) unseen.
Proof. intros Hc. split; try done. by apply ring_ok_new. Qed.
Lemma window_ok_phi cfg w h now : window_ok cfg w h → window_phi w now = spec_phi cfg h now.
Proof.
  intros [Hr Hs Hl _ Hp]. unfold window_phi, spec_phi. rewrite (ring_ok_len _ _ _ Hr), Hl, Hs, Hp.
  pose proof (rg_index _ _ _ Hr). destruct (h_intervals h) as [|x xs]; [by rewrite Nat.min_0_r|].
  destruct (Nat.min (sampling_window_size cfg) (length (x :: xs))) as [|n] eqn:En; [simpl in En; lia|].
  by destruct (h_last h).
Qed.
(** *** The detector against the histories of its nodes *)
Record node_ok (cfg : FailureDetectorConfig) (fd : FailureDetector) (id : ChitchatId) (h : NodeHistory) : Prop := {
  no_live : id ∈ fd_live_nodes fd ↔ h_live h = true;
  no_dead : fd_dead_nodes fd !! id = h_dead h;
  no_disjoint : h_live h = true → h_dead h = None;
  no_window : match node_samples fd !! id with
    | Some w => window_ok cfg w h
    | None => h_intervals h = [] ∧ h_last h = None
    end;
}.
Definition histories_ok (cfg : FailureDetectorConfig) (fd : FailureDetector) (H : ChitchatId → NodeHistory) : Prop :=
  fd_config fd = cfg ∧ ∀ id, node_ok cfg fd id (H id).
Lemma node_ok_phi cfg fd id h now : node_ok cfg fd id h → phi fd id now = spec_phi cfg h now.
Proof.
  intros [_ _ _ Hw]. unfold phi. destruct (node_samples fd !! id) as [w|]; simpl; [by apply window_ok_phi|].
  destruct Hw as [E1 E2]. unfold spec_phi. by rewrite E1.
Qed.
Lemma sampling_window_ok cfg fd id h : (0 < sampling_window_size cfg)%nat → fd_config fd = cfg → node_ok cfg fd id h →
  window_ok cfg (sampling_window_of fd id) h.
Proof.
  intros Hc <- [_ _ _ Hw]. unfold sampling_window_of. destruct (node_samples fd !! id) as [w|]; [done|].
  destruct Hw as [E1 E2]. destruct (window_ok_new _ Hc) as [H1 H2 H3 H4 H5]. split; rewrite ?E1, ?E2; done.
Qed.
(** Another node is left alone. *)
Lemma node_ok_frame cfg fd fd' id h : node_ok cfg fd id h →
  (id ∈ fd_live_nodes fd' ↔ id ∈ fd_live_nodes fd) → fd_dead_nodes fd' !! id = fd_dead_nodes fd !! id →
  node_samples fd' !! id = node_samples fd !! id → node_ok cfg fd' id h.
Proof. intros [Hl Hd Hx Hw] El Ed Ew. split; rewrite ?El, ?Ed, ?Ew; done. Qed.
Lemma window_report_ok cfg w h now : window_ok cfg w h →
  ∃ w', window_report_heartbeat w now = Ok w' ∧ window_ok cfg w' (mkHistory (Some now)
    (h_intervals h ++ match h_last h with
                      | Some last => if now - last <=? fd_max_interval cfg then [as_secs_f64 (now - last)] else []
                      | None => []
                      end) (h_live h) (h_dead h)).
Proof.
  intros [Hr Hs Hl Hm Hp]. unfold window_report_heartbeat. rewrite Hl, Hm.
  destruct (h_last h) as [t|]; [destruct (now - t <=? fd_max_interval cfg)|]; cbn [rbind].
  - destruct (ring_ok_append _ _ _ (as_secs_f64 (now - t)) Hr) as (b & Ha & Hb). rewrite Ha. cbn [rbind].
    eexists. split; [done|]. split; simpl; try done. by eapply ba_append_sum.
  - eexists. split; [done|]. split; simpl; rewrite ?app_nil_r; done.
  - eexists. split; [done|]. split; simpl; rewrite ?app_nil_r; done.
Qed.
Lemma report_ok cfg fd H id now : (0 < sampling_window_size cfg)%nat → histories_ok cfg fd H →
  ∃ fd', fd_report_heartbeat fd id now = Ok fd' ∧ histories_ok cfg fd' (λ i, spec_step cfg i (H i) (OpReport id now)).
Proof.
  intros Hc [Hcfg Hall]. pose proof (Hall id) as Hid.
  destruct (window_report_ok cfg _ _ now (sampling_window_ok cfg fd id _ Hc Hcfg Hid)) as (w & Hw & Hok).
  unfold fd_report_heartbeat. rewrite Hw. cbn [rbind]. eexists. split; [done|]. split; [done|]. intros i. simpl.
  case_bool_decide as Hi.
  - subst i. destruct Hid as [Hl Hd Hx _]. split; simpl; [done..|]. by rewrite lookup_insert_eq.
  - apply (node_ok_frame _ fd); [done..|]. by apply lookup_insert_ne.
Qed.
Lemma get_or_create_ok cfg fd H id : (0 < sampling_window_size cfg)%nat → histories_ok cfg fd H →
  histories_ok cfg (get_or_create_sampling_window fd id) H.
Proof.
  intros Hc [Hcfg Hall]. split; [done|]. intros i. destruct (decide (i = id)) as [->|Hne].
  - pose proof (sampling_window_ok cfg fd id _ Hc Hcfg (Hall id)) as Hw. destruct (Hall id) as [Hl Hd Hx _].
    split; simpl; [done..|]. by rewrite lookup_insert_eq.
  - apply (node_ok_frame _ fd); [done..|]. by apply lookup_insert_ne.
Qed.
Lemma update_ok cfg fd H id now : histories_ok cfg fd H →
  histories_ok cfg (update_node_liveness fd id now) (λ i, spec_step cfg i (H i) (OpUpdate id now)).
Proof.
  intros [Hcfg Hall]. split; [unfold update_node_liveness; by destruct (is_alive fd id now)|]. intros i. simpl.
  case_bool_decide as Hi.
  - subst i. rewrite <-(node_ok_phi cfg fd id _ now (Hall id)). destruct (Hall id) as [Hl Hd Hx Hw].
    unfold update_node_liveness, is_alive. rewrite Hcfg.
    assert (node_ok cfg (mkFd (alter window_reset id (node_samples fd)) (fd_config fd) (fd_live_nodes fd ∖ {[id]})
      (match fd_dead_nodes fd !! id with Some _ => fd_dead_nodes fd | None => <[id := now]> (fd_dead_nodes fd) end)) id
      (mkHistory (h_last (H id)) [] false (Some (default now (h_dead (H id)))))) as Hdead.
    { split; simpl; [set_solver| |done|].
      - rewrite Hd. destruct (h_dead (H id)); [by rewrite Hd|apply lookup_insert_eq].
      - rewrite lookup_alter_eq. destruct (node_samples fd !! id) as [w|]; simpl; [|by destruct Hw].
        destruct Hw as [Hr Hs Hla Hm Hp]. split; simpl; try done. by eapply ring_ok_clear. }
    rewrite Hcfg in Hdead. destruct (phi fd id now) as [p|]; [|exact Hdead]. destruct (f64_le p _); [|exact Hdead].
    split; simpl; [set_solver|apply lookup_delete_eq|done|]. destruct (node_samples fd !! id) as [w|]; [|done]. by destruct Hw.
  - destruct (update_node_liveness_frame fd id now i (not_eq_sym Hi)) as (El & Ed & Ew). by apply (node_ok_frame _ fd).
Qed.
Lemma collect_ok cfg fd H now : histories_ok cfg fd H →
  histories_ok cfg (garbage_collect fd now).2 (λ i, spec_step cfg i (H i) (OpCollect now)).
Proof.
  intros [Hcfg Hall]. destruct (foldl_remove_dead (garbage_of fd now) fd) as (Gl & Gc & Gd & Gs). simpl.
  split; [by rewrite Gc|]. intros i. pose proof (elem_of_garbage fd now i) as Gin.
  specialize (Gd i). specialize (Gs i). destruct (Hall i) as [Hl Hd Hx Hw]. simpl. rewrite Hd, Hcfg in Gin.
  destruct (h_dead (H i)) as [t|] eqn:Et.
  - destruct (N.leb_spec (t + dead_node_grace_period cfg) now) as [Hle|Hlt].
    + rewrite decide_True in Gd by (apply Gin; eauto). rewrite decide_True in Gs by (apply Gin; eauto). split; simpl; [by rewrite Gl|done|done|]. by rewrite Gs.
    + assert (i ∉ garbage_of fd now) as Hng by (rewrite Gin; intros (t' & [= <-] & ?); lia).
      rewrite decide_False in Gd by done. rewrite decide_False in Gs by done.
      apply (node_ok_frame _ fd); [by split; rewrite ?Et|by rewrite Gl|done|done].
  - assert (i ∉ garbage_of fd now) as Hng by (rewrite Gin; by intros (t' & ? & ?)).
    rewrite decide_False in Gd by done. rewrite decide_False in Gs by done.
    apply (node_ok_frame _ fd); [by split; rewrite ?Et|by rewrite Gl|done|done].
Qed.
Lemma fd_op_ok cfg fd H op : (0 < sampling_window_size cfg)%nat → histories_ok cfg fd H →
  ∃ fd', fd_op fd op = Ok fd' ∧ histories_ok cfg fd' (λ i, spec_step cfg i (H i) op).
Proof.
  intros Hc Hok. destruct op as [id now|id|id now|now]; simpl.
  - by apply report_ok.
  - eexists. split; [done|]. by apply get_or_create_ok.
  - eexists. split; [done|]. by apply update_ok.
  - eexists. split; [done|]. by apply collect_ok.
Qed.
Lemma fd_run_ok cfg fd H ops : (0 < sampling_window_size cfg)%nat → histories_ok cfg fd H →
  ∃ fd', fd_run fd ops = Ok fd' ∧ histories_ok cfg fd' (λ i, foldl (spec_step cfg i) (H i) ops).
Proof.
  intros Hc. revert fd H. induction ops as [|op ops IH]; intros fd H Hok; simpl; [eauto|].
  destruct (fd_op_ok cfg fd H op Hc Hok) as (fd' & -> & Hok'). by apply (IH fd' _ Hok').
Qed.
Lemma histories_ok_new cfg : histories_ok cfg (FailureDetector_new cfg) (λ _, unseen).
Proof.
  split; [done|]. intros id. split; simpl; [set_solver|done|done|]. by rewrite lookup_empty.
Qed.

(** ** Properties *)

(** The sampling window is a bounded queue: after a heartbeat it holds the
    latest [capacity] intervals, counts them, and never indexes out of
    bounds. *)
Theorem window_keeps_latest w now capacity xs : ring_ok capacity (intervals w) xs →
  ∃ w', window_report_heartbeat w now = Ok w' ∧
    ring_content (intervals w') = latest_values capacity (xs ++ new_interval w now) ∧
    ba_len (intervals w') = Nat.min capacity (length (xs ++ new_interval w now)) ∧
    last_heartbeat w' = Some now.
Proof.
  intros Hring. destruct (window_report_heartbeat_spec w now _ _ Hring) as (w' & Hw & Hr & Hl).
  exists w'. split_and!; [done|apply (rg_content _ _ _ Hr)|by apply ring_ok_len|done].
Qed.
Lemma window_keeps_latest_witness :
  ∃ w', window_report_heartbeat (SamplingWindow_new 2 10 5) 7 = Ok w' ∧
    ring_content (intervals w') = [] ∧ ba_len (intervals w') = 0%nat ∧ last_heartbeat w' = Some 7.
Proof.
  apply (window_keeps_latest (SamplingWindow_new 2 10 5) 7 2 []). apply ring_ok_new. lia.
Defined.

(** C34: The detector computes, for every node, what the history of that node
    says, whatever the order of heartbeats, liveness updates and collections
    of any nodes: its phi is the time since the last heartbeat over the mean of
    the latest intervals (as many as the window holds, the longer ones left
    out, since the node was last found dead, with five of the initial length
    counted in); the node is live if its phi was at most the threshold at the
    last update of it, dead since the first update that found otherwise after
    it was last live or collected, and forgotten once it is dead for the grace
    period; live and dead nodes are disjoint; and nothing panics. *)
Theorem detector_follows_history cfg ops : (0 < sampling_window_size cfg)%nat →
  ∃ fd, fd_run (FailureDetector_new cfg) ops = Ok fd ∧
    ∀ id, let h := history cfg id ops in
      (id ∈ fd_live_nodes fd ↔ h_live h = true) ∧ fd_dead_nodes fd !! id = h_dead h ∧
      (h_live h = true → h_dead h = None) ∧ ∀ now, phi fd id now = spec_phi cfg h now.
Proof.
  intros Hc. destruct (fd_run_ok cfg _ _ ops Hc (histories_ok_new cfg)) as (fd & Hrun & _ & Hall).
  exists fd. split; [done|]. intros id. pose proof (λ now, node_ok_phi cfg fd id _ now (Hall id)) as Hphi.
  by destruct (Hall id) as [Hl Hd Hx _].
Qed.
(** Two heartbeats a second apart and an update after another second: the
    node is live; after a minute of silence it is dead. *)
Definition one_second : N := 1000000000.
Definition silent_node : list FdOp :=
  let id := mkChitchatId "n" 0 (SockV4 1 1) in
  [OpReport id one_second; OpReport id (2 * one_second); OpUpdate id (3 * one_second);
   OpUpdate id (60 * one_second); OpCollect (61 * one_second)].
Lemma detector_follows_history_witness :
  h_live (history fd_config_default (mkChitchatId "n" 0 (SockV4 1 1)) (take 3 silent_node)) = true ∧
  ∃ fd, fd_run (FailureDetector_new fd_config_default) silent_node = Ok fd ∧
    fd_dead_nodes fd !! mkChitchatId "n" 0 (SockV4 1 1) = Some (60 * one_second).
Proof.
  split; [vm_compute; reflexivity|].
  destruct (detector_follows_history fd_config_default silent_node) as (fd & Hrun & Hall); [apply Nat.ltb_lt; reflexivity|].
  exists fd. split; [exact Hrun|]. destruct (Hall (mkChitchatId "n" 0 (SockV4 1 1))) as (_ & Hd & _).
  rewrite Hd. vm_compute. reflexivity.
Defined.

(** Garbage collection returns exactly the nodes dead for the grace
    period, forgets them, and keeps everything else. *)
Theorem garbage_collect_exact fd now :
  let '(nodes, fd') := garbage_collect fd now in
  (∀ id, id ∈ nodes ↔ ∃ t, fd_dead_nodes fd !! id = Some t ∧
     t + dead_node_grace_period (fd_config fd) ≤ now) ∧
  fd_live_nodes fd' = fd_live_nodes fd ∧
  (∀ id, fd_dead_nodes fd' !! id = if decide (id ∈ nodes) then None else fd_dead_nodes fd !! id) ∧
  (∀ id, node_samples fd' !! id = if decide (id ∈ nodes) then None else node_samples fd !! id).
Proof.
  destruct (foldl_remove_dead (garbage_of fd now) fd) as (Hl & _ & Hd & Hs).
  unfold garbage_collect. split_and!; [apply elem_of_garbage|done|done|done].
Qed.
