(* ===== verification/Chitchat.v ===== *)
(** * The gossip engine (chitchat/src/lib.rs)

    [Chitchat] ties the cluster state to the failure detector and answers the
    messages of the handshake.  Each operation takes one reading of the clock
    and returns the effects it had outside of the state: the callbacks of the
    key-change listeners and the catch-up callback. *)
From S2P Require Import Prelude Types Serialize Stream Listener Delta Message NodeState Cluster FailureDetector.
Open Scope N_scope.

(** ** Configuration and state (configuration.rs, lib.rs) *)
Record ChitchatConfig : Type := mkConfig {
  cfg_chitchat_id : ChitchatId;
  cfg_cluster_id : string;
  cfg_gossip_interval : Duration;
  cfg_listen_addr : SocketAddr;
  cfg_seed_nodes : list string;
  cfg_failure_detector_config : FailureDetectorConfig;
  cfg_marked_for_deletion_grace_period : Duration;
  (** whether a catch-up callback is configured *)
  cfg_catchup_callback : bool;
  cfg_extra_liveness_predicate : option (NodeState → bool);
}.
Inductive Effect : Type :=
  | EKeyChange (c : Call)
  | ECatchup.

(** The watch channel is its latest value: the engine keeps a receiver, so
    sending never fails. *)
Record Chitchat : Type := mkChitchat {
  config : ChitchatConfig;
  cluster_state : ClusterState;
  failure_detector : FailureDetector;
  previous_live_nodes : gmap ChitchatId Version;
  live_nodes_watcher : gmap ChitchatId NodeState;
  max_datagram_payload_size : N;
}.
Definition set_cluster_state (cs : ClusterState) (c : Chitchat) : Chitchat :=
  mkChitchat (config c) cs (failure_detector c) (previous_live_nodes c)
    (live_nodes_watcher c) (max_datagram_payload_size c).
Definition set_failure_detector (fd : FailureDetector) (c : Chitchat) : Chitchat :=
  mkChitchat (config c) (cluster_state c) fd (previous_live_nodes c)
    (live_nodes_watcher c) (max_datagram_payload_size c).
Definition set_live_nodes (prev : gmap ChitchatId Version) (w : gmap ChitchatId NodeState)
    (c : Chitchat) : Chitchat :=
  mkChitchat (config c) (cluster_state c) (failure_detector c) prev w
    (max_datagram_payload_size c).

Definition self_chitchat_id (c : Chitchat) : ChitchatId := cfg_chitchat_id (config c).
Definition self_node_state (c : Chitchat) : NodeState :=
  node_state_mut (cluster_state c) (self_chitchat_id c).
Definition put_self_node_state (ns : NodeState) (c : Chitchat) : Chitchat :=
  set_cluster_state (put_node_state (cluster_state c) (self_chitchat_id c) ns) c.

(** [Chitchat::live_nodes]: the node itself is always alive. *)
Definition live_nodes (c : Chitchat) : gset ChitchatId :=
  {[self_chitchat_id c]} ∪ fd_live_nodes (failure_detector c).
Definition dead_nodes (c : Chitchat) : gset ChitchatId :=
  dom (fd_dead_nodes (failure_detector c)).
Definition scheduled_nodes (c : Chitchat) (now : Instant) : gset ChitchatId :=
  scheduled_for_deletion_nodes (failure_detector c) now.
Definition seed_nodes (c : Chitchat) : gset SocketAddr := seed_addrs (cluster_state c).
Definition state_snapshot (c : Chitchat) : ClusterStateSnapshot := snapshot (cluster_state c).
Definition chitchat_subscribe_event (c : Chitchat) (key_prefix : string) (cb : BoxedListener)
    : Chitchat * ListenerHandle :=
  let cs := cluster_state c in
  let '(ls, h) := subscribe_event (cluster_listeners cs) key_prefix cb in
  (set_cluster_state (mkClusterState (node_states cs) (seed_addrs cs) ls) c, h).

Definition update_self_heartbeat (c : Chitchat) : Chitchat :=
  put_self_node_state (inc_heartbeat (self_node_state c)) c.
Definition chitchat_gc (c : Chitchat) (now : Instant) : Chitchat :=
  set_cluster_state
    (cluster_gc (cluster_state c) (cfg_marked_for_deletion_grace_period (config c)) now) c.
Definition chitchat_compute_digest (c : Chitchat) (sched : gset ChitchatId) : Digest :=
  compute_digest (cluster_state c) sched.
Definition create_syn_message (c : Chitchat) (now : Instant) : ChitchatMessage :=
  Syn (cfg_cluster_id (config c)) (chitchat_compute_digest c (scheduled_nodes c now)).

(** ** Construction *)
Fixpoint set_all (ls : InnerListeners) (ns : NodeState) (kvs : list (string * string))
    : res (NodeState * list Call) :=
  match kvs with
  | [] => Ok (ns, [])
  | (k, v) :: kvs =>
      let* (ns, calls) := set ls ns k v in
      let* (ns, calls') := set_all ls ns kvs in
      Ok (ns, calls ++ calls')
  end.
Definition with_chitchat_id_and_seeds (cfg : ChitchatConfig) (seeds : gset SocketAddr)
    (initial_key_values : list (string * string)) (max_payload : N) : res Chitchat :=
  let c := mkChitchat cfg (with_seed_addrs seeds)
             (FailureDetector_new (cfg_failure_detector_config cfg)) ∅ ∅ max_payload in
  let ns := inc_heartbeat (self_node_state c) in
  let* (ns, _) := set_all (cluster_listeners (cluster_state c)) ns initial_key_values in
  Ok (put_self_node_state ns c).

(** ** Heartbeats *)
Definition report_heartbeat (c : Chitchat) (id : ChitchatId) (h : Heartbeat) (now : Instant)
    : res Chitchat :=
  if bool_decide (id = self_chitchat_id c) then Ok c
  else
    let '(is_update, ns) := try_set_heartbeat (node_state_mut (cluster_state c) id) h in
    let c := set_cluster_state (put_node_state (cluster_state c) id ns) c in
    if (is_update : bool) then
      let* fd := fd_report_heartbeat (failure_detector c) id now in
      Ok (set_failure_detector fd c)
    else Ok c.
Fixpoint report_heartbeats (c : Chitchat) (entries : list (ChitchatId * NodeDigest))
    (now : Instant) : res Chitchat :=
  match entries with
  | [] => Ok c
  | (id, nd) :: entries =>
      let* c := report_heartbeat c id (dg_heartbeat nd) now in
      report_heartbeats c entries now
  end.
Definition report_heartbeats_in_digest (c : Chitchat) (d : Digest) (now : Instant) : res Chitchat :=
  report_heartbeats c (btree_items d) now.

(** ** Messages *)
Definition has_reset (d : Delta) : bool :=
  existsb (λ nd, (nd_from_version_excluded nd =? 0) && (0 <? nd_last_gc_version nd))
    (node_deltas d).
Definition maybe_trigger_catchup_callback (c : Chitchat) (d : Delta) : list Effect :=
  if has_reset d && cfg_catchup_callback (config c) then [ECatchup] else [].
Definition process_delta (c : Chitchat) (d : Delta) (now : Instant) : res (Chitchat * list Effect) :=
  let catchup := maybe_trigger_catchup_callback c d in
  let* (cs, calls) := cluster_apply_delta (cluster_state c) d now in
  Ok (set_cluster_state cs c, catchup ++ (EKeyChange <$> calls)).

Section messages.
Context `{Zstd, Shuffle}.

(** The subtractions are of [usize] and wrap in the release profile. *)
Definition process_message (c : Chitchat) (msg : ChitchatMessage) (now : Instant)
    : res (Chitchat * option ChitchatMessage * list Effect) :=
  let c := update_self_heartbeat c in
  match msg with
  | Syn cluster_id digest =>
      if bool_decide (cluster_id ≠ cfg_cluster_id (config c)) then Ok (c, Some BadCluster, [])
      else
        let* c := report_heartbeats_in_digest c digest now in
        let sched := scheduled_nodes c now in
        let self_digest := chitchat_compute_digest c sched in
        let delta_mtu := wsub64 (wsub64 (max_datagram_payload_size c) 1)
                           (digest_serialized_len self_digest) in
        let* delta := compute_partial_delta_respecting_mtu (cluster_state c) digest delta_mtu sched in
        Ok (c, Some (SynAck self_digest delta), [])
  | SynAck digest delta =>
      let* c := report_heartbeats_in_digest c digest now in
      let* (c, effects) := process_delta c delta now in
      let sched := scheduled_nodes c now in
      let* delta := compute_partial_delta_respecting_mtu (cluster_state c) digest
                      (wsub64 (max_datagram_payload_size c) 1) sched in
      Ok (c, Some (Ack delta), effects)
  | Ack delta =>
      let* (c, effects) := process_delta c delta now in
      Ok (c, None, effects)
  | BadCluster => Ok (c, None, [])
  end.
End messages.

(** ** Liveness *)
Definition current_live_nodes (c : Chitchat) : gmap ChitchatId Version :=
  max_version <$> filter (λ p, p.1 ∈ live_nodes c) (node_states (cluster_state c)).
(** The node states given to the watcher. *)
Definition watched_nodes (c : Chitchat) : gmap ChitchatId NodeState :=
  filter (λ p, p.1 ∈ live_nodes c ∧
               match cfg_extra_liveness_predicate (config c) with
               | Some pred => pred p.2
               | None => true
               end = true) (node_states (cluster_state c)).
Definition update_all_liveness (c : Chitchat) (now : Instant) : Chitchat :=
  set_failure_detector
    (foldl (λ fd id, if bool_decide (id = self_chitchat_id c) then fd
                     else update_node_liveness fd id now)
       (failure_detector c) (nodes (cluster_state c))) c.
Definition notify_watcher (c : Chitchat) : Chitchat :=
  let current := current_live_nodes c in
  if bool_decide (previous_live_nodes c = current) then c
  else set_live_nodes current (watched_nodes c) c.
Definition chitchat_garbage_collect (c : Chitchat) (now : Instant) : Chitchat :=
  let '(nodes, fd) := garbage_collect (failure_detector c) now in
  set_cluster_state (foldl remove_node (cluster_state c) nodes) (set_failure_detector fd c).
Definition update_nodes_liveness (c : Chitchat) (now : Instant) : Chitchat :=
  chitchat_garbage_collect (notify_watcher (update_all_liveness c now)) now.

(** ** Resetting the state of a node *)
Fixpoint reset_loop (ls : InnerListeners) (ns : NodeState) (previous_keys : gset string)
    (key_values : list (string * VersionedValue)) : res (NodeState * gset string * list Call) :=
  match key_values with
  | [] => Ok (ns, previous_keys, [])
  | (key, value) :: key_values =>
      let previous_keys := previous_keys ∖ {[key]} in
      let* (ns, calls) := set_versioned_value ls ns key value in
      let* (p, calls') := reset_loop ls ns previous_keys key_values in
      Ok (p, calls ++ calls')
  end.
Definition reset_node_state (c : Chitchat) (id : ChitchatId)
    (key_values_ : list (string * VersionedValue)) (max_version_ last_gc_version_ : Version)
    : res (Chitchat * list Effect) :=
  let ns := node_state_mut (cluster_state c) id in
  let c := set_cluster_state (put_node_state (cluster_state c) id ns) c in
  if max_version_ <=? max_version ns then Ok (c, [])
  else
    let c := set_failure_detector (get_or_create_sampling_window (failure_detector c) id) c in
    let previous_keys := dom (key_values ns) in
    let* (p, calls) := reset_loop (cluster_listeners (cluster_state c)) ns previous_keys key_values_ in
    let '(ns, stale_keys) := p in
    let ns := foldl remove_key_value_internal ns (elements stale_keys) in
    let ns := set_last_gc_version last_gc_version_ ns in
    Ok (set_cluster_state (put_node_state (cluster_state c) id ns) c, EKeyChange <$> calls).

(** ** The invariant of the engine *)
Record chitchat_inv (c : Chitchat) : Prop := {
  ci_cluster : cs_inv (cluster_state c);
  ci_detector : fd_inv (failure_detector c);
  ci_self : wf_ChitchatId (self_chitchat_id c);
  (** the node does not monitor itself *)
  ci_self_live : self_chitchat_id c ∉ fd_live_nodes (failure_detector c);
  ci_self_dead : fd_dead_nodes (failure_detector c) !! self_chitchat_id c = None;
}.
Lemma node_state_mut_wf cs id : cs_inv cs → wf_ChitchatId id → wf_ns id (node_state_mut cs id).
Proof.
  intros Hcs Hid. unfold node_state_mut. destruct (node_states cs !! id) as [ns|] eqn:E.
  - by apply (Hcs _ _ E).
  - by apply wf_ns_new.
Qed.
Lemma put_node_state_inv cs id ns : cs_inv cs → wf_ns id ns → cs_inv (put_node_state cs id ns).
Proof. intros Hcs Hns. by apply map_Forall_insert_2. Qed.
Lemma set_cluster_state_inv c cs : chitchat_inv c → cs_inv cs → chitchat_inv (set_cluster_state cs c).
Proof. intros [] Hcs. by split. Qed.
Lemma wf_ns_set_heartbeat id ns h : wf_ns id ns → fits 64 h → wf_ns id (set_heartbeat h ns).
Proof. intros [] Hh. split; try done. by destruct wn_inv. Qed.
Lemma Heartbeat_inc_fits h : fits 64 (Heartbeat_inc h).
Proof. unfold Heartbeat_inc, wrap64, wrap. by apply N.mod_lt. Qed.
Lemma update_self_heartbeat_inv c : chitchat_inv c → chitchat_inv (update_self_heartbeat c).
Proof.
  intros Hc. apply set_cluster_state_inv; [done|]. apply put_node_state_inv; [apply Hc|].
  apply wf_ns_set_heartbeat, Heartbeat_inc_fits. apply node_state_mut_wf; apply Hc.
Qed.

Lemma try_set_heartbeat_wf id ns h : wf_ns id ns → fits 64 h →
  wf_ns id (try_set_heartbeat ns h).2.
Proof.
  intros Hns Hh. unfold try_set_heartbeat.
  destruct (_ =? 0); [by apply wf_ns_set_heartbeat|].
  destruct (_ <? _); [by apply wf_ns_set_heartbeat|done].
Qed.
Lemma report_heartbeat_ok c id h now : chitchat_inv c → wf_ChitchatId id → fits 64 h →
  ∃ c', report_heartbeat c id h now = Ok c' ∧ chitchat_inv c' ∧ config c' = config c ∧
    max_datagram_payload_size c' = max_datagram_payload_size c ∧
    cluster_listeners (cluster_state c') = cluster_listeners (cluster_state c).
Proof.
  intros Hc Hid Hh. unfold report_heartbeat. case_bool_decide as Hself; [by exists c|].
  pose proof (try_set_heartbeat_wf id _ h (node_state_mut_wf _ id (ci_cluster _ Hc) Hid) Hh) as Hns.
  destruct (try_set_heartbeat _ h) as [upd ns]. simpl in Hns.
  assert (chitchat_inv (set_cluster_state (put_node_state (cluster_state c) id ns) c)) as Hc'.
  { apply set_cluster_state_inv; [done|]. by apply put_node_state_inv; [apply Hc|]. }
  destruct upd; [|by eexists].
  destruct (fd_report_heartbeat_ok (failure_detector c) id now (ci_detector _ Hc))
    as (fd & Hfd & Hinv & _ & Hl & Hd).
  simpl. rewrite Hfd. cbn [rbind]. eexists. split; [done|]. split; [|done].
  destruct Hc'. split; simpl; try done; by rewrite ?Hl, ?Hd.
Qed.
Lemma report_heartbeats_ok c l now : chitchat_inv c → Forall wf_digest_entry l →
  ∃ c', report_heartbeats c l now = Ok c' ∧ chitchat_inv c' ∧ config c' = config c ∧
    max_datagram_payload_size c' = max_datagram_payload_size c ∧
    cluster_listeners (cluster_state c') = cluster_listeners (cluster_state c).
Proof.
  intros Hc Hl. revert c Hc. induction Hl as [|[id nd] l [Hid Hnd] _ IH]; intros c Hc; simpl.
  - by exists c.
  - destruct (report_heartbeat_ok c id (dg_heartbeat nd) now Hc Hid) as (c1 & -> & Hc1 & E1 & E2 & E3);
      [apply Hnd|]. cbn [rbind].
    destruct (IH c1 Hc1) as (c2 & Heq & Hc2 & E4 & E5 & E6).
    exists c2. split; [done|]. split; [done|]. split_and!; congruence.
Qed.

(** ** Incoming messages: what the decoder guarantees of them *)
Definition delta_keys_ok (d : Delta) : Prop :=
  Forall (λ nd, Forall (λ kv, event_key_ok (kv_key kv) = true) (nd_key_values nd)) (node_deltas d).
Definition incoming_ok (m : ChitchatMessage) : Prop :=
  match m with
  | Syn _ digest => digest_wf digest
  | SynAck digest delta => digest_wf digest ∧ wf_nodes (node_deltas delta) ∧ delta_keys_ok delta
  | Ack delta => wf_nodes (node_deltas delta) ∧ delta_keys_ok delta
  | BadCluster => True
  end.
Lemma report_digest_ok c d now : chitchat_inv c → digest_wf d →
  ∃ c', report_heartbeats_in_digest c d now = Ok c' ∧ chitchat_inv c' ∧ config c' = config c ∧
    max_datagram_payload_size c' = max_datagram_payload_size c ∧
    cluster_listeners (cluster_state c') = cluster_listeners (cluster_state c).
Proof.
  intros Hc Hd. apply report_heartbeats_ok; [done|]. apply Forall_forall.
  intros [id nd] Hin%elem_of_btree_items. by apply (Hd id nd).
Qed.
Lemma process_delta_ok c d now : chitchat_inv c → wf_nodes (node_deltas d) → delta_keys_ok d →
  ∃ r, process_delta c d now = Ok r ∧ chitchat_inv r.1 ∧ config r.1 = config c ∧
    max_datagram_payload_size r.1 = max_datagram_payload_size c.
Proof.
  intros Hc [_ Hwf] Hkeys. unfold process_delta, cluster_apply_delta.
  destruct (apply_node_deltas_total (cluster_state c) (node_deltas d) now (ci_cluster _ Hc) Hwf Hkeys)
    as [[cs calls] Hr].
  pose proof (apply_node_deltas_inv _ _ _ _ (ci_cluster _ Hc) Hwf Hr) as Hcs.
  rewrite Hr. cbn [rbind]. eexists. split; [done|]. split; [|done].
  by apply set_cluster_state_inv.
Qed.

Section engine.
Context `{ZstdOk, ShuffleOk}.

(** The digest that answers a [Syn]. *)
Definition reply_digest (c : Chitchat) (d : Digest) (now : Instant) : res Digest :=
  rmap (λ c, chitchat_compute_digest c (scheduled_nodes c now))
    (report_heartbeats_in_digest (update_self_heartbeat c) d now).
(** The reply leaves room for a delta of the least MTU. *)
Definition reply_room (c : Chitchat) (m : ChitchatMessage) (now : Instant) : Prop :=
  match m with
  | Syn _ d => ∀ self_digest, reply_digest c d now = Ok self_digest →
      digest_serialized_len self_digest + 101 ≤ max_datagram_payload_size c
  | _ => 101 ≤ max_datagram_payload_size c
  end.
(** A reply encodes, and is at most three bytes longer than the datagram
    (when its operations fit in a block of the stream):
    [process_message] reserves one byte for the four bytes of the header. *)
Definition small_message (m : ChitchatMessage) : Prop :=
  match m with
  | SynAck _ d | Ack d => Forall (small_op BLOCK_THRESHOLD) (get_operations d)
  | _ => True
  end.
Definition reply_ok (max : N) (reply : option ChitchatMessage) : Prop :=
  match reply with
  | Some m =>
      ∃ buf, message_serialize m = Ok buf ∧
        (max ≤ BLOCK_THRESHOLD ∨ small_message m → blen buf ≤ N.max 4 (max + 3))
  | None => True
  end.

Lemma syn_ack_ok cs d self_digest max sched : cs_inv cs → max ≤ u16_max →
  digest_serialized_len self_digest + 101 ≤ max →
  ∃ delta, compute_partial_delta_respecting_mtu cs d
      (wsub64 (wsub64 max 1) (digest_serialized_len self_digest)) sched = Ok delta ∧
    reply_ok max (Some (SynAck self_digest delta)).
Proof.
  intros Hcs Hmax Hroom.
  assert (fits 64 max) as Hfit by (unfold u16_max in *; change (2 ^ 64) with 18446744073709551616; lia).
  assert (fits 64 (max - 1)) as Hfit1 by (eapply N.le_lt_trans; [|exact Hfit]; lia).
  rewrite (wsub64_small max 1), wsub64_small by (done || lia).
  remember (max - 1 - digest_serialized_len self_digest) as mtu eqn:Hmtu.
  destruct (compute_partial_delta_spec cs d mtu sched Hcs) as (delta & payload & Hc & _ & _ & Hs & Hl & Hb);
    [lia|apply cluster_fits_u16; lia|].
  exists delta. split; [done|]. unfold reply_ok.
  assert (∃ buf, message_serialize (SynAck self_digest delta) = Ok buf) as [buf Hbuf]
    by (cbn [message_serialize]; rewrite Hs; simpl; eauto).
  exists buf. split; [done|]. intros Hthr. rewrite (message_serialize_len _ _ Hbuf).
  assert (delta_serialized_len delta ≤ mtu) as Hd by (apply Hb; destruct Hthr; [left; lia|by right]).
  unfold message_serialized_len. lia.
Qed.
Lemma ack_ok cs d max sched : cs_inv cs → max ≤ u16_max → 101 ≤ max →
  ∃ delta, compute_partial_delta_respecting_mtu cs d (wsub64 max 1) sched = Ok delta ∧
    reply_ok max (Some (Ack delta)).
Proof.
  intros Hcs Hmax Hroom.
  assert (fits 64 max) as Hfit by (unfold u16_max in *; change (2 ^ 64) with 18446744073709551616; lia).
  rewrite (wsub64_small max 1) by (done || lia). remember (max - 1) as mtu eqn:Hmtu.
  destruct (compute_partial_delta_spec cs d mtu sched Hcs) as (delta & payload & Hc & _ & _ & Hs & Hl & Hb);
    [lia|apply cluster_fits_u16; lia|].
  exists delta. split; [done|]. unfold reply_ok.
  assert (∃ buf, message_serialize (Ack delta) = Ok buf) as [buf Hbuf]
    by (cbn [message_serialize]; rewrite Hs; simpl; eauto).
  exists buf. split; [done|]. intros Hthr. rewrite (message_serialize_len _ _ Hbuf).
  assert (delta_serialized_len delta ≤ mtu) as Hd by (apply Hb; destruct Hthr; [left; lia|by right]).
  unfold message_serialized_len. lia.
Qed.

Lemma process_message_ok c m now : chitchat_inv c → incoming_ok m →
  max_datagram_payload_size c ≤ u16_max → reply_room c m now →
  ∃ c' reply effects, process_message c m now = Ok (c', reply, effects) ∧ chitchat_inv c' ∧
    config c' = config c ∧ reply_ok (max_datagram_payload_size c) reply.
Proof.
  intros Hc Hm Hmax Hroom. unfold process_message.
  pose proof (update_self_heartbeat_inv c Hc) as Hc1.
  set (c1 := update_self_heartbeat c) in *.
  assert (max_datagram_payload_size c1 = max_datagram_payload_size c) as Emax by done.
  assert (config c1 = config c) as Ecfg by done.
  destruct m as [cid d|d delta|delta|]; cbn [incoming_ok reply_room] in *.
  - case_bool_decide as Hcid.
    + eexists _, _, _. split; [done|]. split; [done|]. split; [done|].
      exists (to_le_bytes 2 MAGIC_NUMBER ++ serialize codec_u8 (ProtocolVersion_to_code V0)
        ++ [u8 (MessageType_to_code MTBadCluster)]).
      split; [by rewrite (assoc_L (++))|]. intros _.
      rewrite !blen_app, serialize_len, blen_to_le_bytes, slen_u8, blen_cons, blen_nil. lia.
    + destruct (report_digest_ok c1 d now Hc1 Hm) as (c2 & Hr & Hc2 & Ecfg2 & Emax2 & _).
      rewrite Hr. cbn [rbind].
      set (self_digest := chitchat_compute_digest c2 (scheduled_nodes c2 now)).
      destruct (syn_ack_ok (cluster_state c2) d self_digest (max_datagram_payload_size c)
        (scheduled_nodes c2 now) (ci_cluster _ Hc2) Hmax) as (delta & Hd & Hok).
      { apply Hroom. unfold reply_digest. fold c1. by rewrite Hr. }
      rewrite Emax2, Emax, Hd. cbn [rbind]. eexists _, _, _.
      split; [done|]. split; [done|]. split; [congruence|done].
  - destruct Hm as (Hdg & Hwf & Hkeys).
    destruct (report_digest_ok c1 d now Hc1 Hdg) as (c2 & Hr & Hc2 & Ecfg2 & Emax2 & _).
    rewrite Hr. cbn [rbind].
    destruct (process_delta_ok c2 delta now Hc2 Hwf Hkeys) as ([c3 effs] & Hp & Hc3 & Ecfg3 & Emax3).
    simpl in Ecfg3, Emax3, Hc3. rewrite Hp. cbn [rbind].
    destruct (ack_ok (cluster_state c3) d (max_datagram_payload_size c)
      (scheduled_nodes c3 now) (ci_cluster _ Hc3) Hmax Hroom) as (delta' & Hd & Hok).
    rewrite Emax3, Emax2, Emax, Hd. cbn [rbind]. eexists _, _, _.
    split; [done|]. split; [done|]. split; [congruence|done].
  - destruct Hm as [Hwf Hkeys].
    destruct (process_delta_ok c1 delta now Hc1 Hwf Hkeys) as ([c3 effs] & Hp & Hc3 & Ecfg3 & Emax3).
    simpl in Ecfg3, Emax3, Hc3. rewrite Hp. cbn [rbind]. eexists _, _, _.
    split; [done|]. split; [done|]. split; [congruence|done].
  - eexists _, _, _. split; [done|]. split; [done|]. done.
Qed.
End engine.

(** ** Liveness of the whole cluster *)
Lemma fold_liveness_inv self ids fd now : fd_inv fd → self ∉ fd_live_nodes fd →
  fd_dead_nodes fd !! self = None →
  let fd' := foldl (λ fd id, if bool_decide (id = self) then fd
                             else update_node_liveness fd id now) fd ids in
  fd_inv fd' ∧ self ∉ fd_live_nodes fd' ∧ fd_dead_nodes fd' !! self = None ∧
  (∀ id, id ≠ self → id ∈ ids ∨ id ∈ fd_live_nodes fd ∨ is_Some (fd_dead_nodes fd !! id) →
     id ∈ fd_live_nodes fd' ∨ is_Some (fd_dead_nodes fd' !! id)) ∧
  fd_config fd' = fd_config fd.
Proof.
  revert fd; induction ids as [|i ids IH]; intros fd Hfd Hl Hd; simpl.
  - split_and!; try done. intros id _ [Hin|?]; [set_solver|done].
  - case_bool_decide as Hi.
    + subst i. destruct (IH fd Hfd Hl Hd) as (H1 & H2 & H3 & H4 & H5). split_and!; try done.
      intros id Hne [[->|Hin]%elem_of_cons|?]; [done|apply H4; auto..].
    + pose proof (update_node_liveness_spec fd i now Hfd) as Hspec.
      destruct (update_node_liveness_frame fd i now self (not_eq_sym Hi)) as (Fl & Fd & _).
      set (fd1 := update_node_liveness fd i now) in *. simpl in Hspec.
      destruct (IH fd1) as (H1 & H2 & H3 & H4 & H5);
        [by apply update_node_liveness_inv|by rewrite Fl|by rewrite Fd|].
      split_and!; [done|done|done| |].
      * intros id Hne Hcase. apply H4; [done|].
        destruct (decide (id = i)) as [->|Hne'].
        -- right. destruct (is_alive fd i now); [left; apply Hspec|right].
           destruct Hspec as (_ & -> & _). eauto.
        -- destruct (update_node_liveness_frame fd i now id Hne') as (Fl' & Fd' & _).
           fold fd1 in Fl', Fd'. rewrite Fl', Fd'.
           destruct Hcase as [[?|?]%elem_of_cons|?]; [done|auto|auto].
      * rewrite H5. subst fd1. unfold update_node_liveness. by destruct (is_alive fd i now).
Qed.
Lemma foldl_remove_node ids cs id :
  node_states (foldl remove_node cs ids) !! id =
  if decide (id ∈ ids) then None else node_states cs !! id.
Proof.
  revert cs; induction ids as [|i ids IH]; intros cs; simpl; [done|].
  rewrite IH. simpl. destruct (decide (id = i)) as [->|Hne].
  - rewrite lookup_delete_eq, (decide_True (P:=i ∈ i :: ids)) by (by left). by case_decide.
  - rewrite lookup_delete_ne by done. repeat case_decide; set_solver.
Qed.
Lemma notify_watcher_same c : cluster_state (notify_watcher c) = cluster_state c ∧
  failure_detector (notify_watcher c) = failure_detector c ∧ config (notify_watcher c) = config c.
Proof. unfold notify_watcher. by case_bool_decide. Qed.

Lemma update_nodes_liveness_ok c now : chitchat_inv c →
  let c' := update_nodes_liveness c now in
  chitchat_inv c' ∧
  (∀ id ns, node_states (cluster_state c') !! id = Some ns → id ≠ self_chitchat_id c →
     node_states (cluster_state c) !! id = Some ns ∧
     (id ∈ fd_live_nodes (failure_detector c') ∨
      ∃ t, fd_dead_nodes (failure_detector c') !! id = Some t ∧
           now < t + dead_node_grace_period (fd_config (failure_detector c)))) ∧
  (∀ ns, node_states (cluster_state c) !! self_chitchat_id c = Some ns →
     node_states (cluster_state c') !! self_chitchat_id c = Some ns).
Proof.
  intros Hc. pose proof Hc as [Hcs Hfd Hself Hsl Hsd]. cbn zeta. unfold update_nodes_liveness.
  destruct (fold_liveness_inv (self_chitchat_id c) (nodes (cluster_state c))
    (failure_detector c) now Hfd Hsl Hsd) as (F1 & F2 & F3 & F4 & F5).
  set (c1 := update_all_liveness c now). fold (failure_detector c1) in *.
  destruct (notify_watcher_same c1) as (Ecs & Efd & Ecfg).
  set (c2 := notify_watcher c1) in *.
  assert (failure_detector c1 = foldl (λ fd id, if bool_decide (id = self_chitchat_id c) then fd
    else update_node_liveness fd id now) (failure_detector c) (nodes (cluster_state c))) as Efold
    by done.
  rewrite <-Efold in *.
  pose proof (garbage_collect_inv (failure_detector c2) now) as Hginv.
  destruct (foldl_remove_dead (garbage_of (failure_detector c2) now) (failure_detector c2))
    as (Gl & Gc & Gd & _).
  pose proof (elem_of_garbage (failure_detector c2) now) as Gin.
  unfold chitchat_garbage_collect, garbage_collect in *. simpl in Hginv.
  set (gs := garbage_of (failure_detector c2) now) in *.
  set (fd3 := foldl remove_dead (failure_detector c2) gs) in *.
  assert (self_chitchat_id c2 = self_chitchat_id c) as Eself
    by (unfold self_chitchat_id; by rewrite Ecfg).
  split_and!.
  - split; simpl.
    + intros id ns Hid. rewrite foldl_remove_node in Hid.
      destruct (decide (id ∈ gs)); [done|].
      rewrite Ecs in Hid. by apply (Hcs _ _ Hid).
    + apply Hginv. by rewrite Efd.
    + change (wf_ChitchatId (self_chitchat_id c2)). by rewrite Eself.
    + change (self_chitchat_id c2 ∉ fd_live_nodes fd3). by rewrite Eself, Gl, Efd.
    + change (fd_dead_nodes fd3 !! self_chitchat_id c2 = None).
      rewrite Eself, Gd, Efd. by case_decide.
  - intros id ns. simpl. rewrite foldl_remove_node. destruct (decide (id ∈ gs)) as [|Hng]; [done|].
    rewrite Ecs. intros Hid Hne. split; [done|]. rewrite Gl, Gd, Efd, decide_False by done.
    destruct (F4 id Hne) as [?|[t Ht]]; [|by left|right].
    { left. unfold nodes. apply list_elem_of_fmap. exists (id, ns).
      split; [done|]. by apply elem_of_btree_items. }
    exists t. split; [done|]. apply N.nle_gt. intros Hle. apply Hng, Gin. rewrite Efd, F5. eauto.
  - intros ns Hns. simpl. rewrite foldl_remove_node, Ecs.
    rewrite decide_False; [done|]. rewrite Gin, Efd, F3. by intros (t & ? & _).
Qed.

(** What an update of the liveness makes of one node. *)
Definition judged (fd fd' : FailureDetector) (id : ChitchatId) (now : Instant) : Prop :=
  (trusted fd id now → id ∈ fd_live_nodes fd' ∧ fd_dead_nodes fd' !! id = None) ∧
  (¬ trusted fd id now → id ∉ fd_live_nodes fd' ∧ fd_dead_nodes fd' !! id = Some (default now (fd_dead_nodes fd !! id))).
Definition left_alone (fd fd' : FailureDetector) (id : ChitchatId) : Prop :=
  (id ∈ fd_live_nodes fd' ↔ id ∈ fd_live_nodes fd) ∧ fd_dead_nodes fd' !! id = fd_dead_nodes fd !! id ∧
  node_samples fd' !! id = node_samples fd !! id.
Lemma update_node_judged fd id now : fd_inv fd → judged fd (update_node_liveness fd id now) id now.
Proof.
  intros Hfd. pose proof (update_node_liveness_spec fd id now Hfd) as Hs. simpl in Hs.
  pose proof (is_alive_trusted fd id now) as Ht. destruct (is_alive fd id now).
  - split; [done|]. intros Hn. by destruct Hn; apply Ht.
  - split; [intros Hn; apply Ht in Hn; done|]. intros _. by destruct Hs as (? & ? & _).
Qed.
Lemma trusted_frame fd fd' id now : node_samples fd' !! id = node_samples fd !! id → fd_config fd' = fd_config fd →
  trusted fd' id now ↔ trusted fd id now.
Proof. intros Es Ec. unfold trusted, phi. by rewrite Es, Ec. Qed.
Lemma fold_liveness_judged self ids fd now : fd_inv fd → NoDup ids →
  let fd' := foldl (λ fd id, if bool_decide (id = self) then fd else update_node_liveness fd id now) fd ids in
  ∀ id, if decide (id ∈ ids ∧ id ≠ self) then judged fd fd' id now else left_alone fd fd' id.
Proof.
  revert fd. induction ids as [|i ids IH]; intros fd Hfd Hnd; cbn [foldl]; intros id.
  { rewrite decide_False by set_solver. done. }
  apply NoDup_cons in Hnd as [Hi Hnd]. case_bool_decide as Hself.
  - subst i. specialize (IH fd Hfd Hnd id). simpl in IH.
    destruct (decide (id ∈ ids ∧ id ≠ self)) as [[? ?]|Hn]; [rewrite decide_True by set_solver; done|].
    rewrite decide_False by set_solver. done.
  - specialize (IH _ (update_node_liveness_inv fd i now Hfd) Hnd id). simpl in IH.
    assert (fd_config (update_node_liveness fd i now) = fd_config fd) as Ec
      by (unfold update_node_liveness; by destruct (is_alive fd i now)).
    destruct (decide (id = i)) as [->|Hne].
    + rewrite decide_False in IH by tauto. rewrite decide_True by (split; [by left|done]).
      destruct IH as (El & Ed & _). unfold judged. rewrite El, Ed. by apply update_node_judged.
    + destruct (update_node_liveness_frame fd i now id Hne) as (El & Ed & Es).
      destruct (decide (id ∈ ids ∧ id ≠ self)) as [[Hin Hs]|Hn].
      * rewrite decide_True by (split; [by right|done]). unfold judged in *.
        by rewrite (trusted_frame _ _ id now Es Ec), Ed in IH.
      * rewrite decide_False by (intros [[?|?]%elem_of_cons ?]; [done|by apply Hn]).
        destruct IH as (El' & Ed' & Es'). unfold left_alone. by rewrite El', Ed', Es', El, Ed, Es.
Qed.
Lemma nodes_NoDup cs : NoDup (nodes cs).
Proof. apply btree_items_NoDup. Qed.
Lemma elem_of_nodes cs id : id ∈ nodes cs ↔ is_Some (node_states cs !! id).
Proof.
  unfold nodes. rewrite list_elem_of_fmap. split.
  - intros ([i ns] & -> & Hin). apply elem_of_btree_items in Hin. eauto.
  - intros [ns Hns]. exists (id, ns). split; [done|]. by apply elem_of_btree_items.
Qed.

(** What an update of the liveness at [now] is to make of the node [id]: the
    node itself keeps its state; a trusted peer is live and keeps its state;
    another one is dead, since now if it was not before, and is forgotten once
    it is dead for the grace period, and only then. *)
Definition classified (c c' : Chitchat) (id : ChitchatId) (now : Instant) : Prop :=
  let fd := failure_detector c in
  let fd' := failure_detector c' in
  let known := node_states (cluster_state c) !! id in
  let known' := node_states (cluster_state c') !! id in
  match known with
  | Some _ =>
      if bool_decide (id = self_chitchat_id c) then known' = known
      else
        (trusted fd id now → id ∈ fd_live_nodes fd' ∧ fd_dead_nodes fd' !! id = None ∧ known' = known) ∧
        (¬ trusted fd id now → id ∉ fd_live_nodes fd' ∧
           let t := default now (fd_dead_nodes fd !! id) in
           if now <? t + dead_node_grace_period (fd_config fd)
           then fd_dead_nodes fd' !! id = Some t ∧ known' = known
           else fd_dead_nodes fd' !! id = None ∧ known' = None)
  | None => known' = None ∧ (id ∈ fd_live_nodes fd' ↔ id ∈ fd_live_nodes fd)
  end.
Lemma update_nodes_liveness_classified c now id : chitchat_inv c → classified c (update_nodes_liveness c now) id now.
Proof.
  intros Hc. pose proof Hc as [Hcs Hfd Hself Hsl Hsd]. unfold classified, update_nodes_liveness. cbn zeta.
  destruct (fold_liveness_inv (self_chitchat_id c) (nodes (cluster_state c)) (failure_detector c) now Hfd Hsl Hsd)
    as (_ & _ & Hd & _ & F5).
  pose proof (fold_liveness_judged (self_chitchat_id c) (nodes (cluster_state c)) (failure_detector c) now Hfd
    (nodes_NoDup _) id) as Hj. cbn zeta in Hj.
  set (c1 := update_all_liveness c now).
  change (foldl _ (failure_detector c) (nodes (cluster_state c))) with (failure_detector c1) in Hj, Hd, F5.
  destruct (notify_watcher_same c1) as (Ecs & Efd & Ecfg). set (c2 := notify_watcher c1) in *.
  destruct (foldl_remove_dead (garbage_of (failure_detector c2) now) (failure_detector c2)) as (Gl & _ & Gd & _).
  pose proof (elem_of_garbage (failure_detector c2) now id) as Gin. specialize (Gd id).
  unfold chitchat_garbage_collect, garbage_collect. cbn [cluster_state failure_detector set_cluster_state set_failure_detector].
  rewrite foldl_remove_node, Gl, Gd, Ecs. rewrite Efd in *. rewrite F5 in Gin.
  change (cluster_state c1) with (cluster_state c). clear Gl Gd. pose proof (elem_of_nodes (cluster_state c) id) as Hn.
  destruct (node_states (cluster_state c) !! id) as [ns|].
  - case_bool_decide as Hi; [rewrite decide_False; [done|]|rewrite decide_True in Hj by (split; [apply Hn; eauto|done])].
    { rewrite Gin, Hi, Hd. by intros (t & ? & _). }
    destruct Hj as [Hal Hde]. split.
    + intros [Hl Hdn]%Hal. rewrite !decide_False by (rewrite Gin, Hdn; by intros (t & ? & _)). done.
    + intros [Hl Hdn]%Hde. split; [done|]. rewrite Hdn in *. destruct (N.ltb_spec now (default now (fd_dead_nodes (failure_detector c) !! id) +
        dead_node_grace_period (fd_config (failure_detector c)))) as [Hlt|Hge].
      * rewrite !decide_False by (rewrite Gin; intros (t & [= <-] & ?); lia). done.
      * rewrite !decide_True by (apply Gin; eauto). done.
  - rewrite decide_False in Hj by (intros [[? ?]%Hn ?]; done). destruct Hj as (El & _). split; [by case_decide|done].
Qed.

(** The watcher, and what it is compared with the next time. *)
Lemma filter_same (P : ChitchatId * NodeState → Prop) `{∀ p, Decision (P p)} (m m' : gmap ChitchatId NodeState) :
  (∀ id ns, P (id, ns) → m' !! id = m !! id) → filter P m' = filter P m.
Proof.
  intros Hsame. apply map_eq. intros id. apply option_eq. intros ns. rewrite !map_lookup_filter_Some.
  split; intros [Hl Hp]; specialize (Hsame id ns Hp); split; congruence.
Qed.
Lemma update_nodes_liveness_watcher c now : chitchat_inv c →
  let c' := update_nodes_liveness c now in
  previous_live_nodes c' = current_live_nodes c' ∧
  live_nodes_watcher c' =
    if bool_decide (previous_live_nodes c = current_live_nodes c') then live_nodes_watcher c else watched_nodes c'.
Proof.
  intros Hc. pose proof Hc as [Hcs Hfd Hself Hsl Hsd]. cbn zeta.
  destruct (fold_liveness_inv (self_chitchat_id c) (nodes (cluster_state c)) (failure_detector c) now Hfd Hsl Hsd)
    as (F1 & _ & Hd & _ & _).
  unfold update_nodes_liveness. set (c1 := update_all_liveness c now).
  change (foldl _ (failure_detector c) (nodes (cluster_state c))) with (failure_detector c1) in F1, Hd.
  destruct (notify_watcher_same c1) as (Ecs & Efd & Ecfg).
  set (c2 := notify_watcher c1) in *. set (c' := chitchat_garbage_collect c2 now).
  destruct (foldl_remove_dead (garbage_of (failure_detector c2) now) (failure_detector c2)) as (Gl & _).
  assert (live_nodes c' = live_nodes c1) as El.
  { unfold live_nodes, self_chitchat_id, c', chitchat_garbage_collect, garbage_collect. simpl. by rewrite Gl, Efd, Ecfg. }
  assert (∀ id, id ∈ live_nodes c1 → node_states (cluster_state c') !! id = node_states (cluster_state c1) !! id) as Hkept.
  { intros id Hid. unfold c', chitchat_garbage_collect, garbage_collect. simpl. rewrite foldl_remove_node, Ecs.
    rewrite decide_False; [done|]. rewrite elem_of_garbage, Efd. intros (t & Ht & _).
    apply elem_of_union in Hid as [->%elem_of_singleton|Hid]; [|by rewrite (fi_disjoint _ F1 id Hid) in Ht].
    change (self_chitchat_id c1) with (self_chitchat_id c) in Ht. by rewrite Hd in Ht. }
  assert (current_live_nodes c' = current_live_nodes c1) as Ecur.
  { unfold current_live_nodes. rewrite El. f_equal. apply filter_same. intros id ns Hin. by apply Hkept. }
  assert (watched_nodes c' = watched_nodes c1) as Ew.
  { unfold watched_nodes. rewrite El.
    assert (config c' = config c1) as -> by (unfold c', chitchat_garbage_collect, garbage_collect; simpl; done).
    apply filter_same. intros id ns [Hin _]. by apply Hkept. }
  rewrite Ecur, Ew. change (previous_live_nodes c') with (previous_live_nodes c2).
  change (live_nodes_watcher c') with (live_nodes_watcher c2). unfold c2, notify_watcher.
  change (previous_live_nodes c) with (previous_live_nodes c1). change (live_nodes_watcher c) with (live_nodes_watcher c1).
  by case_bool_decide.
Qed.

(** ** Resetting a node *)

(** The entry that wins when [v] is stored over the current entry. *)
Definition newer_entry (current : option VersionedValue) (v : VersionedValue) : VersionedValue :=
  match current with
  | Some occupied => if vv_version v <=? vv_version occupied then occupied else v
  | None => v
  end.
Lemma set_versioned_value_lookup ls ns key v r : set_versioned_value ls ns key v = Ok r →
  key_values r.1 = <[key := newer_entry (key_values ns !! key) v]> (key_values ns).
Proof.
  unfold set_versioned_value. simpl. unfold newer_entry.
  destruct (key_values ns !! key) as [w|] eqn:E; [destruct (vv_version v <=? vv_version w)|].
  - intros Hr. injection Hr as <-. simpl. by rewrite insert_id.
  - destruct (is_deleted v); intros Hr; [by injection Hr as <-|].
    apply rbind_Ok in Hr as (calls & _ & Hr). by injection Hr as <-.
  - destruct (is_deleted v); intros Hr; [by injection Hr as <-|].
    apply rbind_Ok in Hr as (calls & _ & Hr). by injection Hr as <-.
Qed.
Lemma reset_loop_spec ls ns prev kvs r : NoDup kvs.*1 → reset_loop ls ns prev kvs = Ok r →
  let '(ns', prev', _) := r in
  prev' = prev ∖ list_to_set kvs.*1 ∧
  (∀ k v, (k, v) ∈ kvs → key_values ns' !! k = Some (newer_entry (key_values ns !! k) v)) ∧
  (∀ k, k ∉ kvs.*1 → key_values ns' !! k = key_values ns !! k).
Proof.
  revert ns prev r. induction kvs as [|[key v] kvs IH]; intros ns prev r Hnd Hr; cbn [reset_loop] in Hr.
  - injection Hr as <-. split_and!; [set_solver|set_solver|done].
  - rewrite fmap_cons in *. apply NoDup_cons in Hnd as [Hkey Hnd].
    apply rbind_Ok in Hr as ([ns1 calls] & H1 & Hr).
    apply rbind_Ok in Hr as ([[ns2 prev2] calls2] & H2 & Hr). injection Hr as <-.
    apply set_versioned_value_lookup in H1. simpl in H1.
    destruct (IH _ _ _ Hnd H2) as (Hp & Hin & Hout).
    split_and!.
    + rewrite Hp. set_solver.
    + intros k w [[= -> ->]|Hkw]%elem_of_cons.
      * rewrite Hout, H1 by done. apply lookup_insert_eq.
      * rewrite (Hin _ _ Hkw), H1, lookup_insert_ne; [done|]. intros <-. apply Hkey.
        apply list_elem_of_fmap. by exists (key, w).
    + intros k [Hne Hk]%not_elem_of_cons. rewrite Hout, H1 by done.
      by apply lookup_insert_ne.
Qed.
Lemma foldl_remove_key ks ns k :
  key_values (foldl remove_key_value_internal ns ks) !! k =
  if decide (k ∈ ks) then None else key_values ns !! k.
Proof.
  revert ns; induction ks as [|i ks IH]; intros ns; simpl; [done|].
  rewrite IH. simpl. destruct (decide (k = i)) as [->|Hne].
  - rewrite lookup_delete_eq, (decide_True (P:=i ∈ i :: ks)) by (by left). by case_decide.
  - rewrite lookup_delete_ne by done. repeat case_decide; set_solver.
Qed.

(** ** A reply that does not fit *)
Module Overflow.
Import RawZstd.
#[export] Instance keep_order : Shuffle := λ A _ l, l.
Definition self_id : ChitchatId := mkChitchatId "self" 0 (SockV4 1 1).
Definition peer_id : ChitchatId := mkChitchatId "owner" 0 (SockV4 1 2).
Definition cfg : ChitchatConfig := mkConfig self_id "cluster" 0 (SockV4 1 1) [] fd_config_default 0 false None.
(** A value of 42 characters. *)
Definition value : string := "012345678901234567890123456789012345678901".
Definition peer_state : NodeState :=
  mkNodeState peer_id 1 {["a" := mkVersionedValue value 1 Set_]} 1 0.
Definition engine : Chitchat :=
  mkChitchat cfg (mkClusterState {[peer_id := peer_state]} ∅ no_listeners)
    (FailureDetector_new fd_config_default) ∅ ∅ 101.
(** The length of the answer to an empty [SynAck]. *)
Definition ack_length : option N :=
  match process_message engine (SynAck ∅ Delta_default) 0 with
  | Ok (_, Some m, _) =>
      match message_serialize m with Ok buf => Some (blen buf) | _ => None end
  | _ => None
  end.

(** An entry that parses and is stored, but does not fit in a 16-bit item. *)
Fixpoint repeat_x (n : nat) : string :=
  match n with O => EmptyString | S n => String "x"%char (repeat_x n) end.
Definition big_state : NodeState :=
  mkNodeState peer_id 1 {["a" := mkVersionedValue (repeat_x (N.to_nat 65530)) 1 Set_]} 1 0.
(** The datagram size of the QUIC transport. *)
Definition big_engine : Chitchat :=
  mkChitchat cfg (mkClusterState {[peer_id := big_state]} ∅ no_listeners)
    (FailureDetector_new fd_config_default) ∅ ∅ 10000000.
End Overflow.

(** ** Properties *)

(** C23: the engine answers every message that the decoder can produce, with
    keys that its listeners accept, when its datagram size is at most 65535
    bytes and leaves room for its own digest and 101 bytes more (101 bytes
    alone for a reply without a digest): it does not panic, keeps its
    invariant, and its reply encodes.  The reply takes at most the datagram
    size plus three bytes if that size is at most 16384 or none of the reply's
    operations exceeds 16384 bytes. *)
Theorem process_message_total `{ZstdOk, ShuffleOk} c m now : chitchat_inv c → incoming_ok m →
  max_datagram_payload_size c ≤ u16_max → reply_room c m now →
  ∃ c' reply effects, process_message c m now = Ok (c', reply, effects) ∧ chitchat_inv c' ∧
    config c' = config c ∧ reply_ok (max_datagram_payload_size c) reply.
Proof. apply process_message_ok. Qed.
Lemma peer_state_wf : wf_ns Overflow.peer_id Overflow.peer_state.
Proof.
  assert (∀ k v, key_values Overflow.peer_state !! k = Some v →
    k = "a"%string ∧ v = mkVersionedValue Overflow.value 1 Set_) as Hkvs.
  { intros k v Hk. unfold Overflow.peer_state in Hk. cbn [key_values] in Hk.
    by apply lookup_singleton_Some in Hk as [<- <-]. }
  split.
  - split_and!; try split; vm_compute; (reflexivity || discriminate || easy).
  - reflexivity.
  - split; simpl.
    + intros k v Hk. apply Hkvs in Hk as [_ ->]. simpl. lia.
    + intros k1 k2 v1 v2 H1 H2 _. apply Hkvs in H1 as [-> _]. by apply Hkvs in H2 as [-> _].
  - intros k v Hk. apply Hkvs in Hk as [-> ->].
    split_and!; try split; vm_compute; (reflexivity || discriminate).
  - reflexivity.
  - reflexivity.
  - reflexivity.
Qed.
Lemma engine_inv : chitchat_inv Overflow.engine.
Proof.
  split.
  - intros id ns Hid. unfold Overflow.engine in Hid. cbn [cluster_state node_states] in Hid.
    apply lookup_singleton_Some in Hid as [<- <-]. apply peer_state_wf.
  - apply fd_inv_new. simpl. lia.
  - split_and!; try split; vm_compute; (reflexivity || discriminate || easy).
  - simpl. apply not_elem_of_empty.
  - apply lookup_empty.
Qed.
Lemma process_message_total_witness :
  ∃ c' reply effects,
    @process_message RawZstd.raw Overflow.keep_order Overflow.engine (SynAck ∅ Delta_default) 0 = Ok (c', reply, effects) ∧ chitchat_inv c'.
Proof.
  destruct (@process_message_total RawZstd.raw RawZstd.raw_ok Overflow.keep_order
    (λ A n l, Permutation_refl l) Overflow.engine (SynAck ∅ Delta_default) 0) as (c' & r & e & H1 & H2 & _).
  - exact engine_inv.
  - split_and!; [apply map_Forall_empty|split; constructor|constructor].
  - apply N.leb_le. vm_compute. reflexivity.
  - apply N.leb_le. vm_compute. reflexivity.
  - exists c', r, e. split; [exact H1|exact H2].
Defined.

(** The three bytes are real: an [Ack] of 104 bytes from an engine whose
    datagrams take 101 bytes. *)
Theorem reply_exceeds_datagram :
  Overflow.ack_length = Some 104 ∧ max_datagram_payload_size Overflow.engine = 101.
Proof. split; vm_compute; reflexivity. Qed.

(** With the datagrams of the QUIC transport, one entry whose key and
    value together exceed 16 bits stops the engine: it is accepted from the
    network, and the next reply that would carry it panics. *)
Theorem oversized_entry_panics :
  wf_KeyValueMutation (kv_of_vv "a" (mkVersionedValue (Overflow.repeat_x (N.to_nat 65530)) 1 Set_)) ∧
  is_panic (@process_message RawZstd.raw Overflow.keep_order Overflow.big_engine
    (SynAck ∅ Delta_default) 0) = true.
Proof.
  split; [|vm_compute; reflexivity].
  split_and!; try split; vm_compute; (reflexivity || discriminate).
Qed.

(** C35: An update of the liveness classifies every known peer by its phi: one
    whose phi is at most the threshold is live, any other one is dead, since
    now if it was not dead before; a peer that is dead for the grace period is
    forgotten, and only such a peer; all others and the node itself keep their
    state, and no peer appears.  The watcher gets the states of the nodes that
    are live then, those that the extra predicate accepts, exactly if the live
    nodes or their versions are not those of the last time. *)
Theorem update_nodes_liveness_classifies c now : chitchat_inv c →
  let c' := update_nodes_liveness c now in
  chitchat_inv c' ∧ (∀ id, classified c c' id now) ∧
  previous_live_nodes c' = current_live_nodes c' ∧
  live_nodes_watcher c' =
    if bool_decide (previous_live_nodes c = current_live_nodes c') then live_nodes_watcher c else watched_nodes c'.
Proof.
  intros Hc. destruct (update_nodes_liveness_ok c now Hc) as [Hinv _].
  pose proof (update_nodes_liveness_watcher c now Hc). split; [exact Hinv|]. split; [|done].
  intros id. by apply update_nodes_liveness_classified.
Qed.
(** A peer that never sent a heartbeat is dead, and 20 seconds later forgotten. *)
Definition forgetful : Chitchat := update_nodes_liveness Overflow.engine 5.
Lemma update_nodes_liveness_classifies_witness :
  fd_dead_nodes (failure_detector forgetful) !! Overflow.peer_id = Some 5 ∧
  node_states (cluster_state forgetful) !! Overflow.peer_id = Some Overflow.peer_state ∧
  chitchat_inv forgetful ∧
  node_states (cluster_state (update_nodes_liveness forgetful 20000000005)) !! Overflow.peer_id = None.
Proof.
  assert (∀ now, ¬ trusted (failure_detector Overflow.engine) Overflow.peer_id now) as Hn.
  { intros now (p & Hp & _). discriminate Hp. }
  destruct (update_nodes_liveness_classifies Overflow.engine 5 engine_inv) as (Hinv & Hcl & _).
  destruct (proj2 (Hcl Overflow.peer_id) (Hn 5)) as (_ & Hd & Hk).
  split; [exact Hd|]. split; [exact Hk|]. split; [exact Hinv|].
  vm_compute. reflexivity.
Defined.

(** A reset of a node by a newer state leaves exactly the given keys,
    each with the newer of the given and the previous entry. *)
Theorem reset_node_state_keys c id kvs mv gcv c' effects :
  max_version (node_state_mut (cluster_state c) id) < mv → NoDup kvs.*1 →
  reset_node_state c id kvs mv gcv = Ok (c', effects) →
  ∃ ns', node_states (cluster_state c') !! id = Some ns' ∧ last_gc_version ns' = gcv ∧
    (∀ k v, (k, v) ∈ kvs → key_values ns' !! k =
       Some (newer_entry (key_values (node_state_mut (cluster_state c) id) !! k) v)) ∧
    (∀ k, k ∉ kvs.*1 → key_values ns' !! k = None).
Proof.
  intros Hlt Hnd Hr. unfold reset_node_state in Hr.
  rewrite (proj2 (N.leb_gt _ _)) in Hr by done.
  apply rbind_Ok in Hr as ([[ns1 stale] calls] & Hloop & Hr). injection Hr as <- _.
  destruct (reset_loop_spec _ _ _ _ _ Hnd Hloop) as (-> & Hin & Hout).
  eexists. simpl. split; [apply lookup_insert_eq|]. split; [done|]. simpl. split.
  - intros k v Hkv. rewrite foldl_remove_key, decide_False; [by apply Hin|].
    rewrite elem_of_elements, elem_of_difference, elem_of_list_to_set.
    intros [_ Hn]. apply Hn. apply list_elem_of_fmap. by exists (k, v).
  - intros k Hk. rewrite foldl_remove_key. case_decide as Hs; [done|]. rewrite Hout by done.
    apply not_elem_of_dom. intros Hd. apply Hs.
    by rewrite elem_of_elements, elem_of_difference, elem_of_list_to_set.
Qed.
Lemma reset_node_state_keys_witness :
  ∃ c' effects ns',
    reset_node_state Overflow.engine Overflow.peer_id [("b"%string, mkVersionedValue "v" 2 Set_)] 3 1 =
      Ok (c', effects) ∧
    node_states (cluster_state c') !! Overflow.peer_id = Some ns' ∧ key_values ns' !! "a" = None.
Proof.
  assert (is_ok (reset_node_state Overflow.engine Overflow.peer_id [("b"%string, mkVersionedValue "v" 2 Set_)] 3 1) = true)
    as Hok by (vm_compute; reflexivity).
  destruct (reset_node_state Overflow.engine Overflow.peer_id [("b"%string, mkVersionedValue "v" 2 Set_)] 3 1)
    as [[c' effects]| | |] eqn:E; [|discriminate Hok..].
  destruct (reset_node_state_keys Overflow.engine Overflow.peer_id
    [("b"%string, mkVersionedValue "v" 2 Set_)] 3 1 c' effects) as (ns' & Hns & _ & _ & Hnone).
  - vm_compute. reflexivity.
  - apply NoDup_singleton.
  - exact E.
  - exists c', effects, ns'. split; [reflexivity|]. split; [exact Hns|]. apply Hnone.
    by apply (bool_decide_unpack _).
Defined.
