(* ===== verification/Handshake.v ===== *)
(** * Two engines that shake hands agree

    [Gossip] is about clusters that stand still; here two engines
    (chitchat/src/lib.rs) exchange the three messages of the handshake, through
    the encoder and the decoder (message.rs), and whoever starts it, each
    handshake is a round of [Gossip] in one direction and then one in the
    other: afterwards both know more than before, or they agree. *)
From S2P Require Import Prelude Types Serialize Stream Listener Delta Message NodeState Cluster FailureDetector.
From S2P Require Import Chitchat Packing Replication Convergence Gossip.
Open Scope N_scope.

(** ** States up to heartbeats *)
Definition data_eq (x y : NodeState) : Prop := set_heartbeat 0 x = set_heartbeat 0 y.
#[export] Instance data_eq_equivalence : Equivalence data_eq.
Proof. split; [by intros x|by intros x y|]. unfold data_eq. by intros x y z -> ->. Qed.
Lemma data_eq_heartbeat h x : data_eq (set_heartbeat h x) x.
Proof. done. Qed.
Lemma data_eq_fields x y : data_eq x y →
  key_values x = key_values y ∧ max_version x = max_version y ∧ last_gc_version x = last_gc_version y.
Proof. intros Hxy. by injection Hxy. Qed.
Ltac by_data_eq H := destruct (data_eq_fields _ _ H) as (?Hk & ?Hm & ?Hg).
#[export] Instance data_eq_get : Proper (data_eq ==> (=) ==> (=)) get.
Proof. intros x y H k _ <-. by_data_eq H. unfold get, get_versioned. by rewrite Hk. Qed.
#[export] Instance replica_ok_data h : Proper (data_eq ==> iff) (replica_ok h).
Proof.
  assert (∀ x y, data_eq x y → replica_ok h x → replica_ok h y) as Hone.
  { intros [] [] H [[] ]. by_data_eq H. simpl in *. subst. by split; [split|..]. }
  intros x y H. split; apply Hone; [done|by symmetry].
Qed.
#[export] Instance young_data : Proper (data_eq ==> iff) young_tombstones.
Proof. intros x y H. by_data_eq H. unfold young_tombstones. by rewrite Hk, Hg. Qed.
#[export] Instance behind_data id : Proper (data_eq ==> data_eq ==> (=)) (behind id).
Proof.
  intros x x' Hx y y' Hy. by_data_eq Hx. by_data_eq Hy.
  unfold behind, delta_from_version, should_reset, sn_mutations, sn_stale_key_values, stale_key_values,
    key_values_including_deleted. simpl.
  by rewrite Hk, Hm, Hg, Hm0, Hg0.
Qed.
(** Clusters up to heartbeats, and nodes of which nothing is known. *)
Definition same_data (cs cs' : ClusterState) : Prop :=
  ∀ id, data_eq (node_state_mut cs id) (node_state_mut cs' id).
#[export] Instance same_data_equivalence : Equivalence same_data.
Proof. split; [by intros cs id|by intros x y H id|]. intros x y z H H' id. by rewrite (H id). Qed.
Lemma put_heartbeat_same cs id h : same_data (put_node_state cs id (set_heartbeat h (node_state_mut cs id))) cs.
Proof. intros id'. rewrite node_state_mut_put. case_decide; [by subst|done]. Qed.

(** The digest counts only with its versions. *)
Lemma collect_stale_ext d d' sched items acc : (∀ id, digest_versions d id = digest_versions d' id) →
  collect_stale d sched items acc = collect_stale d' sched items acc.
Proof.
  intros Hd. revert acc. induction items as [|[id ns] items IH]; intros acc; [done|].
  cbn [collect_stale]. by rewrite IH, Hd.
Qed.
Lemma compute_ext `{Zstd, Shuffle} cs d d' mtu sched : (∀ id, digest_versions d id = digest_versions d' id) →
  compute_partial_delta_respecting_mtu cs d mtu sched = compute_partial_delta_respecting_mtu cs d' mtu sched.
Proof. intros Hd. unfold compute_partial_delta_respecting_mtu. by rewrite (collect_stale_ext d d'). Qed.
Lemma same_versions cs cs' id : same_data cs cs' →
  digest_versions (compute_digest cs ∅) id = digest_versions (compute_digest cs' ∅) id.
Proof. intros Hs. specialize (Hs id). by_data_eq Hs. by rewrite !digest_versions_own, Hm, Hg. Qed.

(** ** Clusters that know parts of the same histories *)
Section clusters.
Context (hist : ChitchatId → history) (ids : gset ChitchatId) (room : N).

(** Any one entry fits in a delta, after the headers of all nodes. *)
Record world_ok : Prop := {
  wo_hist : ∀ id, hist_ok (hist id);
  wo_keys : ∀ id kv, kv ∈ hist id → event_key_ok (kv_key kv) = true;
  wo_room : 100 ≤ room;
  wo_ids : ∀ id, id ∈ ids → node_op_len id ≤ N.min BLOCK_THRESHOLD room;
  wo_headers : sum_of header_room (elements ids) + 7 ≤ room;
  wo_entries : ∀ id kv, id ∈ ids → kv ∈ hist id →
    sum_of header_room (elements ids) + serialized_len codec_DeltaOp (OpKeyValue kv) + 7 ≤ room;
}.
Record cluster_ok (cs : ClusterState) : Prop := {
  co_inv : cs_inv cs;
  co_ids : dom (node_states cs) ⊆ ids;
  co_nodes : ∀ id, replica_ok (hist id) (node_state_mut cs id) ∧ young_tombstones (node_state_mut cs id);
}.
(** The two have collected equally much. *)
Definition even (cs cs' : ClusterState) : Prop :=
  ∀ id, last_gc_version (node_state_mut cs id) = last_gc_version (node_state_mut cs' id).
(** Neither has anything for the other. *)
Definition told (s r : ClusterState) : Prop := ∀ id, behind id (node_state_mut s id) (node_state_mut r id) = false.

Context (Hw : world_ok).

Lemma cluster_ok_same cs cs' : same_data cs cs' → cs_inv cs' → dom (node_states cs') ⊆ ids → cluster_ok cs → cluster_ok cs'.
Proof. intros Hs Hinv Hdom [_ _ Hn]. split; [done..|]. intros id. rewrite <-(Hs id). apply Hn. Qed.
Lemma known_in_ids cs id ns : cluster_ok cs → node_states cs !! id = Some ns → id ∈ ids ∧ node_state_mut cs id = ns.
Proof.
  intros [_ Hd _] Hid. split; [|unfold node_state_mut; by rewrite Hid]. apply Hd, elem_of_dom. eauto.
Qed.
Lemma cluster_keys_ok cs id : cluster_ok cs → keys_ok (node_state_mut cs id).
Proof.
  intros [_ _ Hn] k v Hk. destruct (Hn id) as [Hr _]. apply (ro_genuine _ _ Hr) in Hk. by apply (wo_keys Hw id) in Hk.
Qed.
Lemma cluster_headers cs : cluster_ok cs → headers cs ≤ sum_of header_room (elements ids).
Proof.
  intros Hcs. apply sum_of_submseteq, NoDup_submseteq; [apply btree_items_NoDup|].
  intros id ([id' ns] & -> & Hin%elem_of_btree_items)%list_elem_of_fmap. apply elem_of_elements.
  by apply (known_in_ids cs id' ns).
Qed.
Lemma cluster_sender `{ZstdOk, ShuffleOk} cs mtu : cluster_ok cs → room ≤ mtu → mtu ≤ u16_max → sender_ok hist mtu cs.
Proof.
  intros Hcs Hlo Hhi. pose proof (cluster_headers cs Hcs) as Hh. destruct Hw as [Wh Wk Wr Wi Wd We]. split.
  - apply Hcs.
  - lia.
  - by apply cluster_fits_u16.
  - split.
    + intros id ns Hid. destruct (known_in_ids cs id ns Hcs Hid) as [Hin _]. specialize (Wi id Hin). lia.
    + lia.
    + intros id ns k v Hid Hk. destruct (known_in_ids cs id ns Hcs Hid) as [Hin Hns].
      destruct (co_nodes _ Hcs id) as [Hr _]. rewrite Hns in Hr. specialize (We id _ Hin (ro_genuine _ _ Hr _ _ Hk)). lia.
  - intros id ns Hid. destruct (known_in_ids cs id ns Hcs Hid) as [_ Hns].
    pose proof (cluster_keys_ok cs id Hcs) as Hk. destruct (co_nodes _ Hcs id) as [Hr Hy]. rewrite Hns in *. auto.
Qed.
Lemma even_follow s r id : even s r → can_follow (node_state_mut s id) (node_state_mut r id).
Proof. intros He. split; rewrite (He id); lia. Qed.
Lemma cluster_receiver s r : cluster_ok s → cluster_ok r → even s r → receiver_ok hist s r.
Proof.
  intros Hs Hr He. split; [apply Hr|]. intros id ns Hid. destruct (known_in_ids s id ns Hs Hid) as [_ <-].
  split; [apply Hr|by apply even_follow].
Qed.
Lemma even_lag s r id : even s r →
  lag (node_state_mut s id) (node_state_mut r id) = max_version (node_state_mut s id) - max_version (node_state_mut r id).
Proof. intros He. unfold lag. by rewrite (He id), N.ltb_irrefl. Qed.
Lemma told_settled s r : settled s r ↔ told s r.
Proof.
  unfold settled, told. rewrite Forall_forall. split; intros Ht.
  - intros id. destruct (node_states s !! id) as [ns|] eqn:E.
    + unfold node_state_mut at 1. rewrite E. by apply (Ht (id, ns)), elem_of_btree_items.
    + unfold node_state_mut at 1, behind, delta_from_version. rewrite E. by rewrite (proj2 (N.leb_le _ _)) by (simpl; lia).
  - intros [id ns] Hin%elem_of_btree_items. simpl. specialize (Ht id). unfold node_state_mut at 1 in Ht. by rewrite Hin in Ht.
Qed.

#[export] Instance told_dec s r : Decision (told s r).
Proof.
  destruct (decide (Forall (λ p, behind p.1 p.2 (node_state_mut r p.1) = false) (btree_items (node_states s)))) as [Hd|Hd];
    [left|right]; by rewrite <-told_settled.
Defined.

(** *** A node that hears of the other's *)
Lemma delta_even id h ns x nd now : hist_ok h → replica_ok h ns → young_tombstones ns → replica_ok h x → young_tombstones x →
  last_gc_version ns = last_gc_version x → answers_digest id ns x nd →
  replica_ok h (delta_result now x nd) ∧ young_tombstones (delta_result now x nd) ∧
  last_gc_version (delta_result now x nd) = last_gc_version x ∧
  max_version x ≤ max_version (delta_result now x nd) ≤ max_version ns.
Proof.
  intros Hh Hns Hyn Hx Hyx Hgc Ha.
  assert (can_follow ns x) as Hcf by (split; rewrite Hgc; lia).
  destruct (answers_digest_spec id h ns Hh Hns Hyn x nd Ha) as (Hd & Hng & _ & Hlt & _ & _ & Hkvs).
  assert (decide_delta x nd ≠ Reset) as Hnr by (intros (_ & _ & Hg & _)%decide_delta_Reset; lia).
  split; [exact (replica_ok_delta h x nd now Hh Hx Hd (round_safe id h ns Hh Hns Hyn x nd Hcf Ha))|].
  assert (last_gc_version (delta_result now x nd) = last_gc_version x) as Hg'
    by (rewrite delta_result_gc; by destruct (decide_delta x nd)).
  split_and!; [|done|by apply delta_result_max_mono|].
  - intros k v Hk Hs. rewrite Hg'. unfold delta_result in Hk. destruct (decide_delta x nd); [by apply (Hyx k v)| |done].
    rewrite foldl_store_lookup in Hk. destruct (last _) as [kv|] eqn:El; [|by apply (Hyx k v)].
    apply last_Some_elem_of, list_elem_of_filter in El as [_ [_ Hin]%list_elem_of_filter].
    injection Hk as <-. destruct (Hkvs kv Hin) as [_ Hyoung]. rewrite <-Hgc. simpl. apply Hyoung.
    clear -Hs. by destruct kv as [? ? ? []].
  - rewrite delta_result_max. destruct (decide_delta x nd); [lia| |done].
    destruct (last _) as [kv|] eqn:El; [|lia].
    apply last_Some_elem_of, list_elem_of_filter in El as [_ Hin].
    destruct Ha as (from & _ & [_ _ _ [rest Hm] _]). simpl in Hm.
    assert (kv ∈ sn_mutations (mkStaleNode id ns from)) as Hin' by (rewrite Hm; apply elem_of_app; by left).
    apply list_elem_of_fmap in Hin' as ([k v] & -> & [Hk _]%elem_of_sn_stale). apply (ni_bound _ (ro_inv _ _ Hns) _ _ Hk).
Qed.

(** *** A round between the two *)
Context `{ZstdOk, ShuffleOk}.
(** What happens to a cluster that hears of another: nothing, or it knows
    more of some node. *)
Record grows (r r' : ClusterState) : Prop := {
  gr_gc : even r r';
  gr_more : ∀ id, max_version (node_state_mut r id) ≤ max_version (node_state_mut r' id);
  gr_new : same_data r r' ∨
    ∃ id, id ∈ ids ∧ max_version (node_state_mut r id) < max_version (node_state_mut r' id);
}.
Lemma grows_same r r' : same_data r r' → grows r r'.
Proof.
  intros Hs. split; [..|by left]; intros id; pose proof (Hs id) as E; by_data_eq E; [done|by rewrite Hm].
Qed.
#[export] Instance grows_preorder : PreOrder grows.
Proof.
  split; [by intros r; apply grows_same|]. intros r1 r2 r3 [G1 M1 N1] [G2 M2 N2]. split.
  - intros id. etrans; [apply G1|apply G2].
  - intros id. etrans; [apply M1|apply M2].
  - destruct N1 as [S1|(id & Hin & Hlt)].
    + destruct N2 as [S2|(id & Hin & Hlt)]; [left; by etrans|right]. exists id. split; [done|].
      eapply N.le_lt_trans; [apply M1|done].
    + right. exists id. split; [done|]. eapply N.lt_le_trans; [done|apply M2].
Qed.
Record told_by (s r r' : ClusterState) : Prop := {
  tb_even : even s r';
  tb_grows : grows r r';
  tb_same : told s r → same_data r r';
  tb_told : same_data r r' → told s r;
}.
Lemma round_told s r mtu r' : cluster_ok s → cluster_ok r → even s r → room ≤ mtu → mtu ≤ u16_max →
  round mtu s r r' → dom (node_states r') ⊆ ids → cluster_ok r' ∧ told_by s r r'.
Proof.
  intros Hs Hr He Hlo Hhi Hround Hdom.
  pose proof (cluster_sender s mtu Hs Hlo Hhi) as Hsk. pose proof (cluster_receiver s r Hs Hr He) as Hrk.
  destruct (round_nodes hist mtu s Hsk r r' Hrk Hround) as (_ & _ & _ & Hinv & _).
  assert (∀ id, let x := node_state_mut r id in let x' := node_state_mut r' id in
    replica_ok (hist id) x' ∧ young_tombstones x' ∧ last_gc_version x' = last_gc_version x ∧
    max_version x ≤ max_version x' ≤ N.max (max_version x) (max_version (node_state_mut s id))) as Hnode.
  { intros id. cbn zeta. destruct (co_nodes _ Hr id) as [Hx Hyx].
    destruct (round_node hist mtu s Hsk r r' Hrk Hround id) as [->|(ns & nd & now & Hid & Ha & ->)];
      [split_and!; (done || lia)|].
    destruct (known_in_ids s id ns Hs Hid) as [_ <-]. destruct (co_nodes _ Hs id) as [Hns Hyn].
    destruct (delta_even id (hist id) _ _ nd now (wo_hist Hw id) Hns Hyn Hx Hyx (He id) Ha) as (? & ? & ? & ?).
    split_and!; (done || lia). }
  assert (even s r') as He' by (intros id; destruct (Hnode id) as (_ & _ & -> & _); apply He).
  assert (¬ told s r → ∃ id, id ∈ ids ∧ max_version (node_state_mut s id) - max_version (node_state_mut r' id) <
    max_version (node_state_mut s id) - max_version (node_state_mut r id)) as Hless.
  { intros Hnt. destruct (round_brings_at hist mtu s Hsk r r' Hrk) as (id & ns & Hid & Hlt); [by rewrite told_settled|done|].
    destruct (known_in_ids s id ns Hs Hid) as [Hin <-]. exists id. split; [done|].
    by rewrite (even_lag s r' id He'), (even_lag s r id He) in Hlt. }
  split; [split; [done|done|]; intros id; by destruct (Hnode id) as (? & ? & _)|]. split.
  - done.
  - split.
    + intros id. by destruct (Hnode id) as (_ & _ & -> & _).
    + intros id. destruct (Hnode id) as (_ & _ & _ & ?). lia.
    + destruct (decide (told s r)) as [Ht|Hnt].
      * left. intros id. by rewrite (settled_same hist mtu s Hsk r r' Hrk (proj2 (told_settled s r) Ht) Hround id).
      * right. destruct (Hless Hnt) as (id & ? & ?). exists id. split; [done|]. lia.
  - intros Ht id. by rewrite (settled_same hist mtu s Hsk r r' Hrk (proj2 (told_settled s r) Ht) Hround id).
  - intros Hs'. destruct (decide (told s r)) as [?|Hnt]; [done|exfalso]. destruct (Hless Hnt) as (id & _ & Hlt).
    pose proof (Hs' id) as E. by_data_eq E. rewrite Hm in Hlt. lia.
Qed.
(** *** A round in one direction, and then one in the other *)
#[export] Instance told_same : Proper (same_data ==> same_data ==> iff) told.
Proof. intros s s' Hs r r' Hr. unfold told. split; intros Ht id; [rewrite <-(Hs id), <-(Hr id)|rewrite (Hs id), (Hr id)]; apply Ht. Qed.
Definition agree (a b : ClusterState) : Prop := told a b ∧ told b a.
(** What becomes of [a] and [b] when they meet. *)
Record met (a b a' b' : ClusterState) : Prop := {
  me_even : even a' b';
  me_grows : grows a a' ∧ grows b b';
  me_same : agree a b → same_data a a' ∧ same_data b b';
  me_agree : same_data a a' → same_data b b' → agree a b;
}.
Lemma told_both a b a1 b1 a2 b2 b3 : same_data a a1 → same_data b b1 → told_by b1 a1 a2 →
  same_data b1 b2 → told_by a2 b2 b3 → met a b a2 b3.
Proof.
  intros Ha Hb [E1 M1 S1 L1] Hb' [E2 M2 S2 L2]. pose proof (grows_same _ _ Ha) as Ga.
  assert (same_data b b2) as Hb2 by by etrans. split.
  - done.
  - split; [by etrans|]. etrans; [by apply grows_same|done].
  - intros [Hab Hba]. rewrite Ha, Hb in Hba. specialize (S1 Hba).
    assert (same_data a a2) as Haa by by etrans. split; [done|]. rewrite Haa, Hb2 in Hab. etrans; [done|by apply S2].
  - intros Saa Sbb. split.
    + rewrite Saa, Hb2. apply L2. by rewrite <-Hb2.
    + rewrite Ha, Hb. apply L1. by rewrite <-Ha.
Qed.
End clusters.

(** ** The handshake, over the wire *)
Section handshake.
Context `{Zstd, Shuffle}.

(** What the receiver reads of a message that was sent. *)
Definition over_wire (m : ChitchatMessage) : res ChitchatMessage :=
  let* buf := message_serialize m in
  let* (m, _) := message_deserialize buf in
  Ok m.
Definition receive (c : Chitchat) (m : ChitchatMessage) (now : Instant) : res (Chitchat * option ChitchatMessage) :=
  let* m := over_wire m in
  let* (r, _) := process_message c m now in
  Ok r.
(** The four moments: the initiator starts, the peer answers, the initiator
    answers, the peer takes the answer. *)
Definition handshake (a b : Chitchat) (t0 t1 t2 t3 : Instant) : res (Chitchat * Chitchat) :=
  let* (b, syn_ack) := receive b (create_syn_message a t0) t1 in
  let* syn_ack := unwrap "no answer to a Syn" syn_ack in
  let* (a, ack) := receive a syn_ack t2 in
  let* ack := unwrap "no answer to a SynAck" ack in
  let* (b, _) := receive b ack t3 in
  Ok (a, b).
(** The same when the last message is lost. *)
Definition handshake_without_ack (a b : Chitchat) (t0 t1 t2 : Instant) : res (Chitchat * Chitchat) :=
  let* (b, syn_ack) := receive b (create_syn_message a t0) t1 in
  let* syn_ack := unwrap "no answer to a Syn" syn_ack in
  let* (a, _) := receive a syn_ack t2 in
  Ok (a, b).
End handshake.

(** ** Engines up to heartbeats *)
Abbreviation node c id := (node_state_mut (cluster_state c) id).
Record beats (heard : gset ChitchatId) (c c' : Chitchat) : Prop := {
  bt_config : config c' = config c;
  bt_max : max_datagram_payload_size c' = max_datagram_payload_size c;
  bt_detector : fd_config (failure_detector c') = fd_config (failure_detector c) ∧
    fd_dead_nodes (failure_detector c') = fd_dead_nodes (failure_detector c);
  bt_data : same_data (cluster_state c) (cluster_state c');
  bt_dom : dom (node_states (cluster_state c')) ⊆ dom (node_states (cluster_state c)) ∪ heard;
}.
Lemma beats_trans s1 s2 c1 c2 c3 : beats s1 c1 c2 → beats s2 c2 c3 → beats (s1 ∪ s2) c1 c3.
Proof.
  intros [C1 M1 [F1 D1] S1 N1] [C2 M2 [F2 D2] S2 N2]. split; [congruence|congruence|split; congruence| |set_solver].
  by etrans.
Qed.
Lemma beats_scheduled s c c' now : beats s c c' → scheduled_nodes c' now = scheduled_nodes c now.
Proof. intros [_ _ [F D] _ _]. unfold scheduled_nodes, scheduled_for_deletion_nodes. by rewrite F, D. Qed.
Lemma put_heartbeat_beats c id h :
  beats {[id]} c (set_cluster_state (put_node_state (cluster_state c) id (set_heartbeat h (node c id))) c).
Proof.
  split; [done..| |]; simpl.
  - symmetry. apply put_heartbeat_same.
  - rewrite dom_insert. set_solver.
Qed.
Lemma update_self_heartbeat_beats c : beats {[self_chitchat_id c]} c (update_self_heartbeat c).
Proof. apply put_heartbeat_beats. Qed.
Lemma try_set_heartbeat_state ns h : ∃ h', (try_set_heartbeat ns h).2 = set_heartbeat h' ns.
Proof.
  unfold try_set_heartbeat. destruct (_ =? 0); [by eexists|]. destruct (_ <? _); [by eexists|].
  exists (heartbeat ns). by destruct ns.
Qed.
Lemma report_heartbeat_beats c id h now c' : report_heartbeat c id h now = Ok c' → beats {[id]} c c'.
Proof.
  unfold report_heartbeat. case_bool_decide; [intros [= <-]; split; (done || set_solver)|].
  destruct (try_set_heartbeat_state (node c id) h) as [h' Hns].
  destruct (try_set_heartbeat _ _) as [upd ns]. simpl in Hns. subst ns.
  pose proof (put_heartbeat_beats c id h') as Hb.
  destruct upd; [|by intros [= <-]]. intros (fd & Hfd & Hc)%rbind_Ok. injection Hc as <-.
  unfold fd_report_heartbeat in Hfd. apply rbind_Ok in Hfd as (w & _ & Hfd). injection Hfd as <-.
  destruct Hb as [C M D S N]. by split.
Qed.
Lemma report_heartbeats_beats c l now c' : report_heartbeats c l now = Ok c' → beats (list_to_set l.*1) c c'.
Proof.
  revert c. induction l as [|[id nd] l IH]; intros c; simpl; [intros [= <-]; split; (done || set_solver)|].
  intros (c1 & H1 & H2)%rbind_Ok. eapply beats_trans; [by eapply report_heartbeat_beats|by apply IH].
Qed.
Lemma report_digest_beats c d now c' : report_heartbeats_in_digest c d now = Ok c' → beats (dom d) c c'.
Proof.
  intros Hr%report_heartbeats_beats. destruct Hr as [C M D S N]. split; [done..|]. etrans; [exact N|].
  apply union_mono_l. intros id ([id' nd] & -> & Hin%elem_of_btree_items)%elem_of_list_to_set%list_elem_of_fmap.
  apply elem_of_dom. eauto.
Qed.

(** ** Peers *)
Section peers.
Context `{ZstdOk, ShuffleOk} (hist : ChitchatId → history) (ids : gset ChitchatId).
(** The size of datagrams, and the most that the digest of these nodes
    takes of it. *)
Context (max dlen : N).
Let room : N := max - 1 - dlen.

Record network_ok : Prop := {
  nt_world : world_ok hist ids room;
  nt_max : max ≤ u16_max;
  nt_digest : ∀ d, digest_wf d → dom d ⊆ ids → wf_Digest d ∧ digest_serialized_len d ≤ dlen;
}.
Record peer_ok (c : Chitchat) : Prop := {
  pe_engine : chitchat_inv c;
  pe_max : max_datagram_payload_size c = max;
  pe_cluster_id : wf_String (cfg_cluster_id (config c));
  pe_self : self_chitchat_id c ∈ ids;
  pe_cluster : cluster_ok hist ids (cluster_state c);
}.
Lemma peer_beats heard c c' : beats heard c c' → heard ⊆ ids → chitchat_inv c' → peer_ok c → peer_ok c'.
Proof.
  intros [C M _ S N] Hheard Hinv [_ Hm Hcid Hself Hcl]. split; [done|congruence|congruence| |].
  - unfold self_chitchat_id. by rewrite C.
  - apply (cluster_ok_same hist ids (cluster_state c)); [done|apply Hinv| |done].
    etrans; [exact N|]. apply union_least; [apply Hcl|done].
Qed.
Context (Hnet : network_ok).

Lemma max_fits : fits 64 max.
Proof. apply (N.le_lt_trans _ u16_max); [apply Hnet|done]. Qed.
(** The digest of a peer. *)
Lemma peer_digest c : peer_ok c → let d := compute_digest (cluster_state c) ∅ in digest_wf d ∧ dom d ⊆ ids.
Proof.
  intros Hc. cbn zeta. unfold compute_digest. split.
  - intros id nd Hid. rewrite lookup_fmap in Hid. apply fmap_Some in Hid as (ns & Hid & ->).
    apply map_lookup_filter_Some in Hid as [Hid _]. destruct (ci_cluster _ (pe_engine _ Hc) id ns Hid). by split_and!.
  - rewrite dom_fmap. etrans; [apply dom_filter_subseteq|]. apply Hc.
Qed.

(** *** What a peer says *)
Lemma over_wire_ok m : wf_message m → is_ok (message_serialize m) = true → over_wire m = Ok m.
Proof.
  intros Hwf Hser. unfold over_wire. destruct (message_serialize m) as [buf| | |] eqn:E; [|done..].
  cbn [rbind]. pose proof (message_roundtrip m buf [] Hwf E) as Hr. by rewrite (right_id_L [] (++)) in Hr; rewrite Hr.
Qed.
Lemma computed_delta c d mtu : peer_ok c → room ≤ mtu → mtu ≤ u16_max → ∃ delta payload,
  compute_partial_delta_respecting_mtu (cluster_state c) d mtu ∅ = Ok delta ∧ Delta_serialize delta = Ok payload ∧
  wf_nodes (node_deltas delta) ∧ delta_keys_ok delta ∧ (∀ nd, nd ∈ node_deltas delta → nd_chitchat_id nd ∈ ids).
Proof.
  intros Hc Hlo Hhi. pose proof (wo_room _ _ _ (nt_world Hnet)) as Hroom.
  destruct (compute_partial_delta_spec (cluster_state c) d mtu ∅) as (delta & payload & Hd & Hall & Hwf & Hs & _);
    [apply Hc|lia|by apply cluster_fits_u16|].
  exists delta, payload. rewrite Forall_forall in Hall. split_and!; try done.
  - apply Forall_forall. intros nd (ns & Hns & _ & _ & [_ _ _ [rest Hm] _])%Hall. apply Forall_forall. intros kv Hkv.
    assert (kv ∈ sn_mutations (mkStaleNode (nd_chitchat_id nd) ns (nd_from_version_excluded nd))) as Hin
      by (rewrite Hm; apply elem_of_app; by left).
    apply list_elem_of_fmap in Hin as ([k v] & -> & [Hk _]%elem_of_sn_stale). simpl in *.
    destruct (known_in_ids hist ids _ _ _ (pe_cluster _ Hc) Hns) as [_ <-].
    exact (cluster_keys_ok hist ids room (nt_world Hnet) _ (nd_chitchat_id nd) (pe_cluster _ Hc) k v Hk).
  - intros nd (ns & Hns & _)%Hall. by apply (known_in_ids hist ids _ _ _ (pe_cluster _ Hc) Hns).
Qed.
Lemma hear_digest c d now : peer_ok c → digest_wf d → dom d ⊆ ids → ∃ c',
  report_heartbeats_in_digest (update_self_heartbeat c) d now = Ok c' ∧ peer_ok c' ∧ beats ids c c'.
Proof.
  intros Hc Hwf Hdom.
  destruct (report_digest_ok (update_self_heartbeat c) d now) as (c' & Hr & Hinv & _);
    [by apply update_self_heartbeat_inv, Hc|done|].
  assert (beats ({[self_chitchat_id c]} ∪ dom d) c c') as Hb
    by (eapply beats_trans; [apply update_self_heartbeat_beats|by eapply report_digest_beats]).
  pose proof (pe_self _ Hc) as Hself. assert ({[self_chitchat_id c]} ∪ dom d ⊆ ids) as Hsub by set_solver.
  exists c'. split; [done|]. split; [by apply (peer_beats _ c c' Hb)|].
  destruct Hb as [C M D S N]. split; [done..|set_solver].
Qed.

(** A [Syn] is answered with the digest and what the initiator lacks. *)
Definition answers (c : Chitchat) (d : Digest) (delta : Delta) : Prop :=
  ∃ mtu, room ≤ mtu ≤ u16_max ∧ compute_partial_delta_respecting_mtu (cluster_state c) d mtu ∅ = Ok delta.
Lemma answer_syn c d now : peer_ok c → digest_wf d → dom d ⊆ ids → scheduled_nodes c now = ∅ → ∃ c' delta,
  process_message c (Syn (cfg_cluster_id (config c)) d) now =
    Ok (c', Some (SynAck (compute_digest (cluster_state c') ∅) delta), []) ∧
  peer_ok c' ∧ beats ids c c' ∧ answers c' d delta.
Proof.
  intros Hc Hwf Hdom Hsched. destruct (hear_digest c d now Hc Hwf Hdom) as (c' & Hr & Hc' & Hb).
  assert (scheduled_nodes c' now = ∅) as Hsched' by by rewrite (beats_scheduled _ _ _ _ Hb).
  destruct (peer_digest c' Hc') as [Hdw Hdd]. destruct (nt_digest Hnet _ Hdw Hdd) as [_ Hlen].
  pose proof (wo_room _ _ _ (nt_world Hnet)) as Hroom. pose proof (nt_max Hnet) as Hmax. unfold u16_max in Hmax.
  set (mtu := max - 1 - digest_serialized_len (compute_digest (cluster_state c') ∅)) in *.
  assert (room ≤ mtu ≤ u16_max) as Hm by (subst mtu; unfold room, u16_max in *; lia).
  destruct (computed_delta c' d mtu Hc') as (delta & payload & Hd & _); [apply Hm..|].
  exists c', delta. split; [|by split_and!; [..|exists mtu]]. unfold process_message.
  change (config (update_self_heartbeat c)) with (config c). rewrite bool_decide_eq_false_2 by (by intros []).
  rewrite Hr. cbn [rbind]. unfold chitchat_compute_digest. rewrite Hsched', (pe_max _ Hc').
  assert (wsub64 (wsub64 max 1) (digest_serialized_len (compute_digest (cluster_state c') ∅)) = mtu) as ->.
  { unfold room in *. rewrite (wsub64_small max 1), wsub64_small;
      (done || apply max_fits || lia || (eapply N.le_lt_trans; [|apply max_fits]; lia)). }
  by rewrite Hd.
Qed.

(** *** What a peer takes *)
Lemma apply_node_deltas_dom cs nds now r : apply_node_deltas cs nds now = Ok r →
  dom (node_states r.1) ⊆ dom (node_states cs) ∪ list_to_set (nd_chitchat_id <$> nds).
Proof.
  revert cs r. induction nds as [|nd nds IH]; intros cs r; simpl; [intros [= <-]; simpl; set_solver|].
  intros ([ns calls] & _ & Hr)%rbind_Ok. apply rbind_Ok in Hr as ([cs' calls'] & Hr & Heq). injection Heq as <-.
  apply IH in Hr. simpl in *. rewrite dom_insert in Hr. set_solver.
Qed.
Lemma take_delta s r d delta now : peer_ok s → peer_ok r → even (cluster_state s) (cluster_state r) → answers s d delta →
  (∀ id, digest_versions d id = digest_versions (compute_digest (cluster_state r) ∅) id) →
  ∃ cs effects, process_delta r delta now = Ok (set_cluster_state cs r, effects) ∧
    peer_ok (set_cluster_state cs r) ∧ told_by ids (cluster_state s) (cluster_state r) cs.
Proof.
  intros Hs Hr He (mtu & [Hlo Hhi] & Hd) Hv.
  destruct (computed_delta s d mtu Hs Hlo Hhi) as (delta' & _ & Hd' & _ & Hwf & Hk & Hids).
  assert (delta' = delta) as -> by congruence. rewrite (compute_ext _ _ _ _ _ Hv) in Hd.
  unfold process_delta, cluster_apply_delta.
  destruct (apply_node_deltas_total (cluster_state r) (node_deltas delta) now) as [[cs calls] Happ]; [apply Hr|apply Hwf|done|].
  assert (dom (node_states cs) ⊆ ids) as Hdom.
  { apply apply_node_deltas_dom in Happ. simpl in Happ. pose proof (co_ids _ _ _ (pe_cluster _ Hr)) as Hr'.
    etrans; [exact Happ|]. apply union_least; [done|].
    intros id (nd & -> & Hin)%elem_of_list_to_set%list_elem_of_fmap. by apply Hids. }
  destruct (round_told hist ids room (nt_world Hnet) (cluster_state s) (cluster_state r) mtu cs) as [Hcs Ht];
    [apply Hs|apply Hr|done|done|done|by econstructor|done|].
  rewrite Happ. cbn [rbind]. eexists cs, _. split; [done|]. split; [|done].
  destruct Hr as [Hinv Hm Hc Hself _]. split; try done. apply set_cluster_state_inv; [done|apply Hcs].
Qed.

(** *** The handshake *)
Record pair_ok (a b : Chitchat) : Prop := {
  po_left : peer_ok a;
  po_right : peer_ok b;
  po_cluster : cfg_cluster_id (config a) = cfg_cluster_id (config b);
  po_even : even (cluster_state a) (cluster_state b);
}.
(** Nobody has been dead for so long that the digests leave it out. *)
Definition nobody_scheduled (a b : Chitchat) (t0 t1 t2 : Instant) : Prop :=
  scheduled_nodes a t0 = ∅ ∧ scheduled_nodes b t1 = ∅ ∧ scheduled_nodes a t2 = ∅.
Lemma peer_wf_digest c : peer_ok c → wf_Digest (compute_digest (cluster_state c) ∅).
Proof. intros Hc. destruct (peer_digest c Hc) as [Hw Hd]. by apply (nt_digest Hnet). Qed.
Lemma even_beats s s' a b a' b' : beats s a a' → beats s' b b' → even (cluster_state a) (cluster_state b) →
  even (cluster_state a') (cluster_state b').
Proof.
  intros [_ _ _ Ha _] [_ _ _ Hb _] He id. specialize (Ha id). specialize (Hb id). by_data_eq Ha. by_data_eq Hb.
  rewrite <-Hg, <-Hg0. apply He.
Qed.
Lemma receive_syn_ack a b d delta now : peer_ok a → peer_ok b → even (cluster_state b) (cluster_state a) →
  answers b d delta → (∀ id, digest_versions d id = digest_versions (compute_digest (cluster_state a) ∅) id) →
  scheduled_nodes a now = ∅ → ∃ a1 a2 delta',
  receive a (SynAck (compute_digest (cluster_state b) ∅) delta) now = Ok (a2, Some (Ack delta')) ∧ peer_ok a2 ∧
  config a2 = config a ∧ failure_detector a2 = failure_detector a1 ∧ beats ids a a1 ∧
  told_by ids (cluster_state b) (cluster_state a1) (cluster_state a2) ∧
  answers a2 (compute_digest (cluster_state b) ∅) delta'.
Proof.
  intros Ha Hb He Hans Hv Hsched. destruct (peer_digest b Hb) as [Hdw Hdd].
  destruct (hear_digest a _ now Ha Hdw Hdd) as (a1 & Hr & Ha1 & Hbt).
  destruct (take_delta b a1 d delta now Hb Ha1) as (cs & effs & Hp & Ha2 & Ht); [|done| |].
  { intros id. rewrite (He id). pose proof (bt_data _ _ _ Hbt id) as H'. by_data_eq H'. done. }
  { intros id. rewrite Hv. apply same_versions, Hbt. }
  pose proof (nt_max Hnet) as Hmax. unfold u16_max in Hmax. pose proof (wo_room _ _ _ (nt_world Hnet)) as Hroom. unfold room in Hroom.
  destruct (computed_delta (set_cluster_state cs a1) (compute_digest (cluster_state b) ∅) (max - 1) Ha2)
    as (delta' & payload & Hd' & _); [unfold room; lia|unfold u16_max; lia|].
  exists a1, (set_cluster_state cs a1), delta'. split_and!; try done.
  - destruct Hans as (mtu & [Hlo Hhi] & Hd). destruct (computed_delta b d mtu Hb Hlo Hhi) as (delta0 & pl & Hd0 & Hs0 & Hwf0 & _).
    assert (delta0 = delta) as -> by congruence. unfold receive.
    rewrite over_wire_ok; [|split; [by apply peer_wf_digest|done]|simpl; by rewrite Hs0].
    cbn [rbind process_message]. rewrite Hr. cbn [rbind]. rewrite Hp. cbn [rbind].
    assert (scheduled_nodes (set_cluster_state cs a1) now = ∅) as Hs2
      by (rewrite <-Hsched, <-(beats_scheduled _ _ _ now Hbt); done).
    rewrite Hs2, (pe_max _ Ha2), wsub64_small; [by rewrite Hd'|lia|apply max_fits].
  - apply (bt_config _ _ _ Hbt).
  - exists (max - 1). split; [unfold room; unfold u16_max; lia|done].
Qed.
Lemma receive_ack a b d delta now : peer_ok a → peer_ok b → even (cluster_state a) (cluster_state b) →
  answers a d delta → (∀ id, digest_versions d id = digest_versions (compute_digest (cluster_state b) ∅) id) →
  ∃ b1 b2, receive b (Ack delta) now = Ok (b2, None) ∧ peer_ok b2 ∧ config b2 = config b ∧ beats ids b b1 ∧
    failure_detector b2 = failure_detector b1 ∧ told_by ids (cluster_state a) (cluster_state b1) (cluster_state b2).
Proof.
  intros Ha Hb He Hans Hv. pose proof (update_self_heartbeat_beats b) as Hbt.
  assert (beats ids b (update_self_heartbeat b)) as Hbt'.
  { pose proof (pe_self _ Hb). destruct Hbt as [C M D S N]. split; [done..|set_solver]. }
  assert (peer_ok (update_self_heartbeat b)) as Hb1
    by (apply (peer_beats _ _ _ Hbt'); [done|by apply update_self_heartbeat_inv, Hb|done]).
  destruct (take_delta a (update_self_heartbeat b) d delta now Ha Hb1) as (cs & effs & Hp & Hb2 & Ht); [|done| |].
  { intros id. rewrite (He id). pose proof (bt_data _ _ _ Hbt id) as H'. by_data_eq H'. done. }
  { intros id. rewrite Hv. apply same_versions, Hbt. }
  exists (update_self_heartbeat b), (set_cluster_state cs (update_self_heartbeat b)). split_and!; try done.
  destruct Hans as (mtu & [Hlo Hhi] & Hd). destruct (computed_delta a d mtu Ha Hlo Hhi) as (delta0 & pl & Hd0 & Hs0 & Hwf0 & _).
  assert (delta0 = delta) as -> by congruence. unfold receive.
  rewrite over_wire_ok; [|done|simpl; by rewrite Hs0]. cbn [rbind process_message]. by rewrite Hp.
Qed.
Lemma receive_syn a b t0 t1 : pair_ok a b → scheduled_nodes a t0 = ∅ → scheduled_nodes b t1 = ∅ → ∃ b' delta,
  receive b (create_syn_message a t0) t1 = Ok (b', Some (SynAck (compute_digest (cluster_state b') ∅) delta)) ∧
  peer_ok b' ∧ beats ids b b' ∧ answers b' (compute_digest (cluster_state a) ∅) delta.
Proof.
  intros [Ha Hb Hcid _] Hs0 Hs1. destruct (peer_digest a Ha) as [Hdw Hdd].
  destruct (answer_syn b _ t1 Hb Hdw Hdd Hs1) as (b' & delta & Hp & Hb' & Hbt & Hans).
  exists b', delta. split_and!; try done. unfold receive, create_syn_message, chitchat_compute_digest. rewrite Hs0.
  rewrite over_wire_ok; [|split; [apply Ha|by apply peer_wf_digest]|done]. cbn [rbind]. rewrite Hcid, Hp. done.
Qed.
(** Who is dead, and since when, is not touched by it. *)
Record same_dead (c c' : Chitchat) : Prop := {
  sd_config : fd_config (failure_detector c') = fd_config (failure_detector c);
  sd_dead : fd_dead_nodes (failure_detector c') = fd_dead_nodes (failure_detector c);
}.
Lemma beats_dead heard c c1 c2 : beats heard c c1 → failure_detector c2 = failure_detector c1 → same_dead c c2.
Proof. intros [_ _ [Hf Hd] _ _] E. split; by rewrite E. Qed.
(** A handshake always works, and this is what it does. *)
Lemma handshake_ok a b t0 t1 t2 t3 : pair_ok a b → nobody_scheduled a b t0 t1 t2 → ∃ a' b',
  handshake a b t0 t1 t2 t3 = Ok (a', b') ∧ pair_ok a' b' ∧
  met ids (cluster_state a) (cluster_state b) (cluster_state a') (cluster_state b') ∧ same_dead a a' ∧ same_dead b b' ∧
  config a' = config a ∧ config b' = config b.
Proof.
  intros Hp (Hs0 & Hs1 & Hs2). pose proof Hp as [Ha Hb Hcid He].
  destruct (receive_syn a b t0 t1 Hp Hs0 Hs1) as (b1 & delta1 & Hr1 & Hb1 & Hbt1 & Hans1).
  assert (beats ∅ a a) as Haa by (split; (done || set_solver)).
  destruct (receive_syn_ack a b1 (compute_digest (cluster_state a) ∅) delta1 t2 Ha Hb1) as (a1 & a2 & delta2 & Hr2 & Ha2 & Hcfg2 & Hfa & Hbta & Ht1 & Hans2);
    [intros id; symmetry; by apply (even_beats _ _ a b a b1 Haa Hbt1)|done|done|done|].
  destruct (receive_ack a2 b1 (compute_digest (cluster_state b1) ∅) delta2 t3 Ha2 Hb1) as (b2 & b3 & Hr3 & Hb3 & Hcfg3 & Hbtb & Hfb & Ht2);
    [intros id; symmetry; apply (tb_even _ _ _ _ Ht1)|done|done|].
  exists a2, b3. split.
  { unfold handshake. rewrite Hr1. cbn [rbind unwrap]. rewrite Hr2. cbn [rbind unwrap]. by rewrite Hr3. }
  assert (met ids (cluster_state a) (cluster_state b) (cluster_state a2) (cluster_state b3)) as Hmet
    by (eapply told_both; [apply Hbta|apply Hbt1|exact Ht1|apply Hbtb|exact Ht2]).
  split; [split; [done|done| |apply Hmet]; by rewrite Hcfg2, Hcfg3, (bt_config _ _ _ Hbt1)|]. split; [done|].
  split; [by eapply beats_dead|]. split; [eapply beats_dead; [by eapply beats_trans|done]|].
  by rewrite Hcfg2, Hcfg3, (bt_config _ _ _ Hbt1).
Qed.

(** Nor does it matter when the last message is lost. *)
Record half_met (a b a' b' : ClusterState) : Prop := {
  hm_grows : grows ids a a' ∧ grows ids b b';
  hm_same : agree a b → same_data a a' ∧ same_data b b';
}.
Lemma handshake_without_ack_ok a b t0 t1 t2 : pair_ok a b → nobody_scheduled a b t0 t1 t2 → ∃ a' b',
  handshake_without_ack a b t0 t1 t2 = Ok (a', b') ∧ pair_ok a' b' ∧
  half_met (cluster_state a) (cluster_state b) (cluster_state a') (cluster_state b') ∧ config a' = config a ∧ config b' = config b.
Proof.
  intros Hp (Hs0 & Hs1 & Hs2). pose proof Hp as [Ha Hb Hcid He].
  destruct (receive_syn a b t0 t1 Hp Hs0 Hs1) as (b1 & delta1 & Hr1 & Hb1 & Hbt1 & Hans1).
  assert (beats ∅ a a) as Haa by (split; (done || set_solver)).
  destruct (receive_syn_ack a b1 (compute_digest (cluster_state a) ∅) delta1 t2 Ha Hb1)
    as (a1 & a2 & delta2 & Hr2 & Ha2 & Hcfg2 & _ & Hbta & [E1 M1 S1 _] & _);
    [intros id; symmetry; by apply (even_beats _ _ a b a b1 Haa Hbt1)|done|done|done|].
  exists a2, b1. split.
  { unfold handshake_without_ack. rewrite Hr1. cbn [rbind unwrap]. by rewrite Hr2. }
  split; [split; [done|done|by rewrite Hcfg2, (bt_config _ _ _ Hbt1)|intros id; symmetry; apply E1]|].
  split; [|by rewrite Hcfg2, (bt_config _ _ _ Hbt1)].
  pose proof (bt_data _ _ _ Hbta) as Da. pose proof (bt_data _ _ _ Hbt1) as Db. split.
  - split; [|by apply grows_same]. etrans; [by apply grows_same|done].
  - intros [_ Hba]. rewrite Da, Db in Hba. split; [etrans; [done|by apply S1]|done].
Qed.

(** What an engine does in between leaves its data as they are, such as
    counting its heartbeats. *)
Record idles (c c' : Chitchat) : Prop := {
  id_engine : chitchat_inv c';
  id_config : config c' = config c;
  id_max : max_datagram_payload_size c' = max_datagram_payload_size c;
  id_data : same_data (cluster_state c) (cluster_state c');
  id_ids : dom (node_states (cluster_state c')) ⊆ ids;
}.
Lemma idle_peer c c' : peer_ok c → idles c c' → peer_ok c'.
Proof.
  intros [_ Hm Hw Hself Hcl] [Hinv Hcfg Hm' Hd Hids]. split; [done|congruence|by rewrite Hcfg| |].
  - unfold self_chitchat_id. by rewrite Hcfg.
  - by apply (cluster_ok_same hist ids (cluster_state c)); [|apply Hinv|..].
Qed.
#[export] Instance agree_same : Proper (same_data ==> same_data ==> iff) agree.
Proof. intros s s' Hs r r' Hr. unfold agree. by rewrite Hs, Hr. Qed.
(** What a write shows as. *)
Definition shown_as (kv : KeyValueMutation) : option string :=
  match kv_status kv with MDelete => None | _ => Some (kv_value kv) end.
Lemma agreed_key a b id k kv : pair_ok a b → agree (cluster_state a) (cluster_state b) → latest (hist id) k = Some kv →
  kv_status kv ≠ MDeleteAfterTtl → kv_version kv ≤ max_version (node a id) →
  get (node a id) k = shown_as kv ∧ get (node b id) k = shown_as kv.
Proof.
  intros [Ha Hb _ _] [Hab _] Hl Httl Hv.
  destruct (co_nodes _ _ _ (pe_cluster _ Ha) id) as [Ra Ya]. destruct (co_nodes _ _ _ (pe_cluster _ Hb) id) as [Rb _].
  assert (get (node a id) k = shown_as kv) as Hget.
  { pose proof (replica_get _ _ _ _ Ra Hl Hv) as Hg. unfold shown_as. by destruct (kv_status kv). }
  split; [done|]. rewrite <-Hget.
  apply (not_behind_agrees id (hist id) (node a id) (wo_hist _ _ _ (nt_world Hnet) id) Ra Ya); [done|apply Hab|].
  intros kv' Hl'. replace kv' with kv by congruence. auto.
Qed.
End peers.

(** ** How long a digest can be *)
#[local] Transparent codec_digest_entry codec_NodeDigest.
Definition digest_entry_len (id : ChitchatId) : N := serialized_len codec_ChitchatId id + 24.
Lemma slen_digest_entry p : serialized_len codec_digest_entry p = digest_entry_len p.1.
Proof. unfold digest_entry_len. cbn [codec_digest_entry codec_NodeDigest serialized_len]. by rewrite !slen_u64. Qed.
#[local] Opaque codec_digest_entry codec_NodeDigest.
Lemma digest_uncompressed_len (ids : gset ChitchatId) (d : Digest) : dom d ⊆ ids →
  blen (digest_serialize_uncompressed d) ≤ 2 + sum_of digest_entry_len (elements ids).
Proof.
  intros Hd. unfold digest_serialize_uncompressed. rewrite blen_app, serialize_len, slen_u16.
  assert (∀ l : list (ChitchatId * NodeDigest),
    blen (concat (serialize codec_digest_entry <$> l)) = sum_of digest_entry_len l.*1) as ->.
  { intros l. induction l as [|p l IH]; [done|]. rewrite !fmap_cons. simpl. by rewrite blen_app, IH, serialize_len, slen_digest_entry. }
  apply N.add_le_mono_l, sum_of_submseteq, NoDup_submseteq; [apply btree_items_NoDup|].
  intros id ([id' nd] & -> & Hin%elem_of_btree_items)%list_elem_of_fmap. apply elem_of_elements, Hd, elem_of_dom. eauto.
Qed.
