(* ===== verification/Crowd.v ===== *)
(** * Any number of engines

    [Handshake] is about two engines; here are as many as one likes.  Any two
    of them meet, in any order and as often as it happens, and whenever every
    two have met the whole is a round closer to agreeing. *)
From S2P Require Import Prelude Types Serialize Stream Listener Delta Message NodeState Cluster FailureDetector.
From S2P Require Import Chitchat Packing Replication Convergence Gossip Handshake.
Open Scope N_scope.

Section crowd.
Context `{ZstdOk, ShuffleOk} (hist : ChitchatId → history) (ids : gset ChitchatId) (max dlen : N).

Definition crowd_ok (cs : list Chitchat) : Prop := ∀ a b, a ∈ cs → b ∈ cs → pair_ok hist ids max a b.
(** An engine idles, two engines meet, or the last message of two that meet
    is lost; the pairs that have met are noted. *)
Inductive crowd_step : list Chitchat → list Chitchat → list (nat * nat) → Prop :=
  | crowd_idles cs (i : nat) a a' : cs !! i = Some a → idles ids a a' → crowd_step cs (<[i:=a']> cs) []
  | crowd_cut cs (i j : nat) a b t0 t1 t2 a' b' : i ≠ j → cs !! i = Some a → cs !! j = Some b → nobody_scheduled a b t0 t1 t2 →
      handshake_without_ack a b t0 t1 t2 = Ok (a', b') → crowd_step cs (<[i:=a']> (<[j:=b']> cs)) []
  | crowd_meets cs (i j : nat) a b t0 t1 t2 t3 a' b' : i ≠ j → cs !! i = Some a → cs !! j = Some b → nobody_scheduled a b t0 t1 t2 →
      handshake a b t0 t1 t2 t3 = Ok (a', b') → crowd_step cs (<[i:=a']> (<[j:=b']> cs)) [(i, j)].
Inductive crowd_run : list Chitchat → list Chitchat → list (nat * nat) → Prop :=
  | crowd_stop cs : crowd_run cs cs []
  | crowd_go cs cs1 cs2 ps ps' : crowd_step cs cs1 ps → crowd_run cs1 cs2 ps' → crowd_run cs cs2 (ps ++ ps').
(** Whoever starts, every two have met. *)
Definition all_met (n : nat) (ps : list (nat * nat)) : Prop :=
  ∀ i j, (i < j < n)%nat → (i, j) ∈ ps ∨ (j, i) ∈ ps.
Inductive crowd_rounds : nat → list Chitchat → list Chitchat → Prop :=
  | rounds_none cs cs' ps : crowd_run cs cs' ps → crowd_rounds 0 cs cs'
  | rounds_one n cs cs1 cs' ps : crowd_run cs cs1 ps → all_met (length cs) ps → crowd_rounds n cs1 cs' →
      crowd_rounds (S n) cs cs'.
Definition all_agree (cs : list Chitchat) : Prop := ∀ a b, a ∈ cs → b ∈ cs → agree (cluster_state a) (cluster_state b).
(** How many versions of the histories an engine lacks, and all of them. *)
Definition lacks (c : Chitchat) : N := sum_of (λ id, blen (hist id) - max_version (node c id)) (elements ids).
Definition lack (cs : list Chitchat) : N := sum_of lacks cs.
Context (Hnet : network_ok hist ids max dlen).

Definition grows_to (c c' : Chitchat) : Prop := peer_ok hist ids max c' ∧ config c' = config c ∧ grows ids (cluster_state c) (cluster_state c').
Definition quiet (c c' : Chitchat) : Prop := same_data (cluster_state c) (cluster_state c').
Lemma grows_to_lacks c c' : grows_to c c' → lacks c' ≤ lacks c ∧ (quiet c c' ∨ lacks c' < lacks c).
Proof.
  intros (Hc & _ & [_ More New]). assert (lacks c' ≤ lacks c) as Hle.
  { apply sum_of_le. intros id _. specialize (More id). lia. }
  split; [done|]. destruct New as [?|(id & Hin & Hlt)]; [by left|right].
  apply (sum_of_lt _ _ _ id); [|by apply elem_of_elements|].
  - intros id' _. specialize (More id'). lia.
  - destruct (co_nodes _ _ _ (pe_cluster _ _ _ _ Hc) id) as [Hr _]. pose proof (ro_max _ _ Hr). lia.
Qed.
Lemma grows_to_refl c : peer_ok hist ids max c → grows_to c c.
Proof. intros Hc. split; [done|]. split; [done|reflexivity]. Qed.
Lemma crowd_grows cs cs' : crowd_ok cs → Forall2 grows_to cs cs' → crowd_ok cs'.
Proof.
  intros Hok Hg a' b' (i & Hi)%list_elem_of_lookup (j & Hj)%list_elem_of_lookup.
  destruct (Forall2_lookup_r _ _ _ _ _ Hg Hi) as (a & Ha & Pa & Ca & [Ga _ _]).
  destruct (Forall2_lookup_r _ _ _ _ _ Hg Hj) as (b & Hb & Pb & Cb & [Gb _ _]).
  destruct (Hok a b) as [_ _ Hc He]; [by eapply list_elem_of_lookup_2|by eapply list_elem_of_lookup_2|]. split; [done|done|congruence|].
  intros id. rewrite <-(Ga id), <-(Gb id). apply He.
Qed.
Lemma quiet_lacks c c' : quiet c c' → lacks c' = lacks c.
Proof. intros Hq. unfold lacks. induction (elements ids) as [|id l IH]; [done|]. simpl. rewrite IH. by_data_eq (Hq id). by rewrite Hm. Qed.
Lemma crowd_lack cs cs' : Forall2 grows_to cs cs' → lack cs' ≤ lack cs ∧ (Forall2 quiet cs cs' ∨ lack cs' < lack cs).
Proof.
  unfold lack. induction 1 as [|c c' cs cs' Hc _ [Hle IH]]; simpl; [by split; [|left]|].
  apply grows_to_lacks in Hc as [Hle' Hc]. split; [lia|]. destruct Hc as [Hq|?]; [|right; lia].
  destruct IH as [?|?]; [left; by constructor|right; lia].
Qed.
Lemma crowd_quiet_lack cs cs' : Forall2 quiet cs cs' → lack cs' = lack cs.
Proof. unfold lack. induction 1 as [|c c' cs cs' Hc _ IH]; [done|]. simpl. by rewrite IH, (quiet_lacks c c'). Qed.

(** *** One step *)
Lemma crowd_refl (R : relation Chitchat) cs : (∀ c, c ∈ cs → R c c) → Forall2 R cs cs.
Proof. intros HR. apply Forall_Forall2_diag. by apply Forall_forall. Qed.
Lemma crowd_two (R : relation Chitchat) cs (i j : nat) a b a' b' : i ≠ j → (∀ c, c ∈ cs → R c c) →
  cs !! i = Some a → cs !! j = Some b → R a a' → R b b' → Forall2 R cs (<[i:=a']> (<[j:=b']> cs)).
Proof.
  intros Hij HR Ha Hb Ra Rb. rewrite <-(list_insert_id cs i a Ha) at 1. rewrite <-(list_insert_id cs j b Hb) at 1.
  by apply Forall2_insert; [apply Forall2_insert; [apply crowd_refl|]|].
Qed.
Lemma crowd_step_grows cs cs' ps : crowd_ok cs → crowd_step cs cs' ps → Forall2 grows_to cs cs' ∧
  (Forall2 quiet cs cs' → ∀ (i j : nat), (i, j) ∈ ps → ∃ a b, cs !! i = Some a ∧ cs !! j = Some b ∧ agree (cluster_state a) (cluster_state b)) ∧
  (all_agree cs → Forall2 quiet cs cs').
Proof.
  intros Hok Hs. assert (∀ c, c ∈ cs → grows_to c c) as Hrefl by (intros c Hc; apply grows_to_refl, (Hok c c Hc Hc)).
  assert (∀ c, c ∈ cs → quiet c c) as Hq by by intros c _.
  destruct Hs as [cs i a a' Ha Hi|cs i j a b t0 t1 t2 a' b' Hij Ha Hb Hns Hh|cs i j a b t0 t1 t2 t3 a' b' Hij Ha Hb Hns Hh].
  - assert (peer_ok hist ids max a) as Hp by (apply (Hok a a); by eapply list_elem_of_lookup_2).
    assert (∀ R : relation Chitchat, (∀ c, c ∈ cs → R c c) → R a a' → Forall2 R cs (<[i:=a']> cs)) as Hone.
    { intros R HR Ra. rewrite <-(list_insert_id cs i a Ha) at 1. by apply Forall2_insert; [apply crowd_refl|]. }
    split_and!; [apply Hone; [done|]|by intros _ ? ? ?%not_elem_of_nil|intros _; apply Hone; [done|apply Hi]].
    split; [by apply (idle_peer hist ids max a)|]. split; [apply Hi|apply grows_same, Hi].
  - assert (pair_ok hist ids max a b) as Hp by (apply Hok; by eapply list_elem_of_lookup_2).
    destruct (handshake_without_ack_ok hist ids max dlen Hnet a b t0 t1 t2 Hp Hns) as (a1 & b1 & Hh' & Hp' & [[Ga Gb] Hsame] & Ca & Cb).
    rewrite Hh in Hh'. injection Hh' as <- <-. destruct Hp' as [Pa Pb _ _].
    split_and!; [by eapply crowd_two|by intros _ ? ? ?%not_elem_of_nil|]. intros Hall.
    destruct (Hsame ltac:(apply Hall; by eapply list_elem_of_lookup_2)) as [? ?]. by eapply crowd_two.
  - assert (pair_ok hist ids max a b) as Hp by (apply Hok; by eapply list_elem_of_lookup_2).
    destruct (handshake_ok hist ids max dlen Hnet a b t0 t1 t2 t3 Hp Hns) as (a1 & b1 & Hh' & Hp' & Hmet & _ & _ & Ca & Cb).
    rewrite Hh in Hh'. injection Hh' as <- <-. destruct Hp' as [Pa Pb _ _]. destruct Hmet as [_ [Ga Gb] Hsame Hagree].
    split_and!; [by eapply crowd_two| |].
    + intros Hquiet i' j' [= -> ->]%list_elem_of_singleton. exists a, b. split_and!; [done..|].
      apply Hagree.
      * eapply (Forall2_lookup_lr quiet _ _ i); [exact Hquiet|done|]. apply list_lookup_insert_eq. rewrite length_insert. by eapply lookup_lt_Some.
      * eapply (Forall2_lookup_lr quiet _ _ j); [exact Hquiet|done|]. rewrite list_lookup_insert_ne by done.
        apply list_lookup_insert_eq. by eapply lookup_lt_Some.
    + intros Hall. destruct (Hsame ltac:(apply Hall; by eapply list_elem_of_lookup_2)) as [? ?]. by eapply crowd_two.
Qed.

(** *** Runs and rounds *)
Lemma quiet_trans cs1 cs2 cs3 : Forall2 quiet cs1 cs2 → Forall2 quiet cs2 cs3 → Forall2 quiet cs1 cs3.
Proof. apply Forall2_trans. intros x y z. unfold quiet. by etrans. Qed.
Lemma grows_trans cs1 cs2 cs3 : Forall2 grows_to cs1 cs2 → Forall2 grows_to cs2 cs3 → Forall2 grows_to cs1 cs3.
Proof.
  apply Forall2_trans. intros x y z (_ & C1 & G1) (P2 & C2 & G2). split; [done|]. split; [congruence|by etrans].
Qed.
(** What two quiet steps hide is quiet in each. *)
Lemma quiet_parts cs1 cs2 cs3 : Forall2 grows_to cs1 cs2 → Forall2 grows_to cs2 cs3 → Forall2 quiet cs1 cs3 →
  Forall2 quiet cs1 cs2 ∧ Forall2 quiet cs2 cs3.
Proof.
  intros G1 G2 Hq%crowd_quiet_lack. apply crowd_lack in G1 as [L1 [Q1|?]]; [|apply crowd_lack in G2; lia].
  apply crowd_lack in G2 as [L2 [Q2|?]]; [done|lia].
Qed.
Lemma agreeing_quiet cs cs' : Forall2 quiet cs cs' → all_agree cs → all_agree cs'.
Proof.
  intros Hq Hall a' b' (i & Hi)%list_elem_of_lookup (j & Hj)%list_elem_of_lookup.
  destruct (Forall2_lookup_r _ _ _ _ _ Hq Hi) as (a & Ha & Qa). destruct (Forall2_lookup_r _ _ _ _ _ Hq Hj) as (b & Hb & Qb).
  unfold quiet in Qa, Qb. rewrite <-Qa, <-Qb. apply Hall; by eapply list_elem_of_lookup_2.
Qed.
Lemma crowd_run_grows cs cs' ps : crowd_ok cs → crowd_run cs cs' ps → Forall2 grows_to cs cs' ∧
  (Forall2 quiet cs cs' → ∀ i j : nat, (i, j) ∈ ps → ∃ a b, cs !! i = Some a ∧ cs !! j = Some b ∧ agree (cluster_state a) (cluster_state b)) ∧
  (all_agree cs → all_agree cs').
Proof.
  intros Hok Hr. induction Hr as [cs|cs cs1 cs2 ps ps' Hs Hr IH].
  { split_and!; [|by intros _ ? ? ?%not_elem_of_nil|done]. apply crowd_refl. intros c Hc. apply grows_to_refl, (Hok c c Hc Hc). }
  destruct (crowd_step_grows cs cs1 ps Hok Hs) as (G1 & A1 & K1).
  destruct (IH (crowd_grows _ _ Hok G1)) as (G2 & A2 & K2). split_and!; [by eapply grows_trans| |].
  - intros Hq. destruct (quiet_parts _ _ _ G1 G2 Hq) as [Q1 Q2]. intros i j [Hin|Hin]%elem_of_app; [by apply A1|].
    destruct (A2 Q2 i j Hin) as (a1 & b1 & Ha1 & Hb1 & Hag).
    destruct (Forall2_lookup_r _ _ _ _ _ Q1 Ha1) as (a & Ha & Qa). destruct (Forall2_lookup_r _ _ _ _ _ Q1 Hb1) as (b & Hb & Qb).
    exists a, b. split_and!; [done..|]. unfold quiet in Qa, Qb. by rewrite Qa, Qb.
  - intros Hall. apply K2, (agreeing_quiet cs); [by apply K1|done].
Qed.
Lemma agree_refl (c : ClusterState) : agree c c.
Proof.
  assert (told c c) as Ht; [|by split]. intros id. unfold behind, delta_from_version.
  by rewrite (proj2 (N.leb_le _ _)) by reflexivity.
Qed.
(** After a round the engines agree, or they lack less. *)
Lemma crowd_round cs cs' ps : crowd_ok cs → crowd_run cs cs' ps → all_met (length cs) ps →
  crowd_ok cs' ∧ Forall2 grows_to cs cs' ∧ (all_agree cs → all_agree cs') ∧ (all_agree cs' ∨ lack cs' < lack cs).
Proof.
  intros Hok Hr Hmet. destruct (crowd_run_grows cs cs' ps Hok Hr) as (G & A & K).
  split; [by eapply crowd_grows|]. split; [done|]. split; [done|]. destruct (crowd_lack cs cs' G) as [_ [Hq|?]]; [left|by right].
  apply K. intros a b (i & Hi)%list_elem_of_lookup (j & Hj)%list_elem_of_lookup.
  pose proof (lookup_lt_Some _ _ _ Hi). pose proof (lookup_lt_Some _ _ _ Hj). specialize (A Hq).
  assert (∀ i j a b, cs !! i = Some a → cs !! j = Some b → (i, j) ∈ ps → agree (cluster_state a) (cluster_state b)) as Hone.
  { intros i' j' a' b' Ha Hb Hin. destruct (A i' j' Hin) as (? & ? & Ha' & Hb' & ?). by simplify_eq. }
  destruct (Nat.lt_trichotomy i j) as [Hlt|[->|Hlt]].
  - destruct (Hmet i j) as [Hin|Hin]; [lia|by eapply Hone|]. destruct (Hone j i b a Hj Hi Hin); by split.
  - simplify_eq. apply agree_refl.
  - destruct (Hmet j i) as [Hin|Hin]; [lia| |by eapply Hone]. destruct (Hone j i b a Hj Hi Hin); by split.
Qed.
Lemma crowd_rounds_ok n cs cs' : crowd_ok cs → crowd_rounds n cs cs' →
  crowd_ok cs' ∧ Forall2 grows_to cs cs' ∧ (all_agree cs ∨ lack cs < N.of_nat n → all_agree cs').
Proof.
  intros Hok Hr. induction Hr as [cs cs' ps Hr|n cs cs1 cs' ps Hr Hmet Hrs IH].
  - destruct (crowd_run_grows cs cs' ps Hok Hr) as (G & _ & K). split; [by eapply crowd_grows|]. split; [done|].
    intros [?|?]; [by apply K|lia].
  - destruct (crowd_round cs cs1 ps Hok Hr Hmet) as (Hok1 & G1 & K1 & Hone). destruct (IH Hok1) as (Hok' & G2 & K2).
    split; [done|]. split; [by eapply grows_trans|]. intros [Hall|Hlt]; [by apply K2; left; apply K1|].
    apply K2. destruct Hone as [?|?]; [by left|right; lia].
Qed.
(** Engines that have nobody dead can meet. *)
Definition nobody_dead (cs : list Chitchat) : Prop := ∀ c, c ∈ cs → fd_dead_nodes (failure_detector c) = ∅.
Lemma pair_can_meet cs (i j : nat) : crowd_ok cs → nobody_dead cs → i ≠ j → (i < length cs)%nat → (j < length cs)%nat →
  ∃ cs', crowd_step cs cs' [(i, j)] ∧ nobody_dead cs' ∧ length cs' = length cs.
Proof.
  intros Hok Hd Hij Hi Hj. destruct (lookup_lt_is_Some_2 cs i Hi) as [a Ha]. destruct (lookup_lt_is_Some_2 cs j Hj) as [b Hb].
  assert (nobody_scheduled a b 0 0 0) as Hns.
  { assert (∀ c, c ∈ cs → scheduled_nodes c 0 = ∅) as Hs; [|split_and!; apply Hs; by eapply list_elem_of_lookup_2].
    intros c Hc. unfold scheduled_nodes, scheduled_for_deletion_nodes. by rewrite (Hd c Hc). }
  destruct (handshake_ok hist ids max dlen Hnet a b 0 0 0 0) as (a' & b' & Hh & _ & _ & [_ Da] & [_ Db] & _);
    [apply Hok; by eapply list_elem_of_lookup_2|done|].
  exists (<[i:=a']> (<[j:=b']> cs)). split; [by eapply crowd_meets|]. split; [|by rewrite !length_insert].
  assert (∀ (l : list Chitchat) (k : nat) c', nobody_dead l → fd_dead_nodes (failure_detector c') = ∅ → nobody_dead (<[k:=c']> l)) as Hins.
  { intros l k c' Hl Hc c (m & Hm)%list_elem_of_lookup. apply list_lookup_insert_Some in Hm as [(_ & <- & _)|[_ Hm]]; [done|].
    apply Hl. by eapply list_elem_of_lookup_2. }
  apply Hins; [apply Hins; [done|rewrite Db]|rewrite Da]; apply Hd; by eapply list_elem_of_lookup_2.
Qed.
(** Rounds are always possible: every two may meet. *)
Definition all_pairs (n : nat) : list (nat * nat) := mjoin ((λ i, pair i <$> seq (S i) (n - S i)) <$> seq 0 n).
Lemma elem_of_all_pairs n i j : (i, j) ∈ all_pairs n ↔ (i < j < n)%nat.
Proof.
  unfold all_pairs. rewrite list_elem_of_join. setoid_rewrite list_elem_of_fmap. split.
  - intros (l & Hin & (k & -> & Hk)).
    apply list_elem_of_fmap in Hin as (m & [= -> ->] & Hm). rewrite elem_of_seq in *. lia.
  - intros Hij. exists (pair i <$> seq (S i) (n - S i)). split.
    + apply list_elem_of_fmap. exists j. split; [done|]. rewrite elem_of_seq. lia.
    + exists i. split; [done|]. rewrite elem_of_seq. lia.
Qed.
Lemma pairs_can_meet ps cs : crowd_ok cs → nobody_dead cs →
  (∀ i j : nat, (i, j) ∈ ps → i ≠ j ∧ (i < length cs)%nat ∧ (j < length cs)%nat) →
  ∃ cs', crowd_run cs cs' ps ∧ crowd_ok cs' ∧ nobody_dead cs' ∧ length cs' = length cs.
Proof.
  revert cs. induction ps as [|[i j] ps IH]; intros cs Hok Hd Hps; [exists cs; split_and!; try done; constructor|].
  destruct (Hps i j) as (Hij & Hi & Hj); [by left|]. destruct (pair_can_meet cs i j Hok Hd Hij Hi Hj) as (cs1 & Hs & Hd1 & Hl).
  destruct (crowd_step_grows cs cs1 _ Hok Hs) as (G & _). pose proof (crowd_grows _ _ Hok G) as Hok1.
  destruct (IH cs1 Hok1 Hd1) as (cs' & Hr & Hok' & Hd' & Hl').
  { intros i' j' Hin. rewrite Hl. apply Hps. by right. }
  exists cs'. split_and!; [|done|done|congruence]. change ((i, j) :: ps) with ([(i, j)] ++ ps). by eapply crowd_go.
Qed.
Lemma crowd_can_meet n cs : crowd_ok cs → nobody_dead cs → ∃ cs', crowd_rounds n cs cs'.
Proof.
  revert cs. induction n as [|n IH]; intros cs Hok Hd; [exists cs; eapply rounds_none; constructor|].
  destruct (pairs_can_meet (all_pairs (length cs)) cs Hok Hd) as (cs1 & Hr & Hok1 & Hd1 & _).
  { intros i j ?%elem_of_all_pairs. lia. }
  destruct (IH cs1 Hok1 Hd1) as (cs' & Hrs). exists cs'. eapply rounds_one; [exact Hr| |done].
  intros i j Hij. left. by apply elem_of_all_pairs.
Qed.
End crowd.
