(* ===== verification/Server.v ===== *)
(** * The gossip server (chitchat/src/server.rs)

    The selection of the peers of a gossip round, and the event loop of the
    server: a datagram, a tick of the gossip interval, or a command.  The
    messages handed to the socket are the output of a step. *)
From Stdlib Require Import Floats.SpecFloat.
From S2P Require Import Prelude Types Serialize Stream Listener Delta Message NodeState Cluster FailureDetector Chitchat.
Open Scope N_scope.

(** ** The random generator (crate [rand])

    [choose_multiple] samples without repetition, [choose] picks an element
    of a non-empty collection, [gen_f64] is uniform in [0, 1); the number
    tells apart the calls made with one generator. *)
Class Rng : Type := {
  choose_multiple : nat → list SocketAddr → nat → list SocketAddr;
  choose : nat → list SocketAddr → option SocketAddr;
  gen_f64 : nat → f64;
}.
Class RngOk `{Rng} : Prop := {
  choose_multiple_sub : ∀ n l k, choose_multiple n l k ⊆+ l;
  choose_multiple_len : ∀ n l k, length (choose_multiple n l k) = Nat.min k (length l);
  choose_elem : ∀ n l x, choose n l = Some x → x ∈ l;
  choose_none : ∀ n l, choose n l = None → l = [];
}.

Definition GOSSIP_COUNT : nat := 3.

Section select.
Context `{Rng}.

Definition select_dead_node_to_gossip_with (n : nat) (dead_nodes : gset SocketAddr)
    (live_nodes_count dead_nodes_count : N) : option SocketAddr :=
  let selection_probability := f64_div (f64_of_N dead_nodes_count) (f64_of_N (live_nodes_count + 1)) in
  if f64_lt (gen_f64 n) selection_probability then choose n (elements dead_nodes) else None.

Definition select_seed_node_to_gossip_with (n : nat) (seed_nodes : gset SocketAddr)
    (live_nodes_count dead_nodes_count : N) : option SocketAddr :=
  let selection_probability :=
    f64_div (f64_of_N (N.of_nat (size seed_nodes))) (f64_of_N (live_nodes_count + dead_nodes_count)) in
  if (live_nodes_count =? 0) || f64_le (gen_f64 n) selection_probability
  then choose n (elements seed_nodes) else None.

Definition select_nodes_for_gossip (peer_nodes live_nodes dead_nodes seed_nodes : gset SocketAddr)
    : list SocketAddr * option SocketAddr * option SocketAddr :=
  let live_nodes_count := N.of_nat (size live_nodes) in
  let dead_nodes_count := N.of_nat (size dead_nodes) in
  let nodes :=
    choose_multiple 0 (elements (if live_nodes_count =? 0 then peer_nodes else live_nodes))
      GOSSIP_COUNT in
  let has_gossiped_with_a_seed_node := existsb (λ a, bool_decide (a ∈ seed_nodes)) nodes in
  let random_dead_node := select_dead_node_to_gossip_with 1 dead_nodes live_nodes_count dead_nodes_count in
  let random_seed_node :=
    if negb has_gossiped_with_a_seed_node || (live_nodes_count <? N.of_nat (size seed_nodes))
    then select_seed_node_to_gossip_with 2 seed_nodes live_nodes_count dead_nodes_count
    else None in
  (nodes, random_dead_node, random_seed_node).
End select.

(** ** Seed addresses

    [parse_addr] is [str::parse::<SocketAddr>] and [lookup_host] the answer
    of the resolver at a time ([None] for an error). *)
Class Resolver : Type := {
  parse_addr : string → option SocketAddr;
  lookup_host : Instant → string → option (list SocketAddr);
}.

Section seeds.
Context `{Resolver}.

Definition resolve_seed_host (now : Instant) (seed_host : string) (seed_addrs : gset SocketAddr)
    : gset SocketAddr :=
  match lookup_host now seed_host with
  | Some resolved_seed_addrs => foldl (λ s a, {[a]} ∪ s) seed_addrs resolved_seed_addrs
  | None => seed_addrs
  end.
(** One turn of [dns_refresh_loop]: the set it sends on the watch channel. *)
Definition dns_refresh (seed_hosts_requiring_dns : gset string)
    (seed_addrs_not_requiring_resolution : gset SocketAddr) (now : Instant) : gset SocketAddr :=
  foldl (λ s host, resolve_seed_host now host s) seed_addrs_not_requiring_resolution
    (elements seed_hosts_requiring_dns).
(** The loop over the configured seeds of [spawn_dns_refresh_loop]: the
    addresses, the first resolution and the hosts that need the resolver. *)
Fixpoint sort_seeds (now : Instant) (seeds : list string)
    (acc : gset SocketAddr * gset SocketAddr * gset string)
    : gset SocketAddr * gset SocketAddr * gset string :=
  match seeds with
  | [] => acc
  | seed :: seeds =>
      let '(addrs, first_round, hosts) := acc in
      match parse_addr seed with
      | Some seed_addr => sort_seeds now seeds ({[seed_addr]} ∪ addrs, first_round, hosts)
      | None => sort_seeds now seeds (addrs, resolve_seed_host now seed first_round, {[seed]} ∪ hosts)
      end
  end.
(** The initial set, and the arguments of the refresh task if one starts. *)
Definition spawn_dns_refresh_loop (seeds : list string) (now : Instant)
    : gset SocketAddr * option (gset string * gset SocketAddr) :=
  let '(addrs, first_round, hosts) := sort_seeds now seeds (∅, ∅, ∅) in
  (addrs ∪ first_round, if bool_decide (hosts = ∅) then None else Some (hosts, addrs)).

(** [spawn_chitchat], up to the start of the loop: [opened] is the result of
    opening the socket on the configured address. *)
Definition spawn_chitchat (cfg : ChitchatConfig) (initial_key_values : list (string * string))
    (opened : SocketAddr → res unit) (max_payload : N) (now : Instant)
    : res (Chitchat * option (gset string * gset SocketAddr)) :=
  let '(seed_addrs, refresh) := spawn_dns_refresh_loop (cfg_seed_nodes cfg) now in
  let* _ := opened (cfg_listen_addr cfg) in
  let* c := with_chitchat_id_and_seeds cfg seed_addrs initial_key_values max_payload in
  Ok (c, refresh).
End seeds.

(** ** The server *)
Inductive Command : Type := Gossip (addr : SocketAddr) | Shutdown.
(** What [select!] delivers: the result of [recv], a tick, or a command
    ([None] when the channel of commands is closed); or, between two turns,
    a set of seeds sent by [dns_refresh_loop] on the watch channel. *)
Inductive Event : Type :=
  | Received (r : res (SocketAddr * ChitchatMessage))
  | Tick
  | Commanded (c : option Command)
  | SeedsRefreshed (seeds : gset SocketAddr).
Inductive Flow : Type := Continue | Stop (result : res unit).
Abbreviation Outbox := (list (SocketAddr * ChitchatMessage)).

Section server.
Context `{Zstd, Shuffle, Rng}.

(** [Server::gossip] *)
Definition gossip (c : Chitchat) (addr : SocketAddr) (now : Instant) : Outbox :=
  [(addr, create_syn_message c now)].

(** [Server::handle_message]; the reply goes back to the sender. *)
Definition handle_message (c : Chitchat) (from_addr : SocketAddr) (m : ChitchatMessage)
    (now : Instant) : res (Chitchat * Outbox * list Effect) :=
  let* (p, effects) := process_message c m now in
  let '(c, response) := p in
  Ok (c, match response with Some m => [(from_addr, m)] | None => [] end, effects).

(** [watch::Receiver::borrow] shows the last set that was sent. *)
Definition refresh_seeds (c : Chitchat) (seeds : gset SocketAddr) : Chitchat :=
  set_cluster_state
    (mkClusterState (node_states (cluster_state c)) seeds (cluster_listeners (cluster_state c))) c.

(** The address sets of a round. *)
Definition addrs_of (ids : gset ChitchatId) : gset SocketAddr := set_map gossip_advertise_addr ids.
Definition peer_addrs (c : Chitchat) : gset SocketAddr :=
  addrs_of (dom (node_states (cluster_state c)) ∖ {[self_chitchat_id c]}).
Definition live_addrs (c : Chitchat) : gset SocketAddr :=
  addrs_of (live_nodes c ∖ {[self_chitchat_id c]}).
Definition dead_addrs (c : Chitchat) : gset SocketAddr := addrs_of (dead_nodes c).
Definition other_seed_addrs (c : Chitchat) : gset SocketAddr :=
  seed_nodes c ∖ {[gossip_advertise_addr (self_chitchat_id c)]}.

(** [Server::gossip_multiple] *)
Definition gossip_multiple (c : Chitchat) (now : Instant) : Chitchat * Outbox :=
  let '(selected, dead_opt, seed_opt) :=
    select_nodes_for_gossip (peer_addrs c) (live_addrs c) (dead_addrs c) (other_seed_addrs c) in
  let c := chitchat_gc (update_self_heartbeat c) now in
  let targets := selected ++ option_list dead_opt ++ option_list seed_opt in
  let outbox := concat ((λ addr, gossip c addr now) <$> targets) in
  (update_nodes_liveness c now, outbox).

(** One turn of the loop of [Server::run]. *)
Definition server_step (c : Chitchat) (e : Event) (now : Instant)
    : res (Chitchat * Outbox * Flow) :=
  match e with
  | Received (Ok (from_addr, m)) =>
      let* (p, _) := handle_message c from_addr m now in
      let '(c, out) := p in
      Ok (c, out, Continue)
  | Received (Err e) => Ok (c, [], Stop (Err e))
  | Received (Panic e) => Panic e
  | Received OutOfFuel => OutOfFuel
  | Tick =>
      let '(c, out) := gossip_multiple c now in
      Ok (c, out, Continue)
  | Commanded (Some (Gossip addr)) => Ok (c, gossip c addr now, Continue)
  | Commanded (Some Shutdown) | Commanded None => Ok (c, [], Stop (Ok ()))
  | SeedsRefreshed seeds => Ok (refresh_seeds c seeds, [], Continue)
  end.
(** The loop over the events that occur, each with its time. *)
Fixpoint run (c : Chitchat) (events : list (Event * Instant)) : res (Chitchat * Outbox * Flow) :=
  match events with
  | [] => Ok (c, [], Continue)
  | (e, now) :: events =>
      let* (p, flow) := server_step c e now in
      let '(c, out) := p in
      match flow with
      | Stop r => Ok (c, out, Stop r)
      | Continue =>
          let* (p, flow) := run c events in
          let '(c, out') := p in
          Ok (c, out ++ out', flow)
      end
  end.
End server.

(** ** Lemmas *)
Section lemmas.
Context `{RngOk}.

Lemma elements_size (s : gset SocketAddr) : length (elements s) = size s.
Proof. done. Qed.

Lemma selected_spec peers live dead seeds nodes dn sn :
  select_nodes_for_gossip peers live dead seeds = (nodes, dn, sn) →
  let pool := if N.of_nat (size live) =? 0 then peers else live in
  NoDup nodes ∧ length nodes = Nat.min GOSSIP_COUNT (size pool) ∧
  (∀ a, a ∈ nodes → a ∈ pool) ∧ (∀ a, dn = Some a → a ∈ dead) ∧ (∀ a, sn = Some a → a ∈ seeds).
Proof.
  unfold select_nodes_for_gossip. intros Heq. injection Heq as <- <- <-.
  set (pool := if N.of_nat (size live) =? 0 then peers else live).
  pose proof (choose_multiple_sub 0 (elements pool) GOSSIP_COUNT) as Hsub. split_and!.
  - pose proof (NoDup_elements pool) as Hnd. apply submseteq_Permutation in Hsub as [k Hk].
    rewrite Hk in Hnd. by apply NoDup_app in Hnd as [Hnd _].
  - rewrite choose_multiple_len. done.
  - intros a Ha. apply elem_of_elements. by eapply elem_of_submseteq.
  - unfold select_dead_node_to_gossip_with. intros a. destruct (f64_lt _ _); [|done].
    intros Ha%choose_elem. by apply elem_of_elements.
  - intros a. destruct (_ || _); [|done]. unfold select_seed_node_to_gossip_with.
    destruct (_ || _); [|done]. intros Ha%choose_elem. by apply elem_of_elements.
Qed.
(** A node that knows no live peer always contacts a seed, if there is one. *)
Lemma isolated_contacts_seed peers dead seeds nodes dn sn :
  select_nodes_for_gossip peers ∅ dead seeds = (nodes, dn, sn) → seeds ≠ ∅ →
  ∃ a, sn = Some a ∧ a ∈ seeds.
Proof.
  intros Heq Hne. apply (f_equal snd) in Heq. cbn [snd] in Heq. subst sn.
  unfold select_nodes_for_gossip. cbn [snd].
  change (N.of_nat (size (∅ : gset SocketAddr))) with 0.
  assert (0 <? N.of_nat (size seeds) = true) as ->.
  { apply N.ltb_lt. assert (size seeds ≠ 0)%nat; [|lia]. intros Hs. apply Hne.
    apply leibniz_equiv, size_empty_inv, Hs. }
  rewrite orb_true_r. unfold select_seed_node_to_gossip_with. cbn [N.eqb orb].
  destruct (choose 2 (elements seeds)) as [a|] eqn:E.
  - exists a. split; [done|]. by apply choose_elem, elem_of_elements in E.
  - apply choose_none in E. destruct Hne. by apply leibniz_equiv, elements_empty_inv.
Qed.
End lemmas.

Section seed_lemmas.
Context `{Resolver}.

Lemma elem_of_insert_all (l : list SocketAddr) (s : gset SocketAddr) a :
  a ∈ foldl (λ s a, {[a]} ∪ s) s l ↔ a ∈ s ∨ a ∈ l.
Proof. revert s. induction l as [|x l IH]; intros s; simpl; [set_solver|]. rewrite IH. set_solver. Qed.
Lemma elem_of_resolve now host s a :
  a ∈ resolve_seed_host now host s ↔ a ∈ s ∨ ∃ l, lookup_host now host = Some l ∧ a ∈ l.
Proof.
  unfold resolve_seed_host. destruct (lookup_host now host) as [l|]; [|naive_solver].
  rewrite elem_of_insert_all. naive_solver.
Qed.
(** [a] is an answer of the resolver for one of the hosts. *)
Definition resolved (now : Instant) (hosts : gset string) (a : SocketAddr) : Prop :=
  ∃ host l, host ∈ hosts ∧ lookup_host now host = Some l ∧ a ∈ l.
Lemma elem_of_dns_refresh hosts addrs now a :
  a ∈ dns_refresh hosts addrs now ↔ a ∈ addrs ∨ resolved now hosts a.
Proof.
  unfold dns_refresh, resolved. setoid_rewrite <-(elem_of_elements hosts).
  generalize (elements hosts). intros l. revert addrs.
  induction l as [|host l IH]; intros addrs; simpl; [set_solver|].
  rewrite IH, elem_of_resolve. split.
  - intros [[?|(r & ? & ?)]|(h & r & ? & ? & ?)]; [by left| |]; right; set_solver.
  - intros [?|(h & r & Hh & ? & ?)]; [auto|]. apply elem_of_cons in Hh as [->|Hh]; eauto 10.
Qed.
Lemma sort_seeds_spec now seeds addrs first hosts addrs' first' hosts' :
  sort_seeds now seeds (addrs, first, hosts) = (addrs', first', hosts') →
  (∀ a, a ∈ addrs' ↔ a ∈ addrs ∨ ∃ s, s ∈ seeds ∧ parse_addr s = Some a) ∧
  (∀ h, h ∈ hosts' ↔ h ∈ hosts ∨ (h ∈ seeds ∧ parse_addr h = None)) ∧
  ((∀ a, a ∈ first ↔ resolved now hosts a) → ∀ a, a ∈ first' ↔ resolved now hosts' a).
Proof.
  revert addrs first hosts. induction seeds as [|s seeds IH]; intros addrs first hosts; simpl.
  - intros [= <- <- <-]. set_solver.
  - destruct (parse_addr s) as [x|] eqn:E; intros (H1 & H2 & H3)%IH; split_and!.
    + intros a. rewrite H1, elem_of_union, elem_of_singleton. set_solver.
    + intros h. rewrite H2. split; [set_solver|].
      intros [?|[[->|?]%elem_of_cons ?]]; [by left|congruence|by right].
    + done.
    + intros a. rewrite H1. split; [set_solver|].
      intros [?|(s' & [->|?]%elem_of_cons & ?)]; [by left|congruence|eauto].
    + intros h. rewrite H2. set_solver.
    + intros Hf. apply H3. intros a. rewrite elem_of_resolve, Hf. unfold resolved. set_solver.
Qed.
End seed_lemmas.

(** A concrete generator: the first elements. *)
Module FirstRng.
#[export] Instance first : Rng := {|
  choose_multiple _ l k := take k l;
  choose _ l := head l;
  gen_f64 _ := f64_0;
|}.
#[export] Instance first_ok : RngOk.
Proof.
  split; simpl.
  - intros _ l k. apply sublist_submseteq, sublist_take.
  - intros _ l k. apply length_take.
  - intros _ [|y l] x; simpl; [done|]. intros [= ->]. by left.
  - by intros _ [|y l].
Qed.
End FirstRng.

(** ** Properties *)

(** A round of gossip addresses at most three live peers, without
    repetition (all known peers stand in when none is live), at most one dead
    peer and at most one seed. *)
Theorem gossip_round_targets `{RngOk} peers live dead seeds nodes dn sn :
  select_nodes_for_gossip peers live dead seeds = (nodes, dn, sn) →
  NoDup nodes ∧ (length nodes ≤ 3)%nat ∧
  (∀ a, a ∈ nodes → a ∈ (if N.of_nat (size live) =? 0 then peers else live)) ∧
  (∀ a, dn = Some a → a ∈ dead) ∧ (∀ a, sn = Some a → a ∈ seeds).
Proof.
  intros Hs. destruct (selected_spec _ _ _ _ _ _ _ Hs) as (H1 & H2 & H3 & H4 & H5).
  split_and!; try done. rewrite H2. unfold GOSSIP_COUNT. lia.
Qed.
Lemma gossip_round_targets_witness :
  NoDup [SockV4 1 1] ∧ (∀ a, a ∈ [SockV4 1 1] → a ∈ ({[SockV4 1 1]} : gset SocketAddr)).
Proof.
  destruct (@gossip_round_targets FirstRng.first FirstRng.first_ok ∅ {[SockV4 1 1]} ∅ ∅
    [SockV4 1 1] None None) as (H1 & _ & H3 & _).
  - vm_compute. reflexivity.
  - split; [exact H1|]. intros a Ha. specialize (H3 a Ha). vm_compute in H3 |- *. exact H3.
Defined.

(** An isolated node always contacts a seed, so partitions heal. *)
Theorem isolated_node_contacts_seed `{RngOk} peers dead seeds nodes dn sn :
  select_nodes_for_gossip peers ∅ dead seeds = (nodes, dn, sn) → seeds ≠ ∅ →
  ∃ a, sn = Some a ∧ a ∈ seeds.
Proof. apply isolated_contacts_seed. Qed.
Lemma isolated_node_contacts_seed_witness :
  ∃ a, Some (SockV4 1 1) = Some a ∧ a ∈ ({[SockV4 1 1]} : gset SocketAddr).
Proof.
  apply (@isolated_node_contacts_seed FirstRng.first FirstRng.first_ok ∅ ∅ {[SockV4 1 1]} [] None
    (Some (SockV4 1 1))); [vm_compute; reflexivity|].
  intros Heq. apply (f_equal size) in Heq. vm_compute in Heq. discriminate.
Defined.

Section step.
Context `{ZstdOk, ShuffleOk, Rng}.

(** The events that the server can serve in this state. *)
Definition event_ok (c : Chitchat) (e : Event) (now : Instant) : Prop :=
  match e with
  | Received (Ok (_, m)) => incoming_ok m ∧ reply_room c m now
  | Received (Err _) => True
  | Received _ => False
  | _ => True
  end.
Lemma chitchat_gc_inv c now : chitchat_inv c → chitchat_inv (chitchat_gc c now).
Proof. intros Hc. apply set_cluster_state_inv; [done|]. apply cluster_gc_inv, Hc. Qed.
Lemma gossip_multiple_inv c now : chitchat_inv c → chitchat_inv (gossip_multiple c now).1.
Proof.
  intros Hc. unfold gossip_multiple.
  destruct (select_nodes_for_gossip _ _ _ _) as [[selected dn] sn]. simpl.
  apply update_nodes_liveness_ok, chitchat_gc_inv, update_self_heartbeat_inv, Hc.
Qed.
Lemma server_step_ok c e now : chitchat_inv c → max_datagram_payload_size c ≤ u16_max →
  event_ok c e now →
  ∃ c' out flow, server_step c e now = Ok (c', out, flow) ∧ chitchat_inv c' ∧
    (match e with Tick | Received (Ok _) | Commanded (Some (Gossip _)) | SeedsRefreshed _ => flow = Continue
     | _ => ∃ r, flow = Stop r end).
Proof.
  intros Hc Hmax He. destruct e as [[[from m]|msg|msg|]| |[[addr|]|]|seeds]; simpl in He; try done.
  - destruct He as [Hm Hroom].
    destruct (process_message_ok c m now Hc Hm Hmax Hroom) as (c' & reply & eff & Hp & Hc' & _).
    cbn [server_step]. unfold handle_message. rewrite Hp. cbn [rbind]. eauto 10.
  - simpl. eauto 10.
  - cbn [server_step]. pose proof (gossip_multiple_inv c now Hc) as Hg.
    destruct (gossip_multiple c now) as [c' out]. eauto 10.
  - simpl. eauto 10.
  - simpl. eauto 10.
  - simpl. eauto 10.
  - simpl. eexists _, _, _. split; [done|]. split; [|done].
    by apply set_cluster_state_inv; [|apply Hc].
Qed.
End step.

(** The event loop survives every event but the two that end it: it
    keeps the invariant of the engine, goes on after a served datagram, a tick
    or a gossip command, and stops on a broken socket, a shutdown or a closed
    command channel. *)
Theorem server_loop_step `{ZstdOk, ShuffleOk, Rng} c e now :
  chitchat_inv c → max_datagram_payload_size c ≤ u16_max → event_ok c e now →
  ∃ c' out flow, server_step c e now = Ok (c', out, flow) ∧ chitchat_inv c' ∧
    (match e with Tick | Received (Ok _) | Commanded (Some (Gossip _)) | SeedsRefreshed _ => flow = Continue
     | _ => ∃ r, flow = Stop r end).
Proof. apply server_step_ok. Qed.
Lemma server_loop_step_witness :
  ∃ c' out flow, @server_step RawZstd.raw Overflow.keep_order FirstRng.first
    Overflow.engine Tick 5 = Ok (c', out, flow) ∧ chitchat_inv c' ∧ flow = Continue.
Proof.
  apply (@server_loop_step RawZstd.raw RawZstd.raw_ok Overflow.keep_order
    (λ A n l, Permutation_refl l) FirstRng.first Overflow.engine Tick 5 engine_inv).
  - vm_compute. discriminate.
  - exact I.
Defined.

Section seed_property.
Context `{Resolver}.

(** The addresses the configured seeds stand for at a time. *)
Definition seed_addrs_at (seeds : list string) (now : Instant) (a : SocketAddr) : Prop :=
  (∃ s, s ∈ seeds ∧ parse_addr s = Some a) ∨
  ∃ host l, host ∈ seeds ∧ parse_addr host = None ∧ lookup_host now host = Some l ∧ a ∈ l.

(** The seed set is at start, and after every turn of the refresh task,
    exactly the literal addresses of the configuration and the current answers
    of the resolver for its host names: a host whose lookup fails loses the
    addresses of earlier turns, and the task runs if there is a host name. *)
Theorem seed_set_exact seeds now :
  let '(initial, refresh) := spawn_dns_refresh_loop seeds now in
  (∀ a, a ∈ initial ↔ seed_addrs_at seeds now a) ∧
  match refresh with
  | None => Forall (λ s, is_Some (parse_addr s)) seeds
  | Some (hosts, addrs) => Exists (λ s, parse_addr s = None) seeds ∧
      ∀ later a, a ∈ dns_refresh hosts addrs later ↔ seed_addrs_at seeds later a
  end.
Proof.
  unfold spawn_dns_refresh_loop.
  destruct (sort_seeds now seeds (∅, ∅, ∅)) as [[addrs first] hosts] eqn:E.
  apply sort_seeds_spec in E as (Ha & Hh & Hf).
  assert (∀ later a, a ∈ addrs ∨ resolved later hosts a ↔ seed_addrs_at seeds later a) as Hat.
  { intros later a. unfold resolved, seed_addrs_at. rewrite Ha. setoid_rewrite Hh. set_solver. }
  split.
  - intros a. rewrite elem_of_union, Hf; [apply Hat|]. unfold resolved. set_solver.
  - case_bool_decide as Hempty.
    + apply Forall_forall. intros s Hs. destruct (parse_addr s) eqn:Es; [by eexists|]. set_solver.
    + split; [|intros later a; rewrite elem_of_dns_refresh; apply Hat].
      apply set_choose_L in Hempty as [h Hin]. apply Exists_exists. exists h. set_solver.
Qed.
End seed_property.
