(* ===== verification/Queue.v ===== *)
(** * Bounded message queues

    The transports hand messages over in the bounded channels of [tokio] and
    [async_channel], which are third-party code: [Queues] states what is used
    of them, and the theorems of the transports are proved against it.
    [ListQueue] is a concrete queue for the examples. *)
From S2P Require Import Prelude.

Class Queues : Type := {
  Queue : Type → Type;
  q_bounded {A} : nat → Queue A;
  (** the queued messages, oldest first, and the bound *)
  q_items {A} : Queue A → list A;
  q_capacity {A} : Queue A → nat;
  (** [try_send]: [None] when the queue is full *)
  q_try_send {A} : Queue A → A → option (Queue A);
  (** [force_send]: a full queue gives up one of its messages *)
  q_force_send {A} : Queue A → A → Queue A * option A;
  (** [recv]: [None] when there is nothing to receive *)
  q_recv {A} : Queue A → option (A * Queue A);
}.
Class QueuesOk `{Queues} : Prop := {
  q_bounded_items {A} n : q_items (q_bounded (A:=A) n) = [];
  q_bounded_capacity {A} n : q_capacity (q_bounded (A:=A) n) = n;
  q_try_send_room {A} (q : Queue A) x : (length (q_items q) < q_capacity q)%nat →
    ∃ q', q_try_send q x = Some q' ∧ q_items q' = q_items q ++ [x] ∧ q_capacity q' = q_capacity q;
  q_try_send_full {A} (q : Queue A) x : (q_capacity q ≤ length (q_items q))%nat →
    q_try_send q x = None;
  q_force_send_room {A} (q : Queue A) x : (length (q_items q) < q_capacity q)%nat →
    ∃ q', q_force_send q x = (q', None) ∧ q_items q' = q_items q ++ [x] ∧
      q_capacity q' = q_capacity q;
  q_force_send_full {A} (q : Queue A) x :
    (0 < q_capacity q)%nat → (q_capacity q ≤ length (q_items q))%nat →
    ∃ q' l1 y l2, q_force_send q x = (q', Some y) ∧ q_items q = l1 ++ y :: l2 ∧
      q_items q' = l1 ++ l2 ++ [x] ∧ q_capacity q' = q_capacity q;
  q_recv_items {A} (q : Queue A) :
    match q_items q with
    | [] => q_recv q = None
    | x :: l => ∃ q', q_recv q = Some (x, q') ∧ q_items q' = l ∧ q_capacity q' = q_capacity q
    end;
}.

(** A queue as a list with its bound. *)
Module ListQueue.
#[export] Instance list_queue : Queues := {|
  Queue A := (nat * list A)%type;
  q_bounded A n := (n, []);
  q_items A q := q.2;
  q_capacity A q := q.1;
  q_try_send A q x := if bool_decide (length q.2 < q.1) then Some (q.1, q.2 ++ [x]) else None;
  q_force_send A q x :=
    if bool_decide (length q.2 < q.1) then ((q.1, q.2 ++ [x]), None)
    else match q.2 with
         | [] => (q, Some x)
         | y :: l => ((q.1, l ++ [x]), Some y)
         end;
  q_recv A q := match q.2 with [] => None | x :: l => Some (x, (q.1, l)) end;
|}.
#[export] Instance list_queue_ok : QueuesOk.
Proof.
  split; try done.
  - intros A [n l] x Hl. simpl in *. rewrite bool_decide_eq_true_2 by done. eauto.
  - intros A [n l] x Hl. simpl in *. by rewrite bool_decide_eq_false_2 by lia.
  - intros A [n l] x Hl. simpl in *. rewrite bool_decide_eq_true_2 by done. eauto.
  - intros A [n [|y l]] x Hn Hl; simpl in *; [lia|]. rewrite bool_decide_eq_false_2 by lia.
    by exists (n, l ++ [x]), [], y, l.
  - intros A [n [|x l]]; simpl; eauto.
Qed.
End ListQueue.

Section queue_lemmas.
Context `{QueuesOk}.

Lemma q_recv_Some {A} (q q' : Queue A) x : q_recv q = Some (x, q') →
  q_items q = x :: q_items q' ∧ q_capacity q' = q_capacity q.
Proof.
  intros Hq. pose proof (q_recv_items q) as Hr. destruct (q_items q) as [|y l]; [congruence|].
  destruct Hr as (q2 & Hr & <- & <-). rewrite Hq in Hr. by injection Hr as <- <-.
Qed.
Lemma q_recv_None {A} (q : Queue A) : q_recv q = None → q_items q = [].
Proof.
  intros Hq. pose proof (q_recv_items q) as Hr. destruct (q_items q); [done|].
  destruct Hr as (q2 & Hr & _). congruence.
Qed.
Lemma q_try_send_Some {A} (q q' : Queue A) x : q_try_send q x = Some q' →
  q_items q' = q_items q ++ [x] ∧ q_capacity q' = q_capacity q ∧
  (length (q_items q) < q_capacity q)%nat.
Proof.
  intros Hq. destruct (decide (length (q_items q) < q_capacity q)%nat) as [Hl|Hl].
  - destruct (q_try_send_room q x Hl) as (q2 & Hs & Hi & Hc). rewrite Hq in Hs.
    by injection Hs as <-.
  - rewrite q_try_send_full in Hq by lia. done.
Qed.
(** The newest message is always queued, and the bound is kept. *)
Lemma q_force_send_spec {A} (q : Queue A) x : (0 < q_capacity q)%nat →
  (length (q_items q) ≤ q_capacity q)%nat →
  let '(q', old) := q_force_send q x in
  q_capacity q' = q_capacity q ∧ (length (q_items q') ≤ q_capacity q)%nat ∧
  last (q_items q') = Some x ∧ q_items q' ++ option_list old ≡ₚ q_items q ++ [x].
Proof.
  intros Hc Hl. destruct (decide (length (q_items q) < q_capacity q)%nat) as [Hr|Hr].
  - destruct (q_force_send_room q x Hr) as (q' & -> & -> & Hc'). simpl.
    rewrite last_snoc, app_nil_r, length_app. simpl. split_and!; try done; lia.
  - destruct (q_force_send_full q x) as (q' & l1 & y & l2 & -> & Hi & -> & Hc'); [done|lia|].
    rewrite Hi in *. simpl. rewrite (assoc_L (++)), last_snoc. split_and!; try done.
    + rewrite !length_app in *. simpl in *. lia.
    + rewrite <-!(assoc_L (++)). simpl. f_equiv. rewrite (Permutation_app_comm l2).
      simpl. rewrite <-Permutation_cons_append. solve_Permutation.
Qed.
(** Receiving until the queue is empty gives its messages in order. *)
Fixpoint q_drain {A} (fuel : nat) (q : Queue A) : list A :=
  match fuel with
  | O => []
  | S fuel => match q_recv q with Some (x, q) => x :: q_drain fuel q | None => [] end
  end.
Lemma q_drain_items {A} fuel (q : Queue A) : (length (q_items q) ≤ fuel)%nat →
  q_drain fuel q = q_items q.
Proof.
  revert q. induction fuel as [|fuel IH]; intros q Hf; simpl.
  - destruct (q_items q); [done|simpl in Hf; lia].
  - destruct (q_recv q) as [[x q']|] eqn:E.
    + apply q_recv_Some in E as [Hi _]. rewrite Hi in *. simpl in Hf. f_equal. apply IH. lia.
    + by rewrite (q_recv_None q E).
Qed.
End queue_lemmas.
