(* ===== verification/Channel.v ===== *)
(** * The in-process transport (chitchat/src/transport/channel.rs)

    [ChannelTransport] is a broker shared by its sockets; it counts the
    traffic, drops messages on removed links and delivers the others through
    one bounded channel per open address.  The sender of a channel is in the
    broker and its receiver in the socket, so the model keeps the channels in
    a store that both refer to. *)
From S2P Require Import Prelude Types Serialize Stream Listener Delta Message Queue.
Open Scope N_scope.

Definition MAX_MESSAGE_PER_CHANNEL : nat := 100.
Definition MAX_UDP_DATAGRAM_PAYLOAD_SIZE : N := 65507.

#[export] Instance NodeDelta_eq_dec : EqDecision NodeDelta.
Proof. solve_decision. Defined.
#[export] Instance Delta_eq_dec : EqDecision Delta.
Proof. solve_decision. Defined.
#[export] Instance ChitchatMessage_eq_dec : EqDecision ChitchatMessage.
Proof. solve_decision. Defined.

(** Traffic counters, of type [u64]. *)
Record Statistics : Type := mkStatistics {
  num_bytes_total : N;
  num_messages_total : N;
}.
Definition record_message_len (s : Statistics) (message_num_bytes : N) : Statistics :=
  mkStatistics (wrap64 (num_bytes_total s + message_num_bytes))
    (wrap64 (num_messages_total s + 1)).

Abbreviation Envelope := (SocketAddr * ChitchatMessage)%type.

Section broker.
Context `{Zstd, Queues}.

(** The broker with the store of the channels; [next_channel] names the
    channel of the next socket. *)
Record ChannelTransport : Type := mkChannelTransport {
  send_channels : gmap SocketAddr nat;
  statistics : Statistics;
  removed_links : gmap SocketAddr (gset SocketAddr);
  mtu_opt : option N;
  channels : gmap nat (Queue Envelope);
  next_channel : nat;
}.
Record InProcessSocket : Type := mkSocket {
  is_listen_addr : SocketAddr;
  is_message_rx : nat;
}.
Definition set_channels (qs : gmap nat (Queue Envelope)) (t : ChannelTransport) : ChannelTransport :=
  mkChannelTransport (send_channels t) (statistics t) (removed_links t) (mtu_opt t) qs
    (next_channel t).
Definition set_links (l : gmap SocketAddr (gset SocketAddr)) (t : ChannelTransport)
    : ChannelTransport :=
  mkChannelTransport (send_channels t) (statistics t) l (mtu_opt t) (channels t) (next_channel t).
Definition set_statistics (s : Statistics) (t : ChannelTransport) : ChannelTransport :=
  mkChannelTransport (send_channels t) s (removed_links t) (mtu_opt t) (channels t)
    (next_channel t).

(** [ChannelTransport::with_mtu] *)
Definition with_mtu_transport (mtu : N) : ChannelTransport :=
  mkChannelTransport ∅ (mkStatistics 0 0) ∅ (Some mtu) ∅ 0.
Definition ct_max_datagram_payload_size (t : ChannelTransport) : N :=
  default MAX_UDP_DATAGRAM_PAYLOAD_SIZE (mtu_opt t).
Definition ct_open (t : ChannelTransport) (listen_addr : SocketAddr)
    : res (ChannelTransport * InProcessSocket) :=
  match send_channels t !! listen_addr with
  | Some _ => Err "Address not available"
  | None =>
      let n := next_channel t in
      Ok (mkChannelTransport (<[listen_addr := n]> (send_channels t)) (statistics t)
            (removed_links t) (mtu_opt t)
            (<[n := q_bounded MAX_MESSAGE_PER_CHANNEL]> (channels t)) (S n),
          mkSocket listen_addr n)
  end.

Definition serialize_deserialize_chitchat_message (message : ChitchatMessage)
    : res ChitchatMessage :=
  let* buf := message_serialize message in
  do* rassert "assertion `left == right` failed" (blen buf =? message_serialized_len message) in
  match message_deserialize buf with
  | Ok (message_ser_deser, read_cursor) =>
      do* rassert "assertion `left == right` failed" (bool_decide (message = message_ser_deser)) in
      do* rassert "read_cursor.is_empty()" (bool_decide (read_cursor = [])) in
      Ok message
  | Err e | Panic e => Panic e
  | OutOfFuel => OutOfFuel
  end.

Definition add_link (t : ChannelTransport) (from_addr to_addr : SocketAddr) : ChannelTransport :=
  let links := alter (λ s, s ∖ {[to_addr]}) from_addr (removed_links t) in
  set_links (alter (λ s, s ∖ {[from_addr]}) to_addr links) t.
(** [entry(a).or_default()] followed by [insert]. *)
Definition insert_link (a b : SocketAddr) (links : gmap SocketAddr (gset SocketAddr)) :=
  <[a := {[b]} ∪ default ∅ (links !! a)]> links.
Definition remove_link (t : ChannelTransport) (from_addr to_addr : SocketAddr) : ChannelTransport :=
  set_links (insert_link to_addr from_addr (insert_link from_addr to_addr (removed_links t))) t.
Definition link_removed (t : ChannelTransport) (from_addr to_addr : SocketAddr) : bool :=
  match removed_links t !! from_addr with
  | Some to_addrs => bool_decide (to_addr ∈ to_addrs)
  | None => false
  end.

Definition ct_send (t : ChannelTransport) (from_addr to_addr : SocketAddr)
    (message : ChitchatMessage) : res ChannelTransport :=
  let* message := serialize_deserialize_chitchat_message message in
  let num_bytes := message_serialized_len message in
  do* ensure "Serialized message size exceeds MTU"
    (match mtu_opt t with Some mtu => num_bytes <=? mtu | None => true end) in
  let t := set_statistics (record_message_len (statistics t) num_bytes) t in
  if link_removed t from_addr to_addr then Ok t
  else
    match send_channels t !! to_addr with
    | None => Ok t
    | Some n =>
        Ok (match channels t !! n ≫= λ q, q_try_send q (from_addr, message) with
            | Some q => set_channels (<[n := q]> (channels t)) t
            | None => t
            end)
    end.
Definition ct_close (t : ChannelTransport) (addr : SocketAddr) : ChannelTransport :=
  mkChannelTransport (delete addr (send_channels t)) (statistics t) (removed_links t) (mtu_opt t)
    (channels t) (next_channel t).

Definition socket_send (t : ChannelTransport) (s : InProcessSocket) (to_addr : SocketAddr)
    (message : ChitchatMessage) : res ChannelTransport :=
  ct_send t (is_listen_addr s) to_addr message.
(** [None] while there is nothing to receive and the sender lives. *)
Definition socket_recv (t : ChannelTransport) (s : InProcessSocket)
    : option (res Envelope * ChannelTransport) :=
  match channels t !! is_message_rx s ≫= q_recv with
  | Some (m, q) => Some (Ok m, set_channels (<[is_message_rx s := q]> (channels t)) t)
  | None =>
      if bool_decide (send_channels t !! is_listen_addr s = Some (is_message_rx s)) then None
      else Some (Err "Channel closed", t)
  end.
(** [Drop]: the address is released, and the receiver goes with the socket. *)
Definition socket_drop (t : ChannelTransport) (s : InProcessSocket) : ChannelTransport :=
  let t := ct_close t (is_listen_addr s) in
  set_channels (delete (is_message_rx s) (channels t)) t.
End broker.

(** ** Links *)
Section links.
Context `{Queues}.

Lemma link_removed_true t a b :
  link_removed t a b = true ↔ ∃ s, removed_links t !! a = Some s ∧ b ∈ s.
Proof.
  unfold link_removed. destruct (removed_links t !! a) as [s|]; [|naive_solver].
  rewrite bool_decide_eq_true. naive_solver.
Qed.
Lemma elem_of_insert_link a b links x y s :
  (insert_link a b links !! x = Some s ∧ y ∈ s) → (x = a ∧ y = b) ∨ ∃ s', links !! x = Some s' ∧ y ∈ s'.
Proof.
  unfold insert_link. intros [Hl Hy]. destruct (decide (x = a)) as [->|Hne].
  - rewrite lookup_insert_eq in Hl. injection Hl as <-. apply elem_of_union in Hy as [Hy|Hy].
    + left. set_solver.
    + destruct (links !! a) as [s'|] eqn:E; simpl in Hy; [|set_solver]. right. eauto.
  - rewrite lookup_insert_ne in Hl by done. right. eauto.
Qed.
Lemma insert_link_mono a b links x y :
  ((x = a ∧ y = b) ∨ ∃ s, links !! x = Some s ∧ y ∈ s) →
  ∃ s, insert_link a b links !! x = Some s ∧ y ∈ s.
Proof.
  unfold insert_link. intros Hx. destruct (decide (x = a)) as [->|Hne].
  - rewrite lookup_insert_eq. eexists. split; [done|].
    destruct Hx as [[_ ->]|(s & -> & Hy)]; simpl; set_solver.
  - rewrite lookup_insert_ne by done. destruct Hx as [[-> _]|Hx]; [done|]. done.
Qed.
Lemma insert_link_spec a b links x y :
  (∃ s, insert_link a b links !! x = Some s ∧ y ∈ s) ↔
  (x = a ∧ y = b) ∨ ∃ s, links !! x = Some s ∧ y ∈ s.
Proof. split; [intros [s Hs]; by eapply elem_of_insert_link|apply insert_link_mono]. Qed.
Lemma remove_link_spec t a b x y :
  link_removed (remove_link t a b) x y = true ↔
  (x = a ∧ y = b) ∨ (x = b ∧ y = a) ∨ link_removed t x y = true.
Proof. rewrite !link_removed_true. simpl. rewrite !insert_link_spec. naive_solver. Qed.
Lemma drop_link_spec a b (links : gmap SocketAddr (gset SocketAddr)) x y :
  (∃ s, alter (λ s : gset SocketAddr, s ∖ {[b]}) a links !! x = Some s ∧ y ∈ s) ↔
  (∃ s, links !! x = Some s ∧ y ∈ s) ∧ ¬ (x = a ∧ y = b).
Proof.
  destruct (decide (x = a)) as [->|Hne].
  - rewrite lookup_alter_eq. destruct (links !! a) as [s|]; simpl; [|naive_solver].
    split; [intros (? & [= <-] & Hy); set_solver|].
    intros [(s' & [= <-] & Hy) Hn]. eexists. split; [done|]. set_solver.
  - rewrite lookup_alter_ne by done. naive_solver.
Qed.
Lemma add_link_spec t a b x y :
  link_removed (add_link t a b) x y = true ↔
  link_removed t x y = true ∧ ¬ (x = a ∧ y = b) ∧ ¬ (x = b ∧ y = a).
Proof. rewrite !link_removed_true. simpl. rewrite !drop_link_spec. naive_solver. Qed.
End links.

(** ** The invariant of the broker *)
Section invariant.
Context `{Zstd, QueuesOk}.

(** Every open address has a channel of its own, links are removed in both
    directions, and no channel exceeds its bound. *)
Record broker_inv (t : ChannelTransport) : Prop := {
  bi_channels : map_Forall (λ _ n, is_Some (channels t !! n)) (send_channels t);
  bi_distinct : ∀ a b n, send_channels t !! a = Some n → send_channels t !! b = Some n → a = b;
  bi_next : map_Forall (λ n _, (n < next_channel t)%nat) (channels t);
  bi_bounds : map_Forall (λ _ q, q_capacity q = MAX_MESSAGE_PER_CHANNEL ∧
    (length (q_items q) ≤ MAX_MESSAGE_PER_CHANNEL)%nat) (channels t);
  bi_links : ∀ a b, link_removed t a b = link_removed t b a;
}.

Lemma broker_inv_new mtu : broker_inv (with_mtu_transport mtu).
Proof. split; simpl; try apply map_Forall_empty; [|done]. intros a b n. by rewrite lookup_empty. Qed.

(** The messages waiting in a channel, and whether a message from one address
    to another is put in it. *)
Definition inbox (t : ChannelTransport) (n : nat) : list Envelope :=
  match channels t !! n with Some q => q_items q | None => [] end.
Definition delivers (t : ChannelTransport) (from_addr to_addr : SocketAddr) (n : nat) : bool :=
  negb (link_removed t from_addr to_addr) &&
  bool_decide (send_channels t !! to_addr = Some n) &&
  bool_decide (length (inbox t n) < MAX_MESSAGE_PER_CHANNEL)%nat.
Definition within_mtu (t : ChannelTransport) (num_bytes : N) : bool :=
  match mtu_opt t with Some mtu => num_bytes <=? mtu | None => true end.

(** What a step on the channels leaves alone. *)
Record same_routes (t t' : ChannelTransport) : Prop := {
  sr_senders : send_channels t' = send_channels t;
  sr_links : removed_links t' = removed_links t;
  sr_mtu : mtu_opt t' = mtu_opt t;
  sr_next : next_channel t' = next_channel t;
}.
Lemma put_channel_inv t n q q' : broker_inv t → channels t !! n = Some q →
  q_capacity q' = q_capacity q → (length (q_items q') ≤ MAX_MESSAGE_PER_CHANNEL)%nat →
  broker_inv (set_channels (<[n := q']> (channels t)) t).
Proof.
  intros [Hs Hd Hn Hb Hk] Hq Hc Hl. split; simpl; try done.
  - intros a k Ha. apply lookup_insert_is_Some'. right. by apply (Hs a).
  - apply map_Forall_insert_2; [|done]. by apply (Hn n q).
  - apply map_Forall_insert_2; [|done]. split; [|done]. rewrite Hc. by apply (Hb n q).
Qed.
Lemma inbox_insert t n q k :
  inbox (set_channels (<[n := q]> (channels t)) t) k =
  if decide (k = n) then q_items q else inbox t k.
Proof.
  unfold inbox. simpl. case_decide as E; [subst; by rewrite lookup_insert_eq|].
  by rewrite lookup_insert_ne by done.
Qed.
Lemma serialize_deserialize_Ok m m' : serialize_deserialize_chitchat_message m = Ok m' → m' = m.
Proof.
  unfold serialize_deserialize_chitchat_message. intros (buf & _ & (u & _ & Hd)%rbind_Ok)%rbind_Ok.
  destruct (message_deserialize buf) as [[m2 rest]| | |]; try done.
  apply rbind_Ok in Hd as (? & _ & (? & _ & Hd)%rbind_Ok). by apply Ok_inj in Hd.
Qed.
Lemma ct_send_Ok t from to m t' : broker_inv t → ct_send t from to m = Ok t' →
  broker_inv t' ∧ same_routes t t' ∧
  statistics t' = record_message_len (statistics t) (message_serialized_len m) ∧
  within_mtu t (message_serialized_len m) = true ∧
  ∀ n, inbox t' n = inbox t n ++ (if delivers t from to n then [(from, m)] else []).
Proof.
  intros Ht. unfold ct_send.
  intros (m' & ->%serialize_deserialize_Ok & (u & Hm & Hs)%rbind_Ok)%rbind_Ok.
  apply ensure_Ok in Hm. fold (within_mtu t (message_serialized_len m)) in Hm.
  remember (set_statistics (record_message_len (statistics t) (message_serialized_len m)) t) as t1
    eqn:Et1.
  assert (broker_inv t1) as Ht1 by (subst t1; by destruct Ht).
  assert (∀ a b, link_removed t1 a b = link_removed t a b) as Hl by by subst t1.
  assert (∀ n, inbox t1 n = inbox t n) as Hi by by subst t1.
  assert (same_routes t t1 ∧ statistics t1 = record_message_len (statistics t) (message_serialized_len m))
    as [Hr Hst] by by subst t1.
  rewrite Hl in Hs. unfold delivers.
  destruct (link_removed t from to) eqn:El; simpl.
  { apply Ok_inj in Hs as <-. split_and!; try done. intros n. by rewrite Hi, app_nil_r. }
  rewrite <-(sr_senders _ _ Hr). destruct (send_channels t1 !! to) as [n|] eqn:En.
  2:{ apply Ok_inj in Hs as <-. split_and!; try done. intros n.
      rewrite bool_decide_eq_false_2 by done. simpl. by rewrite Hi, app_nil_r. }
  apply Ok_inj in Hs. destruct (bi_channels _ Ht1 _ _ En) as [q Hq]. rewrite Hq in Hs. simpl in Hs.
  destruct (bi_bounds _ Ht1 _ _ Hq) as [Hcap Hlen].
  assert (inbox t n = q_items q) as Hinbox by (rewrite <-Hi; unfold inbox; by rewrite Hq).
  destruct (q_try_send q (from, m)) as [q'|] eqn:Et; subst t'.
  - apply q_try_send_Some in Et as (Hq' & Hc' & Hroom). split_and!; try done.
    + apply (put_channel_inv t1 n q); try done. rewrite Hq', length_app. simpl. lia.
    + by destruct Hr.
    + intros k. rewrite inbox_insert, Hi. case_decide as Ek; [subst k|].
      * rewrite Hinbox, !bool_decide_eq_true_2 by (done || lia). done.
      * rewrite bool_decide_eq_false_2 by congruence. by rewrite app_nil_r.
  - assert (¬ (length (q_items q) < MAX_MESSAGE_PER_CHANNEL)%nat) as Hfull.
    { rewrite <-Hcap. intros Hroom. destruct (q_try_send_room q (from, m) Hroom) as (? & ? & _).
      congruence. }
    split_and!; try done. intros k. rewrite Hi. destruct (decide (k = n)) as [->|Hne].
    + rewrite Hinbox, (bool_decide_eq_false_2 (_ < _)%nat) by done.
      by rewrite andb_false_r, app_nil_r.
    + rewrite (bool_decide_eq_false_2 (Some n = Some k)) by congruence. by rewrite app_nil_r.
Qed.
End invariant.

Section operations.
Context `{ZstdOk, QueuesOk}.

Lemma ct_send_wf t from to m buf : wf_message m → message_serialize m = Ok buf →
  match ct_send t from to m with
  | Ok _ => within_mtu t (blen buf) = true
  | Err _ => within_mtu t (blen buf) = false
  | Panic _ | OutOfFuel => False
  end.
Proof.
  intros Hm Hb. unfold ct_send, serialize_deserialize_chitchat_message. rewrite Hb. cbn [rbind].
  pose proof (message_roundtrip m buf [] Hm Hb) as Hr. rewrite app_nil_r in Hr.
  rewrite <-(message_serialize_len _ _ Hb), N.eqb_refl. cbn [rassert rbind].
  rewrite Hr, bool_decide_eq_true_2 by done. cbn [rassert rbind].
  rewrite bool_decide_eq_true_2 by done. cbn [rassert rbind].
  rewrite <-(message_serialize_len _ _ Hb). fold (within_mtu t (blen buf)).
  destruct (within_mtu t (blen buf)) eqn:E; cbn [ensure rbind]; [|done].
  destruct (link_removed _ _ _); [done|]. by destruct (_ !! to).
Qed.

(** Links never change anything but [link_removed]. *)
Lemma set_links_inv t l : broker_inv t →
  (∀ a b, link_removed (set_links l t) a b = link_removed (set_links l t) b a) →
  broker_inv (set_links l t).
Proof. intros [] Hl. by split. Qed.
Lemma bool_eq_iff (a b : bool) : (a = true ↔ b = true) → a = b.
Proof. destruct a, b; intuition congruence. Qed.
Lemma remove_link_inv t a b : broker_inv t → broker_inv (remove_link t a b).
Proof.
  intros Ht. apply set_links_inv; [done|]. intros x y.
  apply bool_eq_iff. fold (remove_link t a b). rewrite !remove_link_spec, (bi_links _ Ht x y). naive_solver.
Qed.
Lemma add_link_inv t a b : broker_inv t → broker_inv (add_link t a b).
Proof.
  intros Ht. apply set_links_inv; [done|]. intros x y.
  apply bool_eq_iff. fold (add_link t a b). rewrite !add_link_spec, (bi_links _ Ht x y). naive_solver.
Qed.

Lemma ct_open_Ok t addr t' s : broker_inv t → ct_open t addr = Ok (t', s) →
  broker_inv t' ∧ s = mkSocket addr (next_channel t) ∧ send_channels t !! addr = None ∧
  send_channels t' = <[addr := next_channel t]> (send_channels t) ∧
  channels t !! next_channel t = None ∧
  ∀ n, inbox t' n = inbox t n.
Proof.
  intros Ht. unfold ct_open. destruct (send_channels t !! addr) eqn:E; [done|].
  intros [= <- <-].
  assert (channels t !! next_channel t = None) as Hn.
  { destruct (channels t !! next_channel t) as [q|] eqn:Eq; [|done].
    pose proof (bi_next _ Ht _ _ Eq). simpl in *. lia. }
  split_and!; try done.
  - destruct Ht as [Hs Hd Hnx Hb Hk]. split; simpl; try done.
    + apply map_Forall_insert_2; [by rewrite lookup_insert_eq|]. intros a n Ha.
      apply lookup_insert_is_Some'. right. by apply (Hs a).
    + assert (∀ a, send_channels t !! a ≠ Some (next_channel t)) as Hfresh.
      { intros a [q Hq]%Hs. congruence. }
      intros a b n [[<- <-]|[Ha1 Ha2]]%lookup_insert_Some [[<- ?]|[Hb1 Hb2]]%lookup_insert_Some;
        try done; [by destruct (Hfresh b)|subst; by destruct (Hfresh a)|by apply (Hd a b n)].
    + apply map_Forall_insert_2; [lia|]. intros n q Hq. pose proof (Hnx _ _ Hq). simpl in *. lia.
    + apply map_Forall_insert_2; [|done]. rewrite q_bounded_items, q_bounded_capacity.
      split; [done|simpl; lia].
  - intros n. unfold inbox. simpl. destruct (decide (n = next_channel t)) as [->|Hne].
    + rewrite lookup_insert_eq, Hn. apply q_bounded_items.
    + by rewrite lookup_insert_ne by done.
Qed.
Lemma socket_drop_inv t s : broker_inv t →
  send_channels t !! is_listen_addr s = Some (is_message_rx s) → broker_inv (socket_drop t s).
Proof.
  intros [Hs Hd Hn Hb Hk] Hopen. split; simpl; try done.
  - intros a n [Hne Ha]%lookup_delete_Some. apply lookup_delete_is_Some.
    split; [|by apply (Hs a)]. intros <-. destruct Hne. by eapply Hd.
  - intros a b n [? ?]%lookup_delete_Some [? ?]%lookup_delete_Some. by eapply Hd.
  - by apply map_Forall_delete.
  - by apply map_Forall_delete.
Qed.
Lemma socket_recv_Ok t s e t' : broker_inv t → socket_recv t s = Some (Ok e, t') →
  broker_inv t' ∧ same_routes t t' ∧ inbox t (is_message_rx s) = e :: inbox t' (is_message_rx s) ∧
  ∀ n, n ≠ is_message_rx s → inbox t' n = inbox t n.
Proof.
  intros Ht. unfold socket_recv. destruct (channels t !! is_message_rx s) as [q|] eqn:Eq; simpl.
  2:{ by case_bool_decide. }
  destruct (q_recv q) as [[x q']|] eqn:E; [|by case_bool_decide].
  intros [= -> <-]. apply q_recv_Some in E as [Hi Hc].
  destruct (bi_bounds _ Ht _ _ Eq) as [_ Hlen]. rewrite Hi in Hlen. simpl in Hlen. split_and!.
  - apply (put_channel_inv t _ q); try done. lia.
  - by split.
  - rewrite inbox_insert, decide_True by done. unfold inbox. by rewrite Eq, Hi.
  - intros n Hn. by rewrite inbox_insert, decide_False.
Qed.
Lemma socket_recv_open t s : broker_inv t →
  send_channels t !! is_listen_addr s = Some (is_message_rx s) →
  match socket_recv t s with
  | Some (Ok e, _) => head (inbox t (is_message_rx s)) = Some e
  | Some _ => False
  | None => inbox t (is_message_rx s) = []
  end.
Proof.
  intros Ht Hs. unfold socket_recv, inbox. rewrite bool_decide_eq_true_2 by done.
  destruct (bi_channels _ Ht _ _ Hs) as [q Hq]. rewrite Hq. simpl.
  destruct (q_recv q) as [[x q']|] eqn:E.
  - by apply q_recv_Some in E as [-> _].
  - by apply q_recv_None.
Qed.
End operations.

(** ** Runs of the broker

    A world is the broker, its open sockets, and two logs per channel that
    the code does not keep: the messages put in it and those received. *)
Section runs.
Context `{ZstdOk, QueuesOk}.

Record World : Type := mkWorld {
  w_broker : ChannelTransport;
  w_sockets : list InProcessSocket;
  w_accepted : nat → list Envelope;
  w_received : nat → list Envelope;
}.
Definition log (n : nat) (l : list Envelope) (f : nat → list Envelope) : nat → list Envelope :=
  λ k, if decide (k = n) then f k ++ l else f k.
Definition log_delivery (t : ChannelTransport) (from to : SocketAddr) (m : ChitchatMessage)
    (f : nat → list Envelope) : nat → list Envelope :=
  λ n, f n ++ (if delivers t from to n then [(from, m)] else []).

Inductive broker_step : World → World → Prop :=
  | step_open t ss acc rcv addr t' s :
      ct_open t addr = Ok (t', s) →
      broker_step (mkWorld t ss acc rcv) (mkWorld t' (s :: ss) acc rcv)
  | step_send t ss acc rcv s to m t' :
      s ∈ ss → socket_send t s to m = Ok t' →
      broker_step (mkWorld t ss acc rcv)
        (mkWorld t' ss (log_delivery t (is_listen_addr s) to m acc) rcv)
  | step_recv t ss acc rcv s e t' :
      s ∈ ss → socket_recv t s = Some (Ok e, t') →
      broker_step (mkWorld t ss acc rcv) (mkWorld t' ss acc (log (is_message_rx s) [e] rcv))
  | step_drop t ss1 ss2 acc rcv s :
      broker_step (mkWorld t (ss1 ++ s :: ss2) acc rcv)
        (mkWorld (socket_drop t s) (ss1 ++ ss2) acc rcv)
  | step_add_link t ss acc rcv a b :
      broker_step (mkWorld t ss acc rcv) (mkWorld (add_link t a b) ss acc rcv)
  | step_remove_link t ss acc rcv a b :
      broker_step (mkWorld t ss acc rcv) (mkWorld (remove_link t a b) ss acc rcv).

Definition empty_world (mtu : N) : World :=
  mkWorld (with_mtu_transport mtu) [] (λ _, []) (λ _, []).

(** The logs agree with the channels; fresh channels have empty logs. *)
Record world_inv (w : World) : Prop := {
  wi_broker : broker_inv (w_broker w);
  wi_open : Forall (λ s, send_channels (w_broker w) !! is_listen_addr s = Some (is_message_rx s))
              (w_sockets w);
  wi_distinct : NoDup (is_listen_addr <$> w_sockets w);
  wi_logs : Forall (λ s, w_accepted w (is_message_rx s) =
              w_received w (is_message_rx s) ++ inbox (w_broker w) (is_message_rx s)) (w_sockets w);
  wi_fresh : ∀ n, (next_channel (w_broker w) ≤ n)%nat → w_accepted w n = [] ∧ w_received w n = [];
}.

Lemma world_inv_empty mtu : world_inv (empty_world mtu).
Proof. split; simpl; [apply broker_inv_new|constructor..|done]. Qed.
Lemma fresh_inbox t n : broker_inv t → (next_channel t ≤ n)%nat → inbox t n = [].
Proof.
  intros Ht Hn. unfold inbox. destruct (channels t !! n) as [q|] eqn:E; [|done].
  pose proof (bi_next _ Ht _ _ E). simpl in *. lia.
Qed.
Lemma open_rx_old w s : world_inv w → s ∈ w_sockets w →
  (is_message_rx s < next_channel (w_broker w))%nat.
Proof.
  intros Hw Hs. pose proof (wi_open _ Hw) as Ho. rewrite Forall_forall in Ho.
  destruct (bi_channels _ (wi_broker _ Hw) _ _ (Ho _ Hs)) as [q Hq].
  by apply (bi_next _ (wi_broker _ Hw)) in Hq.
Qed.
(** The open sockets have distinct channels. *)
Lemma open_rx_distinct w s s' : world_inv w → s ∈ w_sockets w → s' ∈ w_sockets w →
  is_message_rx s = is_message_rx s' → is_listen_addr s = is_listen_addr s'.
Proof.
  intros Hw Hs Hs' Hrx. pose proof (wi_open _ Hw) as Ho. rewrite Forall_forall in Ho.
  eapply (bi_distinct _ (wi_broker _ Hw)); [by apply Ho|]. rewrite Hrx. by apply Ho.
Qed.

Lemma step_open_inv t ss acc rcv addr t' s : world_inv (mkWorld t ss acc rcv) →
  ct_open t addr = Ok (t', s) → world_inv (mkWorld t' (s :: ss) acc rcv).
Proof.
  intros Hw Ho. pose proof (wi_broker _ Hw) as Ht. simpl in Ht.
  destruct (ct_open_Ok _ _ _ _ Ht Ho) as (Ht' & -> & Hnone & Hs & _ & Hi).
  assert (next_channel t' = S (next_channel t)) as Hnext.
  { unfold ct_open in Ho. rewrite Hnone in Ho. by injection Ho as <-. }
  split; simpl; [done| | | |].
  - constructor; [by rewrite Hs, lookup_insert_eq|].
    eapply Forall_impl; [apply (wi_open _ Hw)|]. simpl. intros s' Hs'.
    rewrite Hs, lookup_insert_ne; congruence.
  - constructor; [|apply (wi_distinct _ Hw)]. intros (s' & Heq & Hin)%list_elem_of_fmap.
    pose proof (wi_open _ Hw) as Hop. rewrite Forall_forall in Hop. specialize (Hop _ Hin).
    simpl in *. congruence.
  - constructor; simpl.
    + rewrite Hi, (fresh_inbox t) by (done || lia).
      destruct (wi_fresh _ Hw (next_channel t)) as [Ha Hb]; [simpl; lia|].
      simpl in Ha, Hb. by rewrite Ha, Hb.
    + eapply Forall_impl; [apply (wi_logs _ Hw)|]. simpl. intros s' ->. by rewrite Hi.
  - intros n Hn. apply (wi_fresh _ Hw). simpl. lia.
Qed.
Lemma step_send_inv t ss acc rcv s to m t' : world_inv (mkWorld t ss acc rcv) →
  socket_send t s to m = Ok t' →
  world_inv (mkWorld t' ss (log_delivery t (is_listen_addr s) to m acc) rcv).
Proof.
  intros Hw Hs. pose proof (wi_broker _ Hw) as Ht. simpl in Ht.
  destruct (ct_send_Ok _ _ _ _ _ Ht Hs) as (Ht' & Hr & _ & _ & Hi). split; simpl.
  - done.
  - rewrite (sr_senders _ _ Hr). apply (wi_open _ Hw).
  - apply (wi_distinct _ Hw).
  - eapply Forall_impl; [apply (wi_logs _ Hw)|]. simpl. intros s' Hs'.
    unfold log_delivery. by rewrite Hs', Hi, (assoc_L (++)).
  - intros n Hn. rewrite (sr_next _ _ Hr) in Hn. destruct (wi_fresh _ Hw n Hn) as [Ha Hrc].
    simpl in *. split; [|done]. unfold log_delivery. rewrite Ha. unfold delivers.
    rewrite (bool_decide_eq_false_2 (send_channels t !! to = Some n)); [by rewrite andb_false_r|].
    intros [q Hq]%(bi_channels _ Ht). pose proof (bi_next _ Ht _ _ Hq). simpl in *. lia.
Qed.
Lemma step_recv_inv t ss acc rcv s e t' : world_inv (mkWorld t ss acc rcv) →
  s ∈ ss → socket_recv t s = Some (Ok e, t') →
  world_inv (mkWorld t' ss acc (log (is_message_rx s) [e] rcv)).
Proof.
  intros Hw Hin Hs. pose proof (wi_broker _ Hw) as Ht. simpl in Ht.
  destruct (socket_recv_Ok _ _ _ _ Ht Hs) as (Ht' & Hr & Hhead & Hother). split; simpl.
  - done.
  - rewrite (sr_senders _ _ Hr). apply (wi_open _ Hw).
  - apply (wi_distinct _ Hw).
  - eapply Forall_impl; [apply (wi_logs _ Hw)|]. simpl. intros s' Hs'. rewrite Hs'.
    unfold log. case_decide as E.
    + rewrite E, Hhead, <-(assoc_L (++)). done.
    + by rewrite Hother.
  - intros n Hn. rewrite (sr_next _ _ Hr) in Hn. destruct (wi_fresh _ Hw n Hn) as [Ha Hrc].
    simpl in *. split; [done|]. unfold log. rewrite decide_False; [done|]. intros ->.
    pose proof (open_rx_old _ s Hw Hin). simpl in *. lia.
Qed.
Lemma step_drop_inv t ss1 ss2 acc rcv s : world_inv (mkWorld t (ss1 ++ s :: ss2) acc rcv) →
  world_inv (mkWorld (socket_drop t s) (ss1 ++ ss2) acc rcv).
Proof.
  intros Hw. pose proof (wi_broker _ Hw) as Ht. simpl in Ht.
  pose proof (wi_open _ Hw) as Ho. simpl in Ho. pose proof (wi_distinct _ Hw) as Hd. simpl in Hd.
  assert (s ∈ ss1 ++ s :: ss2) as Hin by set_solver.
  assert (∀ s', s' ∈ ss1 ++ ss2 → s' ∈ ss1 ++ s :: ss2) as Hsub by set_solver.
  assert (∀ s', s' ∈ ss1 ++ ss2 → is_listen_addr s ≠ is_listen_addr s') as Hne.
  { rewrite fmap_app, fmap_cons in Hd. intros s' Hs' Heq.
    apply NoDup_app in Hd as (_ & Hd1 & [Hd2 _]%NoDup_cons).
    apply elem_of_app in Hs' as [Hs'|Hs'].
    - apply (Hd1 (is_listen_addr s')); [by apply list_elem_of_fmap_2|]. rewrite <-Heq. by left.
    - destruct Hd2. rewrite Heq. by apply list_elem_of_fmap_2. }
  rewrite Forall_forall in Ho. split; simpl.
  - apply socket_drop_inv; [done|]. by apply Ho.
  - apply Forall_forall. intros s' Hs'. rewrite lookup_delete_ne by by apply Hne.
    apply Ho. by apply Hsub.
  - rewrite fmap_app, fmap_cons in Hd. rewrite fmap_app.
    apply NoDup_app in Hd as (Hd1 & Hd2 & [_ Hd3]%NoDup_cons). apply NoDup_app.
    split_and!; try done. intros a Ha Ha2. apply (Hd2 a Ha). by right.
  - apply Forall_forall. intros s' Hs'. pose proof (wi_logs _ Hw) as Hlog.
    rewrite Forall_forall in Hlog. simpl in Hlog. rewrite (Hlog s') by by apply Hsub. f_equal.
    unfold inbox. simpl. rewrite lookup_delete_ne; [done|]. intros Heq.
    by destruct (Hne s' Hs'); apply (open_rx_distinct _ s s' Hw); simpl; auto.
  - apply (wi_fresh _ Hw).
Qed.
Lemma broker_step_inv w w' : world_inv w → broker_step w w' → world_inv w'.
Proof.
  intros Hw Hs. destruct Hs.
  - by eapply step_open_inv.
  - by apply step_send_inv.
  - by eapply step_recv_inv.
  - by apply step_drop_inv.
  - destruct Hw. split; try done. by apply add_link_inv.
  - destruct Hw. split; try done. by apply remove_link_inv.
Qed.
Lemma broker_runs_inv mtu w : rtc broker_step (empty_world mtu) w → world_inv w.
Proof.
  intros Hr. pose proof (world_inv_empty mtu) as Hw. induction Hr; [done|].
  apply IHHr. by eapply broker_step_inv.
Qed.
End runs.

(** ** Properties *)

(** Sending a well-formed message through the broker never panics: it
    fails exactly when the message exceeds the MTU, and otherwise counts the
    message and its bytes and appends it to the channel of the destination
    when the link is up, the address open and the channel not full; nothing
    else changes. *)
Theorem broker_send_exact `{ZstdOk, QueuesOk} t from to m buf :
  broker_inv t → wf_message m → message_serialize m = Ok buf →
  match ct_send t from to m with
  | Ok t' => within_mtu t (blen buf) = true ∧ broker_inv t' ∧ same_routes t t' ∧
      statistics t' = record_message_len (statistics t) (blen buf) ∧
      ∀ n, inbox t' n = inbox t n ++ (if delivers t from to n then [(from, m)] else [])
  | Err _ => within_mtu t (blen buf) = false
  | Panic _ | OutOfFuel => False
  end.
Proof.
  intros Ht Hm Hb. pose proof (ct_send_wf t from to m buf Hm Hb) as Hr.
  destruct (ct_send t from to m) as [t'| | |] eqn:E; [|done..]. split; [done|].
  destruct (ct_send_Ok _ _ _ _ _ Ht E) as (H1' & H2' & H3' & _ & H5').
  by rewrite (message_serialize_len _ _ Hb).
Qed.
Lemma broker_send_exact_witness :
  match @ct_send StoreZstd.store ListQueue.list_queue
          (with_mtu_transport (H0:=ListQueue.list_queue) 100) (SockV4 1 1) (SockV4 1 2) BadCluster with
  | Ok t' => broker_inv t' ∧ statistics t' = mkStatistics 4 1
  | _ => False
  end.
Proof.
  pose proof (@broker_send_exact StoreZstd.store StoreZstd.store_ok ListQueue.list_queue
    ListQueue.list_queue_ok (with_mtu_transport 100) (SockV4 1 1) (SockV4 1 2) BadCluster
    (default [] (match message_serialize (H:=StoreZstd.store) BadCluster with Ok b => Some b | _ => None end))
    (broker_inv_new 100) I eq_refl) as Hs.
  destruct (ct_send _ _ _ _); [|vm_compute in Hs; try discriminate; contradiction..].
  destruct Hs as (_ & Hi & _ & Hst & _). split; [exact Hi|exact Hst].
Defined.

(** C33: on every run of the broker, each open socket has received exactly the
    messages put in its channel, in order and without loss or duplication,
    but for the at most 100 that still wait; its [recv] gives the next one and
    never fails while the socket is open; no two open sockets share an
    address. *)
Theorem broker_delivers_in_order `{ZstdOk, QueuesOk} mtu w :
  rtc broker_step (empty_world mtu) w →
  NoDup (is_listen_addr <$> w_sockets w) ∧
  ∀ s, s ∈ w_sockets w →
    let n := is_message_rx s in
    w_accepted w n = w_received w n ++ inbox (w_broker w) n ∧
    (length (inbox (w_broker w) n) ≤ 100)%nat ∧
    match socket_recv (w_broker w) s with
    | Some (Ok e, _) => head (inbox (w_broker w) n) = Some e
    | Some _ => False
    | None => inbox (w_broker w) n = []
    end.
Proof.
  intros Hr. apply broker_runs_inv in Hr as Hw. split; [apply Hw|]. intros s Hs n.
  pose proof (wi_open _ Hw) as Ho. pose proof (wi_logs _ Hw) as Hl.
  rewrite Forall_forall in Ho, Hl. specialize (Ho s Hs). specialize (Hl s Hs).
  split_and!; [done| |apply socket_recv_open; [apply Hw|done]].
  destruct (bi_channels _ (wi_broker _ Hw) _ _ Ho) as [q Hq].
  destruct (bi_bounds _ (wi_broker _ Hw) _ _ Hq) as [_ Hb]. unfold inbox. subst n. by rewrite Hq.
Qed.
(** Two sockets; the first sends twice to the second, which receives once. *)
Module TwoSockets.
Import StoreZstd ListQueue.
Definition a : SocketAddr := SockV4 1 1.
Definition b : SocketAddr := SockV4 1 2.
Definition t0 : ChannelTransport := with_mtu_transport 100.
Definition opened (t : ChannelTransport) (addr : SocketAddr) : ChannelTransport * InProcessSocket :=
  match ct_open t addr with Ok r => r | _ => (t, mkSocket addr 0) end.
Definition t1 : ChannelTransport := (opened t0 a).1.
Definition sa : InProcessSocket := (opened t0 a).2.
Definition t2 : ChannelTransport := (opened t1 b).1.
Definition sb : InProcessSocket := (opened t1 b).2.
Definition sent (t : ChannelTransport) (m : ChitchatMessage) : ChannelTransport :=
  match socket_send t sa b m with Ok t' => t' | _ => t end.
Definition t3 : ChannelTransport := sent t2 BadCluster.
Definition t4 : ChannelTransport := sent t3 (Ack Delta_default).
Definition t5 : ChannelTransport := match socket_recv t4 sb with Some (_, t) => t | None => t4 end.
Definition first : Envelope := (a, BadCluster).
Definition second : Envelope := (a, Ack Delta_default).
Definition world : World :=
  mkWorld t5 [sb; sa]
    (log_delivery t3 a b (Ack Delta_default) (log_delivery t2 a b BadCluster (λ _, [])))
    (log (is_message_rx sb) [first] (λ _, [])).
Lemma world_runs : rtc broker_step (empty_world 100) world.
Proof.
  eapply rtc_l; [by apply (step_open t0 [] _ _ a t1 sa)|].
  eapply rtc_l; [by apply (step_open t1 [sa] _ _ b t2 sb)|].
  eapply rtc_l; [by apply (step_send t2 [sb; sa] _ _ sa b BadCluster t3); [right; left|]|].
  eapply rtc_l; [by apply (step_send t3 [sb; sa] _ _ sa b (Ack Delta_default) t4); [right; left|]|].
  eapply rtc_l; [by apply (step_recv t4 [sb; sa] _ _ sb first t5); [left|]|]. apply rtc_refl.
Qed.
End TwoSockets.
Lemma broker_delivers_in_order_witness :
  let w := TwoSockets.world in let n := is_message_rx TwoSockets.sb in
  w_accepted w n = [TwoSockets.first; TwoSockets.second] ∧ w_received w n = [TwoSockets.first] ∧
  w_accepted w n = w_received w n ++ inbox (H0:=ListQueue.list_queue) (w_broker w) n.
Proof.
  intros w n. destruct (@broker_delivers_in_order StoreZstd.store StoreZstd.store_ok ListQueue.list_queue
    ListQueue.list_queue_ok 100 TwoSockets.world TwoSockets.world_runs) as [_ Hs].
  destruct (Hs TwoSockets.sb) as (Hlog & _); [left|].
  split_and!; [vm_compute; reflexivity|vm_compute; reflexivity|exact Hlog].
Defined.

(** Cutting a link drops the traffic of both directions between the two
    addresses and of no others, restoring it lifts exactly that, so the
    network is as before after a cut and its repair. *)
Theorem links_exact `{Queues} t a b x y :
  let between := bool_decide ((x = a ∧ y = b) ∨ (x = b ∧ y = a)) in
  link_removed (remove_link t a b) x y = between || link_removed t x y ∧
  link_removed (add_link t a b) x y = negb between && link_removed t x y ∧
  link_removed (add_link (remove_link t a b) a b) x y = negb between && link_removed t x y.
Proof.
  intros between. subst between. split_and!; apply bool_eq_iff;
    rewrite ?add_link_spec, ?remove_link_spec, ?orb_true_iff, ?andb_true_iff, ?negb_true_iff,
      ?bool_decide_eq_true, ?bool_decide_eq_false; tauto.
Qed.
