(* ===== verification/Datagram.v ===== *)
(** * Datagram sockets (chitchat/src/transport: mod.rs, udp.rs, utils.rs)

    The [Socket] interface of the gossip server, the UDP socket, and the two
    wrappers that lose and delay the messages of another socket. *)
From Stdlib Require Import Floats.SpecFloat.
From S2P Require Import Prelude Types Serialize Stream Listener Delta Message FailureDetector Queue Channel.
Open Scope N_scope.

(** ** The [Socket] trait (mod.rs)

    [W] is the state a socket acts on.  [sk_recv] is [None] while nothing is
    there to be received. *)
Class SocketOps (W : Type) : Type := {
  sk_send : W → SocketAddr → ChitchatMessage → res W;
  sk_recv : W → option (res Envelope * W);
}.
Fixpoint sends `{SocketOps W} (w : W) (msgs : list Envelope) : res W :=
  match msgs with
  | [] => Ok w
  | (to, m) :: msgs => let* w := sk_send w to m in sends w msgs
  end.

(** The sockets of the in-process transport. *)
Definition in_process_ops `{Zstd, Queues} (s : InProcessSocket) : SocketOps ChannelTransport := {|
  sk_send t to m := socket_send t s to m;
  sk_recv t := socket_recv t s;
|}.

(** ** UDP (udp.rs) *)
Section udp.
Context `{Zstd}.

(** The payload that [UdpSocket::send] hands to [send_to]. *)
Definition udp_payload (m : ChitchatMessage) : res bytes := message_serialize m.
(** The result of [send_to] is the result of [send]. *)
Definition udp_send (m : ChitchatMessage) (send_to : bytes → res unit) : res unit :=
  let* payload := udp_payload m in send_to payload.
(** [receive_one], on the result of [recv_from]: at most the length of the
    receive buffer is read of a datagram. *)
Definition receive_one (received : res (bytes * SocketAddr)) : res (option Envelope) :=
  let* (datagram, from_addr) := received in
  match message_deserialize (take (N.to_nat MAX_UDP_DATAGRAM_PAYLOAD_SIZE) datagram) with
  | Ok (msg, _) => Ok (Some (from_addr, msg))
  | Err _ => Ok None
  | Panic e => Panic e
  | OutOfFuel => OutOfFuel
  end.
(** The loop of [recv] over the datagrams that arrive; [None] when it still
    waits after the last one. *)
Fixpoint udp_recv (arrivals : list (res (bytes * SocketAddr)))
    : option (res Envelope * list (res (bytes * SocketAddr))) :=
  match arrivals with
  | [] => None
  | received :: arrivals =>
      match receive_one received with
      | Ok (Some message) => Some (Ok message, arrivals)
      | Ok None => udp_recv arrivals
      | Err e => Some (Err e, arrivals)
      | Panic e => Some (Panic e, arrivals)
      | OutOfFuel => Some (OutOfFuel, arrivals)
      end
  end.
End udp.

(** ** Losing messages (utils.rs)

    [should_drop] is the sequence of draws of the Bernoulli distribution. *)
Section drop.
Context {W} `{!SocketOps W} (should_drop : nat → bool).

Record SocketWithMessageDrop : Type := mkDropSocket {
  ds_socket : W;
  ds_draws : nat;
}.
Definition drop_send (s : SocketWithMessageDrop) (to : SocketAddr) (m : ChitchatMessage)
    : res SocketWithMessageDrop :=
  if should_drop (ds_draws s) then Ok (mkDropSocket (ds_socket s) (S (ds_draws s)))
  else
    let* w := sk_send (ds_socket s) to m in
    Ok (mkDropSocket w (S (ds_draws s))).
Definition drop_recv (s : SocketWithMessageDrop) : option (res Envelope * SocketWithMessageDrop) :=
  match sk_recv (ds_socket s) with
  | Some (r, w) => Some (r, mkDropSocket w (ds_draws s))
  | None => None
  end.
Definition drop_ops : SocketOps SocketWithMessageDrop := {|
  sk_send := drop_send; sk_recv := drop_recv;
|}.

(** The messages that are not lost. *)
Fixpoint kept (n : nat) (msgs : list Envelope) : list Envelope :=
  match msgs with
  | [] => []
  | m :: msgs => if should_drop n then kept (S n) msgs else m :: kept (S n) msgs
  end.
Lemma sends_drop s msgs :
  rmap ds_socket (sends (H:=drop_ops) s msgs) =
  sends (ds_socket s) (kept (ds_draws s) msgs).
Proof.
  revert s. induction msgs as [|[to m] msgs IH]; intros [w n]; simpl; [done|].
  unfold drop_send. simpl. destruct (should_drop n); simpl.
  - apply IH.
  - destruct (sk_send w to m); simpl; [apply IH|done..].
Qed.
Lemma kept_sublist n msgs : sublist (kept n msgs) msgs.
Proof.
  revert n. induction msgs as [|m msgs IH]; intros n; simpl; [constructor|].
  destruct (should_drop n); by constructor.
Qed.
End drop.
Arguments mkDropSocket {W} ds_socket ds_draws.

(** ** Delaying messages (utils.rs)

    Every [send] starts a task that sleeps and then sends.  The pending tasks
    are kept with the time they wake up at; [delay_secs] are the draws of the
    distribution. *)
Definition from_secs_f32 (x : spec_float) : res Duration :=
  match x with
  | S754_zero _ => Ok 0
  | S754_finite false _ _ =>
      let d := from_secs_float x in
      if d / NANOS_PER_SEC <=? u64_max then Ok d else Panic "cannot convert float seconds to Duration"
  | _ => Panic "cannot convert float seconds to Duration"
  end.
Section delay.
Context {W} `{!SocketOps W} (delay_secs : nat → spec_float).

Record SocketWithDelay : Type := mkDelaySocket {
  dl_socket : W;
  dl_tasks : list (Instant * Envelope);
  dl_draws : nat;
}.
Definition delay_send (s : SocketWithDelay) (to : SocketAddr) (m : ChitchatMessage) (now : Instant)
    : res SocketWithDelay :=
  let* delay := from_secs_f32 (delay_secs (dl_draws s)) in
  Ok (mkDelaySocket (dl_socket s) (dl_tasks s ++ [(now + delay, (to, m))]) (S (dl_draws s))).
(** A task whose sleep is over sends; its result is ignored. *)
Definition delay_fire (s : SocketWithDelay) (i : nat) (now : Instant)
    : option (Envelope * SocketWithDelay) :=
  match dl_tasks s !! i with
  | Some (due, (to, m)) =>
      if due <=? now then
        let w := match sk_send (dl_socket s) to m with Ok w => w | _ => dl_socket s end in
        Some ((to, m), mkDelaySocket w (delete i (dl_tasks s)) (dl_draws s))
      else None
  | None => None
  end.

(** A run: sends, and wake-ups of the i-th pending task.  The two results
    besides the socket are the messages accepted and those handed on, each
    with its time. *)
Inductive DelayEvent : Type :=
  | DelaySend (to : SocketAddr) (m : ChitchatMessage)
  | DelayFire (i : nat).
Record DelayRun : Type := mkDelayRun {
  dr_socket : SocketWithDelay;
  dr_sent : list (Instant * Envelope);
  dr_forwarded : list (Instant * Envelope);
}.
Definition delay_step (r : DelayRun) (e : DelayEvent) (now : Instant) : res DelayRun :=
  match e with
  | DelaySend to m =>
      let* s := delay_send (dr_socket r) to m now in
      Ok (mkDelayRun s (dr_sent r ++ [(now, (to, m))]) (dr_forwarded r))
  | DelayFire i =>
      match delay_fire (dr_socket r) i now with
      | Some (m, s) => Ok (mkDelayRun s (dr_sent r) (dr_forwarded r ++ [(now, m)]))
      | None => Ok r
      end
  end.
Fixpoint delay_run (r : DelayRun) (events : list (DelayEvent * Instant)) : res DelayRun :=
  match events with
  | [] => Ok r
  | (e, now) :: events => let* r := delay_step r e now in delay_run r events
  end.

(** A message is due a drawn delay after it was sent. *)
Definition due_after (sent : list (Instant * Envelope)) (p : Instant * Envelope) : Prop :=
  ∃ t0 k d, (t0, p.2) ∈ sent ∧ from_secs_f32 (delay_secs k) = Ok d ∧ t0 + d ≤ p.1.
Definition delay_inv (r : DelayRun) : Prop :=
  (snd <$> dr_forwarded r) ++ (snd <$> dl_tasks (dr_socket r)) ≡ₚ (snd <$> dr_sent r) ∧
  Forall (due_after (dr_sent r)) (dl_tasks (dr_socket r)) ∧
  Forall (due_after (dr_sent r)) (dr_forwarded r).
Lemma delay_inv_empty w n : delay_inv (mkDelayRun (mkDelaySocket w [] n) [] []).
Proof. split; [done|]. split; constructor. Qed.
Lemma delay_step_inv r e now r' : delay_inv r → delay_step r e now = Ok r' → delay_inv r'.
Proof.
  intros (Hp & Ht & Hf). destruct e as [to m|i]; simpl.
  - unfold delay_send. intros (s & (d & Hd & Hs)%rbind_Ok & Hr)%rbind_Ok.
    apply Ok_inj in Hs as <-. apply Ok_inj in Hr as <-. unfold delay_inv. simpl.
    assert (∀ l, Forall (due_after (dr_sent r)) l →
      Forall (due_after (dr_sent r ++ [(now, (to, m))])) l) as Hmono.
    { intros l Hl. eapply Forall_impl; [exact Hl|]. intros p (t0 & k & d' & Hin & ? & ?).
      exists t0, k, d'. set_solver. }
    split_and!; [| |by apply Hmono].
    + rewrite !fmap_app, (assoc_L (++)), Hp. done.
    + apply Forall_app. split; [by apply Hmono|]. constructor; [|done].
      eexists now, _, d. simpl. split; [set_solver|]. split; [done|lia].
  - unfold delay_fire. destruct (dl_tasks (dr_socket r) !! i) as [[due [to m]]|] eqn:Ei;
      [|by intros [= <-]].
    destruct (due <=? now) eqn:Ed; [|by intros [= <-]]. intros Hr%Ok_inj. subst r'.
    rewrite Forall_forall in Ht. pose proof (delete_Permutation _ _ _ Ei) as Hdel.
    unfold delay_inv. simpl. split_and!.
    + rewrite <-Hp. etrans; [|apply Permutation_app_head; symmetry; exact (fmap_Permutation snd _ _ Hdel)].
      rewrite fmap_app. simpl. by rewrite <-(assoc_L (++)).
    + apply Forall_forall. intros p Hin. apply Ht. rewrite Hdel. by right.
    + apply Forall_app. split; [done|]. constructor; [|done].
      destruct (Ht (due, (to, m))) as (t0 & k & d & Hin & Hd & Hle).
      { by eapply list_elem_of_lookup_2. }
      exists t0, k, d. split; [done|]. split; [done|]. simpl in *. lia.
Qed.
Lemma delay_run_inv r events r' : delay_inv r → delay_run r events = Ok r' → delay_inv r'.
Proof.
  revert r. induction events as [|[e now] events IH]; intros r Hr; simpl.
  - by intros ->%Ok_inj.
  - intros (r1 & H1 & H2)%rbind_Ok. eapply IH; [|done]. by eapply delay_step_inv.
Qed.
End delay.
Arguments mkDelaySocket {W} dl_socket dl_tasks dl_draws.
Arguments mkDelayRun {W} dr_socket dr_sent dr_forwarded.

(** ** Lemmas on the UDP socket *)
Section udp_lemmas.
Context `{Zstd}.

(** Datagrams that do not decode are skipped. *)
Definition undecodable (r : res (bytes * SocketAddr)) : Prop := receive_one r = Ok None.
Lemma udp_recv_skip junk arrivals : Forall undecodable junk →
  udp_recv (junk ++ arrivals) = udp_recv arrivals.
Proof. induction 1 as [|r junk Hr _ IH]; [done|]. cbn [app udp_recv]. by rewrite Hr. Qed.
Lemma udp_recv_spec arrivals :
  match udp_recv arrivals with
  | None => Forall undecodable arrivals
  | Some (r, rest) => ∃ junk received, arrivals = junk ++ received :: rest ∧
      Forall undecodable junk ∧ r = (let* o := receive_one received in
                                     match o with Some m => Ok m | None => OutOfFuel end) ∧
      ¬ undecodable received
  end.
Proof.
  induction arrivals as [|received arrivals IH]; cbn [udp_recv]; [constructor|].
  destruct (receive_one received) as [[m|]| | |] eqn:E;
    try (exists [], received; unfold undecodable; by rewrite E).
  destruct (udp_recv arrivals) as [[r rest]|]; [|by constructor].
  destruct IH as (junk & received' & -> & Hj & Hr). exists (received :: junk), received'.
  split; [done|]. split; [by constructor|done].
Qed.
End udp_lemmas.

(** ** Properties *)

(** A UDP socket recovers from any number of datagrams that do not
    decode, and then delivers a well-formed message of at most the maximal
    payload exactly as it was sent, with the address of its sender. *)
Theorem udp_delivers_through_junk `{ZstdOk} junk m payload from arrivals :
  Forall undecodable junk → wf_message m → udp_payload m = Ok payload →
  blen payload ≤ MAX_UDP_DATAGRAM_PAYLOAD_SIZE →
  udp_recv (junk ++ Ok (payload, from) :: arrivals) = Some (Ok (from, m), arrivals).
Proof.
  intros Hj Hm Hp Hlen. rewrite udp_recv_skip by done. cbn [udp_recv].
  unfold receive_one. cbn [rbind].
  rewrite take_ge by (unfold blen in Hlen; lia).
  pose proof (message_roundtrip m payload [] Hm Hp) as Hr. rewrite app_nil_r in Hr. by rewrite Hr.
Qed.
Lemma udp_delivers_through_junk_witness :
  udp_recv (H:=StoreZstd.store)
    ([Ok ([zero], SockV4 1 1)] ++ Ok (default [] (match udp_payload (H:=StoreZstd.store) BadCluster with
        Ok b => Some b | _ => None end), SockV4 1 2) :: []) = Some (Ok (SockV4 1 2, BadCluster), []).
Proof.
  apply (@udp_delivers_through_junk StoreZstd.store StoreZstd.store_ok).
  - constructor; [vm_compute; reflexivity|constructor].
  - exact I.
  - reflexivity.
  - vm_compute. discriminate.
Defined.

(** The socket that loses messages behaves, for every sequence of sends,
    as the wrapped socket does for a subsequence of it, and receives as it
    does. *)
Theorem lossy_socket_filters `{!SocketOps W} should_drop (w : W) n msgs :
  sublist (kept should_drop n msgs) msgs ∧
  rmap ds_socket (sends (H:=drop_ops should_drop) (mkDropSocket w n) msgs) =
    sends w (kept should_drop n msgs) ∧
  ((λ p, (p.1, ds_socket p.2)) <$> sk_recv (SocketOps:=drop_ops should_drop) (mkDropSocket w n)) =
    sk_recv w.
Proof.
  split_and!; [apply kept_sublist|by rewrite sends_drop|].
  simpl. unfold drop_recv. simpl. by destruct (sk_recv w) as [[]|].
Qed.

(** However its tasks are scheduled, the socket that delays messages
    hands on each message at most once and never before a drawn delay, and
    holds the others: nothing is lost, invented or duplicated (the order may
    change). *)
Theorem delayed_socket_delivers_once `{!SocketOps W} delay_secs (w : W) n events r :
  delay_run delay_secs (mkDelayRun (mkDelaySocket w [] n) [] []) events = Ok r →
  (snd <$> dr_forwarded r) ++ (snd <$> dl_tasks (dr_socket r)) ≡ₚ (snd <$> dr_sent r) ∧
  Forall (due_after delay_secs (dr_sent r)) (dr_forwarded r).
Proof.
  intros Hr. destruct (delay_run_inv delay_secs _ _ _ (delay_inv_empty delay_secs w n) Hr) as (Hp & _ & Hf).
  by split.
Qed.
(** Two messages, delayed by two and one seconds, overtake each other. *)
Module Overtaking.
Definition sink : SocketOps (list Envelope) := {|
  sk_send w to m := Ok (w ++ [(to, m)]); sk_recv w := None;
|}.
Definition delays (n : nat) : spec_float := match n with O => f32_of_N 2 | _ => f32_of_N 1 end.
Definition a : SocketAddr := SockV4 1 1.
Definition events : list (DelayEvent * Instant) :=
  [(DelaySend a (Syn "m" ∅), 0); (DelaySend a BadCluster, 0); (DelayFire 1, 1500000000);
   (DelayFire 0, 1500000000); (DelayFire 0, 2500000000)].
End Overtaking.
Lemma delayed_socket_delivers_once_witness :
  ∃ r, delay_run (SocketOps0:=Overtaking.sink) Overtaking.delays
    (mkDelayRun (mkDelaySocket [] [] 0) [] []) Overtaking.events = Ok r ∧
    (snd <$> dr_forwarded r) = [(Overtaking.a, BadCluster); (Overtaking.a, Syn "m" ∅)] ∧
    (snd <$> dr_forwarded r) ++ (snd <$> dl_tasks (dr_socket r)) ≡ₚ (snd <$> dr_sent r).
Proof.
  eexists. split; [vm_compute; reflexivity|]. split; [reflexivity|].
  apply (delayed_socket_delivers_once (SocketOps0:=Overtaking.sink) Overtaking.delays [] 0
    Overtaking.events). vm_compute. reflexivity.
Defined.
