(* ===== verification/QuicSocket.v ===== *)
(** * The QUIC transport of the gossip (chitchat/src/transport/transport_layer.rs)

    One task per outgoing connection drains a bounded queue into the
    connection; one task per incoming connection decodes the messages into the
    queue of the socket.  Both queues give up an old message when full. *)
From S2P Require Import Prelude Types Serialize Stream Listener Delta Message Queue Channel.
Open Scope N_scope.

Definition MAX_QUIC_DATAGRAM_PAYLOAD_SIZE : N := 10000000.
Definition CHANNEL_CAPACITY : nat := 1000.
Definition MESSAGE_SOFT_TTL : Duration := 30 * 1000000000.
Definition SOFT_LEN_THRESHOLD : nat := 1000.

(** The task of a connection: it drops its receiver when it returns, and is
    finished a little later. *)
Inductive TaskState : Type := Running | Returned | TaskFinished.

Section socket.
Context `{Zstd, Queues}.

Record OutgoingConnection : Type := mkOutgoing {
  oc_task : TaskState;
  oc_messages : Queue ChitchatMessage;
}.
Abbreviation Incoming := (SocketAddr * Instant * ChitchatMessage)%type.
Record TransportLayerSocket : Type := mkTlSocket {
  outgoing_connections : gmap SocketAddr OutgoingConnection;
  incoming_messages : Queue Incoming;
  listener_stop : bool;
}.
Definition set_outgoing (m : gmap SocketAddr OutgoingConnection) (s : TransportLayerSocket)
    : TransportLayerSocket := mkTlSocket m (incoming_messages s) (listener_stop s).
Definition set_incoming (q : Queue Incoming) (s : TransportLayerSocket) : TransportLayerSocket :=
  mkTlSocket (outgoing_connections s) q (listener_stop s).

(** [TransportLayerTransport::open]; it cannot fail, the listener is created
    by a task. *)
Definition tl_open : TransportLayerSocket := mkTlSocket ∅ (q_bounded CHANNEL_CAPACITY) false.
Definition tl_drop (s : TransportLayerSocket) : TransportLayerSocket :=
  mkTlSocket (outgoing_connections s) (incoming_messages s) true.
Definition open_connections (s : TransportLayerSocket) : nat := size (outgoing_connections s).

(** [connect] is the result of connecting to the peer. *)
Definition get_or_create_outgoing_connection (s : TransportLayerSocket) (to_addr : SocketAddr)
    (connect : res unit) : res (OutgoingConnection * TransportLayerSocket) :=
  let create :=
    do* connect in
    let c := mkOutgoing Running (q_bounded CHANNEL_CAPACITY) in
    Ok (c, set_outgoing (<[to_addr := c]> (outgoing_connections s)) s) in
  match outgoing_connections s !! to_addr with
  | Some existing =>
      match oc_task existing with TaskFinished => create | _ => Ok (existing, s) end
  | None => create
  end.
Definition tl_send (s : TransportLayerSocket) (to : SocketAddr) (msg : ChitchatMessage)
    (connect : res unit) : res TransportLayerSocket :=
  let* (c, s) := get_or_create_outgoing_connection s to connect in
  match oc_task c with
  | Running =>
      let q := (q_force_send (oc_messages c) msg).1 in
      Ok (set_outgoing (<[to := mkOutgoing Running q]> (outgoing_connections s)) s)
  | _ => Err "outgoing channel was closed"
  end.

(** The loop of [recv].  Every turn is given what other tasks queue between
    the [recv] of the channel and the reading of its length, and the time of
    that reading; [None] when the channel is empty and the socket waits. *)
Fixpoint queue_all {A} (q : Queue A) (l : list A) : Queue A :=
  match l with [] => q | x :: l => queue_all (q_force_send q x).1 l end.
Definition expired (queue_len : nat) (received_at now : Instant) : bool :=
  (SOFT_LEN_THRESHOLD <=? queue_len)%nat && (MESSAGE_SOFT_TTL <? now - received_at).
Fixpoint tl_recv (q : Queue Incoming) (turns : list (list Incoming * Instant))
    : option (Envelope * Queue Incoming) :=
  match turns with
  | [] => None
  | (arrivals, now) :: turns =>
      match q_recv q with
      | None => None
      | Some ((from_addr, received_at, message), q) =>
          let q := queue_all q arrivals in
          if expired (length (q_items q)) received_at now then tl_recv q turns
          else Some ((from_addr, message), q)
      end
  end.

(** [handle_outgoing_connection]: the loop over the queued messages, each
    with the result of sending it on the connection.  The result is the
    frames handed to the connection, what is left of the queue, and how the
    task ends ([None]: it waits for more messages). *)
Fixpoint handle_outgoing_connection (q : Queue ChitchatMessage) (sent : list (res unit))
    : list bytes * Queue ChitchatMessage * option (res unit) :=
  match sent with
  | [] => ([], q, None)
  | r :: sent =>
      match q_recv q with
      | None => ([], q, None)
      | Some (message, q) =>
          match message_serialize message with
          | Ok serialized =>
              match r with
              | Ok _ =>
                  let '(frames, q, e) := handle_outgoing_connection q sent in
                  (serialized :: frames, q, e)
              | Err _ => ([serialized], q, Some (Ok ()))
              | Panic e => ([serialized], q, Some (Panic e))
              | OutOfFuel => ([serialized], q, Some OutOfFuel)
              end
          | Err e | Panic e => ([], q, Some (Panic e))
          | OutOfFuel => ([], q, Some OutOfFuel)
          end
      end
  end.

(** [handle_incoming_connection]: the loop over the results of receiving
    from the connection, each with the time it is queued at; an error or a
    message that does not decode ends the task. *)
Fixpoint handle_incoming_connection (from_addr : SocketAddr) (q : Queue Incoming)
    (received : list (res bytes * Instant)) : Queue Incoming * option (res unit) :=
  match received with
  | [] => (q, None)
  | (r, now) :: received =>
      match (let* message := r in message_deserialize message) with
      | Ok (message, _) =>
          handle_incoming_connection from_addr (q_force_send q (from_addr, now, message)).1 received
      | Err e => (q, Some (Err e))
      | Panic e => (q, Some (Panic e))
      | OutOfFuel => (q, Some OutOfFuel)
      end
  end.

(** [handle_socket_listener]: what [select!] gives, until the stop flag. *)
Inductive ListenerEvent : Type :=
  | StopChanged (stop : bool)
  | Accepted (request : res nat).
(** The connections a task is started for. *)
Fixpoint handle_socket_listener (events : list ListenerEvent) : list nat * bool :=
  match events with
  | [] => ([], false)
  | StopChanged true :: _ => ([], true)
  | StopChanged false :: events => handle_socket_listener events
  | Accepted (Ok request) :: events =>
      let '(l, stopped) := handle_socket_listener events in (request :: l, stopped)
  | Accepted _ :: events => handle_socket_listener events
  end.
End socket.

(** ** Lemmas *)
Section lemmas.
Context `{ZstdOk, QueuesOk}.

Lemma CHANNEL_CAPACITY_pos : (0 < CHANNEL_CAPACITY)%nat.
Proof. apply Nat.ltb_lt. reflexivity. Qed.

(** No other task interferes: the oldest message comes out. *)
Lemma tl_recv_quiet q now turns x : (q_capacity q ≤ CHANNEL_CAPACITY)%nat →
  (length (q_items q) ≤ q_capacity q)%nat → head (q_items q) = Some x →
  ∃ q', tl_recv q (([], now) :: turns) = Some ((x.1.1, x.2), q') ∧ q_items q = x :: q_items q' ∧
    q_capacity q' = q_capacity q.
Proof.
  intros Hc Hl Hx. cbn [tl_recv]. destruct (q_recv q) as [[[[from at_] m] q']|] eqn:E.
  2:{ apply q_recv_None in E. by rewrite E in Hx. }
  apply q_recv_Some in E as [Hi Hc']. rewrite Hi in Hx, Hl. injection Hx as <-.
  cbn [queue_all]. simpl in Hl.
  assert (expired (length (q_items q')) at_ now = false) as ->.
  { unfold expired, SOFT_LEN_THRESHOLD. unfold CHANNEL_CAPACITY in Hc.
    destruct (1000 <=? _)%nat eqn:E1; [apply Nat.leb_le in E1; lia|done]. }
  eauto.
Qed.

Lemma handle_outgoing_all q sent : Forall (λ r, r = Ok ()) sent →
  length sent = length (q_items q) →
  Forall (λ m, is_ok (message_serialize m) = true) (q_items q) →
  ∃ frames q', handle_outgoing_connection q sent = (frames, q', None) ∧ q_items q' = [] ∧
    Forall2 (λ m f, message_serialize m = Ok f) (q_items q) frames.
Proof.
  intros Hs. revert q. induction Hs as [|r sent -> Hs IH]; intros q Hlen Hm; simpl in *.
  - destruct (q_items q) eqn:E; [|done]. exists [], q. split_and!; try done.
  - destruct (q_recv q) as [[m q']|] eqn:E.
    2:{ apply q_recv_None in E. by rewrite E in Hlen. }
    apply q_recv_Some in E as [Hi _]. rewrite Hi in *. apply Forall_cons in Hm as [Hm Hms].
    simpl in Hlen. destruct (IH q' ltac:(lia) Hms) as (frames & q2 & Heq & Hempty & Hf).
    destruct (message_serialize m) as [f| | |] eqn:Em; try done.
    rewrite Heq. exists (f :: frames), q2. split_and!; try done. by constructor.
Qed.
Lemma handle_incoming_all from frames msgs times q :
  Forall2 (λ m f, message_serialize m = Ok f) msgs frames → Forall wf_message msgs →
  length times = length frames →
  (length (q_items q) + length msgs ≤ q_capacity q)%nat →
  ∃ q', handle_incoming_connection from q (zip (Ok <$> frames) times) = (q', None) ∧
    q_items q' = q_items q ++ zip_with (λ m t, (from, t, m)) msgs times ∧
    q_capacity q' = q_capacity q.
Proof.
  intros Hf. revert q times. induction Hf as [|m f msgs frames Hm Hf IH]; intros q times Hwf Ht Hl.
  - destruct times; [|done]. exists q. by rewrite app_nil_r.
  - destruct times as [|t times]; [done|]. apply Forall_cons in Hwf as [Hw Hwf].
    cbn [fmap list_fmap zip zip_with handle_incoming_connection rbind] in *.
    pose proof (message_roundtrip m f [] Hw Hm) as Hr. rewrite app_nil_r in Hr. rewrite Hr.
    simpl in Hl. destruct (q_force_send_room q (from, t, m)) as (q1 & -> & Hi & Hc); [lia|].
    simpl. destruct (IH q1 times Hwf) as (q2 & -> & Hi2 & Hc2).
    + simpl in Ht. lia.
    + rewrite Hi, length_app, Hc. simpl. lia.
    + exists q2. rewrite Hi2, Hi, <-(assoc_L (++)). split_and!; [done..|congruence].
Qed.
(** Without interference, receiving gives the queued messages in order. *)
Fixpoint recv_all (fuel : nat) (now : Instant) (q : Queue (SocketAddr * Instant * ChitchatMessage))
    : list Envelope :=
  match fuel with
  | O => []
  | S fuel =>
      match tl_recv q [([], now)] with
      | Some (e, q) => e :: recv_all fuel now q
      | None => []
      end
  end.
Lemma recv_all_items fuel now q : (q_capacity q ≤ CHANNEL_CAPACITY)%nat →
  (length (q_items q) ≤ q_capacity q)%nat → (length (q_items q) ≤ fuel)%nat →
  recv_all fuel now q = (λ x, (x.1.1, x.2)) <$> q_items q.
Proof.
  revert q. induction fuel as [|fuel IH]; intros q Hc Hl Hf.
  - destruct (q_items q) eqn:E; [done|simpl in Hf; lia].
  - cbn [recv_all]. destruct (q_items q) as [|x l] eqn:E.
    + cbn [tl_recv]. pose proof (q_recv_items q) as Hr. rewrite E in Hr. by rewrite Hr.
    + destruct (tl_recv_quiet q now [] x Hc) as (q' & -> & Hi & Hc').
      { by rewrite E. }
      { by rewrite E. }
      rewrite E in Hi. injection Hi as ->. simpl in *. f_equal. apply IH; [lia..|]. lia.
Qed.
End lemmas.

Section sending.
Context `{ZstdOk, QueuesOk}.

(** The queues of the running connections keep their bound. *)
Definition tl_inv (s : TransportLayerSocket) : Prop :=
  map_Forall (λ _ c, q_capacity (oc_messages c) = CHANNEL_CAPACITY ∧
    (length (q_items (oc_messages c)) ≤ CHANNEL_CAPACITY)%nat) (outgoing_connections s) ∧
  q_capacity (incoming_messages s) = CHANNEL_CAPACITY ∧
  (length (q_items (incoming_messages s)) ≤ CHANNEL_CAPACITY)%nat.
Lemma tl_open_inv : tl_inv tl_open.
Proof.
  split; [apply map_Forall_empty|]. simpl. rewrite q_bounded_capacity, q_bounded_items.
  split; [done|]. apply Nat.le_0_l.
Qed.

(** The queue a message to [to] is put in: that of a running connection, or
    a new one. *)
Definition outbox (s : TransportLayerSocket) (to : SocketAddr) : list ChitchatMessage :=
  match outgoing_connections s !! to with
  | Some c => match oc_task c with TaskFinished => [] | _ => q_items (oc_messages c) end
  | None => []
  end.
Definition needs_connect (s : TransportLayerSocket) (to : SocketAddr) : bool :=
  match outgoing_connections s !! to with
  | Some c => match oc_task c with TaskFinished => true | _ => false end
  | None => true
  end.
Definition returned (s : TransportLayerSocket) (to : SocketAddr) : bool :=
  match outgoing_connections s !! to with
  | Some c => match oc_task c with Returned => true | _ => false end
  | None => false
  end.

(** The message is in the queue of [to], at the end, after those that were
    there unless the queue was full; nothing else changed. *)
Record sent_on (s s' : TransportLayerSocket) (to : SocketAddr) (before : list ChitchatMessage)
    (m : ChitchatMessage) : Prop := {
  so_inv : tl_inv s';
  so_last : last (outbox s' to) = Some m;
  so_bound : (length (outbox s' to) ≤ CHANNEL_CAPACITY)%nat;
  so_room : (length before < CHANNEL_CAPACITY)%nat → outbox s' to = before ++ [m];
  so_others : ∀ a, a ≠ to → outgoing_connections s' !! a = outgoing_connections s !! a;
  so_incoming : incoming_messages s' = incoming_messages s;
}.
Lemma put_outgoing_inv s to c : tl_inv s → q_capacity (oc_messages c) = CHANNEL_CAPACITY →
  (length (q_items (oc_messages c)) ≤ CHANNEL_CAPACITY)%nat →
  tl_inv (set_outgoing (<[to := c]> (outgoing_connections s)) s).
Proof. intros [Ho Hi] Hc Hl. split; [|exact Hi]. by apply map_Forall_insert_2. Qed.
Lemma enqueue_ok s to q m : tl_inv s → q_capacity q = CHANNEL_CAPACITY →
  (length (q_items q) ≤ CHANNEL_CAPACITY)%nat →
  sent_on s (set_outgoing (<[to := mkOutgoing Running (q_force_send q m).1]>
    (outgoing_connections s)) s) to (q_items q) m.
Proof.
  intros Hs Hc Hl. pose proof (q_force_send_spec q m) as Hspec.
  assert ((length (q_items q) < CHANNEL_CAPACITY)%nat →
    q_items (q_force_send q m).1 = q_items q ++ [m]) as Hroom.
  { intros Hlt. destruct (q_force_send_room q m) as (q' & -> & ? & _); [by rewrite Hc|done]. }
  destruct (q_force_send q m) as [q' old]. rewrite Hc in Hspec. simpl in *.
  destruct (Hspec CHANNEL_CAPACITY_pos Hl) as (Hc' & Hl' & Hlast & _).
  assert (outbox (set_outgoing (<[to := mkOutgoing Running q']> (outgoing_connections s)) s) to =
    q_items q') as Hob by (unfold outbox; simpl; by rewrite lookup_insert_eq).
  split; rewrite ?Hob; try done; [by apply put_outgoing_inv|].
  intros a Ha. simpl. by rewrite lookup_insert_ne.
Qed.
Lemma new_connection_ok s to m : tl_inv s → outbox s to = [] →
  let c := mkOutgoing Running (q_bounded CHANNEL_CAPACITY) in
  let s1 := set_outgoing (<[to := c]> (outgoing_connections s)) s in
  sent_on s (set_outgoing (<[to := mkOutgoing Running (q_force_send (oc_messages c) m).1]>
    (outgoing_connections s1)) s1) to (outbox s to) m.
Proof.
  intros Hs Hob c s1. assert (length (q_items (oc_messages c)) ≤ CHANNEL_CAPACITY)%nat as Hl.
  { simpl. rewrite q_bounded_items. apply Nat.le_0_l. }
  assert (tl_inv s1) as Hs1 by (apply put_outgoing_inv; [done|apply q_bounded_capacity|done]).
  destruct (enqueue_ok s1 to _ m Hs1 (q_bounded_capacity _) Hl) as [Hi1 Hi2 Hi3 Hi4 Hi5 Hi6].
  rewrite q_bounded_items in Hi4. split; rewrite ?Hob; try done.
  intros a Ha. rewrite Hi5 by done. simpl. by rewrite lookup_insert_ne.
Qed.
Lemma tl_send_spec s to m connect : tl_inv s → (connect = Ok () ∨ ∃ e, connect = Err e) →
  match tl_send s to m connect with
  | Ok s' => sent_on s s' to (outbox s to) m ∧ returned s to = false ∧
      (needs_connect s to = true → connect = Ok ())
  | Err _ => returned s to = true ∨ (needs_connect s to = true ∧ connect ≠ Ok ())
  | Panic _ | OutOfFuel => False
  end.
Proof.
  intros Hs Hcon. pose proof (new_connection_ok s to m Hs) as Hnew.
  pose proof Hs as [Hout _]. unfold tl_send, get_or_create_outgoing_connection.
  unfold outbox, returned, needs_connect in *.
  destruct (outgoing_connections s !! to) as [[[] q]|] eqn:E; cbn [oc_task] in *.
  - cbn [rbind oc_task oc_messages]. destruct (Hout to _ E) as [Hc Hl].
    split; [by apply enqueue_ok|done].
  - by left.
  - destruct Hcon as [->|[e ->]]; cbn [rbind oc_task]; [split; [by apply Hnew|done]|by right].
  - destruct Hcon as [->|[e ->]]; cbn [rbind oc_task]; [split; [by apply Hnew|done]|by right].
Qed.

(** Sending a whole list to one peer. *)
Fixpoint tl_sends (s : TransportLayerSocket) (to : SocketAddr) (msgs : list ChitchatMessage)
    : res TransportLayerSocket :=
  match msgs with
  | [] => Ok s
  | m :: msgs => let* s := tl_send s to m (Ok ()) in tl_sends s to msgs
  end.
Lemma tl_sends_ok s to msgs : tl_inv s → returned s to = false →
  (length (outbox s to) + length msgs ≤ CHANNEL_CAPACITY)%nat →
  ∃ s', tl_sends s to msgs = Ok s' ∧ tl_inv s' ∧ outbox s' to = outbox s to ++ msgs.
Proof.
  revert s. induction msgs as [|m msgs IH]; intros s Hs Hr Hl.
  - exists s. by rewrite app_nil_r.
  - pose proof (tl_send_spec s to m (Ok ()) Hs (or_introl eq_refl)) as Hm. cbn [tl_sends].
    destruct (tl_send s to m (Ok ())) as [s1|e| |] eqn:E; try done.
    2:{ destruct Hm as [Hm|[_ Hm]]; [congruence|done]. }
    destruct Hm as (Hsent & _ & _). cbn [rbind]. simpl in Hl.
    pose proof (so_room _ _ _ _ _ Hsent ltac:(lia)) as Hob.
    destruct (IH s1) as (s2 & Heq & Hs2 & Hob2).
    + apply Hsent.
    + unfold tl_send in E. apply rbind_Ok in E as ([c s0] & _ & E). destruct (oc_task c); try done.
      apply Ok_inj in E as <-. unfold returned. simpl. by rewrite lookup_insert_eq.
    + rewrite Hob, length_app. simpl. lia.
    + exists s2. split_and!; [done..|]. by rewrite Hob2, Hob, <-(assoc_L (++)).
Qed.
End sending.

Section end_to_end.
Context `{ZstdOk, QueuesOk}.

(** What the task of the connection to [to] hands on when every send of the
    connection succeeds, and what the socket at the other end then receives
    from the address [from] when nothing interferes. *)
Definition frames_to (s : TransportLayerSocket) (to : SocketAddr) : list bytes :=
  match outgoing_connections s !! to with
  | Some c => (handle_outgoing_connection (oc_messages c)
                 (replicate (length (q_items (oc_messages c))) (Ok ()))).1.1
  | None => []
  end.
Definition received_from (from : SocketAddr) (frames : list bytes) (times : list Instant)
    (now : Instant) : list Envelope :=
  recv_all (length frames) now
    (handle_incoming_connection from (incoming_messages tl_open) (zip (Ok <$> frames) times)).1.

Lemma frames_to_outbox s to : needs_connect s to = false →
  Forall (λ m, is_ok (message_serialize m) = true) (outbox s to) →
  Forall2 (λ m f, message_serialize m = Ok f) (outbox s to) (frames_to s to).
Proof.
  unfold needs_connect, outbox, frames_to.
  destruct (outgoing_connections s !! to) as [[[] q]|]; try done; intros _ Hm; cbn [oc_task oc_messages] in *;
    destruct (handle_outgoing_all q (replicate (length (q_items q)) (Ok ()))) as (frames & q' & -> & _ & Hf);
    rewrite ?length_replicate; try done; by apply Forall_replicate.
Qed.
Lemma received_all from frames msgs times now :
  Forall2 (λ m f, message_serialize m = Ok f) msgs frames → Forall wf_message msgs →
  length times = length frames → (length msgs ≤ CHANNEL_CAPACITY)%nat →
  received_from from frames times now = (λ m, (from, m)) <$> msgs.
Proof.
  intros Hf Hwf Ht Hl. unfold received_from.
  destruct (handle_incoming_all from frames msgs times (incoming_messages tl_open) Hf Hwf Ht)
    as (q & -> & Hi & Hc).
  { simpl. by rewrite q_bounded_items, q_bounded_capacity. }
  simpl in Hi, Hc. rewrite q_bounded_items in Hi. rewrite q_bounded_capacity in Hc. simpl in Hi.
  pose proof (Forall2_length _ _ _ Hf) as Hlen.
  assert (length (q_items q) = length msgs) as Hq.
  { rewrite Hi, length_zip_with. lia. }
  simpl. rewrite recv_all_items by lia. rewrite Hi.
  assert (length times = length msgs) as Ht' by congruence. clear -Ht'.
  revert times Ht'. induction msgs as [|m msgs IH]; intros [|t times] Ht; simpl in *; try done.
  f_equal. apply IH. lia.
Qed.
End end_to_end.

(** ** Properties *)

(** C14: up to a thousand well-formed messages sent to a peer on a fresh
    socket are received by the peer, all of them, in order and unchanged, when
    the connection holds and the peer takes them in one go. *)
Theorem gossip_end_to_end `{ZstdOk, QueuesOk} from to m msgs times now :
  Forall wf_message (m :: msgs) →
  Forall (λ m, is_ok (message_serialize m) = true) (m :: msgs) →
  (length (m :: msgs) ≤ 1000)%nat → length times = length (m :: msgs) →
  ∃ s, tl_sends tl_open to (m :: msgs) = Ok s ∧
    received_from from (frames_to s to) times now = (λ m, (from, m)) <$> (m :: msgs).
Proof.
  intros Hwf Hser Hl Ht.
  destruct (tl_sends_ok tl_open to (m :: msgs) tl_open_inv eq_refl Hl) as (s & Hs & Hinv & Hob).
  exists s. split; [done|]. change (outbox s to = m :: msgs) in Hob.
  assert (Forall2 (λ m f, message_serialize m = Ok f) (m :: msgs) (frames_to s to)) as Hf.
  { rewrite <-Hob. apply frames_to_outbox; [|by rewrite Hob]. unfold outbox in Hob.
    unfold needs_connect. by destruct (outgoing_connections s !! to) as [[[] q]|]. }
  apply received_all; try done. by rewrite Ht, <-(Forall2_length _ _ _ Hf).
Qed.
Lemma gossip_end_to_end_witness :
  ∃ s, tl_sends (H1:=ListQueue.list_queue) tl_open (SockV4 1 2) [BadCluster; Ack Delta_default] = Ok s ∧
    @received_from StoreZstd.store ListQueue.list_queue (SockV4 1 1)
      (@frames_to StoreZstd.store ListQueue.list_queue s (SockV4 1 2)) [5; 6] 7 =
      [(SockV4 1 1, BadCluster); (SockV4 1 1, Ack Delta_default)].
Proof.
  apply (@gossip_end_to_end StoreZstd.store StoreZstd.store_ok ListQueue.list_queue
    ListQueue.list_queue_ok).
  - repeat constructor.
  - repeat constructor; vm_compute; reflexivity.
  - apply Nat.leb_le. reflexivity.
  - reflexivity.
Defined.

(** [send] either queues the message at the end of the queue of the
    peer (after everything queued before, if there is room), changing nothing
    else, or fails: exactly when the task of the connection has just returned,
    or when a connection is needed and cannot be made. *)
Theorem quic_send_exact `{ZstdOk, QueuesOk} s to m connect :
  tl_inv s → (connect = Ok () ∨ ∃ e, connect = Err e) →
  match tl_send s to m connect with
  | Ok s' => sent_on s s' to (outbox s to) m ∧ returned s to = false ∧
      (needs_connect s to = true → connect = Ok ())
  | Err _ => returned s to = true ∨ (needs_connect s to = true ∧ connect ≠ Ok ())
  | Panic _ | OutOfFuel => False
  end.
Proof. apply tl_send_spec. Qed.
Lemma quic_send_exact_witness :
  match @tl_send ListQueue.list_queue tl_open (SockV4 1 2) BadCluster (Ok ()) with
  | Ok s' => @outbox ListQueue.list_queue s' (SockV4 1 2) = [BadCluster]
  | _ => False
  end.
Proof.
  pose proof (@quic_send_exact StoreZstd.store StoreZstd.store_ok ListQueue.list_queue
    ListQueue.list_queue_ok tl_open (SockV4 1 2) BadCluster (Ok ())
    (tl_open_inv (H2:=ListQueue.list_queue_ok)) (or_introl eq_refl)) as Hs.
  destruct (tl_send _ _ _ _) as [s'| | |] eqn:E.
  - destruct Hs as (Hs & _ & _). apply (so_room _ _ _ _ _ Hs). apply Nat.ltb_lt. reflexivity.
  - discriminate E.
  - exact Hs.
  - exact Hs.
Defined.

(** A message, however old, is received in its turn unless other tasks
    refill the queue in the middle of [recv]: the soft time-to-live compares
    the length of the queue after the removal with its own capacity, so alone
    it never discards anything. *)
Theorem soft_ttl_needs_a_race `{QueuesOk} q now turns from received_at m :
  (q_capacity q ≤ CHANNEL_CAPACITY)%nat → (length (q_items q) ≤ q_capacity q)%nat →
  head (q_items q) = Some (from, received_at, m) →
  ∃ q', tl_recv q (([], now) :: turns) = Some ((from, m), q') ∧
    q_items q = (from, received_at, m) :: q_items q'.
Proof.
  intros Hc Hl Hh. destruct (tl_recv_quiet q now turns _ Hc Hl Hh) as (q' & Hr & Hi & _). eauto.
Qed.
Lemma soft_ttl_needs_a_race_witness :
  ∃ q', tl_recv (H0:=ListQueue.list_queue) (1000%nat, [(SockV4 1 1, 0, BadCluster)]) [([], 10 ^ 18)] =
    Some ((SockV4 1 1, BadCluster), q').
Proof.
  destruct (@soft_ttl_needs_a_race ListQueue.list_queue ListQueue.list_queue_ok
    (1000%nat, [(SockV4 1 1, 0, BadCluster)]) (10 ^ 18) [] (SockV4 1 1) 0 BadCluster)
    as (q' & Hq & _).
  - apply Nat.leb_le. reflexivity.
  - apply Nat.leb_le. reflexivity.
  - reflexivity.
  - exists q'. exact Hq.
Defined.
