(* ===== verification/Frame.v ===== *)
(** * Messages on QUIC streams (transport-layer/src/msquic/mod.rs)

    Every message travels on a unidirectional stream of its own, behind its
    length.  The reader sees the bytes in the portions they arrive in; after
    the last one the peer has finished the stream, or the stream broke. *)
From S2P Require Import Prelude Serialize.
Open Scope N_scope.

(** ** The stream as its reader sees it *)
Inductive StreamEnd : Type := Finished | Broken (msg : string).
Record ByteStream : Type := mkByteStream {
  bs_chunks : list bytes;
  bs_end : StreamEnd;
}.
Definition stream_bytes (s : ByteStream) : bytes := concat (bs_chunks s).
(** [AsyncReadExt::read] into a buffer of [room] bytes: no bytes at the end
    of a finished stream. *)
Definition stream_read (s : ByteStream) (room : N) : res (bytes * ByteStream) :=
  match bs_chunks s with
  | [] => match bs_end s with Finished => Ok ([], s) | Broken e => Err e end
  | c :: cs =>
      let rest := drop (N.to_nat room) c in
      Ok (take (N.to_nat room) c,
          mkByteStream (match rest with [] => cs | _ => rest :: cs end) (bs_end s))
  end.

(** ** Writing (write_buffer_to_stream) *)
Definition frame (data : bytes) : bytes := to_be_bytes 4 (wrap 32 (blen data)) ++ data.
(** [MsQuicNetConnection::send]: a stream is opened, written to, flushed and
    closed; each step may fail or time out. *)
Definition net_send (open write_all flush close : res unit) (data : bytes) : res bytes :=
  do* open in do* write_all in do* flush in do* close in Ok (frame data).

(** ** Reading (read_message_from_stream) *)
Fixpoint drain (fuel : nat) (s : ByteStream) : res ByteStream :=
  match fuel with
  | O => OutOfFuel
  | S fuel =>
      let* (bs, s) := stream_read s 1024 in
      if blen bs =? 0 then Ok s else drain fuel s
  end.
(** [header] and [decoded] are the filled parts of the two buffers. *)
Fixpoint read_message_from_stream (fuel : nat) (s : ByteStream) (header decoded : bytes)
    : res (bytes * ByteStream) :=
  match fuel with
  | O => OutOfFuel
  | S fuel =>
      if blen header <? 4 then
        let* (bs, s) := stream_read s (4 - blen header) in
        read_message_from_stream fuel s (header ++ bs) decoded
      else
        let len := from_be_bytes header in
        if len =? 0 then Ok ([], s)
        else
          let* (bs, s) := stream_read s (len - blen decoded) in
          let decoded := decoded ++ bs in
          if blen decoded =? len then
            let* s := drain fuel s in Ok (decoded, s)
          else read_message_from_stream fuel s header decoded
  end.

(** ** What the reader returns, as a function of all the bytes

    [None]: it never returns. *)
Definition frame_result (content : bytes) (ending : StreamEnd) : option (res bytes) :=
  let cut := match ending with Finished => None | Broken e => Some (Err e) end in
  if blen content <? 4 then cut
  else
    let len := from_be_bytes (take 4 content) in
    let body := drop 4 content in
    if len =? 0 then Some (Ok [])
    else if len <=? blen body then
      match ending with Finished => Some (Ok (take (N.to_nat len) body)) | Broken e => Some (Err e) end
    else cut.

Definition wf_stream (s : ByteStream) : Prop := Forall (λ c, c ≠ []) (bs_chunks s).

Section lemmas.

(** A read gives a non-empty portion of what is left, or meets the end. *)
Lemma stream_read_spec s room : wf_stream s → 0 < room →
  match stream_read s room with
  | Ok (bs, s') => wf_stream s' ∧ bs_end s' = bs_end s ∧ stream_bytes s = bs ++ stream_bytes s' ∧
      blen bs ≤ room ∧ (bs = [] → bs_end s = Finished ∧ stream_bytes s = [] ∧ s' = s)
  | Err e => bs_end s = Broken e ∧ stream_bytes s = []
  | _ => False
  end.
Proof.
  intros Hwf Hroom. unfold stream_read, stream_bytes. destruct s as [[|c cs] ending]; simpl.
  - destruct ending; simpl; [|done]. split_and!; [done..| |done]. rewrite blen_nil. lia.
  - apply Forall_cons in Hwf as [Hc Hcs]. split_and!.
    + destruct (drop (N.to_nat room) c) eqn:E; [done|]. constructor; [done|exact Hcs].
    + done.
    + rewrite <-(take_drop (N.to_nat room) c) at 1. rewrite <-(assoc_L (++)). f_equal.
      by destruct (drop (N.to_nat room) c).
    + rewrite blen_take. lia.
    + intros Ht. destruct c; [done|]. destruct (N.to_nat room) eqn:E; [lia|done].
Qed.
Lemma drain_spec fuel s : wf_stream s → (length (stream_bytes s) < fuel)%nat →
  match bs_end s with
  | Finished => is_ok (drain fuel s) = true
  | Broken e => drain fuel s = Err e
  end.
Proof.
  revert s. induction fuel as [|fuel IH]; intros s Hwf Hf; [lia|]. cbn [drain].
  pose proof (stream_read_spec s 1024 Hwf ltac:(lia)) as Hr.
  destruct (stream_read s 1024) as [[bs s']|e| |]; [|by destruct Hr as [-> _]|done..].
  destruct Hr as (Hwf' & He & Hb & _ & Hend). cbn [rbind].
  destruct (blen bs =? 0) eqn:E.
  - apply N.eqb_eq, blen_0 in E as ->. by destruct (Hend eq_refl) as [-> _].
  - rewrite <-He. apply IH; [done|]. apply N.eqb_neq in E. rewrite Hb, length_app in Hf.
    unfold blen in E. lia.
Qed.
Lemma drain_never_runs_out fuel s : wf_stream s → bs_end s = Finished →
  drain fuel s = OutOfFuel ∨ is_ok (drain fuel s) = true.
Proof.
  revert s. induction fuel as [|fuel IH]; intros s Hwf He; [by left|]. cbn [drain].
  pose proof (stream_read_spec s 1024 Hwf ltac:(lia)) as Hr.
  destruct (stream_read s 1024) as [[bs s']|e| |]; [|destruct Hr; congruence|done..].
  destruct Hr as (Hwf' & He' & _). cbn [rbind]. destruct (_ =? 0); [by right|].
  apply IH; congruence.
Qed.

(** The content seen so far and to come. *)
Definition all_bytes (s : ByteStream) (header decoded : bytes) : bytes :=
  header ++ decoded ++ stream_bytes s.
Definition reading (s : ByteStream) (header decoded : bytes) : Prop :=
  wf_stream s ∧ blen header ≤ 4 ∧
  (if blen header <? 4 then decoded = []
   else from_be_bytes header ≠ 0 → blen decoded < from_be_bytes header).
(** In terms of the two buffers. *)
Lemma frame_result_header s header decoded ending : blen header = 4 →
  frame_result (all_bytes s header decoded) ending =
  (if from_be_bytes header =? 0 then Some (Ok [])
   else if from_be_bytes header <=? blen (decoded ++ stream_bytes s) then
     match ending with
     | Finished => Some (Ok (take (N.to_nat (from_be_bytes header)) (decoded ++ stream_bytes s)))
     | Broken e => Some (Err e)
     end
   else match ending with Finished => None | Broken e => Some (Err e) end).
Proof.
  intros Hh. unfold frame_result, all_bytes. rewrite blen_app.
  assert (length header = 4%nat) as Hl by (unfold blen in Hh; lia).
  rewrite take_app_length', drop_app_length' by done.
  destruct (blen header + _ <? 4) eqn:E; [apply N.ltb_lt in E; lia|]. done.
Qed.

Lemma reading_header s s' header bs : reading s header [] → blen header < 4 →
  wf_stream s' → blen bs ≤ 4 - blen header → reading s' (header ++ bs) [].
Proof.
  intros (Hwf & Hh & _) Hlt Hwf' Hbs. split; [done|]. rewrite blen_app. split; [lia|].
  destruct (_ <? 4); [done|]. intros Hne. change (0 < from_be_bytes (header ++ bs)). lia.
Qed.
Definition reads_frame (fuel : nat) (s : ByteStream) (header decoded : bytes) : Prop :=
  match frame_result (all_bytes s header decoded) (bs_end s) with
  | Some r => (length (stream_bytes s) + 1 < fuel)%nat →
      rmap fst (read_message_from_stream fuel s header decoded) = r
  | None => read_message_from_stream fuel s header decoded = OutOfFuel
  end.
(** A turn that reads some of the header, and one that reads some of the data. *)
Lemma read_header_step fuel s header : reading s header [] → blen header < 4 →
  (∀ s' header', reading s' header' [] → reads_frame fuel s' header' []) → reads_frame (S fuel) s header [].
Proof.
  intros Hread Hlt' IH. pose proof Hread as (Hwf & Hh & Hd). apply N.ltb_lt in Hlt' as Hlt.
  unfold reads_frame in *. cbn [read_message_from_stream]. rewrite Hlt.
  pose proof (stream_read_spec s (4 - blen header) Hwf ltac:(lia)) as Hr.
  destruct (stream_read s (4 - blen header)) as [[bs s']|e| |]; [|destruct Hr as [He Hs]|done..].
  - destruct Hr as (Hwf' & He & Hb & Hlen & Hend). cbn [rbind].
    pose proof (reading_header s s' header bs Hread Hlt' Hwf' Hlen) as Hread'.
    specialize (IH s' (header ++ bs) Hread').
    replace (all_bytes s' (header ++ bs) []) with (all_bytes s header []) in IH
      by (unfold all_bytes; rewrite Hb; by rewrite <-(assoc_L (++))).
    rewrite He in IH. destruct (frame_result _ _) as [r|] eqn:Er; [|exact IH].
    intros Hf. apply IH. rewrite Hb, length_app in Hf. destruct bs as [|b bs]; simpl in Hf; [|lia].
    exfalso. destruct (Hend eq_refl) as (Hfin & Hs & _).
    unfold frame_result, all_bytes in Er. rewrite Hs in Er. cbn [app] in Er.
    rewrite app_nil_r, Hlt, Hfin in Er. discriminate.
  - unfold frame_result, all_bytes. rewrite Hs, He. cbn [app].
    rewrite app_nil_r, Hlt. done.
Qed.
Lemma read_data_step fuel s header decoded : reading s header decoded → blen header = 4 →
  (∀ s' decoded', reading s' header decoded' → reads_frame fuel s' header decoded') → reads_frame (S fuel) s header decoded.
Proof.
  intros Hread Hh4 IH. pose proof Hread as (Hwf & Hh & Hd). assert ((blen header <? 4) = false) as Hlt by (apply N.ltb_ge; lia).
  rewrite Hlt in Hd. unfold reads_frame in *. cbn [read_message_from_stream]. rewrite Hlt.
  rewrite frame_result_header by done.
  destruct (from_be_bytes header =? 0) eqn:E0; [done|].
  apply N.eqb_neq in E0. specialize (Hd E0). remember (from_be_bytes header) as len eqn:Elen.
  pose proof (stream_read_spec s (len - blen decoded) Hwf ltac:(lia)) as Hr.
  destruct (stream_read s (len - blen decoded)) as [[bs s']|e| |]; [|destruct Hr as [He Hs]|done..].
  2:{ rewrite He, Hs, app_nil_r. by destruct (len <=? blen decoded). }
  destruct Hr as (Hwf' & He & Hb & Hlen & Hend). cbn [rbind].
  destruct (blen (decoded ++ bs) =? len) eqn:Efull.
  - apply N.eqb_eq in Efull. rewrite Hb, (assoc_L (++)), blen_app.
    destruct (len <=? _) eqn:Ele; [|apply N.leb_gt in Ele; lia].
    rewrite take_app_length' by (unfold blen in Efull; lia).
    rewrite <-He. pose proof (drain_spec fuel s' Hwf') as Hdr.
    destruct (bs_end s').
    + intros Hf. rewrite length_app in Hf. destruct (drain fuel s'); try done; ospecialize (Hdr _); try lia; done.
    + intros Hf. rewrite length_app in Hf. rewrite Hdr by lia. done.
  - apply N.eqb_neq in Efull. rewrite blen_app in Efull.
    assert (reading s' header (decoded ++ bs)) as Hread'.
    { split; [done|]. split; [done|]. rewrite Hlt, <-Elen, blen_app. intros _. lia. }
    specialize (IH s' (decoded ++ bs) Hread').
    rewrite frame_result_header in IH by done. rewrite <-Elen in IH.
    apply N.eqb_neq in E0. rewrite E0 in IH. rewrite <-(assoc_L (++)), <-Hb, He in IH.
    destruct (len <=? blen (decoded ++ stream_bytes s)) eqn:Ele; [|destruct (bs_end s); [exact IH|]].
    + destruct (bs_end s); intros Hf; apply IH; rewrite Hb, length_app in Hf;
        (destruct bs as [|b bs]; simpl in Hf; [exfalso|lia]);
        destruct (Hend eq_refl) as (? & Hs & _); apply N.leb_le in Ele;
        rewrite Hs, app_nil_r in Ele; lia.
    + intros Hf. apply IH. rewrite Hb, length_app in Hf.
      destruct bs as [|b bs]; simpl in Hf; [|lia]. destruct (Hend eq_refl) as (? & _). done.
Qed.
Lemma read_message_spec fuel s header decoded : reading s header decoded → reads_frame fuel s header decoded.
Proof.
  revert s header decoded. induction fuel as [|fuel IH]; intros s header decoded Hread.
  { unfold reads_frame. destruct (frame_result _ _); [lia|done]. }
  pose proof Hread as (_ & Hh & Hd). destruct (blen header <? 4) eqn:Hlt.
  - subst decoded. apply read_header_step; [done|by apply N.ltb_lt|auto].
  - apply read_data_step; [done|apply N.ltb_ge in Hlt; lia|auto].
Qed.
End lemmas.

Section frames.

Lemma frame_result_frame data trailing ending : fits 32 (blen data) →
  frame_result (frame data ++ trailing) ending =
  match ending with
  | Finished => Some (Ok data)
  | Broken e => if blen data =? 0 then Some (Ok []) else Some (Err e)
  end.
Proof.
  intros Hfit. unfold frame. rewrite <-(assoc_L (++)).
  assert (wrap 32 (blen data) = blen data) as -> by (unfold wrap; by rewrite N.mod_small).
  remember (mkByteStream [data ++ trailing] Finished) as s eqn:Es.
  assert (stream_bytes s = data ++ trailing) as Hs by (subst s; apply app_nil_r).
  pose proof (frame_result_header s (to_be_bytes 4 (blen data)) [] ending
    (blen_to_be_bytes 4 (blen data))) as Hf.
  unfold all_bytes in Hf. rewrite Hs in Hf. cbn [app] in Hf. rewrite Hf. clear Hf.
  rewrite from_to_be_bytes by done.
  destruct (blen data =? 0) eqn:E0.
  { apply N.eqb_eq, blen_0 in E0 as ->. by destruct ending. }
  rewrite blen_app. destruct (_ <=? _) eqn:E; [|apply N.leb_gt in E; lia].
  rewrite take_app_length' by (unfold blen; lia). done.
Qed.
Lemma frame_result_cut data sent rest : fits 32 (blen data) → frame data = sent ++ rest → rest ≠ [] →
  frame_result sent Finished = None.
Proof.
  intros Hfit Hf Hne. unfold frame_result. destruct (blen sent <? 4) eqn:E4; [done|].
  apply N.ltb_ge in E4. unfold frame in Hf.
  assert (take 4 sent = to_be_bytes 4 (wrap 32 (blen data))) as Ht.
  { apply (f_equal (take 4)) in Hf. rewrite take_app_length' in Hf.
    - rewrite Hf, take_app_le; [done|]. unfold blen in E4. lia.
    - apply Nat2N.inj. symmetry. apply (blen_to_be_bytes 4). }
  rewrite Ht, from_to_be_bytes by (apply N.mod_lt; done).
  assert (wrap 32 (blen data) = blen data) as Hw by (unfold wrap; by rewrite N.mod_small).
  rewrite Hw in *. apply (f_equal blen) in Hf. rewrite !blen_app, blen_to_be_bytes in Hf.
  assert (blen rest ≠ 0) as Hr by (intros Hr; by apply blen_0 in Hr).
  destruct (blen data =? 0) eqn:E0; [apply N.eqb_eq in E0; lia|].
  rewrite blen_drop. destruct (_ <=? _) eqn:E; [apply N.leb_le in E; lia|done].
Qed.
Lemma read_message_start fuel s : wf_stream s →
  match frame_result (stream_bytes s) (bs_end s) with
  | Some r => (length (stream_bytes s) + 1 < fuel)%nat →
      rmap fst (read_message_from_stream fuel s [] []) = r
  | None => read_message_from_stream fuel s [] [] = OutOfFuel
  end.
Proof. intros Hwf. apply (read_message_spec fuel s [] []). split; [done|]. by split. Qed.
End frames.

(** ** Properties *)

(** However the stream is cut into portions, the reader returns the
    message that was framed (and ignores what follows it), after at most one
    read per byte and two more. *)
Theorem frame_roundtrip s data trailing fuel :
  wf_stream s → fits 32 (blen data) → bs_end s = Finished →
  stream_bytes s = frame data ++ trailing → (length (stream_bytes s) + 1 < fuel)%nat →
  rmap fst (read_message_from_stream fuel s [] []) = Ok data.
Proof.
  intros Hwf Hfit He Hb. pose proof (read_message_start fuel s Hwf) as Hr.
  rewrite He, Hb, (frame_result_frame data trailing Finished Hfit) in Hr. by rewrite Hb.
Qed.
Lemma frame_roundtrip_witness :
  rmap fst (read_message_from_stream 10
    (mkByteStream [[u8 0; u8 0]; [u8 0; u8 2; u8 7]; [u8 8; u8 9]] Finished) [] []) = Ok [u8 7; u8 8].
Proof.
  apply (frame_roundtrip (mkByteStream [[u8 0; u8 0]; [u8 0; u8 2; u8 7]; [u8 8; u8 9]] Finished)
    [u8 7; u8 8] [u8 9] 10).
  - repeat (constructor; [discriminate|]). constructor.
  - reflexivity.
  - reflexivity.
  - vm_compute. reflexivity.
  - simpl. lia.
Defined.

(** If the peer finishes the stream before the end of the message, the
    reader never returns: no number of reads is enough, as each of them gives
    nothing at once.  (An error of the stream does end it.) *)
Theorem truncated_message_never_returns s data rest fuel :
  wf_stream s → fits 32 (blen data) → bs_end s = Finished →
  frame data = stream_bytes s ++ rest → rest ≠ [] →
  read_message_from_stream fuel s [] [] = OutOfFuel.
Proof.
  intros Hwf Hfit He Hb Hne. pose proof (read_message_start fuel s Hwf) as Hr.
  by rewrite He, (frame_result_cut _ _ _ Hfit Hb Hne) in Hr.
Qed.
Lemma truncated_message_never_returns_witness :
  read_message_from_stream 1000 (mkByteStream [[u8 0; u8 0]] Finished) [] [] = OutOfFuel.
Proof.
  apply (truncated_message_never_returns _ [u8 7] [u8 0; u8 1; u8 7]).
  - repeat (constructor; [discriminate|]). constructor.
  - reflexivity.
  - reflexivity.
  - vm_compute. reflexivity.
  - discriminate.
Defined.
