(* ===== verification/Revocation.v ===== *)
(** * Outdated items (igniter/src/utils.rs)

    Several holders may list the same item with different timestamps; only the
    latest ones count.  [remove_with_outdated_timestamps] is generic in the
    holders and in the items. *)
From S2P Require Import Prelude.
Open Scope N_scope.

(** The traits [HasTimestampAndId] and [ContainsVec]. *)
Class HasTimestampAndId (T : Type) : Type := {
  get_id : T → string;
  get_timestamp : T → N;
}.
Class ContainsVec (S T : Type) : Type := {
  get_vec : S → list T;
  put_vec : list T → S → S;
  get_pk : S → string;
}.
(** What [get_mut_vec] means: writing to the vector changes nothing else. *)
Class ContainsVecOk (S T : Type) `{ContainsVec S T} : Prop := {
  get_put_vec l s : get_vec (put_vec l s) = l;
  get_pk_put_vec l s : get_pk (put_vec l s) = get_pk s;
}.
#[export] Hint Mode ContainsVec ! - : typeclass_instances.

Record RevokedLicense : Type := mkRevoked {
  rl_license_id : string;
  rl_provider_pubkey : string;
  rl_timestamp : N;
}.

Section remove.
Context {S T : Type} `{!HasTimestampAndId T, !ContainsVec S T}.

(** [entry(id).and_modify(..).or_insert(ts)] *)
Definition record_max (max_map : gmap string N) (item : T) : gmap string N :=
  match max_map !! get_id item with
  | Some ts => if ts <? get_timestamp item then <[get_id item := get_timestamp item]> max_map else max_map
  | None => <[get_id item := get_timestamp item]> max_map
  end.
Definition compute_max_map (data : list S) : gmap string N :=
  foldl (λ m inner, foldl record_max m (get_vec inner)) ∅ data.

(** The two closures given to [retain]. *)
Definition is_current (max_map : gmap string N) (item : T) : bool :=
  match max_map !! get_id item with Some max_ts => get_timestamp item =? max_ts | None => false end.
Fixpoint retain_current (max_map : gmap string N) (pk : string) (items : list T)
    : list T * list RevokedLicense :=
  match items with
  | [] => ([], [])
  | item :: items =>
      let '(kept, revoked) := retain_current max_map pk items in
      if is_current max_map item then (item :: kept, revoked)
      else match max_map !! get_id item with
           | Some _ => (kept, mkRevoked (get_id item) pk (get_timestamp item) :: revoked)
           | None => (kept, revoked)
           end
  end.
Fixpoint retain_first (seen : gset string) (items : list T) : list T :=
  match items with
  | [] => []
  | item :: items =>
      if bool_decide (get_id item ∈ seen) then retain_first seen items
      else item :: retain_first ({[get_id item]} ∪ seen) items
  end.
Fixpoint retain_all (max_map : gmap string N) (data : list S) : list S * list RevokedLicense :=
  match data with
  | [] => ([], [])
  | inner :: data =>
      let '(items, revoked) := retain_current max_map (get_pk inner) (get_vec inner) in
      let '(data, revoked') := retain_all max_map data in
      (put_vec items inner :: data, revoked ++ revoked')
  end.
Definition remove_with_outdated_timestamps (data : list S) : list S * list RevokedLicense :=
  let max_map := compute_max_map data in
  let '(data, revoked_licenses) := retain_all max_map data in
  let data := (λ inner, put_vec (retain_first ∅ (get_vec inner)) inner) <$> data in
  (filter (λ inner, get_vec inner ≠ []) data, revoked_licenses).

(** ** Specification *)
Definition all_items (data : list S) : list T := data ≫= get_vec.
Definition outdated (data : list S) (item : T) : bool :=
  existsb (λ other, bool_decide (get_id other = get_id item) && (get_timestamp item <? get_timestamp other))
    (all_items data).
Definition revoked_of (data : list S) (inner : S) : list RevokedLicense :=
  (λ item, mkRevoked (get_id item) (get_pk inner) (get_timestamp item)) <$>
    filter (λ item, outdated data item = true) (get_vec inner).

Lemma outdated_true data item :
  outdated data item = true ↔
  ∃ other, other ∈ all_items data ∧ get_id other = get_id item ∧ get_timestamp item < get_timestamp other.
Proof.
  unfold outdated. rewrite existsb_exists. split.
  - intros (other & Hin & [Hid Hts]%andb_true_iff). apply bool_decide_eq_true in Hid.
    apply N.ltb_lt in Hts. exists other. by apply list_elem_of_In in Hin.
  - intros (other & Hin & Hid & Hts). exists other. apply list_elem_of_In in Hin.
    split; [done|]. apply andb_true_iff. by rewrite bool_decide_eq_true, N.ltb_lt.
Qed.

(** The map holds the greatest timestamp of every identifier. *)
Definition max_of (m : gmap string N) (items : list T) : Prop :=
  (∀ item, item ∈ items → ∃ ts, m !! get_id item = Some ts ∧ get_timestamp item ≤ ts) ∧
  (∀ id ts, m !! id = Some ts → ∃ item, item ∈ items ∧ get_id item = id ∧ get_timestamp item = ts).
Lemma record_max_spec m items item : max_of m items → max_of (record_max m item) (items ++ [item]).
Proof.
  intros [Hub Hex]. unfold record_max.
  destruct (m !! get_id item) as [ts|] eqn:E; [destruct (ts <? get_timestamp item) eqn:Elt|].
  - apply N.ltb_lt in Elt. split.
    + intros x [Hx| ->%list_elem_of_singleton]%elem_of_app.
      * destruct (Hub x Hx) as (t & Ht & Hle). destruct (decide (get_id x = get_id item)) as [Eid|Eid].
        -- rewrite Eid, lookup_insert_eq. eexists. split; [done|]. rewrite Eid, E in Ht.
           injection Ht as <-. lia.
        -- rewrite lookup_insert_ne by done. eauto.
      * rewrite lookup_insert_eq. eexists. split; [done|lia].
    + intros id t [[<- <-]|[Hne Ht]]%lookup_insert_Some; [exists item; set_solver|].
      destruct (Hex id t Ht) as (x & ? & ? & ?). exists x. set_solver.
  - apply N.ltb_ge in Elt. split.
    + intros x [Hx| ->%list_elem_of_singleton]%elem_of_app; [by apply Hub|eauto].
    + intros id t Ht. destruct (Hex id t Ht) as (x & ? & ? & ?). exists x. set_solver.
  - split.
    + intros x [Hx| ->%list_elem_of_singleton]%elem_of_app.
      * destruct (Hub x Hx) as (t & Ht & Hle). rewrite lookup_insert_ne by congruence. eauto.
      * rewrite lookup_insert_eq. eexists. split; [done|lia].
    + intros id t [[<- <-]|[Hne Ht]]%lookup_insert_Some; [exists item; set_solver|].
      destruct (Hex id t Ht) as (x & ? & ? & ?). exists x. set_solver.
Qed.

Lemma record_all_spec m items l : max_of m items → max_of (foldl record_max m l) (items ++ l).
Proof.
  revert m items. induction l as [|x l IH]; intros m items Hm; simpl; [by rewrite app_nil_r|].
  rewrite (cons_middle x), (assoc_L (++)). by apply IH, record_max_spec.
Qed.
Lemma compute_max_map_spec data : max_of (compute_max_map data) (all_items data).
Proof.
  unfold compute_max_map, all_items.
  assert (∀ m items, max_of m items →
    max_of (foldl (λ m inner, foldl record_max m (get_vec inner)) m data) (items ++ (data ≫= get_vec))) as Hgen.
  { induction data as [|inner data IH]; intros m items Hm; simpl; [by rewrite app_nil_r|].
    rewrite (assoc_L (++)). by apply IH, record_all_spec. }
  apply (Hgen ∅ []). split; [intros x Hx; by apply elem_of_nil in Hx|]. intros id ts. by rewrite lookup_empty.
Qed.
Lemma is_current_spec data item : item ∈ all_items data →
  is_current (compute_max_map data) item = negb (outdated data item) ∧
  is_Some (compute_max_map data !! get_id item).
Proof.
  intros Hin. destruct (compute_max_map_spec data) as [Hub Hex].
  destruct (Hub item Hin) as (ts & Hts & Hle). split; [|by rewrite Hts].
  unfold is_current. rewrite Hts. destruct (outdated data item) eqn:Eo; simpl.
  - apply outdated_true in Eo as (other & Ho & Hid & Hlt).
    destruct (Hub other Ho) as (ts' & Hts' & Hle'). rewrite Hid, Hts in Hts'. injection Hts' as <-.
    apply N.eqb_neq. lia.
  - apply N.eqb_eq. destruct (Hex _ _ Hts) as (other & Ho & Hid & <-).
    destruct (decide (get_timestamp item < get_timestamp other)); [|lia].
    assert (outdated data item = true); [|congruence]. apply outdated_true. eauto.
Qed.
Lemma retain_current_spec data pk items : (∀ item, item ∈ items → item ∈ all_items data) →
  retain_current (compute_max_map data) pk items =
  (filter (λ item, outdated data item = false) items,
   (λ item, mkRevoked (get_id item) pk (get_timestamp item)) <$>
     filter (λ item, outdated data item = true) items).
Proof.
  induction items as [|item items IH]; intros Hin; [done|]. simpl.
  rewrite IH by (intros x Hx; apply Hin; by right).
  destruct (is_current_spec data item) as [-> [ts ->]]; [apply Hin; by left|].
  rewrite !filter_cons. by destruct (outdated data item).
Qed.
Lemma retain_all_spec data data' : (∀ item, item ∈ all_items data' → item ∈ all_items data) →
  retain_all (compute_max_map data) data' =
  ((λ inner, put_vec (filter (λ item, outdated data item = false) (get_vec inner)) inner) <$> data',
   data' ≫= revoked_of data).
Proof.
  induction data' as [|inner data' IH]; intros Hin; [done|]. cbn [retain_all].
  rewrite (retain_current_spec data), IH; [done|..]; intros x Hx; apply Hin; simpl; set_solver.
Qed.

(** [retain_first] keeps the first item of every identifier. *)
Lemma retain_first_sublist seen items : sublist (retain_first seen items) items.
Proof.
  revert seen. induction items as [|x items IH]; intros seen; simpl; [done|].
  case_bool_decide; by constructor.
Qed.
Lemma retain_first_fresh seen items x : x ∈ retain_first seen items → get_id x ∉ seen.
Proof.
  revert seen. induction items as [|y items IH]; intros seen; simpl; [by intros ?%elem_of_nil|].
  case_bool_decide; [apply IH|]. intros [->|Hx]%elem_of_cons; [done|].
  intros Hin. apply (IH _ Hx). set_solver.
Qed.
Lemma retain_first_NoDup seen items : NoDup (get_id <$> retain_first seen items).
Proof.
  revert seen. induction items as [|x items IH]; intros seen; simpl; [constructor|].
  case_bool_decide; [apply IH|]. simpl. constructor; [|apply IH].
  intros (y & Hy & Hin)%list_elem_of_fmap. apply retain_first_fresh in Hin. set_solver.
Qed.
Lemma retain_first_complete seen items x : x ∈ items → get_id x ∉ seen →
  ∃ y, y ∈ retain_first seen items ∧ get_id y = get_id x.
Proof.
  revert seen. induction items as [|z items IH]; intros seen Hx Hs; [by apply elem_of_nil in Hx|].
  simpl. case_bool_decide as Hz.
  - apply elem_of_cons in Hx as [->|Hx]; [done|]. by apply IH.
  - destruct (decide (get_id x = get_id z)) as [E|E]; [exists z; split; [by left|done]|].
    apply elem_of_cons in Hx as [->|Hx]; [done|].
    destruct (IH ({[get_id z]} ∪ seen) Hx) as (y & Hy & Hid); [set_solver|].
    exists y. split; [by right|done].
Qed.

Section result.
Context `{!ContainsVecOk S T}.

(** The items of a holder that stay. *)
Definition current_of (data : list S) (inner : S) : list T :=
  retain_first ∅ (filter (λ item, outdated data item = false) (get_vec inner)).
Lemma remove_result data :
  remove_with_outdated_timestamps data =
  (filter (λ inner, get_vec inner ≠ []) ((λ inner, put_vec (current_of data inner)
     (put_vec (filter (λ item, outdated data item = false) (get_vec inner)) inner)) <$> data),
   data ≫= revoked_of data).
Proof.
  unfold remove_with_outdated_timestamps. rewrite (retain_all_spec data data) by done.
  f_equal. f_equal. rewrite <-list_fmap_compose. apply list_fmap_ext. intros i inner _. simpl.
  unfold current_of. by rewrite get_put_vec.
Qed.
Lemma elem_of_kept data s : s ∈ (remove_with_outdated_timestamps data).1 ↔
  ∃ inner, inner ∈ data ∧ current_of data inner ≠ [] ∧
    s = put_vec (current_of data inner)
          (put_vec (filter (λ item, outdated data item = false) (get_vec inner)) inner).
Proof.
  rewrite remove_result. simpl. rewrite list_elem_of_filter, list_elem_of_fmap. split.
  - intros (Hne & inner & -> & Hin). rewrite get_put_vec in Hne. eauto.
  - intros (inner & Hin & Hne & ->). rewrite get_put_vec. eauto.
Qed.
Lemma elem_of_current data inner item :
  item ∈ current_of data inner → item ∈ get_vec inner ∧ outdated data item = false.
Proof.
  intros Hi. pose proof (retain_first_sublist ∅ (filter (λ item, outdated data item = false) (get_vec inner)))
    as Hsub. apply sublist_submseteq in Hsub. eapply elem_of_submseteq in Hsub; [|exact Hi].
  by apply list_elem_of_filter in Hsub as [? ?].
Qed.
End result.
End remove.

(** ** Property *)

(** C21: an item is reported as outdated exactly when some holder lists its
    identifier with a later timestamp, once per listing and in order, with
    the key of its holder and its own timestamp; the holders that stay are
    those with a current item, under their keys, each with distinct
    identifiers, none outdated; and every current item keeps a listing of its
    identifier in its holder. *)
Theorem outdated_items_exact {S T : Type} `{HasTimestampAndId T, ContainsVecOk S T} (data : list S) :
  let '(kept, revoked) := remove_with_outdated_timestamps data in
  revoked = data ≫= revoked_of data ∧
  (∀ s, s ∈ kept → get_vec s ≠ [] ∧ NoDup (get_id <$> get_vec s) ∧
     (∀ item, item ∈ get_vec s → outdated data item = false) ∧
     ∃ inner, inner ∈ data ∧ get_pk s = get_pk inner ∧ sublist (get_vec s) (get_vec inner)) ∧
  (∀ inner item, inner ∈ data → item ∈ get_vec inner → outdated data item = false →
     ∃ s item', s ∈ kept ∧ get_pk s = get_pk inner ∧ item' ∈ get_vec s ∧ get_id item' = get_id item).
Proof.
  destruct (remove_with_outdated_timestamps data) as [kept revoked] eqn:E.
  pose proof (elem_of_kept data) as Hkept. rewrite E in Hkept. simpl in Hkept. split_and!.
  - rewrite remove_result in E. by injection E as _ <-.
  - intros s (inner & Hin & Hne & ->)%Hkept. rewrite get_put_vec. split_and!.
    + done.
    + apply retain_first_NoDup.
    + intros item Hi. by apply (elem_of_current data inner).
    + exists inner. rewrite !get_pk_put_vec. split_and!; [done..|].
      etrans; [apply retain_first_sublist|apply sublist_filter].
  - intros inner item Hin Hitem Ho.
    destruct (retain_first_complete ∅ (filter (λ item, outdated data item = false) (get_vec inner)) item)
      as (y & Hy & Hid); [by apply list_elem_of_filter|set_solver|].
    eexists _, y. split; [apply Hkept; exists inner; split; [done|split; [|done]]|].
    + intros Hnil. unfold current_of in Hnil. rewrite Hnil in Hy. by apply elem_of_nil in Hy.
    + by rewrite !get_pk_put_vec, get_put_vec.
Qed.
(** The holders of the unit tests: a key with its items. *)
Module TestHolders.
#[export] Instance pair_item : HasTimestampAndId (string * N) := {| get_id := fst; get_timestamp := snd |}.
#[export] Instance pair_holder : ContainsVec (string * list (string * N)) (string * N) :=
  {| get_vec := snd; put_vec l s := (s.1, l); get_pk := fst |}.
#[export] Instance pair_holder_ok : ContainsVecOk (string * list (string * N)) (string * N).
Proof. by split. Qed.
Definition data : list (string * list (string * N)) :=
  [("pk_0", [("a", 10); ("b", 20)]); ("pk_1", [("a", 15); ("c", 30)]); ("pk_2", [("b", 5)])].
End TestHolders.
Import TestHolders.
Lemma outdated_items_exact_witness :
  remove_with_outdated_timestamps (T:=string * N) TestHolders.data =
    ([("pk_0", [("b", 20)]); ("pk_1", [("a", 15); ("c", 30)])],
     [mkRevoked "a" "pk_0" 10; mkRevoked "b" "pk_2" 5]) ∧
  TestHolders.data ≫= revoked_of (T:=string * N) TestHolders.data = [mkRevoked "a" "pk_0" 10; mkRevoked "b" "pk_2" 5].
Proof.
  pose proof (outdated_items_exact (T:=string * N) TestHolders.data) as H.
  destruct (remove_with_outdated_timestamps (T:=string * N) TestHolders.data) as [kept revoked] eqn:E.
  destruct H as (Hr & _). split; [vm_compute in E; rewrite <-E; reflexivity|].
  rewrite <-Hr. vm_compute in E. injection E as _ <-. reflexivity.
Defined.
