(* ===== verification/Licensing.v ===== *)
(** * Licences (igniter/src: lib.rs, config.rs, open_api/routes.rs)

    What a node publishes about its licences in its gossip state, how the
    signatures of a licence are checked, and how the state of the cluster is
    verified, exported and shown.  Ed25519, base64, hexadecimal and JSON are
    third-party code and appear as interfaces. *)
From stdpp Require Import pretty countable.
From S2P Require Import Prelude Types Listener NodeState Cluster FailureDetector Chitchat Revocation.
Open Scope N_scope.

Definition MAX_ALLOWED_LICENSES : N := 20.
Definition MAX_PROXIES : N := 10.
(** [CARGO_PKG_VERSION], the workspace version. *)
Definition CARGO_PKG_VERSION : string := "0.4.1".
Definition BACKEND_VERIFYING_KEY (dev_mode : bool) : string :=
  if dev_mode then "ee99af158c8b50f6bee3360615e08db957bd898568638f308d8f320cf4e37638"
  else "75631f108a226740a8649ff7946bf19d2884c373615d27f5b6d1863b5d97adf3".

(** ** Data *)
Record LicenceSignature : Type := mkSignature {
  license_id : string;
  license_owner_pubkey : string;
  provider_pubkey : string;
  delegation_sig : string;
  delegation_confirm_sig : string;
  sig_timestamp : N;
  license_proof_sig : string;
}.
#[export] Instance LicenceSignature_eq_dec : EqDecision LicenceSignature.
Proof. solve_decision. Defined.
#[export] Instance signature_item : HasTimestampAndId LicenceSignature :=
  {| get_id := license_id; get_timestamp := sig_timestamp |}.
Record ProxyConfig : Type := mkProxy {
  px_socket_address : option SocketAddr;
  px_cert : option string;
}.
Inductive ZerostateKeys : Type := Pubkey | BlsPubkey | Proxies | Licenses | Signatures | KeyVersion.
(** [Display], in snake case. *)
Definition key_name (k : ZerostateKeys) : string :=
  match k with
  | Pubkey => "pubkey" | BlsPubkey => "bls_pubkey" | Proxies => "proxies"
  | Licenses => "licenses" | Signatures => "signatures" | KeyVersion => "version"
  end.
(** The parts of [Params] that are published. *)
Record Params : Type := mkParams {
  wallet_pubkey : string;
  bls_pubkey : string;
  config_proxies : list ProxyConfig;
  config_signatures : list LicenceSignature;
}.

Inductive IgniterError : Type :=
  | DelegationSig | DelegationConfirmSig | LicenseProofSig
  | NoLicenses | InvalidProxies | TooManyLicenses
  | DuplicateLicenseId (id : string) | InvalidBackendKey.
(** The messages of [validate_licenses]: the property is missing in gossip,
    must be a HashMap, does not match the signatures. *)
Inductive LicensesError : Type := LicensesMissing | LicensesNotHashMap | LicensesMismatch.
#[export] Instance LicensesError_eq_dec : EqDecision LicensesError.
Proof. solve_decision. Defined.
#[export] Instance IgniterError_eq_dec : EqDecision IgniterError.
Proof. solve_decision. Defined.
(** [Result<A, IgniterError>], with its [?]. *)
Definition result (A : Type) : Type := A + IgniterError.
Definition try_ {A B} (r : result A) (f : A → result B) : result B :=
  match r with inl a => f a | inr e => inr e end.
Notation "'let?' x ':=' m 'in' k" := (try_ m (λ x, k))
  (at level 200, x pattern, m at level 200, k at level 200, right associativity) : rust_scope.

(** ** Third-party code *)
Class Crypto : Type := {
  base64_decode : string → option bytes;
  hex_decode : string → option bytes;
  ed25519_verify : bytes → bytes → bytes → bool;
}.
Class Json : Type := {
  signatures_to_json : list LicenceSignature → string;
  signatures_of_json : string → option (list LicenceSignature);
  licenses_to_json : gmap string Z → string;
  licenses_of_json : string → option (gmap string Z);
  proxies_to_json : list ProxyConfig → string;
  proxies_of_json : string → option (list ProxyConfig);
}.
(** What is written can be read back. *)
Class JsonOk `{Json} : Prop := {
  signatures_json l : signatures_of_json (signatures_to_json l) = Some l;
  licenses_json m : licenses_of_json (licenses_to_json m) = Some m;
  proxies_json l : proxies_of_json (proxies_to_json l) = Some l;
}.

(** ** Signatures (lib.rs) *)
Definition license_proof_prepare (license_id license_owner_pubkey : string) : bytes :=
  str_bytes (license_id +:+ license_owner_pubkey).
Definition delegation_prepare (license_id license_owner_pubkey provider_pubkey : string)
    (timestamp : N) : bytes :=
  str_bytes (license_owner_pubkey +:+ provider_pubkey +:+ license_id +:+ pretty timestamp).
Definition delegation_confirm_prepare
    (license_id license_owner_pubkey provider_pubkey bk_node_owner_pubkey bk_bls_pubkey : string)
    : bytes :=
  str_bytes (license_id +:+ license_owner_pubkey +:+ provider_pubkey +:+ bk_node_owner_pubkey +:+
    bk_bls_pubkey).

Section signatures.
Context `{Crypto}.

Definition check_license_proof_sig (s : LicenceSignature) (backend_pk : bytes) : result unit :=
  let message := license_proof_prepare (license_id s) (license_owner_pubkey s) in
  match base64_decode (license_proof_sig s) with
  | None => inr LicenseProofSig
  | Some signature =>
      if ed25519_verify backend_pk message signature then inl () else inr LicenseProofSig
  end.
(** The common part of the two other checks: a base64 signature under a key
    in hexadecimal that must be 32 bytes long. *)
Definition verify_with (pub_key signature : string) (data : bytes) : bool :=
  match base64_decode signature, hex_decode pub_key with
  | Some signature, Some pub_key =>
      bool_decide (length pub_key = 32%nat) && ed25519_verify pub_key data signature
  | _, _ => false
  end.
Definition check_delegation_sig (s : LicenceSignature) : result unit :=
  if verify_with (license_owner_pubkey s) (delegation_sig s)
       (delegation_prepare (license_id s) (license_owner_pubkey s) (provider_pubkey s) (sig_timestamp s))
  then inl () else inr DelegationSig.
Definition check_delegation_confirm_sig (s : LicenceSignature)
    (bk_node_owner_pubkey bk_bls_pubkey : string) : result unit :=
  if verify_with (provider_pubkey s) (delegation_confirm_sig s)
       (delegation_confirm_prepare (license_id s) (license_owner_pubkey s) (provider_pubkey s)
          bk_node_owner_pubkey bk_bls_pubkey)
  then inl () else inr DelegationConfirmSig.
Definition check_signatures (s : LicenceSignature) (backend_pk : bytes)
    (bk_node_owner_pubkey bk_bls_pubkey : string) : result unit :=
  let? _ := check_license_proof_sig s backend_pk in
  let? _ := check_delegation_sig s in
  check_delegation_confirm_sig s bk_node_owner_pubkey bk_bls_pubkey.

Record VerifiedSignatures : Type := mkVerified { vs_inner : list LicenceSignature }.
(** The loop of [create] over the signatures. *)
Fixpoint check_all (backend_pk : bytes) (bk_node_owner_pubkey bk_bls_pubkey : string)
    (seen : gset string) (signatures : list LicenceSignature) : result unit :=
  match signatures with
  | [] => inl ()
  | s :: signatures =>
      let? _ := check_signatures s backend_pk bk_node_owner_pubkey bk_bls_pubkey in
      if bool_decide (license_id s ∈ seen) then inr (DuplicateLicenseId (license_id s))
      else check_all backend_pk bk_node_owner_pubkey bk_bls_pubkey ({[license_id s]} ∪ seen) signatures
  end.
Definition create (signatures : list LicenceSignature)
    (backend_pk bk_node_owner_pubkey bk_bls_pubkey : string) : result VerifiedSignatures :=
  if MAX_ALLOWED_LICENSES <? blen signatures then inr TooManyLicenses
  else if bool_decide (signatures = []) then inr NoLicenses
  else
    match hex_decode backend_pk with
    | None => inr InvalidBackendKey
    | Some backend_pubkey_bytes =>
        if bool_decide (length backend_pubkey_bytes = 32%nat) then
          let? _ := check_all backend_pubkey_bytes bk_node_owner_pubkey bk_bls_pubkey ∅ signatures in
          inl (mkVerified signatures)
        else inr InvalidBackendKey
    end.
End signatures.

(** ** Published and verified states (lib.rs, routes.rs) *)
Definition count_owner (acc : gmap string Z) (s : LicenceSignature) : gmap string Z :=
  <[license_owner_pubkey s := (default 0 (acc !! license_owner_pubkey s) + 1)%Z]> acc.
Definition derive_licences (signatures : VerifiedSignatures) : gmap string Z :=
  foldl count_owner ∅ (vs_inner signatures).

Record VerifiedNodeStateNoLicenses : Type := mkNoLicenses {
  nl_pubkey : string;
  nl_bls_key : string;
  nl_signatures : list LicenceSignature;
  nl_version : string;
}.
#[export] Instance state_holder : ContainsVec VerifiedNodeStateNoLicenses LicenceSignature := {|
  get_vec := nl_signatures;
  put_vec l s := mkNoLicenses (nl_pubkey s) (nl_bls_key s) l (nl_version s);
  get_pk := nl_pubkey;
|}.
#[export] Instance state_holder_ok : ContainsVecOk VerifiedNodeStateNoLicenses LicenceSignature.
Proof. by split. Qed.
Record VerifiedNodeState : Type := mkVerifiedState {
  vn_pubkey : string;
  vn_bls_key : string;
  vn_signatures : list LicenceSignature;
  vn_licenses : gmap string Z;
  vn_version : string;
}.

Section states.
Context `{Crypto, Json} (dev_mode : bool).

(** [None] stands for the [anyhow::Error] that is only logged. *)
Definition from_gossip (section : gmap string string) : option VerifiedNodeStateNoLicenses :=
  pubkey ← section !! key_name Pubkey;
  bls_key ← section !! key_name BlsPubkey;
  json ← section !! key_name Signatures;
  signatures ← signatures_of_json json;
  match create signatures (BACKEND_VERIFYING_KEY dev_mode) pubkey bls_key with
  | inr _ => None
  | inl verified_signatures =>
      version ← section !! key_name KeyVersion;
      Some (mkNoLicenses pubkey bls_key (vs_inner verified_signatures) version)
  end.
Definition from_checked_state (state : VerifiedNodeStateNoLicenses) : VerifiedSignatures :=
  mkVerified (nl_signatures state).
Definition verified_node_state (s : VerifiedNodeStateNoLicenses) : VerifiedNodeState :=
  mkVerifiedState (nl_pubkey s) (nl_bls_key s) (nl_signatures s)
    (derive_licences (from_checked_state s)) (nl_version s).
(** The filtered states are computed and dropped; the states are those given. *)
Definition from_state (state : list VerifiedNodeStateNoLicenses)
    : list VerifiedNodeState * list RevokedLicense :=
  let '(_, problem) := remove_with_outdated_timestamps state in
  (verified_node_state <$> state, problem).

Definition gossip_section (ns : NodeState) : gmap string string := list_to_map (live_key_values ns).
Definition extract_verified_state_without_licences (node_states : list NodeState)
    : list VerifiedNodeState * list RevokedLicense :=
  from_state (omap (λ ns, from_gossip (gossip_section ns)) node_states).
(** [Api::export] *)
Definition export (node_states : list NodeState) : list VerifiedNodeState :=
  (extract_verified_state_without_licences node_states).1.
(** [Api::get_revoked_licenses], before it is printed. *)
Definition get_revoked_licenses (node_states : list NodeState) (provider_pubkey : string)
    : list RevokedLicense :=
  filter (λ r, rl_provider_pubkey r = provider_pubkey)
    (extract_verified_state_without_licences node_states).2.

Definition check_proxy_socket_addresses (str_value : option string) : bool :=
  match str_value with
  | None => true
  | Some str_value =>
      match proxies_of_json str_value with
      | None => false
      | Some records =>
          if MAX_PROXIES <? blen records then false
          else forallb (λ p, negb (bool_decide (is_Some (px_cert p)) &&
                                   bool_decide (px_socket_address p = None))) records
      end
  end.
Definition validate_licenses (k_v : gmap string string) (verified_licenses : gmap string Z) : unit + LicensesError :=
  match k_v !! key_name Licenses with
  | None => inr LicensesMissing
  | Some json_str =>
      match licenses_of_json json_str with
      | None => inr LicensesNotHashMap
      | Some map => if bool_decide (map = verified_licenses) then inl () else inr LicensesMismatch
      end
  end.
(** The closure of [Api::index]: whether a node is shown.  The verified
    states and the states that are shown come from two snapshots. *)
Definition shown (verified_state : list VerifiedNodeState) (ns : NodeState) : bool :=
  let k_v := gossip_section ns in
  match from_gossip k_v with
  | None => false
  | Some state =>
      match head (filter (λ s, vn_pubkey s = nl_pubkey state) verified_state) with
      | None => false
      | Some s =>
          match validate_licenses k_v (vn_licenses s) with
          | inr _ => false
          | inl () => check_proxy_socket_addresses (k_v !! key_name Proxies)
          end
      end
  end.
Definition index (first_snapshot second_snapshot : list NodeState) : list NodeState :=
  filter (λ ns, shown (extract_verified_state_without_licences first_snapshot).1 ns = true)
    second_snapshot.

(** [Params::to_gossip] *)
Definition to_gossip (p : Params) : result (list (string * string)) :=
  let proxies := proxies_to_json (config_proxies p) in
  if negb (check_proxy_socket_addresses (Some proxies)) then inr InvalidProxies
  else
    let? verified_signatures :=
      create (config_signatures p) (BACKEND_VERIFYING_KEY dev_mode) (wallet_pubkey p) (bls_pubkey p) in
    let licenses := derive_licences verified_signatures in
    inl [(key_name Pubkey, wallet_pubkey p); (key_name BlsPubkey, bls_pubkey p);
         (key_name Proxies, proxies); (key_name KeyVersion, CARGO_PKG_VERSION);
         (key_name Signatures, signatures_to_json (vs_inner verified_signatures));
         (key_name Licenses, licenses_to_json licenses)].
End states.

(** ** Checked signatures *)
Section checked.
Context `{Crypto}.

(** The three signatures of a licence: of the backend on the licence and its
    owner, of the owner on the delegation, of the provider on the node. *)
Definition signature_valid (backend_pk : bytes) (bk_node_owner_pubkey bk_bls_pubkey : string)
    (s : LicenceSignature) : Prop :=
  (∃ signature, base64_decode (license_proof_sig s) = Some signature ∧
     ed25519_verify backend_pk (license_proof_prepare (license_id s) (license_owner_pubkey s))
       signature = true) ∧
  verify_with (license_owner_pubkey s) (delegation_sig s)
    (delegation_prepare (license_id s) (license_owner_pubkey s) (provider_pubkey s)
       (sig_timestamp s)) = true ∧
  verify_with (provider_pubkey s) (delegation_confirm_sig s)
    (delegation_confirm_prepare (license_id s) (license_owner_pubkey s) (provider_pubkey s)
       bk_node_owner_pubkey bk_bls_pubkey) = true.
Lemma try_inl {A B} (r : result A) (f : A → result B) b :
  try_ r f = inl b ↔ ∃ a, r = inl a ∧ f a = inl b.
Proof. destruct r; simpl; naive_solver. Qed.
Lemma check_signatures_inl s pk owner bls u :
  check_signatures s pk owner bls = inl u ↔ signature_valid pk owner bls s.
Proof.
  unfold check_signatures, signature_valid, check_license_proof_sig, check_delegation_sig,
    check_delegation_confirm_sig. destruct u.
  destruct (base64_decode (license_proof_sig s)) as [sg|]; simpl;
    [|split; [done|by intros [(sg & ? & _) _]]].
  destruct (ed25519_verify _ _ sg) eqn:E1; simpl;
    [|split; [done|intros [(sg' & [= <-] & ?) _]; congruence]].
  destruct (verify_with (license_owner_pubkey s) _ _); simpl; [|split; [done|by intros (_ & ? & _)]].
  destruct (verify_with (provider_pubkey s) _ _); split; try done; [|by intros (_ & _ & ?)].
  intros _. split; [by exists sg|done].
Qed.
Lemma check_all_inl pk owner bls seen l u : check_all pk owner bls seen l = inl u ↔
  Forall (signature_valid pk owner bls) l ∧ NoDup (license_id <$> l) ∧
  Forall (λ s, license_id s ∉ seen) l.
Proof.
  revert seen. induction l as [|s l IH]; intros seen; simpl.
  { destruct u. repeat (split; try done); constructor. }
  rewrite try_inl, NoDup_cons, !Forall_cons. setoid_rewrite check_signatures_inl.
  case_bool_decide as Hs.
  { split; [by intros (? & _ & ?)|]. intros (_ & _ & ? & _). done. }
  setoid_rewrite IH. setoid_rewrite not_elem_of_union. setoid_rewrite not_elem_of_singleton.
  rewrite list_elem_of_fmap. setoid_rewrite Forall_forall. split.
  - intros (_ & Hv & Hl & Hnd & Hf). split_and!; try done.
    + intros (x & Hx & Hin). by destruct (Hf x Hin).
    + intros x Hx. by apply Hf.
  - intros ([Hv Hl] & [Hn Hnd] & _ & Hf). exists (). split_and!; try done.
    intros x Hx. split; [|by apply Hf]. intros Heq. apply Hn. by exists x.
Qed.
Lemma create_inl signatures backend_pk owner bls v :
  create signatures backend_pk owner bls = inl v ↔
  v = mkVerified signatures ∧ signatures ≠ [] ∧ blen signatures ≤ 20 ∧
  NoDup (license_id <$> signatures) ∧
  ∃ pk, hex_decode backend_pk = Some pk ∧ length pk = 32%nat ∧
    Forall (signature_valid pk owner bls) signatures.
Proof.
  unfold create, MAX_ALLOWED_LICENSES. destruct (20 <? blen signatures) eqn:E.
  { apply N.ltb_lt in E. split; [done|]. intros (_ & _ & ? & _). lia. }
  apply N.ltb_ge in E. case_bool_decide as Hne; [naive_solver|].
  destruct (hex_decode backend_pk) as [pk|]; [|naive_solver].
  case_bool_decide as Hlen; [|naive_solver].
  rewrite try_inl. setoid_rewrite check_all_inl. split.
  - intros (_ & (Hv & Hnd & _) & [= <-]). eauto 10.
  - intros (-> & _ & _ & Hnd & pk' & [= <-] & _ & Hv). exists (). split_and!; try done.
    apply Forall_true. intros x. apply not_elem_of_empty.
Qed.
End checked.

(** ** Counting licences *)
Lemma derive_licences_count signatures owner :
  derive_licences (mkVerified signatures) !! owner =
  match length (filter (λ s, license_owner_pubkey s = owner) signatures) with
  | O => None
  | S n => Some (Z.of_nat (S n))
  end.
Proof.
  unfold derive_licences. simpl.
  assert (∀ acc, foldl count_owner acc signatures !! owner =
    match length (filter (λ s, license_owner_pubkey s = owner) signatures) with
    | O => acc !! owner
    | S n => Some (default 0 (acc !! owner) + Z.of_nat (S n))%Z
    end) as Hgen.
  { induction signatures as [|s l IH]; intros acc; simpl; [done|]. rewrite IH, filter_cons.
    unfold count_owner. case_decide as E; simpl.
    - rewrite E, lookup_insert_eq. simpl. destruct (length _); f_equal; lia.
    - rewrite lookup_insert_ne by done. done. }
  rewrite Hgen, lookup_empty. by destruct (length _).
Qed.

(** ** The published state *)
Lemma gossip_section_lookup ns k : gossip_section ns !! k = get ns k.
Proof.
  unfold gossip_section, live_key_values, key_values_including_deleted, get, get_versioned.
  assert (NoDup ((λ p : string * VersionedValue, (p.1, vv_value p.2)) <$>
    filter (λ p, is_deleted p.2 = false) (btree_items (key_values ns))).*1) as Hnd.
  { rewrite <-list_fmap_compose. change (fst ∘ (λ p : string * VersionedValue, (p.1, vv_value p.2)))
      with (@fst string VersionedValue).
    eapply sublist_NoDup; [apply (btree_items_NoDup (key_values ns))|]. apply fmap_sublist, sublist_filter. }
  destruct (key_values ns !! k) as [v|] eqn:E; simpl.
  - destruct (is_deleted v) eqn:Ed.
    + apply not_elem_of_list_to_map. intros ([k' w] & Heq & Hin)%list_elem_of_fmap. simpl in Heq.
      apply list_elem_of_fmap in Hin as ([k2 v2] & [= -> ->] & Hin). subst k2.
      apply list_elem_of_filter in Hin as [Hd Hin%elem_of_btree_items]. simpl in *. congruence.
    + apply elem_of_list_to_map; [done|]. apply list_elem_of_fmap. exists (k, v). split; [done|].
      apply list_elem_of_filter. by rewrite elem_of_btree_items.
  - apply not_elem_of_list_to_map. intros ([k' w] & Heq & Hin)%list_elem_of_fmap. simpl in Heq.
    apply list_elem_of_fmap in Hin as ([k2 v2] & [= -> ->] & Hin). subst k2.
    apply list_elem_of_filter in Hin as [_ Hin%elem_of_btree_items]. congruence.
Qed.
Lemma set_get ls ns key value r k : ns_inv ns → max_version ns < u64_max →
  set ls ns key value = Ok r →
  ns_inv r.1 ∧ max_version r.1 ≤ max_version ns + 1 ∧
  get r.1 k = if decide (k = key) then Some value else get ns k.
Proof.
  intros Hi Hroom Hr. destruct (set_cases _ _ _ Hi Hroom _ _ Hr) as [[(v & Hk & Hv & Hs) ->]|[_ Hst]].
  - simpl. split_and!; [done|lia|]. case_decide as E; [|done]. subst k. unfold get, get_versioned.
    rewrite Hk. simpl. unfold is_deleted. rewrite Hs. by rewrite Hv.
  - rewrite Hst. split_and!; [apply store_inv; [done|simpl; lia]|simpl; lia|].
    unfold get, get_versioned. simpl. case_decide as E; [subst k; by rewrite lookup_insert_eq|].
    by rewrite lookup_insert_ne by done.
Qed.
Lemma set_all_get ls ns kvs r : ns_inv ns → max_version ns + blen kvs ≤ u64_max → NoDup kvs.*1 →
  set_all ls ns kvs = Ok r →
  ∀ k, get r.1 k = match (list_to_map kvs : gmap string string) !! k with
                   | Some v => Some v | None => get ns k end.
Proof.
  intros Hi Hroom Hnd Hr. revert ns r Hi Hroom Hr. induction kvs as [|[key value] kvs IH];
    intros ns r Hi Hroom Hr k; cbn [set_all] in Hr.
  - apply Ok_inj in Hr as <-. simpl. by rewrite lookup_empty.
  - apply rbind_Ok in Hr as ([ns1 calls] & Hset & Hr).
    apply rbind_Ok in Hr as ([ns2 calls2] & Hall & Hr). apply Ok_inj in Hr as <-.
    rewrite blen_cons in Hroom. rewrite fmap_cons in Hnd. apply NoDup_cons in Hnd as [Hn Hnd].
    destruct (set_get ls ns key value _ k Hi ltac:(lia) Hset) as (Hi1 & Hm1 & Hg). simpl in Hi1, Hm1, Hg.
    specialize (IH Hnd ns1 _ Hi1 ltac:(lia) Hall k). simpl in IH |- *. rewrite IH, Hg.
    destruct (decide (k = key)) as [->|Hne].
    + rewrite lookup_insert_eq. apply not_elem_of_list_to_map in Hn. simpl in Hn. by rewrite Hn.
    + by rewrite lookup_insert_ne.
Qed.

Section cluster.
Context `{Crypto, Json} (dev_mode : bool).

Lemma extract_states node_states :
  (extract_verified_state_without_licences dev_mode node_states).1 =
  verified_node_state <$> omap (λ ns, from_gossip dev_mode (gossip_section ns)) node_states.
Proof.
  unfold extract_verified_state_without_licences, from_state.
  by destruct (remove_with_outdated_timestamps _).
Qed.
Lemma elem_of_extract node_states v :
  v ∈ (extract_verified_state_without_licences dev_mode node_states).1 ↔
  ∃ ns st, ns ∈ node_states ∧ from_gossip dev_mode (gossip_section ns) = Some st ∧
    v = verified_node_state st.
Proof.
  rewrite extract_states, list_elem_of_fmap. setoid_rewrite list_elem_of_omap. naive_solver.
Qed.
Lemma extract_revoked node_states :
  (extract_verified_state_without_licences dev_mode node_states).2 =
  let states := omap (λ ns, from_gossip dev_mode (gossip_section ns)) node_states in
  states ≫= revoked_of states.
Proof.
  unfold extract_verified_state_without_licences, from_state. by rewrite remove_result.
Qed.

(** A node that verifies and publishes the licences it has signatures for. *)
Definition valid_node (ns : NodeState) : Prop :=
  ∃ st, from_gossip dev_mode (gossip_section ns) = Some st ∧
    validate_licenses (gossip_section ns) (derive_licences (from_checked_state st)) = inl () ∧
    check_proxy_socket_addresses (gossip_section ns !! key_name Proxies) = true.
(** No two nodes of the snapshot claim one key with different states. *)
Definition distinct_keys (node_states : list NodeState) : Prop :=
  ∀ ns1 ns2 st1 st2, ns1 ∈ node_states → ns2 ∈ node_states →
    from_gossip dev_mode (gossip_section ns1) = Some st1 →
    from_gossip dev_mode (gossip_section ns2) = Some st2 →
    nl_pubkey st1 = nl_pubkey st2 → st1 = st2.
Lemma shown_valid node_states ns : distinct_keys node_states → ns ∈ node_states →
  shown dev_mode (extract_verified_state_without_licences dev_mode node_states).1 ns = true ↔
  valid_node ns.
Proof.
  intros Hd Hin. unfold shown, valid_node.
  destruct (from_gossip dev_mode (gossip_section ns)) as [st|] eqn:E; [|naive_solver].
  set (same := filter _ _).
  assert (∀ v, v ∈ same → v = verified_node_state st) as Hsame.
  { intros v [Hpk (ns' & st' & Hin' & E' & ->)%elem_of_extract]%list_elem_of_filter.
    simpl in Hpk. by rewrite (Hd ns' ns st' st). }
  assert (verified_node_state st ∈ same) as Hex.
  { apply list_elem_of_filter. split; [done|]. apply elem_of_extract. eauto. }
  destruct same as [|v same']; [by apply elem_of_nil in Hex|]. simpl.
  rewrite (Hsame v) by by left. simpl. split.
  - intros Hs. exists st. destruct (validate_licenses _ _) as [[]|]; done.
  - intros (st' & [= <-] & -> & Hp). done.
Qed.
End cluster.

Section published.
Context `{Crypto, JsonOk} (dev_mode : bool).

(** What [to_gossip] gives is read back by [from_gossip]. *)
Lemma to_gossip_accepted p kvs (section : gmap string string) : to_gossip dev_mode p = inl kvs →
  (∀ k v, (k, v) ∈ kvs → section !! k = Some v) →
  from_gossip dev_mode section =
    Some (mkNoLicenses (wallet_pubkey p) (bls_pubkey p) (config_signatures p) CARGO_PKG_VERSION) ∧
  validate_licenses section (derive_licences (mkVerified (config_signatures p))) = inl () ∧
  check_proxy_socket_addresses (section !! key_name Proxies) = true.
Proof.
  unfold to_gossip. destruct (check_proxy_socket_addresses _) eqn:Eproxy; [|done].
  cbn [negb]. intros ([l] & Hc & Hkvs)%try_inl Hs. injection Hkvs as <-.
  assert (l = config_signatures p) as -> by (apply create_inl in Hc as ([= ->] & _); done).
  unfold from_gossip, validate_licenses.
  rewrite (Hs (key_name Pubkey) (wallet_pubkey p)) by (simpl; set_solver).
  rewrite (Hs (key_name BlsPubkey) (bls_pubkey p)) by (simpl; set_solver).
  rewrite (Hs (key_name Proxies) (proxies_to_json (config_proxies p))) by (simpl; set_solver).
  rewrite (Hs (key_name KeyVersion) CARGO_PKG_VERSION) by (simpl; set_solver).
  rewrite (Hs (key_name Signatures) (signatures_to_json (config_signatures p))) by (simpl; set_solver).
  rewrite (Hs (key_name Licenses) (licenses_to_json (derive_licences (mkVerified (config_signatures p)))))
    by (simpl; set_solver).
  simpl. rewrite signatures_json. simpl. rewrite Hc, licenses_json. simpl.
  split; [done|]. split; [by rewrite bool_decide_eq_true_2|done].
Qed.
Lemma to_gossip_keys p kvs : to_gossip dev_mode p = inl kvs →
  kvs.*1 = key_name <$> [Pubkey; BlsPubkey; Proxies; KeyVersion; Signatures; Licenses].
Proof.
  unfold to_gossip. destruct (check_proxy_socket_addresses _); [|done]. simpl.
  intros (v & _ & Hkvs)%try_inl. by injection Hkvs as <-.
Qed.
Lemma initial_section cfg seeds kvs max c : NoDup kvs.*1 → blen kvs ≤ u64_max →
  with_chitchat_id_and_seeds cfg seeds kvs max = Ok c →
  ∀ k v, (k, v) ∈ kvs → gossip_section (self_node_state c) !! k = Some v.
Proof.
  intros Hnd Hlen Hc k v Hin. unfold with_chitchat_id_and_seeds in Hc.
  apply rbind_Ok in Hc as ([ns calls] & Hall & Hc). apply Ok_inj in Hc as <-.
  assert (self_node_state (put_self_node_state ns (mkChitchat cfg (with_seed_addrs seeds)
    (FailureDetector_new (cfg_failure_detector_config cfg)) ∅ ∅ max)) = ns) as ->.
  { unfold self_node_state, put_self_node_state, node_state_mut. simpl. by rewrite lookup_insert_eq. }
  rewrite gossip_section_lookup.
  assert (ns_inv (inc_heartbeat (NodeState_new (cfg_chitchat_id cfg)))) as Hi
    by (destruct (ns_inv_new (cfg_chitchat_id cfg)); by split).
  assert (0 + blen kvs ≤ u64_max) as Hroom by lia.
  pose proof (set_all_get _ _ _ _ Hi Hroom Hnd Hall k) as Hg. cbn [fst] in Hg. rewrite Hg.
  by rewrite (elem_of_list_to_map_1 _ _ v).
Qed.
End published.

(** ** Concrete third-party code, for the examples

    A signature is the message itself; JSON is the binary encoding of the
    value. *)
Module Concrete.
#[export] Instance crypto : Crypto := {|
  base64_decode s := Some (str_bytes s);
  hex_decode s := Some (replicate 32 (u8 (slen s)));
  ed25519_verify _ message signature := bool_decide (message = signature);
|}.
Fixpoint string_of_positive (p : positive) : string :=
  match p with
  | xH => ""
  | xO p => String (u8 48) (string_of_positive p)
  | xI p => String (u8 49) (string_of_positive p)
  end.
Fixpoint positive_of_string (s : string) : positive :=
  match s with
  | EmptyString => xH
  | String c s =>
      if bool_decide (c = u8 48) then xO (positive_of_string s) else xI (positive_of_string s)
  end.
Lemma positive_of_string_of p : positive_of_string (string_of_positive p) = p.
Proof. induction p as [p IH|p IH|]; simpl; [by rewrite IH..|done]. Qed.
#[export] Instance signature_countable : Countable LicenceSignature.
Proof.
  refine (inj_countable'
    (λ s, (license_id s, license_owner_pubkey s, provider_pubkey s, delegation_sig s,
           delegation_confirm_sig s, sig_timestamp s, license_proof_sig s))
    (λ x, let '(a, b, c, d, e, f, g) := x in mkSignature a b c d e f g) _).
  by intros [].
Defined.
#[export] Instance proxy_eq_dec : EqDecision ProxyConfig.
Proof. solve_decision. Defined.
#[export] Instance proxy_countable : Countable ProxyConfig.
Proof.
  refine (inj_countable' (λ p, (px_socket_address p, px_cert p)) (λ x, mkProxy x.1 x.2) _).
  by intros [].
Defined.
#[export] Instance json : Json := {|
  signatures_to_json l := string_of_positive (encode l);
  signatures_of_json s := decode (positive_of_string s);
  licenses_to_json m := string_of_positive (encode m);
  licenses_of_json s := decode (positive_of_string s);
  proxies_to_json l := string_of_positive (encode l);
  proxies_of_json s := decode (positive_of_string s);
|}.
#[export] Instance json_ok : JsonOk.
Proof. split; intros; simpl; by rewrite positive_of_string_of, decode_encode. Qed.

(** A licence delegated to the node with keys "n" and "b". *)
Definition signed (id : string) (ts : N) : LicenceSignature :=
  mkSignature id "o" "p" (bytes_str (delegation_prepare id "o" "p" ts))
    (bytes_str (delegation_confirm_prepare id "o" "p" "n" "b")) ts
    (bytes_str (license_proof_prepare id "o")).
Definition params (l : list LicenceSignature) : Params := mkParams "n" "b" [] l.
Definition published (l : list LicenceSignature) : list (string * string) :=
  match to_gossip false (params l) with inl kvs => kvs | inr _ => [] end.
(** The state of a node that publishes these licences. *)
Definition node_of (node_id : string) (l : list LicenceSignature) : NodeState :=
  let id := mkChitchatId node_id 0 (SockV4 1 1) in
  match set_all no_listeners (NodeState_new id) (published l) with
  | Ok (ns, _) => ns
  | _ => NodeState_new id
  end.
Definition honest : NodeState := node_of "z" [signed "1" 7; signed "2" 7].
(** Another node repeats the published data without the second licence. *)
Definition replayed : NodeState := node_of "a" [signed "1" 7].
End Concrete.
Import Concrete.

(** ** Properties *)

(** C19: [VerifiedSignatures::create] accepts exactly one to twenty licences
    with distinct identifiers, each with its three valid signatures (backend,
    owner, provider) under keys of 32 bytes, and then returns them as they
    are. *)
Theorem verified_signatures_exact `{Crypto} signatures backend_pk owner bls v :
  create signatures backend_pk owner bls = inl v ↔
  v = mkVerified signatures ∧ signatures ≠ [] ∧ blen signatures ≤ 20 ∧
  NoDup (license_id <$> signatures) ∧
  ∃ pk, hex_decode backend_pk = Some pk ∧ length pk = 32%nat ∧
    Forall (signature_valid pk owner bls) signatures.
Proof. apply create_inl. Qed.

(** C15: what an igniter publishes when it starts is accepted by every other
    igniter: the state read from its gossip has its keys, its licences and
    the version of the program, the licences it claims are those of its
    signatures, and it is shown in every snapshot where no other state claims
    its key. *)
Theorem published_state_accepted `{Crypto, JsonOk} dev_mode p kvs cfg seeds max c node_states :
  to_gossip dev_mode p = inl kvs → with_chitchat_id_and_seeds cfg seeds kvs max = Ok c →
  from_gossip dev_mode (gossip_section (self_node_state c)) =
    Some (mkNoLicenses (wallet_pubkey p) (bls_pubkey p) (config_signatures p) CARGO_PKG_VERSION) ∧
  (self_node_state c ∈ node_states → distinct_keys dev_mode node_states →
   self_node_state c ∈ index dev_mode node_states node_states).
Proof.
  intros Hp Hc. pose proof (to_gossip_keys dev_mode p kvs Hp) as Hkeys.
  assert (NoDup kvs.*1) as Hnd by (rewrite Hkeys; apply (bool_decide_unpack _); vm_compute; exact I).
  assert (blen kvs ≤ u64_max) as Hlen.
  { apply (f_equal length) in Hkeys. rewrite length_fmap in Hkeys. unfold blen. rewrite Hkeys.
    vm_compute. discriminate. }
  destruct (to_gossip_accepted dev_mode p kvs _ Hp (initial_section cfg seeds kvs max c Hnd Hlen Hc))
    as (Hfrom & Hlic & Hprox).
  split; [done|]. intros Hin Hd. apply list_elem_of_filter. split; [|done].
  apply shown_valid; [done..|]. eexists. by split.
Qed.
Lemma published_state_accepted_witness :
  ∃ c, with_chitchat_id_and_seeds Overflow.cfg ∅ (published [signed "1" 7]) 100 = Ok c ∧
    from_gossip false (gossip_section (self_node_state c)) =
      Some (mkNoLicenses "n" "b" [signed "1" 7] CARGO_PKG_VERSION).
Proof.
  assert (is_ok (with_chitchat_id_and_seeds Overflow.cfg ∅ (published [signed "1" 7]) 100) = true)
    as Hok by (vm_compute; reflexivity).
  destruct (with_chitchat_id_and_seeds Overflow.cfg ∅ (published [signed "1" 7]) 100) as [c| | |] eqn:E;
    [|discriminate Hok..].
  exists c. split; [reflexivity|].
  apply (published_state_accepted false (params [signed "1" 7]) (published [signed "1" 7])
    Overflow.cfg ∅ 100 c []).
  - vm_compute. reflexivity.
  - exact E.
Defined.

(** Every licence reported as revoked is still exported: its holder is
    listed with it, and it still counts in the licences of its owner.  The
    states from which the outdated licences are removed are computed and
    dropped. *)
Theorem revoked_licence_still_exported `{Crypto, Json} dev_mode node_states :
  Forall (λ r, ∃ v s, v ∈ export dev_mode node_states ∧ vn_pubkey v = rl_provider_pubkey r ∧
      s ∈ vn_signatures v ∧ license_id s = rl_license_id r ∧ sig_timestamp s = rl_timestamp r ∧
      is_Some (vn_licenses v !! license_owner_pubkey s))
    (extract_verified_state_without_licences dev_mode node_states).2.
Proof.
  apply Forall_forall. intros r Hr. rewrite extract_revoked in Hr. simpl in Hr.
  apply list_elem_of_bind in Hr as (st & Hr & Hst).
  apply list_elem_of_fmap in Hr as (s & -> & Hs). apply list_elem_of_filter in Hs as [_ Hs].
  exists (verified_node_state st), s. split; [|split_and!; try done].
  - unfold export. rewrite extract_states. by apply list_elem_of_fmap_2.
  - simpl. unfold from_checked_state. rewrite derive_licences_count.
    assert (s ∈ filter (λ x, license_owner_pubkey x = license_owner_pubkey s) (nl_signatures st)) as Hin
      by (by apply list_elem_of_filter).
    by destruct (filter _ _); [apply elem_of_nil in Hin|].
Qed.

(** C20: as long as no two nodes claim one key with different states, the
    index of a snapshot shows exactly its valid nodes: those whose signatures
    verify, whose claimed licences are the ones they have signatures for, and
    whose proxies are acceptable. *)
Theorem index_shows_valid_nodes `{Crypto, Json} dev_mode node_states ns :
  distinct_keys dev_mode node_states →
  ns ∈ index dev_mode node_states node_states ↔ ns ∈ node_states ∧ valid_node dev_mode ns.
Proof.
  intros Hd. unfold index. rewrite list_elem_of_filter. split.
  - intros [Hs Hin]. split; [done|]. by apply (shown_valid dev_mode node_states).
  - intros [Hin Hv]. split; [by apply shown_valid|done].
Qed.
Lemma index_shows_valid_nodes_witness :
  honest ∈ index false [honest] [honest] ↔ honest ∈ [honest] ∧ valid_node false honest.
Proof.
  apply (index_shows_valid_nodes false [honest] honest).
  intros ns1 ns2 st1 st2 H1 H2 E1 E2 _.
  apply list_elem_of_singleton in H1 as ->. apply list_elem_of_singleton in H2 as ->.
  rewrite E1 in E2. injection E2 as ->. reflexivity.
Defined.

(** The index hides a valid node when another one repeats part of what
    it published under a smaller identifier: the licences of the first state
    with its key are compared with those it claims. *)
Theorem replayed_state_hides_node :
  index false [honest] [honest] = [honest] ∧
  index false [replayed; honest] [replayed; honest] = [replayed].
Proof. split; vm_compute; reflexivity. Qed.
