(* ===== verification/Build.v ===== *)
(** * The build scripts (igniter/build.rs, transport-layer/build.rs) and the version text (igniter/src/cli.rs)

    Both scripts are the same program: they ask git and date for what the
    program tells of its build, and print it for cargo.  Running a command is
    a parameter. *)
From S2P Require Import Prelude.
Open Scope N_scope.

(** [std::process::Output], and [Command::output]: [None] when the command
    cannot be run. *)
Record CommandOutput : Type := mkOutput { success : bool; stdout : bytes }.
Section build.
Context (output : string → list string → option CommandOutput) (from_utf8 : bytes → option string).

(** [OutputStdout::stdout_or] *)
Definition stdout_or (c : string) (args : list string) (default : string) : string :=
  match output c args with
  | Some o => if success o then from_option id default (from_utf8 (stdout o)) else default
  | None => default
  end.
Definition nl : string := String (u8 10) EmptyString.
(** [println!] *)
Definition rustc_env (name value : string) : string := "cargo:rustc-env=" +:+ name +:+ "=" +:+ value +:+ nl.
Record BuildInfo : Type := mkBuildInfo {
  BUILD_GIT_BRANCH : string; BUILD_GIT_COMMIT : string; BUILD_GIT_DATE : string; BUILD_TIME : string;
}.
Definition build_info : BuildInfo :=
  let unknown := "Unknown"%string in
  mkBuildInfo (stdout_or "git" ["rev-parse"; "--abbrev-ref"; "HEAD"]%string unknown)
    (stdout_or "git" ["rev-parse"; "HEAD"]%string unknown)
    (stdout_or "git" ["log"; "-1"; "--pretty=format:%cI"]%string unknown)
    (stdout_or "date" ["-Iseconds"]%string unknown).
(** What [main] prints. *)
Definition build_main : res string :=
  match output "git" ["--version"]%string with
  | None => Panic "Make sure `git` is installed"
  | Some _ =>
      let b := build_info in
      Ok (rustc_env "BUILD_GIT_BRANCH" (BUILD_GIT_BRANCH b) +:+ rustc_env "BUILD_GIT_COMMIT" (BUILD_GIT_COMMIT b) +:+
          rustc_env "BUILD_GIT_DATE" (BUILD_GIT_DATE b) +:+ rustc_env "BUILD_TIME" (BUILD_TIME b))
  end.
End build.

(** [LONG_VERSION], with the variables as the compiler sees them. *)
Definition LONG_VERSION (CARGO_PKG_VERSION : string) (b : BuildInfo) : string :=
  nl +:+ CARGO_PKG_VERSION +:+ nl +:+ "BUILD_GIT_BRANCH=" +:+ BUILD_GIT_BRANCH b +:+ nl +:+
  "BUILD_GIT_COMMIT=" +:+ BUILD_GIT_COMMIT b +:+ nl +:+ "BUILD_GIT_DATE=" +:+ BUILD_GIT_DATE b +:+ nl +:+
  "BUILD_TIME=" +:+ BUILD_TIME b.

(** ** What cargo reads

    The lines of what was printed, as [lines] gives them: without the text
    after the last end of a line if it is empty. *)
Fixpoint lines_from (line : string) (s : string) : list string :=
  match s with
  | EmptyString => if bool_decide (line = EmptyString) then [] else [line]
  | String a s => if bool_decide (a = u8 10) then line :: lines_from EmptyString s
                  else lines_from (line +:+ String a EmptyString) s
  end.
Definition lines : string → list string := lines_from EmptyString.
Definition one_line (s : string) : Prop := u8 10 ∉ str_bytes s.

Lemma append_nil_r (s : string) : s +:+ EmptyString = s.
Proof. induction s as [|a s IH]; [done|]. change (String a (s +:+ EmptyString) = String a s). by rewrite IH. Qed.
Lemma append_app (s t u : string) : (s +:+ t) +:+ u = s +:+ (t +:+ u).
Proof. induction s as [|c s IH]; [done|]. change (String c ((s +:+ t) +:+ u) = String c (s +:+ (t +:+ u))). by rewrite IH. Qed.
Lemma str_bytes_append s t : str_bytes (s +:+ t) = str_bytes s ++ str_bytes t.
Proof. induction s as [|a s IH]; [done|]. change (a :: str_bytes (s +:+ t) = a :: (str_bytes s ++ str_bytes t)). by rewrite IH. Qed.
Lemma lines_from_line line s t : one_line s → lines_from line (s +:+ nl +:+ t) = (line +:+ s) :: lines t.
Proof.
  revert line. induction s as [|a s IH]; intros line Hs.
  - change (EmptyString +:+ nl +:+ t) with (String (u8 10) t). cbn [lines_from].
    by rewrite bool_decide_eq_true_2, append_nil_r.
  - change (String a s +:+ nl +:+ t) with (String a (s +:+ nl +:+ t)). cbn [lines_from].
    apply not_elem_of_cons in Hs as [Ha Hs]. rewrite bool_decide_eq_false_2 by congruence.
    rewrite IH by done. by rewrite append_app.
Qed.
(** An answer of a command: on one line, with or without the end of it. *)
Definition answer (s v : string) : Prop := one_line v ∧ (s = v ∨ s = v +:+ nl).
(** cargo gets the four variables, in order, each with the first line of the
    answer; an end of a line that a command printed leaves an empty line
    behind, which it ignores. *)
Theorem cargo_reads output from_utf8 v1 v2 v3 v4 : output "git"%string ["--version"]%string ≠ None →
  let b := build_info output from_utf8 in
  answer (BUILD_GIT_BRANCH b) v1 → answer (BUILD_GIT_COMMIT b) v2 → answer (BUILD_GIT_DATE b) v3 → answer (BUILD_TIME b) v4 →
  ∃ text, build_main output from_utf8 = Ok text ∧
    filter (λ l, l ≠ EmptyString) (lines text) =
      ["cargo:rustc-env=BUILD_GIT_BRANCH=" +:+ v1; "cargo:rustc-env=BUILD_GIT_COMMIT=" +:+ v2;
       "cargo:rustc-env=BUILD_GIT_DATE=" +:+ v3; "cargo:rustc-env=BUILD_TIME=" +:+ v4]%string.
Proof.
  intros Hgit b H1 H2 H3 H4. unfold build_main. destruct (output "git"%string _); [|done]. fold b.
  eexists. split; [done|].
  assert (∀ name s v t, answer s v → one_line name →
    filter (λ l, l ≠ EmptyString) (lines (rustc_env name s +:+ t)) =
    ("cargo:rustc-env=" +:+ name +:+ "=" +:+ v) :: filter (λ l, l ≠ EmptyString) (lines t)) as Hone.
  { intros name s v t [Hv Hs] Hn.
    assert (one_line ("cargo:rustc-env=" +:+ name +:+ "=" +:+ v)) as Hl.
    { unfold one_line in *. rewrite !str_bytes_append, !not_elem_of_app. split_and!; try done;
        by apply (bool_decide_unpack _). }
    assert (rustc_env name s +:+ t = ("cargo:rustc-env=" +:+ name +:+ "=" +:+ s) +:+ nl +:+ t) as ->
      by (unfold rustc_env; by rewrite !append_app).
    destruct Hs as [-> | ->].
    - unfold lines at 1. by rewrite lines_from_line.
    - assert (("cargo:rustc-env=" +:+ name +:+ "=" +:+ v +:+ nl) +:+ nl +:+ t =
        ("cargo:rustc-env=" +:+ name +:+ "=" +:+ v) +:+ nl +:+ nl +:+ t) as -> by by rewrite !append_app.
      unfold lines at 1. by rewrite lines_from_line. }
  rewrite <-(append_nil_r (rustc_env "BUILD_TIME" _)).
  rewrite (Hone "BUILD_GIT_BRANCH"%string _ v1), (Hone "BUILD_GIT_COMMIT"%string _ v2), (Hone "BUILD_GIT_DATE"%string _ v3),
    (Hone "BUILD_TIME"%string _ v4); try done; by apply (bool_decide_unpack _).
Qed.
