(* ===== verification/Igniter.v ===== *)
(** * The igniter program (igniter/src/config.rs, cli.rs, gossip.rs, revoked_license_watcher.rs, bin)

    How the program is configured and started: the configuration and its
    defaults, the seeds, what is printed of the keys, the configuration that
    the gossip engine gets, the watcher of revoked licences, and the end of
    the program.  YAML, HTTP, the file system and the other services are
    parameters. *)
From S2P Require Import Prelude Types NodeState Cluster FailureDetector Chitchat Revocation Licensing.
Open Scope N_scope.

(** ** Configuration *)
Record Config : Type := mkAppConfig {
  cluster_id : string;
  proxies : list ProxyConfig;
  listen_addr : SocketAddr;
  api_addr : SocketAddr;
  advertise_addr : SocketAddr;
  seeds : list string;
  config_node_id : option string;
  interval : N;
  signatures : list LicenceSignature;
  auto_update : bool;
}.
Record WalletConfig : Type := mkWallet { wallet_config_pubkey : string; wallet_secret : string }.
Record BlsConfig : Type := mkBls { bls_config_pubkey : string; bls_secret : string; bls_rnd : string }.
Record Keys : Type := mkKeys { wallet : WalletConfig; bls : BlsConfig }.
(** [str::eq_ignore_ascii_case] *)
Definition to_ascii_lowercase (a : byte) : byte :=
  let n := Ascii.N_of_ascii a in if (65 <=? n) && (n <=? 90) then u8 (n + 32) else a.
Definition eq_ignore_ascii_case (s t : string) : bool :=
  bool_decide (to_ascii_lowercase <$> str_bytes s = to_ascii_lowercase <$> str_bytes t).
(** The variable of the environment, if it is set to valid UTF-8. *)
Definition DEV_MODE (var : option string) : bool :=
  match var with Some val => eq_ignore_ascii_case val "true" | None => false end.
Definition IGNITER_IMAGE (dev_mode : bool) : string :=
  if dev_mode then "docker.gosh.sh/acki-nacki-igniter-pre-release" else "teamgosh/acki-nacki-igniter".
Definition IGNITER_SEEDS (dev_mode : bool) : string :=
  if dev_mode
  then "https://raw.githubusercontent.com/gosh-sh/acki-nacki-igniter-seeds/refs/heads/main/seeds.yaml"
  else "https://raw.githubusercontent.com/ackinacki/acki-nacki-igniter-seeds/refs/heads/main/seeds.yaml".
Definition default_interval : N := 500.
Definition default_cluster_id (CARGO_PKG_NAME : string) : string := CARGO_PKG_NAME.
(** 0.0.0.0:10000, 0.0.0.0:10001 and 127.0.0.1:8080 *)
Definition default_listen_addr : SocketAddr := SockV4 0 10000.
Definition default_api_addr : SocketAddr := SockV4 0 10001.
Definition default_advertise_addr : SocketAddr := SockV4 2130706433 8080.
(** [parse] and [resolve] are those of the standard library for an address. *)
Definition deserialize_addr (parse : string → option SocketAddr) (resolve : string → option (list SocketAddr))
    (addr_str : string) : option SocketAddr :=
  match parse addr_str with
  | Some addr => Some addr
  | None => match resolve addr_str with Some (socket :: _) => Some socket | _ => None end
  end.

(** [read_yaml]: [to_str] is that of a path, [tilde] expands the home
    directory, [open] and [from_reader] read the file. *)
Definition read_yaml {P File A} (to_str : P → option string) (tilde : string → string) (open : string → res File)
    (from_reader : File → res A) (config_path : P) : res A :=
  match to_str config_path with
  | None => Err "Invalid path"
  | Some path => let* file := open (tilde path) in from_reader file
  end.

(** *** What is printed of the keys *)
Section printing.
(** [{:?}] of a string, and of a structure with its fields. *)
Context (debug_str : string → string) (debug_struct : string → list (string * string) → string).
Fixpoint join_fields (l : list string) : string :=
  match l with [] => EmptyString | [w] => w | w :: ws => w +:+ ", " +:+ join_fields ws end.
(** [str::contains], of a name *)
Fixpoint name_contains (name pattern : string) : bool :=
  starts_with pattern name || match name with EmptyString => false | String _ name => name_contains name pattern end.
Definition hide_secrets_fmt (name : string) (fields : list (string * string)) : string :=
  name +:+ " { " +:+ join_fields ((λ f,
    if bool_decide (f.1 = "secret"%string) || name_contains f.1 "rnd" then f.1 +:+ ": <hidden>"
    else f.1 +:+ ": " +:+ debug_str f.2) <$> fields) +:+ " }".
Definition wallet_fmt (w : WalletConfig) : string :=
  hide_secrets_fmt "WalletConfig" [("pubkey", wallet_config_pubkey w); ("secret", wallet_secret w)]%string.
Definition bls_fmt (b : BlsConfig) : string :=
  hide_secrets_fmt "BlsConfig" [("pubkey", bls_config_pubkey b); ("secret", bls_secret b); ("rnd", bls_rnd b)]%string.
(** [#[derive(Debug)]] of [Keys] *)
Definition keys_fmt (k : Keys) : string :=
  debug_struct "Keys" [("wallet", wallet_fmt (wallet k)); ("bls", bls_fmt (bls k))]%string.

Lemma append_assoc (s t u : string) : (s +:+ t) +:+ u = s +:+ (t +:+ u).
Proof. induction s as [|c s IH]; [done|]. change (String c ((s +:+ t) +:+ u) = String c (s +:+ (t +:+ u))). by rewrite IH. Qed.

(** What is printed of the keys does not depend on the secrets: two sets
    of keys with the same public keys are printed alike, whatever their secret
    keys and random seeds; and the public keys are printed. *)
Theorem secrets_not_printed k k' :
  wallet_config_pubkey (wallet k) = wallet_config_pubkey (wallet k') →
  bls_config_pubkey (bls k) = bls_config_pubkey (bls k') →
  keys_fmt k = keys_fmt k' ∧ wallet_fmt (wallet k) = wallet_fmt (wallet k') ∧ bls_fmt (bls k) = bls_fmt (bls k') ∧
  wallet_fmt (wallet k) =
    "WalletConfig { pubkey: " +:+ debug_str (wallet_config_pubkey (wallet k)) +:+ ", secret: <hidden> }".
Proof.
  intros Hw Hb. assert (wallet_fmt (wallet k) = wallet_fmt (wallet k')) as Hwf.
  { unfold wallet_fmt, hide_secrets_fmt. simpl. by rewrite Hw. }
  assert (bls_fmt (bls k) = bls_fmt (bls k')) as Hbf.
  { unfold bls_fmt, hide_secrets_fmt. simpl. by rewrite Hb. }
  split; [unfold keys_fmt; by rewrite Hwf, Hbf|]. split; [done|]. split; [done|].
  unfold wallet_fmt, hide_secrets_fmt. cbn [list_fmap fmap join_fields fst snd].
  change (bool_decide ("pubkey" = "secret")%string || name_contains "pubkey" "rnd") with false.
  change (bool_decide ("secret" = "secret")%string || name_contains "secret" "rnd") with true. cbn iota.
  generalize (debug_str (wallet_config_pubkey (wallet k))). intros s. simpl.
  rewrite append_assoc. reflexivity.
Qed.
End printing.
Lemma secrets_not_printed_witness :
  let k s := mkKeys (mkWallet "pk" s) (mkBls "bls" s s) in
  keys_fmt id (λ n fs, n +:+ String.concat ", "%string (snd <$> fs)) (k "one"%string) =
  keys_fmt id (λ n fs, n +:+ String.concat ", "%string (snd <$> fs)) (k "two"%string).
Proof.
  intros k. exact (proj1 (secrets_not_printed id (λ n fs, n +:+ String.concat ", "%string (snd <$> fs))
    (k "one"%string) (k "two"%string) eq_refl eq_refl)).
Defined.

(** ** Starting *)
Record CliArgs : Type := mkCliArgs {
  keys_path : string;
  config_path : string;
  docker_socket : option string;
  docker_config : option string;
}.
Record CliParams : Type := mkCliParams {
  params_config : Config;
  params_docker_socket : option string;
  params_docker_config : option string;
  params_keys : Keys;
}.
(** [fetch] is the answer to the request with the token, if there is one,
    read as a list of seeds. *)
Definition read_seeds (dev_mode : bool) (github_token : option string) (fetch : option string → res (list string))
    : res (list string) :=
  match github_token with
  | Some token => fetch (Some token)
  | None => if dev_mode then Err "GITHUB_TOKEN required" else fetch None
  end.
Definition with_seeds (c : Config) (l : list string) : Config :=
  mkAppConfig (cluster_id c) (proxies c) (listen_addr c) (api_addr c) (advertise_addr c) l (config_node_id c)
    (interval c) (signatures c) (auto_update c).
(** [CLI]; [None] is [exit(1)] after a message. *)
Definition cli (read_config : string → res Config) (read_keys : string → res Keys) (seeds : res (list string))
    (args : CliArgs) : option CliParams :=
  match read_config (config_path args) with
  | Ok config =>
      match seeds with
      | Ok seeds =>
          match read_keys (keys_path args) with
          | Ok keys => Some (mkCliParams (with_seeds config seeds) (docker_socket args) (docker_config args) keys)
          | _ => None
          end
      | _ => None
      end
  | _ => None
  end.
(** What [to_gossip] takes of the parameters. *)
Definition gossip_params (p : CliParams) : Params :=
  mkParams (wallet_config_pubkey (wallet (params_keys p))) (bls_config_pubkey (bls (params_keys p)))
    (proxies (params_config p)) (signatures (params_config p)).
Definition DEFAULT_GOSSIP_INTERVAL : Duration := 500 * (NANOS_PER_SEC / 1000).
(** [generate_server_id]; [cool_id] is a random identifier. *)
Definition generate_server_id (display : SocketAddr → string) (public_addr : SocketAddr) (cool_id : string) : string :=
  "server:" +:+ display public_addr +:+ "-" +:+ cool_id.
(** The configuration that [gossip::run] gives to [spawn_chitchat]; [now] is
    the time in seconds. *)
Definition gossip_config (display : SocketAddr → string) (listen gossip_advertise : SocketAddr) (seed_nodes : list string)
    (cluster : string) (cool_id : string) (now : N) : ChitchatConfig :=
  mkConfig (mkChitchatId (generate_server_id display gossip_advertise cool_id) now gossip_advertise) cluster
    DEFAULT_GOSSIP_INTERVAL listen seed_nodes fd_config_default (10 * NANOS_PER_SEC) false None.
(** What the program passes to [gossip::run]. *)
Definition program_config (display : SocketAddr → string) (p : CliParams) (cool_id : string) (now : N) : ChitchatConfig :=
  let c := params_config p in
  gossip_config display (listen_addr c) (advertise_addr c) (seeds c) (cluster_id c) cool_id now.
(** A round of the watcher: the licences it warns of. *)
Definition watcher_round `{Crypto, Json} (dev_mode : bool) (node_states : list NodeState) (pubkey : string) : list string :=
  rl_license_id <$> filter (λ r, rl_provider_pubkey r = pubkey)
    (extract_verified_state_without_licences dev_mode node_states).2.
(** The seeds are always the downloaded ones, and the interval of the gossip
    is always the same: two configurations that differ only in their own
    seeds, interval and node identifier make the same engine. *)
Lemma configured_seeds_and_interval_ignored display read_config read_keys l args p c c' cool_id now :
  read_config (config_path args) = Ok c → cli read_config read_keys (Ok l) args = Some p →
  with_seeds c l = with_seeds c' l ∨
    (cluster_id c = cluster_id c' ∧ listen_addr c = listen_addr c' ∧ advertise_addr c = advertise_addr c') →
  program_config display p cool_id now =
    program_config display (mkCliParams (with_seeds c' l) (params_docker_socket p) (params_docker_config p) (params_keys p)) cool_id now ∧
  cfg_gossip_interval (program_config display p cool_id now) = 500000000.
Proof.
  unfold cli. intros -> Hp Hc. destruct (read_keys (keys_path args)); [|done..]. injection Hp as <-.
  unfold program_config. simpl. split; [|reflexivity]. destruct Hc as [Hc|(-> & -> & ->)]; [|done].
  injection Hc as -> _ -> _ -> _ _ _. done.
Qed.
