(* ===== verification/Program.v ===== *)
(** * The running program (igniter/src: gossip.rs, open_api/routes.rs, revoked_license_watcher.rs, bin)

    The tasks of the igniter together: the gossip server on its UDP socket,
    the handlers of the HTTP API, the refresh of the seeds, the watcher of
    revoked licences, and the main task, which ends the program with the first
    of them.  They share one engine; a step is what happens while it is
    locked, or what a task does besides. *)
From S2P Require Import Prelude Types Serialize Stream Listener Delta Message NodeState Cluster FailureDetector.
From S2P Require Import Chitchat Server Channel Datagram Revocation Licensing Igniter.
Open Scope N_scope.

(** ** The HTTP API (open_api/routes.rs) *)
Record ApiResponse : Type := mkApiResponse {
  api_cluster_id : string;
  api_cluster_state : ClusterStateSnapshot;
  api_live_nodes : list ChitchatId;
  api_dead_nodes : list ChitchatId;
}.
(** [serde_json::to_string_pretty] *)
Class JsonPretty : Type := {
  pretty_response : ApiResponse → string;
  pretty_states : list VerifiedNodeState → string;
  pretty_revoked : list RevokedLicense → string;
  pretty_text : string → string;
}.

Section api.
Context `{Crypto, Json, JsonPretty} (dev_mode : bool).

(** [Api::get_verified_state] *)
Definition get_verified_state (c : Chitchat) : list VerifiedNodeState * list RevokedLicense :=
  extract_verified_state_without_licences dev_mode (snap_node_states (state_snapshot c)).
(** [Api::index] locks the engine twice: [verified_state] is what it found
    the first time. *)
Definition index_response (verified_state : list VerifiedNodeState) (c : Chitchat) : ApiResponse :=
  let snap := state_snapshot c in
  mkApiResponse (cfg_cluster_id (config c))
    (mkSnapshot (filter (λ ns, shown dev_mode verified_state ns = true) (snap_node_states snap)) (snap_seed_addrs snap))
    (self_chitchat_id c :: elements (fd_live_nodes (failure_detector c))) (elements (dead_nodes c)).
Definition index_text (verified_state : list VerifiedNodeState) (c : Chitchat) : string :=
  pretty_response (index_response verified_state c).
(** [Api::get_revoked_licenses] *)
Definition revoked_text (c : Chitchat) (pubkey : string) : string :=
  let your_revoked_licenses := filter (λ r, rl_provider_pubkey r = pubkey) (get_verified_state c).2 in
  match your_revoked_licenses with
  | [] => pretty_text "No revoked licenses found"
  | _ => pretty_revoked your_revoked_licenses
  end.
(** [Api::export] *)
Definition export_text (c : Chitchat) : string := pretty_states (get_verified_state c).1.
End api.

(** ** The tasks *)
(** What the tasks share and keep: the engine, the arguments of the refresh
    of the seeds, the key of the watcher, and the calls of [index] that are
    between their two locks. *)
Record Program : Type := mkProgram {
  pg_chitchat : Chitchat;
  pg_refresh : option (gset string * gset SocketAddr);
  pg_pubkey : string;
  pg_index_calls : list (list VerifiedNodeState);
}.
Definition set_chitchat (c : Chitchat) (p : Program) : Program :=
  mkProgram c (pg_refresh p) (pg_pubkey p) (pg_index_calls p).
Definition set_index_calls (l : list (list VerifiedNodeState)) (p : Program) : Program :=
  mkProgram (pg_chitchat p) (pg_refresh p) (pg_pubkey p) l.
Inductive ApiRequest : Type := GetRevokedLicenses (provider_pubkey : string) | GetExport.
Inductive ProgramEvent : Type :=
  | Arrived (received : res (bytes * SocketAddr))  (* the answer of [recv_from] *)
  | GossipInterval
  | RefreshInterval
  | Requested (r : ApiRequest)
  | IndexBegins
  | IndexEnds (call : nat)
  | WatcherInterval
  | UpdaterEnded (r : res unit)
  | ApiServerEnded (r : res unit).
Inductive Output : Type :=
  | Sent (to : SocketAddr) (payload : bytes)
  | Responded (text : string)
  | Warned (license_id : string).
(** [None] while the program runs. *)
Inductive Outcome : Type := Running (p : Program) | Exited (code : N).

(** The exit code of the process, by the end of [tokio_main_inner]: a panic
    of its thread is one of [main]. *)
Definition exit_status (r : res unit) : N :=
  match r with Ok _ => 0 | Err _ => 1 | Panic _ | OutOfFuel => 101 end.
(** [tokio::select!] over the four handles: whichever task ends, and however
    it does, [tokio_main_inner] fails. *)
Inductive Task : Type := ContainerUpdaterTask | GossipServerTask | ApiServerTask | LicenseWatcherTask.
Definition task_failed (t : Task) : string :=
  match t with
  | ContainerUpdaterTask => "Container updater failed" | GossipServerTask => "Gossip server failed"
  | ApiServerTask => "API server failed" | LicenseWatcherTask => "License watcher failed"
  end.
Definition task_ended (t : Task) (v : res unit) : Outcome := Exited (exit_status (Err (task_failed t))).

Section program.
Context `{Zstd, Shuffle, Rng, Resolver, Crypto, Json, JsonPretty} (dev_mode : bool).

(** [UdpSocket::send] for each message, in order; the errors of [send_to]
    are dropped by the server. *)
Fixpoint transmit (out : Outbox) : res (list (SocketAddr * bytes)) :=
  match out with
  | [] => Ok []
  | (to, m) :: out => let* payload := udp_payload m in let* sent := transmit out in Ok ((to, payload) :: sent)
  end.
Definition sent (l : list (SocketAddr * bytes)) : list Output := (λ p, Sent p.1 p.2) <$> l.
(** A turn of the gossip server; a panic of its task is caught by its
    handle. *)
Definition gossip_server (p : Program) (e : Event) (now : Instant) : list Output * Outcome :=
  match (let* (r, flow) := server_step (pg_chitchat p) e now in
         let* l := transmit r.2 in Ok (r.1, l, flow))%rust with
  | Ok (c, l, Continue) => (sent l, Running (set_chitchat c p))
  | Ok (_, l, Stop r) => (sent l, task_ended GossipServerTask r)
  | Err e => ([], task_ended GossipServerTask (Err e))
  | Panic e => ([], task_ended GossipServerTask (Panic e))
  | OutOfFuel => ([], task_ended GossipServerTask OutOfFuel)
  end.
Definition program_step (p : Program) (e : ProgramEvent) (now : Instant) : list Output * Outcome :=
  let c := pg_chitchat p in
  match e with
  | Arrived received =>
      match receive_one received with
      | Ok None => ([], Running p)
      | Ok (Some envelope) => gossip_server p (Received (Ok envelope)) now
      | Err e => gossip_server p (Received (Err e)) now
      | Panic e => gossip_server p (Received (Panic e)) now
      | OutOfFuel => gossip_server p (Received OutOfFuel) now
      end
  | GossipInterval => gossip_server p Tick now
  | RefreshInterval =>
      match pg_refresh p with
      | Some (hosts, addrs) => gossip_server p (SeedsRefreshed (dns_refresh hosts addrs now)) now
      | None => ([], Running p)
      end
  | Requested (GetRevokedLicenses pubkey) => ([Responded (revoked_text dev_mode c pubkey)], Running p)
  | Requested GetExport => ([Responded (export_text dev_mode c)], Running p)
  | IndexBegins => ([], Running (set_index_calls (pg_index_calls p ++ [(get_verified_state dev_mode c).1]) p))
  | IndexEnds i =>
      match pg_index_calls p !! i with
      | Some verified_state =>
          ([Responded (index_text dev_mode verified_state c)], Running (set_index_calls (delete i (pg_index_calls p)) p))
      | None => ([], Running p)
      end
  | WatcherInterval =>
      (Warned <$> watcher_round dev_mode (snap_node_states (state_snapshot c)) (pg_pubkey p), Running p)
  | UpdaterEnded r => ([], task_ended ContainerUpdaterTask r)
  | ApiServerEnded r => ([], task_ended ApiServerTask r)
  end.
Fixpoint program_run (p : Program) (events : list (ProgramEvent * Instant)) : list Output * Outcome :=
  match events with
  | [] => ([], Running p)
  | (e, now) :: events =>
      match program_step p e now with
      | (out, Running p) => let '(out', o) := program_run p events in (out ++ out', o)
      | r => r
      end
  end.

(** [gossip::run] over [UdpTransport]; [generation] is the time since the
    epoch, [None] before it. *)
Definition gossip_run (display : SocketAddr → string) (opened : SocketAddr → res unit)
    (listen_addr gossip_advertise_addr : SocketAddr) (seeds : list string) (cluster_id : string)
    (initial_key_values : list (string * string)) (cool_id : string) (generation : option N) (now : Instant)
    : res (Chitchat * option (gset string * gset SocketAddr)) :=
  let* generation := unwrap "called `Result::unwrap()` on an `Err` value" generation in
  spawn_chitchat (gossip_config display listen_addr gossip_advertise_addr seeds cluster_id cool_id generation)
    initial_key_values opened MAX_UDP_DATAGRAM_PAYLOAD_SIZE now.
(** [tokio_main_inner], up to [select!] *)
Definition program_start (display : SocketAddr → string) (opened : SocketAddr → res unit) (params : CliParams)
    (cool_id : string) (generation : option N) (now : Instant) : res Program :=
  match to_gossip dev_mode (gossip_params params) with
  | inr _ => Err "to_gossip failed"
  | inl initial_key_values =>
      let c := params_config params in
      let* (chitchat, refresh) := gossip_run display opened (listen_addr c) (advertise_addr c) (seeds c)
        (cluster_id c) initial_key_values cool_id generation now in
      Ok (mkProgram chitchat refresh (wallet_config_pubkey (wallet (params_keys params))) [])
  end.
(** The whole of [tokio_main]: what is sent and answered, and the end. *)
Definition tokio_main (started : res Program) (events : list (ProgramEvent * Instant)) : list Output * Outcome :=
  match started with
  | Ok p => program_run p events
  | Err e => ([], Exited (exit_status (Err e)))
  | Panic e => ([], Exited (exit_status (Panic e)))
  | OutOfFuel => ([], Exited (exit_status OutOfFuel))
  end.
End program.

(** ** What an engine keeps of itself

    The configuration, the datagram size and the node's own key-values. *)
Record keeps (c c' : Chitchat) : Prop := {
  kp_config : config c' = config c;
  kp_max : max_datagram_payload_size c' = max_datagram_payload_size c;
  kp_own : key_values (self_node_state c') = key_values (self_node_state c);
}.
#[export] Instance keeps_preorder : PreOrder keeps.
Proof. split; [by split|]. intros c1 c2 c3 [] []. split; congruence. Qed.
(** A node that was set up and deleted nothing. *)
Definition settled (kvs : gmap string VersionedValue) : Prop := map_Forall (λ _ v, vv_status v = Set_) kvs.
(** The nodes a message has a delta for. *)
Definition delta_ids (m : ChitchatMessage) : list ChitchatId :=
  match m with SynAck _ d | Ack d => nd_chitchat_id <$> node_deltas d | _ => [] end.

Lemma put_node_state_own cs id ns id' : id' ≠ id →
  node_states (put_node_state cs id ns) !! id' = node_states cs !! id'.
Proof. intros Hne. by apply lookup_insert_ne. Qed.
Lemma keeps_set_cluster c cs :
  node_states cs !! self_chitchat_id c = node_states (cluster_state c) !! self_chitchat_id c →
  keeps c (set_cluster_state cs c).
Proof. intros Hl. split; [done..|]. unfold self_node_state, node_state_mut. simpl. by rewrite <-Hl. Qed.
Lemma self_lookup_put ns c :
  node_states (cluster_state (put_self_node_state ns c)) !! self_chitchat_id c = Some ns.
Proof. apply lookup_insert_eq. Qed.
Lemma keeps_put_self c ns : key_values ns = key_values (self_node_state c) → keeps c (put_self_node_state ns c).
Proof.
  intros Hk. split; [done..|]. unfold self_node_state at 1, node_state_mut.
  change (self_chitchat_id (put_self_node_state ns c)) with (self_chitchat_id c). by rewrite self_lookup_put.
Qed.
Lemma keeps_update_self_heartbeat c : keeps c (update_self_heartbeat c).
Proof. by apply keeps_put_self. Qed.
Lemma keeps_report_heartbeat c id h now c' : report_heartbeat c id h now = Ok c' → keeps c c'.
Proof.
  unfold report_heartbeat. case_bool_decide as Hne; [by intros [= <-]|].
  destruct (try_set_heartbeat _ _) as [upd ns].
  assert (keeps c (set_cluster_state (put_node_state (cluster_state c) id ns) c)) as Hk
    by (apply keeps_set_cluster, put_node_state_own; congruence).
  destruct upd; [|by intros [= <-]].
  intros (fd & _ & Hc)%rbind_Ok. injection Hc as <-. etrans; [exact Hk|]. by split.
Qed.
Lemma keeps_report_heartbeats c l now c' : report_heartbeats c l now = Ok c' → keeps c c'.
Proof.
  revert c. induction l as [|[id nd] l IH]; intros c; simpl; [by intros [= <-]|].
  intros (c1 & Hc1 & Hc)%rbind_Ok. etrans; [by eapply keeps_report_heartbeat|by apply IH].
Qed.
Lemma apply_node_deltas_frame cs nds now r id : id ∉ nd_chitchat_id <$> nds →
  apply_node_deltas cs nds now = Ok r → node_states r.1 !! id = node_states cs !! id.
Proof.
  revert cs r. induction nds as [|nd nds IH]; intros cs r Hn; simpl; [by intros [= <-]|].
  rewrite fmap_cons, not_elem_of_cons in Hn. destruct Hn as [Hne Hn].
  intros ([ns calls] & _ & Hr)%rbind_Ok. apply rbind_Ok in Hr as ([cs' calls'] & Hr & Heq).
  injection Heq as <-.
  apply (IH _ _ Hn) in Hr. simpl in Hr |- *. rewrite Hr. by apply put_node_state_own.
Qed.
Lemma keeps_process_delta c d now r : self_chitchat_id c ∉ nd_chitchat_id <$> node_deltas d →
  process_delta c d now = Ok r → keeps c r.1.
Proof.
  intros Hn. unfold process_delta. intros ([cs calls] & Hcs & Hr)%rbind_Ok. injection Hr as <-.
  apply keeps_set_cluster, (apply_node_deltas_frame _ _ _ (cs, calls) _ Hn Hcs).
Qed.

Section keeping.
Context `{Zstd, Shuffle, Rng}.

Lemma keeps_self_id c c' : keeps c c' → self_chitchat_id c' = self_chitchat_id c.
Proof. intros [Hc _ _]. unfold self_chitchat_id. by rewrite Hc. Qed.
(** A message changes the node's own key-values only with a delta for it. *)
Lemma keeps_process_message c m now r : self_chitchat_id c ∉ delta_ids m →
  process_message c m now = Ok r → keeps c r.1.1.
Proof.
  unfold process_message. pose proof (keeps_update_self_heartbeat c) as Hup.
  set (c0 := update_self_heartbeat c) in *. destruct m as [cid d|d delta|delta|]; intros Hn Hr; simpl in Hn.
  - case_bool_decide; [by injection Hr as <-|].
    apply rbind_Ok in Hr as (c1 & Hc1 & Hr). apply rbind_Ok in Hr as (delta & _ & Hr). injection Hr as <-.
    etrans; [exact Hup|]. by eapply keeps_report_heartbeats.
  - apply rbind_Ok in Hr as (c1 & Hc1 & Hr). apply rbind_Ok in Hr as ([c2 effs] & Hc2 & Hr).
    apply rbind_Ok in Hr as (delta' & _ & Hr). injection Hr as <-. simpl.
    assert (keeps c c1) as Hk by (etrans; [exact Hup|by eapply keeps_report_heartbeats]).
    etrans; [exact Hk|]. apply (keeps_process_delta _ _ _ _) in Hc2; [done|]. by rewrite (keeps_self_id _ _ Hk).
  - apply rbind_Ok in Hr as ([c2 effs] & Hc2 & Hr). injection Hr as <-. simpl.
    etrans; [exact Hup|]. apply (keeps_process_delta _ _ _ _) in Hc2; [done|]. by rewrite (keeps_self_id _ _ Hup).
  - by injection Hr as <-.
Qed.
Lemma settled_gc ns grace now : settled (key_values ns) →
  key_values (gc_keys_marked_for_deletion ns grace now) = key_values ns.
Proof.
  intros Hs. simpl. apply map_filter_id. intros k v Hk. simpl. unfold gc_expired. by rewrite (Hs k v Hk : vv_status v = Set_).
Qed.
Lemma keeps_gossip_multiple c now : chitchat_inv c → settled (key_values (self_node_state c)) →
  keeps c (gossip_multiple c now).1.
Proof.
  intros Hc Hs. unfold gossip_multiple. destruct (select_nodes_for_gossip _ _ _ _) as [[selected dn] sn]. simpl.
  set (ns := inc_heartbeat (self_node_state c)). change (settled (key_values ns)) in Hs.
  set (c1 := update_self_heartbeat c). set (c2 := chitchat_gc c1 now).
  assert (node_states (cluster_state c2) !! self_chitchat_id c =
    Some (gc_keys_marked_for_deletion ns (cfg_marked_for_deletion_grace_period (config c)) now)) as Hl.
  { change (node_states (cluster_state c2)) with ((λ ns, gc_keys_marked_for_deletion ns
      (cfg_marked_for_deletion_grace_period (config c)) now) <$> node_states (cluster_state c1)).
    rewrite lookup_fmap. subst c1. unfold update_self_heartbeat. by rewrite (self_lookup_put (inc_heartbeat (self_node_state c)) c). }
  assert (chitchat_inv c2) as Hc2 by (apply chitchat_gc_inv, update_self_heartbeat_inv, Hc).
  destruct (update_nodes_liveness_ok c2 now Hc2) as (_ & _ & Hself). specialize (Hself _ Hl).
  destruct (notify_watcher_same (update_all_liveness c2 now)) as (_ & _ & Ecfg).
  assert (config (update_nodes_liveness c2 now) = config c) as Hcfg by (etrans; [exact Ecfg|done]).
  split; [done| |].
  - unfold update_nodes_liveness, chitchat_garbage_collect, notify_watcher. simpl. by case_bool_decide.
  - unfold self_node_state at 1, node_state_mut.
    assert (self_chitchat_id (update_nodes_liveness c2 now) = self_chitchat_id c2) as ->
      by (unfold self_chitchat_id; by rewrite Hcfg).
    rewrite Hself. etrans; [by apply (settled_gc ns)|done].
Qed.
End keeping.

(** ** A turn of the server in the program *)
Section turn.
Context `{ZstdOk, ShuffleOk, Rng}.

Lemma transmit_ok (out : Outbox) : Forall (λ p, is_ok (message_serialize p.2) = true) out →
  ∃ l, transmit out = Ok l ∧ l.*1 = out.*1.
Proof.
  induction 1 as [|[to m] out Hm _ (l & Hl & Hfst)]; [by exists []|]. simpl in Hm. simpl. unfold udp_payload.
  destruct (message_serialize m) as [b| | |]; [|done..]. cbn [rbind]. rewrite Hl. cbn [rbind].
  eexists. split; [done|]. rewrite !fmap_cons. by rewrite Hfst.
Qed.
Lemma syn_serializes c now : is_ok (message_serialize (create_syn_message c now)) = true.
Proof. done. Qed.
(** What the server can be given: a message that it can serve, and that has
    no delta for the node itself. *)
Definition servable (c : Chitchat) (m : ChitchatMessage) (now : Instant) : Prop :=
  incoming_ok m ∧ reply_room c m now ∧ self_chitchat_id c ∉ delta_ids m.
Definition turn_ok (c : Chitchat) (e : Event) (now : Instant) : Prop :=
  match e with
  | Received (Ok (_, m)) => servable c m now
  | Tick | SeedsRefreshed _ => True
  | _ => False
  end.
Lemma turn_keeps c e now : chitchat_inv c → max_datagram_payload_size c ≤ u16_max →
  settled (key_values (self_node_state c)) → turn_ok c e now →
  ∃ c' out l, server_step c e now = Ok (c', out, Continue) ∧ transmit out = Ok l ∧ l.*1 = out.*1 ∧
    chitchat_inv c' ∧ keeps c c'.
Proof.
  intros Hc Hmax Hs He.
  assert (∃ c' out, server_step c e now = Ok (c', out, Continue) ∧ chitchat_inv c' ∧ keeps c c' ∧
    Forall (λ p, is_ok (message_serialize p.2) = true) out) as (c' & out & Hr & Hc' & Hk & Hout).
  { destruct e as [[[from m]| | |]| | |addrs]; try done; cbn [turn_ok] in He.
    - destruct He as (Hm & Hroom & Hn).
      destruct (process_message_ok c m now Hc Hm Hmax Hroom) as (c' & reply & eff & Hp & Hc' & _ & Hreply).
      cbn [server_step]. unfold handle_message. rewrite Hp. cbn [rbind]. eexists _, _. split; [done|].
      split; [done|]. apply keeps_process_message in Hp; [|done]. split; [done|].
      destruct reply as [reply|]; [|done]. destruct Hreply as (buf & Hbuf & _). repeat constructor. simpl. by rewrite Hbuf.
    - cbn [server_step]. pose proof (gossip_multiple_inv c now Hc) as Hc'.
      pose proof (keeps_gossip_multiple c now Hc Hs) as Hk.
      assert (Forall (λ p, is_ok (message_serialize p.2) = true) (gossip_multiple c now).2) as Hout.
      { unfold gossip_multiple. destruct (select_nodes_for_gossip _ _ _ _) as [[selected dn] sn]. cbn [snd].
        apply Forall_concat, Forall_fmap, Forall_forall. intros a _. by repeat constructor. }
      destruct (gossip_multiple c now) as [c' out]. by eexists _, _.
    - simpl. eexists _, _. split; [done|]. split; [by apply set_cluster_state_inv; [|apply Hc]|].
      split; [by apply keeps_set_cluster|constructor]. }
  destruct (transmit_ok out Hout) as (l & Hl & Hfst). by exists c', out, l.
Qed.
End turn.

(** ** Starting *)
Section starting.
(** The node's own data goes through the codecs. *)
Definition wf_initial (kvs : list (string * string)) : Prop :=
  Forall (λ p : string * string, wf_String p.1 ∧ wf_String p.2 ∧ event_key_ok p.1 = true) kvs.
Lemma set_all_ok ls id ns kvs : wf_ns id ns → max_version ns + blen kvs < u64_max →
  settled (key_values ns) → wf_initial kvs →
  ∃ r, set_all ls ns kvs = Ok r ∧ wf_ns id r.1 ∧ settled (key_values r.1).
Proof.
  intros Hns Hroom Hs Hkvs. revert ns Hns Hroom Hs.
  induction Hkvs as [|[k v] kvs (Hk & Hv & Hek) _ IH]; intros ns Hns Hroom Hs; [by eexists|].
  cbn [set_all fst snd] in *. rewrite blen_cons in Hroom.
  assert (max_version ns < u64_max) as Hlt by lia.
  pose proof (set_total ls ns k (wn_inv _ _ Hns) Hlt v Hek) as Htot.
  destruct (set ls ns k v) as [[ns1 calls]| | |] eqn:E; [|done..]. cbn [rbind].
  assert (wf_ns id ns1 ∧ settled (key_values ns1) ∧ max_version ns1 ≤ max_version ns + 1) as (Hns1 & Hs1 & Hmv).
  { destruct (set_cases ls ns k (wn_inv _ _ Hns) Hlt v _ E) as [[_ [= -> _]]|[_ Hst]].
    - split_and!; [done..|lia].
    - simpl in Hst. subst ns1. split_and!; [|by apply map_Forall_insert_2|simpl; lia].
      apply wf_ns_store; [done|simpl; lia|].
      split_and!; try done. unfold u64_max in Hlt. change (max_version ns + 1 < 18446744073709551616). lia. }
  destruct (IH ns1 Hns1 ltac:(lia) Hs1) as ([ns2 calls2] & -> & H2). cbn [rbind]. by eexists.
Qed.
Lemma with_chitchat_ok cfg addrs kvs max : wf_ChitchatId (cfg_chitchat_id cfg) →
  (0 < sampling_window_size (cfg_failure_detector_config cfg))%nat → wf_initial kvs → blen kvs < u64_max →
  ∃ c, with_chitchat_id_and_seeds cfg addrs kvs max = Ok c ∧ chitchat_inv c ∧ config c = cfg ∧
    max_datagram_payload_size c = max ∧ settled (key_values (self_node_state c)).
Proof.
  intros Hid Hwin Hkvs Hlen. unfold with_chitchat_id_and_seeds.
  set (c0 := mkChitchat _ _ _ _ _ _). set (ns0 := inc_heartbeat (self_node_state c0)).
  assert (wf_ns (cfg_chitchat_id cfg) ns0) as Hns0.
  { apply wf_ns_set_heartbeat, Heartbeat_inc_fits. by apply wf_ns_new. }
  destruct (set_all_ok (cluster_listeners (cluster_state c0)) _ ns0 kvs Hns0) as ([ns calls] & -> & Hns & Hs);
    [change (max_version ns0) with 0; lia|apply map_Forall_empty|done|].
  cbn [rbind]. eexists. split; [done|]. simpl in Hns, Hs. split; [|split_and!; try done].
  - split; simpl.
    + apply put_node_state_inv; [apply map_Forall_empty|done].
    + by apply fd_inv_new.
    + done.
    + set_solver.
    + apply lookup_empty.
  - unfold self_node_state, node_state_mut.
    change (self_chitchat_id (put_self_node_state ns c0)) with (self_chitchat_id c0). by rewrite self_lookup_put.
Qed.
End starting.

(** ** Runs *)
Section runs.
Context `{ZstdOk, ShuffleOk, Rng, Resolver, Crypto, JsonOk, JsonPretty} (dev_mode : bool).

Definition message_keys_ok (m : ChitchatMessage) : Prop :=
  match m with SynAck _ d | Ack d => delta_keys_ok d | _ => True end.
(** What the socket reads of a datagram. *)
Definition read_of (datagram : bytes) : bytes := take (N.to_nat MAX_UDP_DATAGRAM_PAYLOAD_SIZE) datagram.
(** A datagram that the program withstands: it does not announce more than it
    holds; and if it decodes, its keys can be cut, there is room for an
    answer, and its delta is not about the node itself. *)
Definition datagram_ok (c : Chitchat) (datagram : bytes) (now : Instant) : Prop :=
  message_overrun (read_of datagram) = false ∧
  ∀ m rest, message_deserialize (read_of datagram) = Ok (m, rest) →
    message_keys_ok m ∧ reply_room c m now ∧ self_chitchat_id c ∉ delta_ids m.
Definition event_served (p : Program) (e : ProgramEvent) (now : Instant) : Prop :=
  match e with
  | Arrived (Ok (datagram, _)) => datagram_ok (pg_chitchat p) datagram now
  | Arrived _ | UpdaterEnded _ | ApiServerEnded _ => False
  | _ => True
  end.
Inductive program_runs (p0 : Program) : list Output → Program → Prop :=
  | runs_started : program_runs p0 [] p0
  | runs_on outs p e now out p' : program_runs p0 outs p → event_served p e now →
      program_step dev_mode p e now = (out, Running p') → program_runs p0 (outs ++ out) p'.

(** The engine is sound, and the node's own data are those of the start. *)
Record program_inv (own : gmap string VersionedValue) (p : Program) : Prop := {
  pi_engine : chitchat_inv (pg_chitchat p);
  pi_max : max_datagram_payload_size (pg_chitchat p) = MAX_UDP_DATAGRAM_PAYLOAD_SIZE;
  pi_own : key_values (self_node_state (pg_chitchat p)) = own;
  pi_settled : settled own;
}.
Lemma gossip_server_ok own p e now : program_inv own p → turn_ok (pg_chitchat p) e now →
  ∃ out p', gossip_server p e now = (out, Running p') ∧ program_inv own p'.
Proof.
  intros [Hc Hmax Hown Hs] He.
  destruct (turn_keeps (pg_chitchat p) e now Hc) as (c' & out & l & Hr & Hl & _ & Hc' & Hk); try done;
    [rewrite Hmax; vm_compute; done|by rewrite Hown|].
  unfold gossip_server. rewrite Hr. cbn [rbind snd fst]. rewrite Hl. cbn [rbind]. eexists _, _. split; [done|].
  destruct Hk as [_ Km Ko]. split; cbn [pg_chitchat set_chitchat]; [done|congruence|congruence|done].
Qed.
Lemma datagram_turn c datagram from now : datagram_ok c datagram now →
  match receive_one (Ok (datagram, from)) with
  | Ok (Some (_, m)) => servable c m now
  | Ok None => True
  | _ => False
  end.
Proof.
  intros [Hov Hm]. unfold receive_one. cbn [rbind]. fold (read_of datagram).
  pose proof (message_deserialize_safe (read_of datagram)) as Hsafe. rewrite Hov in Hsafe.
  destruct (message_deserialize (read_of datagram)) as [[m rest]| | |] eqn:E; [|done..].
  destruct (Hm m rest eq_refl) as (Hk & Hroom & Hn). split; [|done].
  apply message_deserialize_sound in E. destruct m; simpl in *; tauto.
Qed.
Lemma program_step_ok own p e now : program_inv own p → event_served p e now →
  ∃ out p', program_step dev_mode p e now = (out, Running p') ∧ program_inv own p'.
Proof.
  intros Hp He.
  assert (∀ l, program_inv own (set_index_calls l p)) as Hidx by (intros l; destruct Hp; by split).
  destruct e as [received| | |[pk|]| |i| |r|r]; cbn [program_step event_served] in *; try done; eauto.
  - destruct received as [[datagram from]| | |]; [|done..].
    pose proof (datagram_turn _ _ from now He) as Ht.
    destruct (receive_one (Ok (datagram, from))) as [[[from' m]|]| | |]; [|by eauto|done..].
    by apply gossip_server_ok.
  - by apply gossip_server_ok.
  - destruct (pg_refresh p) as [[hosts addrs]|]; [|by eauto]. by apply gossip_server_ok.
  - destruct (pg_index_calls p !! i); by eauto.
Qed.
Lemma program_runs_inv own p0 outs p : program_inv own p0 → program_runs p0 outs p → program_inv own p.
Proof.
  intros Hp0. induction 1 as [|outs p e now out p' _ IH He Hstep]; [done|].
  destruct (program_step_ok own p e now IH He) as (out' & p'' & Hs & Hp''). rewrite Hs in Hstep. by simplify_eq.
Qed.

(** *** The start *)
Context (display : SocketAddr → string) (opened : SocketAddr → res unit) (params : CliParams)
  (cool_id : string) (generation : N) (now : Instant).
Let cfg : ChitchatConfig := program_config display params cool_id generation.
Let started : res Program := program_start dev_mode display opened params cool_id (Some generation) now.

Lemma gossip_section_own ns ns' : key_values ns = key_values ns' → gossip_section ns = gossip_section ns'.
Proof. intros Hk. unfold gossip_section, live_key_values, key_values_including_deleted. by rewrite Hk. Qed.
Lemma published_wf kvs : to_gossip dev_mode (gossip_params params) = inl kvs → Forall wf_String kvs.*2 →
  wf_initial kvs ∧ blen kvs < u64_max ∧ NoDup kvs.*1.
Proof.
  intros Hkvs Hv. pose proof (to_gossip_keys dev_mode _ _ Hkvs) as Hkeys.
  assert (Forall (λ k, wf_String k ∧ event_key_ok k = true) kvs.*1) as Hk.
  { rewrite Hkeys. repeat constructor; vm_compute; done. }
  split_and!.
  - clear Hkvs Hkeys. induction kvs as [|[k v] kvs IH]; [constructor|].
    apply Forall_cons in Hv as [Hv Hvs]. apply Forall_cons in Hk as [[Hk1 Hk2] Hks]. constructor; [done|by apply IH].
  - apply (f_equal length) in Hkeys. rewrite length_fmap in Hkeys. unfold blen. rewrite Hkeys. by vm_compute.
  - rewrite Hkeys. apply (bool_decide_unpack _). by vm_compute.
Qed.
Lemma program_starts kvs : to_gossip dev_mode (gossip_params params) = inl kvs → Forall wf_String kvs.*2 →
  wf_ChitchatId (cfg_chitchat_id cfg) → opened (cfg_listen_addr cfg) = Ok () →
  ∃ p addrs, started = Ok p ∧ program_inv (key_values (self_node_state (pg_chitchat p))) p ∧
    with_chitchat_id_and_seeds cfg addrs kvs MAX_UDP_DATAGRAM_PAYLOAD_SIZE = Ok (pg_chitchat p).
Proof.
  intros Hkvs Hv Hid Hopen. destruct (published_wf kvs Hkvs Hv) as (Hwf & Hlen & _).
  unfold started, program_start. rewrite Hkvs. unfold gossip_run. cbn [unwrap rbind].
  change (gossip_config _ _ _ _ _ _ _) with cfg. unfold spawn_chitchat.
  destruct (spawn_dns_refresh_loop (cfg_seed_nodes cfg) now) as [addrs refresh]. rewrite Hopen. cbn [rbind].
  destruct (with_chitchat_ok cfg addrs kvs MAX_UDP_DATAGRAM_PAYLOAD_SIZE Hid) as (c & Hw & Hc & _ & Hmax & Hs);
    [vm_compute; lia|done|done|].
  rewrite Hw. cbn [rbind]. by eexists _, addrs.
Qed.
Lemma snapshot_self c : key_values (self_node_state c) ≠ ∅ → self_node_state c ∈ snap_node_states (state_snapshot c).
Proof.
  unfold self_node_state, node_state_mut. destruct (node_states (cluster_state c) !! _) as [ns|] eqn:E; [|done].
  intros _. simpl. apply list_elem_of_fmap. exists (self_chitchat_id c, ns). split; [done|]. by apply elem_of_btree_items.
Qed.
Lemma runs_published kvs p outs p' :
  to_gossip dev_mode (gossip_params params) = inl kvs → Forall wf_String kvs.*2 →
  wf_ChitchatId (cfg_chitchat_id cfg) → opened (cfg_listen_addr cfg) = Ok () →
  started = Ok p → program_runs p outs p' →
  let c := pg_chitchat p' in
  from_gossip dev_mode (gossip_section (self_node_state c)) =
    Some (mkNoLicenses (wallet_pubkey (gossip_params params)) (bls_pubkey (gossip_params params))
      (config_signatures (gossip_params params)) CARGO_PKG_VERSION) ∧
  (distinct_keys dev_mode (snap_node_states (state_snapshot c)) →
   self_node_state c ∈ snap_node_states (api_cluster_state (index_response dev_mode (get_verified_state dev_mode c).1 c))) ∧
  ∀ e now, event_served p' e now → ∃ out p'', program_step dev_mode p' e now = (out, Running p'').
Proof.
  intros Hkvs Hv Hid Hopen Hst Hruns.
  destruct (published_wf kvs Hkvs Hv) as (_ & Hlen & Hnd).
  destruct (program_starts kvs Hkvs Hv Hid Hopen) as (p1 & addrs & Hst' & Hinv & Hw).
  rewrite Hst in Hst'. injection Hst' as <-.
  pose proof (program_runs_inv _ _ _ _ Hinv Hruns) as Hinv'.
  assert (gossip_section (self_node_state (pg_chitchat p')) = gossip_section (self_node_state (pg_chitchat p))) as Hsec
    by apply gossip_section_own, Hinv'.
  destruct (to_gossip_accepted dev_mode _ kvs _ Hkvs (initial_section cfg addrs kvs _ _ Hnd (N.lt_le_incl _ _ Hlen) Hw))
    as (Hfrom & Hlic & Hprox).
  rewrite <-Hsec in Hfrom, Hlic, Hprox. cbn zeta. split; [exact Hfrom|]. split.
  - intros Hd. simpl. assert (self_node_state (pg_chitchat p') ∈ snap_node_states (state_snapshot (pg_chitchat p'))) as Hin.
    { apply snapshot_self. intros He. rewrite (gossip_section_own _ (NodeState_new (self_chitchat_id (pg_chitchat p')))) in Hfrom by done.
      by vm_compute in Hfrom. }
    apply list_elem_of_filter. split; [|exact Hin]. apply shown_valid; [done..|]. eexists. by split.
  - intros e now' He. destruct (program_step_ok _ _ _ _ Hinv' He) as (out & p'' & Hs & _). by eauto.
Qed.
End runs.

(** ** The end *)
Section ends.
Context `{Zstd, Shuffle, Rng, Resolver, Crypto, Json, JsonPretty} (dev_mode : bool).

Lemma gossip_server_exit p e now out code : gossip_server p e now = (out, Exited code) → code = 1.
Proof. unfold gossip_server, task_ended. destruct (rbind _ _) as [[[c l] [|r]]| | |]; intros; by simplify_eq. Qed.
(** Once it has started, the program ends with the exit code 1 only, whichever
    task ends first and however. *)
Theorem program_exits_with_1 p events out code : program_run dev_mode p events = (out, Exited code) → code = 1.
Proof.
  revert p out. induction events as [|[e now] events IH]; intros p out; simpl; [done|].
  destruct (program_step dev_mode p e now) as [out1 [p'|code']] eqn:E.
  - destruct (program_run dev_mode p' events) as [out2 o] eqn:E2. intros [= _ ->]. by eapply IH.
  - intros [= _ <-].
    destruct e as [received| | |[pk|]| |i| |r|r]; cbn [program_step] in E; unfold task_ended in E; try by simplify_eq.
    + destruct (receive_one received) as [[envelope|]| | |]; try by simplify_eq; eapply gossip_server_exit, E.
      all: by eapply gossip_server_exit.
    + by eapply gossip_server_exit.
    + destruct (pg_refresh p) as [[hosts addrs]|]; [by eapply gossip_server_exit|by simplify_eq].
    + by destruct (pg_index_calls p !! i).
Qed.
(** Eight bytes from anyone end the program: the panic of the decoder ends
    the gossip server, and with it the main task. *)
Theorem eight_bytes_end_program p from now :
  program_step dev_mode p (Arrived (Ok (u8 83 :: u8 176 :: u8 0 :: u8 0 :: [u8 255; u8 255; u8 255; u8 255], from))) now =
  ([], Exited 1).
Proof. reflexivity. Qed.
End ends.

(** ** A concrete program *)
Module Node.
Import RawZstd Concrete FirstRng.
#[export] Instance keep_order : Shuffle := λ A _ l, l.
#[export] Instance no_names : Resolver := {| parse_addr _ := None; lookup_host _ _ := None |}.
#[export] Instance no_text : JsonPretty := {|
  pretty_response _ := ""; pretty_states _ := ""; pretty_revoked _ := ""; pretty_text s := s |}.
Definition address : SocketAddr := SockV4 2130706433 10000.
Definition params : CliParams :=
  mkCliParams (mkAppConfig "igniter" [] address address address [] None 500 [signed "1" 7] false) None None
    (mkKeys (mkWallet "n" "") (mkBls "b" "" "")).
Definition display (_ : SocketAddr) : string := "127.0.0.1:10000".
Definition kvs : list (string * string) := published [signed "1" 7].
Definition start : res Program := program_start false display (λ _, Ok ()) params "x" (Some 5) 0.
Definition running : Program :=
  match start with Ok p => p | _ => mkProgram Overflow.engine None "" [] end.
Definition own_state (p : Program) : option VerifiedNodeStateNoLicenses :=
  from_gossip false (gossip_section (self_node_state (pg_chitchat p))).
(** A delta for the node itself that gives it another key. *)
Definition forged : ChitchatMessage :=
  let ns := self_node_state (pg_chitchat running) in
  let d := mkDelta [mkNodeDelta (self_chitchat_id (pg_chitchat running)) (max_version ns) 0
    [mkKeyValueMutation "pubkey" "other" (max_version ns + 1) MSet] None] in
  let payload := let* w := append_all codec_DeltaOp (with_block_threshold 16384) (get_operations (d 0)) in finish w in
  Ack (d (match payload with Ok b => blen b | _ => 0 end)).
Definition forged_datagram : bytes := match message_serialize forged with Ok b => b | _ => [] end.
End Node.

Section forged.
Import RawZstd Concrete FirstRng Node.
(** A peer can change what a node publishes: a delta is applied whatever
    node it is about, so a datagram with one for the receiver itself replaces
    its own data, which then no longer verify, here and everywhere. *)
Theorem peer_replaces_own_data :
  own_state running = Some (mkNoLicenses "n" "b" [signed "1" 7] CARGO_PKG_VERSION) ∧
  match program_step false running (Arrived (Ok (forged_datagram, address))) 1 with
  | (_, Running p) => own_state p = None ∧ get (self_node_state (pg_chitchat p)) "pubkey" = Some "other"%string
  | _ => False
  end.
Proof. vm_compute. repeat split. Qed.
End forged.

(** ** Properties *)

(** C16: An igniter that has started keeps publishing its licences and keeps
    serving.  Its runs take datagrams, gossip rounds, seed refreshes, requests
    and watcher rounds in any order, where a datagram ([datagram_ok]) announces
    no more than it holds and, if it decodes, has no key whose first
    character is longer than one byte (one that is applied stops the program),
    leaves room for a reply in the datagram size (for a digest: 101 bytes
    beside the node's own digest), and carries no delta about the node itself;
    sockets, the updater and the API server do not fail.  At every point of
    such a run its state in the gossip is read back as the keys, the licences
    and the version of its configuration, its index shows it unless another
    state claims its key, and the next such event is again served. *)
Theorem igniter_keeps_publishing `{ZstdOk, ShuffleOk, Rng, Resolver, Crypto, JsonOk, JsonPretty} dev_mode
    display opened params cool_id generation now kvs :
  to_gossip dev_mode (gossip_params params) = inl kvs → Forall wf_String kvs.*2 →
  wf_ChitchatId (cfg_chitchat_id (program_config display params cool_id generation)) →
  opened (cfg_listen_addr (program_config display params cool_id generation)) = Ok () →
  ∃ p, program_start dev_mode display opened params cool_id (Some generation) now = Ok p ∧
  ∀ outs p', program_runs dev_mode p outs p' →
    let c := pg_chitchat p' in
    from_gossip dev_mode (gossip_section (self_node_state c)) =
      Some (mkNoLicenses (wallet_pubkey (gossip_params params)) (bls_pubkey (gossip_params params))
        (config_signatures (gossip_params params)) CARGO_PKG_VERSION) ∧
    (distinct_keys dev_mode (snap_node_states (state_snapshot c)) →
     self_node_state c ∈ snap_node_states (api_cluster_state (index_response dev_mode (get_verified_state dev_mode c).1 c))) ∧
    ∀ e now, event_served p' e now → ∃ out p'', program_step dev_mode p' e now = (out, Running p'').
Proof.
  intros Hkvs Hv Hid Hopen.
  destruct (program_starts dev_mode display opened params cool_id generation now kvs Hkvs Hv Hid Hopen)
    as (p & _ & Hst & _).
  exists p. split; [exact Hst|]. intros outs p' Hruns.
  by apply (runs_published dev_mode display opened params cool_id generation now kvs p outs).
Qed.
Section witness.
Import RawZstd Concrete FirstRng Node.
Lemma igniter_keeps_publishing_witness :
  ∃ p, start = Ok p ∧ ∀ outs p', program_runs false p outs p' →
    from_gossip false (gossip_section (self_node_state (pg_chitchat p'))) =
      Some (mkNoLicenses "n" "b" [signed "1" 7] CARGO_PKG_VERSION).
Proof.
  destruct (igniter_keeps_publishing (H2:=λ A n l, Permutation_refl l) false display (λ _, Ok ()) params "x" 5 0 kvs)
    as (p & Hst & Hruns).
  - vm_compute. reflexivity.
  - apply (bool_decide_unpack _). vm_compute. exact I.
  - apply (bool_decide_unpack _). vm_compute. exact I.
  - reflexivity.
  - exists p. split; [exact Hst|]. intros outs p' Hr. exact (proj1 (Hruns outs p' Hr)).
Defined.
End witness.
