(* ===== verification/Spread.v ===== *)
(** * Igniters come to know each other's licences

    [Crowd] for engines that have just started: what one was given to publish,
    all the others show after as many rounds as there are keys for each of
    them, and one more; and so the index of every igniter shows the licences
    of all. *)
From S2P Require Import Prelude Types Serialize Stream Listener Delta Message NodeState Cluster FailureDetector.
From S2P Require Import Chitchat Server Packing Replication Convergence Gossip Handshake Crowd Channel Datagram Revocation Licensing Igniter Program.
Open Scope N_scope.

(** ** The history of a node that starts *)
Definition written_from (kvs : list (string * string)) (kv : KeyValueMutation) : Prop :=
  (kv_key kv, kv_value kv) ∈ kvs ∧ kv_status kv = MSet.
Lemma set_all_history ls kvs ns h r : hist_ok h → owner_ok h ns → max_version ns + blen kvs ≤ u64_max →
  set_all ls ns kvs = Ok r → ∃ h', hist_ok (h ++ h') ∧ owner_ok (h ++ h') r.1 ∧
    last_gc_version r.1 = last_gc_version ns ∧ blen h' ≤ blen kvs ∧ Forall (written_from kvs) h'.
Proof.
  revert ns h r. induction kvs as [|[k v] kvs IH]; intros ns h r Hh Ho Hroom Hr; cbn [set_all] in Hr.
  { injection Hr as <-. exists []. by rewrite (right_id_L [] (++)). }
  apply rbind_Ok in Hr as ([ns1 calls] & Hset & Hr). apply rbind_Ok in Hr as ([ns2 calls2] & Hall & Hr).
  apply Ok_inj in Hr as <-. rewrite blen_cons in Hroom.
  assert (∀ h', Forall (written_from kvs) h' → Forall (written_from ((k, v) :: kvs)) h') as Hweak.
  { intros h' Hw. eapply Forall_impl; [exact Hw|]. intros kv [Hin ?]. split; [by right|done]. }
  destruct (set_cases ls ns k (ro_inv _ _ (proj1 Ho)) ltac:(lia) v _ Hset) as [[_ [= -> _]]|[_ Hst]].
  - destruct (IH ns h (ns2, calls2) Hh Ho ltac:(lia) Hall) as (h' & ? & ? & ? & ? & ?). exists h'. rewrite blen_cons.
    split_and!; try done; [lia|by apply Hweak].
  - simpl in Hst. destruct (owner_ok_store h ns k (mkVersionedValue v (max_version ns + 1) Set_) Hh Ho eq_refl) as [Hh1 Ho1].
    rewrite <-Hst in Ho1.
    destruct (IH ns1 _ (ns2, calls2) Hh1 Ho1) as (h' & Hh' & Ho' & Hg & Hl & Hw); [rewrite Hst; simpl; lia|done|].
    exists (kv_of_vv k (mkVersionedValue v (max_version ns + 1) Set_) :: h').
    rewrite <-(assoc_L (++)) in Hh', Ho'. split_and!; try done.
    + etrans; [exact Hg|by rewrite Hst].
    + rewrite !blen_cons. lia.
    + constructor; [split; [by left|done]|by apply Hweak].
Qed.
(** The engine of a node that starts: its own data, and nothing else. *)
Record fresh (kvs : list (string * string)) (h : history) (c : Chitchat) : Prop := {
  fr_hist : hist_ok h;
  fr_own : owner_ok h (node c (self_chitchat_id c));
  fr_gc : last_gc_version (node c (self_chitchat_id c)) = 0;
  fr_alone : dom (node_states (cluster_state c)) = {[self_chitchat_id c]};
  fr_len : blen h ≤ blen kvs;
  fr_written : Forall (written_from kvs) h;
}.
Lemma starts_fresh cfg seeds kvs max c : blen kvs ≤ u64_max → with_chitchat_id_and_seeds cfg seeds kvs max = Ok c →
  self_chitchat_id c = cfg_chitchat_id cfg ∧ config c = cfg ∧ max_datagram_payload_size c = max ∧ ∃ h, fresh kvs h c.
Proof.
  intros Hlen Hc. unfold with_chitchat_id_and_seeds in Hc. apply rbind_Ok in Hc as ([ns calls] & Hall & Hc).
  apply Ok_inj in Hc as <-. split_and!; [done..|].
  edestruct set_all_history with (4 := Hall) (h := [] : history) as (h & Hh & Ho & Hg & Hl & Hw).
  - intros i kv Hi. by rewrite lookup_nil in Hi.
  - split; [|done]. apply (replica_ok_data [] _ _ (data_eq_heartbeat _ _)), replica_ok_new.
  - by change (0 + blen kvs ≤ u64_max).
  - exists h. split; simpl in *; try done.
    + unfold node_state_mut. simpl. by rewrite lookup_insert_eq.
    + unfold node_state_mut. simpl. by rewrite lookup_insert_eq.
    + by rewrite dom_insert_L, dom_empty_L, (right_id_L ∅ (∪)).
Qed.

(** ** Any number of them *)
Definition entry_len (p : string * string) : N :=
  serialized_len codec_DeltaOp (OpKeyValue (mkKeyValueMutation p.1 p.2 0 MSet)).
#[local] Transparent codec_DeltaOp codec_KeyValueMutation.
Lemma written_len kvs kv : written_from kvs kv → serialized_len codec_DeltaOp (OpKeyValue kv) = entry_len (kv_key kv, kv_value kv).
Proof. intros [_ Hs]. unfold entry_len. cbn [codec_DeltaOp codec_KeyValueMutation serialized_len fst snd]. by rewrite !slen_u64. Qed.
#[local] Opaque codec_DeltaOp codec_KeyValueMutation.
(** The datagrams have room for the digest of all, their headers and any one
    entry, and zstd keeps the digests below a length. *)
Record crowd_fits `{Zstd} (l : list ChitchatId) (kvs : list (string * string)) (max dlen : N) : Prop := {
  cf_max : max ≤ u16_max;
  cf_room : 100 + dlen + 1 ≤ max;
  cf_ids : Forall (λ id, node_op_len id ≤ N.min BLOCK_THRESHOLD (max - 1 - dlen)) l;
  cf_headers : sum_of header_room l + 7 + dlen + 1 ≤ max;
  cf_entries : Forall (λ p, sum_of header_room l + entry_len p + 7 + dlen + 1 ≤ max) kvs;
  cf_digest : ∀ d, digest_wf d → dom d ⊆ (list_to_set l : gset ChitchatId) → wf_Digest d ∧ digest_serialized_len d ≤ dlen;
}.
(** What a node was given, what it wrote, and its engine. *)
Record Newcomer : Type := mkNewcomer { nc_kvs : list (string * string); nc_hist : history; nc_engine : Chitchat }.
Definition nc_id (s : Newcomer) : ChitchatId := self_chitchat_id (nc_engine s).
Definition given (ss : list Newcomer) : list (string * string) := mjoin (nc_kvs <$> ss).
(** The histories of all. *)
Definition histories (ss : list Newcomer) (id : ChitchatId) : history :=
  default [] ((list_to_map ((λ s, (nc_id s, nc_hist s)) <$> ss) : gmap ChitchatId history) !! id).

Lemma sum_of_fmap {A B} (f : B → N) (g : A → B) (l : list A) : sum_of f (g <$> l) = sum_of (λ x, f (g x)) l.
Proof. unfold sum_of. induction l as [|x l IH]; [done|]. csimpl. by rewrite IH. Qed.
Lemma sum_list_to_set (f : ChitchatId → N) (l : list ChitchatId) : NoDup l →
  sum_of f (elements (list_to_set l : gset ChitchatId)) = sum_of f l.
Proof. intros Hl. apply N.le_antisymm; apply sum_of_submseteq; by rewrite (elements_list_to_set _ Hl). Qed.
Lemma sum_of_bound {A} (f : A → N) m (l : list A) : (∀ x, f x ≤ m) → sum_of f l ≤ blen l * m.
Proof.
  intros Hf. unfold sum_of. induction l as [|x l IH]; [done|]. simpl. rewrite blen_cons, N.mul_add_distr_r, N.mul_1_l.
  by apply N.add_le_mono.
Qed.
Lemma blen_mjoin {A} (ls : list (list A)) : blen (mjoin ls) = sum_of blen ls.
Proof. unfold sum_of. induction ls as [|l ls IH]; [done|]. simpl. by rewrite blen_app, IH. Qed.

Section newcomers.
Context `{ZstdOk, ShuffleOk} (ss : list Newcomer) (cluster : string) (max dlen : N).
Let l : list ChitchatId := nc_id <$> ss.
Let ids : gset ChitchatId := list_to_set l.
Context (Hdup : NoDup l) (Hcw : wf_String cluster).
Context (Hfit : crowd_fits l (given ss) max dlen).
Context (Hkeys : Forall (λ p : string * string, event_key_ok p.1 = true) (given ss)).
Record newcomer_ok (s : Newcomer) : Prop := {
  nk_cluster : cfg_cluster_id (config (nc_engine s)) = cluster;
  nk_engine : chitchat_inv (nc_engine s);
  nk_max : max_datagram_payload_size (nc_engine s) = max;
  nk_fresh : fresh (nc_kvs s) (nc_hist s) (nc_engine s);
}.
Context (Hss : Forall newcomer_ok ss).

Lemma newcomer s : s ∈ ss → newcomer_ok s.
Proof. rewrite Forall_forall in Hss. apply Hss. Qed.
Lemma histories_of s : s ∈ ss → histories ss (nc_id s) = nc_hist s.
Proof.
  intros Hs. unfold histories. erewrite elem_of_list_to_map_1; [done| |].
  - rewrite <-list_fmap_compose. exact Hdup.
  - apply list_elem_of_fmap. by exists s.
Qed.
Lemma histories_cases id : histories ss id = [] ∨ ∃ s, s ∈ ss ∧ id = nc_id s ∧ histories ss id = nc_hist s.
Proof.
  unfold histories. destruct (_ !! id) as [h|] eqn:E; [right|by left].
  apply elem_of_list_to_map_2, list_elem_of_fmap in E as (s & [= -> ->] & Hs). by exists s.
Qed.
Lemma given_from s p : s ∈ ss → p ∈ nc_kvs s → p ∈ given ss.
Proof. intros Hs Hp. unfold given. apply list_elem_of_join. exists (nc_kvs s). split; [done|]. apply list_elem_of_fmap. by exists s. Qed.
Lemma histories_written id : Forall (written_from (given ss)) (histories ss id).
Proof.
  destruct (histories_cases id) as [->|(s & Hs & -> & ->)]; [constructor|].
  eapply Forall_impl; [apply (nk_fresh _ (newcomer s Hs))|]. intros kv [Hin ?]. split; [by eapply given_from|done].
Qed.
Lemma histories_ok id : hist_ok (histories ss id).
Proof.
  destruct (histories_cases id) as [->|(s & Hs & -> & ->)]; [|apply (nk_fresh _ (newcomer s Hs))].
  intros i kv Hi. by rewrite lookup_nil in Hi.
Qed.
Lemma sum_ids (f : ChitchatId → N) : sum_of f (elements ids) = sum_of f l.
Proof. by apply sum_list_to_set. Qed.
Lemma newcomers_network : network_ok (histories ss) ids max dlen.
Proof.
  destruct Hfit as [Fm Fr Fi Fh Fe Fd]. split; [|done|done].
  rewrite Forall_forall in Fi. rewrite Forall_forall in Fe. rewrite Forall_forall in Hkeys. split.
  - apply histories_ok.
  - intros id kv Hkv. pose proof (histories_written id) as Hw. rewrite Forall_forall in Hw. destruct (Hw kv Hkv) as [Hin _]. by apply (Hkeys _ Hin).
  - lia.
  - intros id Hid%elem_of_list_to_set. by apply Fi.
  - rewrite sum_ids. lia.
  - intros id kv _ Hkv. rewrite sum_ids. pose proof (histories_written id) as Hw. rewrite Forall_forall in Hw.
    rewrite (written_len (given ss) kv (Hw kv Hkv)). destruct (Hw kv Hkv) as [Hin _]. specialize (Fe _ Hin). lia.
Qed.
Lemma fresh_node kvs h c id : fresh kvs h c → id ≠ self_chitchat_id c → node c id = NodeState_new id.
Proof.
  intros Hf Hid. unfold node_state_mut. destruct (node_states (cluster_state c) !! id) eqn:E; [|done]. exfalso.
  assert (id ∈ dom (node_states (cluster_state c))) as Hin by (apply elem_of_dom; eauto).
  rewrite (fr_alone _ _ _ Hf) in Hin. set_solver.
Qed.
Lemma new_replica h id : hist_ok h → replica_ok h (NodeState_new id).
Proof.
  intros Hh. split; simpl; [apply ns_inv_new| | | |lia|lia].
  - intros k v Hk. by rewrite lookup_empty in Hk.
  - intros k kv Hl Hv. apply latest_elem in Hl as [Hl _]. apply (hist_version_bound _ _ Hh) in Hl. lia.
  - intros k v kv Hk. by rewrite lookup_empty in Hk.
Qed.
Lemma newcomer_peer s : s ∈ ss → peer_ok (histories ss) ids max (nc_engine s).
Proof.
  intros Hs. destruct (newcomer s Hs) as [Hcl Hinv Hm Hf].
  assert (nc_id s ∈ ids) as Hself by (apply elem_of_list_to_set, list_elem_of_fmap; by exists s).
  split; [done|done|by rewrite Hcl|done|]. split; [apply Hinv|rewrite (fr_alone _ _ _ Hf); set_solver|].
  intros id. destruct (decide (id = nc_id s)) as [->|Hid].
  - destruct (fr_own _ _ _ Hf) as [Hr _]. rewrite histories_of by done. split; [done|]. intros k v Hk Hsch.
    apply (ro_genuine _ _ Hr) in Hk. pose proof (fr_written _ _ _ Hf) as Hall. rewrite Forall_forall in Hall.
    destruct (Hall _ Hk) as [_ Hst]. by rewrite Hst in Hsch.
  - rewrite (fresh_node _ _ _ id Hf Hid). split; [apply new_replica, histories_ok|]. intros k v Hk. simpl in Hk. by rewrite lookup_empty in Hk.
Qed.
Lemma newcomer_gc s id : s ∈ ss → last_gc_version (node (nc_engine s) id) = 0.
Proof.
  intros Hs. pose proof (nk_fresh _ (newcomer s Hs)) as Hf. destruct (decide (id = nc_id s)) as [->|Hid]; [apply Hf|].
  by rewrite (fresh_node _ _ _ id Hf Hid).
Qed.
Lemma newcomers_ok : crowd_ok (histories ss) ids max (nc_engine <$> ss).
Proof.
  intros a b (s & -> & Hs)%list_elem_of_fmap (s' & -> & Hs')%list_elem_of_fmap. split; [by apply newcomer_peer..| |].
  - by rewrite (nk_cluster _ (newcomer s Hs)), (nk_cluster _ (newcomer s' Hs')).
  - intros id. by rewrite !newcomer_gc.
Qed.
Lemma newcomers_lack : lack (histories ss) ids (nc_engine <$> ss) ≤ blen ss * blen (given ss).
Proof.
  assert (∀ c, lacks (histories ss) ids c ≤ blen (given ss)) as Hone.
  { intros c. unfold lacks. rewrite sum_ids. unfold l, given. rewrite sum_of_fmap, blen_mjoin, sum_of_fmap.
    apply sum_of_le. intros s Hs. rewrite histories_of by done. pose proof (fr_len _ _ _ (nk_fresh _ (newcomer s Hs))). lia. }
  unfold lack. rewrite sum_of_fmap. by apply sum_of_bound.
Qed.
(** What a node was given, and nothing else, is shown by all in the end. *)
Lemma newcomers_meet n cs : crowd_rounds ids n (nc_engine <$> ss) cs → blen ss * blen (given ss) < N.of_nat n →
  ∀ s c k, s ∈ ss → c ∈ cs → get (node c (nc_id s)) k = get (node (nc_engine s) (nc_id s)) k.
Proof.
  intros Hr Hlt s c k Hs Hc. pose proof newcomers_network as Hnet. pose proof newcomers_lack as Hlack.
  destruct (crowd_rounds_ok (histories ss) ids max dlen Hnet n _ cs newcomers_ok Hr) as (Hok & Hg & Hall).
  specialize (Hall ltac:(right; lia)).
  assert (nc_engine s ∈ nc_engine <$> ss) as (i & Hi)%list_elem_of_lookup by (apply list_elem_of_fmap; by exists s).
  destruct (Forall2_lookup_l _ _ _ _ _ Hg Hi) as (c1 & Hc1 & _ & _ & [_ More _]). apply list_elem_of_lookup_2 in Hc1.
  destruct (nk_fresh _ (newcomer s Hs)) as [Hh [Ho Hmx] _ _ _ Hw]. specialize (More (nc_id s)). unfold nc_id in More at 1.
  pose proof (histories_of s Hs) as Hhist.
  destruct (latest (nc_hist s) k) as [kv|] eqn:Hl.
  - pose proof (latest_elem _ _ _ Hl) as [Hin _]. pose proof (hist_version_bound _ _ Hh Hin) as Hv.
    rewrite Forall_forall in Hw. destruct (Hw kv Hin) as [_ Hst].
    destruct (agreed_key (histories ss) ids max dlen Hnet c1 c (nc_id s) k kv) as [_ ->];
      [by apply Hok|by apply Hall|by rewrite Hhist|by rewrite Hst|lia|].
    pose proof (replica_get _ _ _ _ Ho Hl ltac:(lia)) as Hget. unfold shown_as. by rewrite Hst in *.
  - etrans; [|symmetry; exact (latest_None _ _ k Ho Hl)]. rewrite <-Hhist in Hl. eapply latest_None; [|exact Hl].
    apply (co_nodes _ _ _ (pe_cluster _ _ _ _ (po_left _ _ _ _ _ (Hok c c Hc Hc))) (nc_id s)).
Qed.
End newcomers.

(** ** What an engine does in between leaves its data as they are *)
Section idle.
Context `{Zstd, Shuffle, Rng} (hist : ChitchatId → history) (ids : gset ChitchatId) (max : N).

Lemma heard_idles c c' : peer_ok hist ids max c → beats ids c c' → chitchat_inv c' → idles ids c c'.
Proof. intros Hc [? ? _ ? Hd] Hinv. split; [done..|]. etrans; [exact Hd|]. apply union_least; [apply Hc|done]. Qed.
(** A gossip round, while nothing is deleted and nobody is given up. *)
Lemma gc_settled_data ns grace now : settled (key_values ns) → data_eq ns (gc_keys_marked_for_deletion ns grace now).
Proof.
  intros Hs. pose proof (settled_gc ns grace now Hs) as Hk.
  assert (last_gc_version (gc_keys_marked_for_deletion ns grace now) = last_gc_version ns) as Hg.
  { destruct (gc_last_gc_cases ns grace now) as [?|(k & v & Hk' & He & _)]; [done|].
    apply gc_expired_scheduled in He. specialize (Hs k v Hk'). simpl in Hs. by rewrite Hs in He. }
  unfold data_eq, gc_keys_marked_for_deletion in *. destruct ns. unfold set_heartbeat in *. simpl in *. by rewrite Hk, Hg.
Qed.
Lemma fold_liveness_dead self l fd now id t : fd_inv fd →
  fd_dead_nodes (foldl (λ fd id, if bool_decide (id = self) then fd else update_node_liveness fd id now) fd l) !! id = Some t →
  fd_dead_nodes fd !! id = Some t ∨ t = now.
Proof.
  revert fd. induction l as [|i l IH]; intros fd Hfd; simpl; [by left|].
  case_bool_decide; [by apply IH|]. intros [Hd|?]%IH; [|by right|by apply update_node_liveness_inv].
  destruct (decide (id = i)) as [->|Hne].
  - pose proof (update_node_liveness_spec fd i now Hfd) as Hs. simpl in Hs. destruct (is_alive fd i now).
    + destruct Hs as [_ Hs]. congruence.
    + destruct Hs as (_ & Hs & _). rewrite Hs in Hd. injection Hd as <-. destruct (fd_dead_nodes fd !! i) eqn:E; [by left|by right].
  - destruct (update_node_liveness_frame fd i now id Hne) as (_ & Hf & _). rewrite Hf in Hd. by left.
Qed.

Lemma tick_idles c now : peer_ok hist ids max c → (∀ id, settled (key_values (node c id))) →
  (∀ id t, fd_dead_nodes (failure_detector c) !! id = Some t → now < t + dead_node_grace_period (fd_config (failure_detector c))) →
  0 < dead_node_grace_period (fd_config (failure_detector c)) → idles ids c (gossip_multiple c now).1.
Proof.
  intros Hc Hset Hdead Hgrace. pose proof Hc as [Hinv Hm Hcid Hself Hcl].
  pose proof (gossip_multiple_inv c now Hinv) as Hinv'. unfold gossip_multiple in *.
  destruct (select_nodes_for_gossip _ _ _ _) as [[selected dn] sn]. cbn [fst] in *.
  set (c1 := chitchat_gc (update_self_heartbeat c) now) in *.
  assert (same_data (cluster_state c) (cluster_state c1) ∧
    dom (node_states (cluster_state c1)) ⊆ dom (node_states (cluster_state c)) ∪ {[self_chitchat_id c]}) as [Hs1 Hd1].
  { pose proof (update_self_heartbeat_beats c) as [_ _ _ Hs Hd]. split; [|simpl; by rewrite dom_fmap].
    intros id. rewrite (Hs id). unfold c1, chitchat_gc, cluster_gc, node_state_mut at 2. cbn [cluster_state set_cluster_state node_states set_node_states].
    rewrite lookup_fmap. destruct (node_states (cluster_state (update_self_heartbeat c)) !! id) as [ns|] eqn:E;
      unfold node_state_mut; rewrite E; [|done]. apply gc_settled_data.
    specialize (Hs id). unfold node_state_mut at 2 in Hs. rewrite E in Hs. by_data_eq Hs. rewrite <-Hk. apply Hset. }
  assert (failure_detector c1 = failure_detector c ∧ config c1 = config c) as [Hf1 Hcf1] by done.
  unfold update_nodes_liveness in *. destruct (notify_watcher_same (update_all_liveness c1 now)) as (Ecs & Efd & Ecf).
  set (c2 := notify_watcher (update_all_liveness c1 now)) in *.
  assert (garbage_of (failure_detector c2) now = []) as Hnone.
  { destruct (garbage_of (failure_detector c2) now) as [|id l] eqn:E; [done|exfalso].
    assert (id ∈ garbage_of (failure_detector c2) now) as (t & Ht & Hle)%elem_of_garbage by (rewrite E; by left).
    rewrite Efd in Ht, Hle. unfold update_all_liveness in Ht, Hle. cbn [failure_detector set_failure_detector] in Ht, Hle.
    destruct (fold_liveness_inv (self_chitchat_id c1) (nodes (cluster_state c1)) (failure_detector c1) now
      (ci_detector _ Hinv) (ci_self_live _ Hinv) (ci_self_dead _ Hinv)) as (_ & _ & _ & _ & Hcfg). rewrite Hcfg, Hf1 in Hle. rewrite Hf1 in Ht.
    apply fold_liveness_dead in Ht; [|apply Hinv]. destruct Ht as [Ht| ->]; [specialize (Hdead _ _ Ht)|]; lia. }
  unfold chitchat_garbage_collect, garbage_collect in *. rewrite Hnone in *. cbn [foldl] in *.
  assert (same_data (cluster_state c) (cluster_state c2)) as Hs2 by by rewrite Ecs.
  split; simpl; [done|by rewrite Ecf| |done|].
  - change (max_datagram_payload_size c2 = max_datagram_payload_size c). unfold c2, notify_watcher. by case_bool_decide.
  - rewrite Ecs. simpl. etrans; [exact Hd1|]. apply union_least; [apply Hcl|by apply singleton_subseteq_l].
Qed.
End idle.

(** ** Igniters *)
Section programs.
Context `{ZstdOk, ShuffleOk, Rng, Resolver, Crypto, JsonOk, JsonPretty} (dev_mode : bool).

(** An igniter that has started. *)
Record started (display : SocketAddr → string) (opened : SocketAddr → res unit) (params : CliParams) (cool_id : string)
    (generation : N) (now : Instant) (kvs : list (string * string)) (p : Program) : Prop := {
  sd_published : to_gossip dev_mode (gossip_params params) = inl kvs;
  sd_strings : Forall wf_String kvs.*2;
  sd_id : wf_ChitchatId (cfg_chitchat_id (program_config display params cool_id generation));
  sd_open : opened (cfg_listen_addr (program_config display params cool_id generation)) = Ok ();
  sd_start : program_start dev_mode display opened params cool_id (Some generation) now = Ok p;
}.
(** An engine shows the licences of the igniter with these parameters. *)
Definition shows_licences (c : Chitchat) (id : ChitchatId) (params : CliParams) : Prop :=
  from_gossip dev_mode (gossip_section (node c id)) =
    Some (mkNoLicenses (wallet_pubkey (gossip_params params)) (bls_pubkey (gossip_params params))
      (config_signatures (gossip_params params)) CARGO_PKG_VERSION) ∧
  (distinct_keys dev_mode (snap_node_states (state_snapshot c)) →
   node c id ∈ snap_node_states (api_cluster_state (index_response dev_mode (get_verified_state dev_mode c).1 c))).

Lemma started_fresh display opened params cool_id generation now kvs p :
  started display opened params cool_id generation now kvs p →
  let c := pg_chitchat p in
  self_chitchat_id c = cfg_chitchat_id (program_config display params cool_id generation) ∧
  cfg_cluster_id (config c) = cluster_id (params_config params) ∧
  chitchat_inv c ∧ max_datagram_payload_size c = MAX_UDP_DATAGRAM_PAYLOAD_SIZE ∧
  (∃ h, fresh kvs h c) ∧ Forall (λ q : string * string, event_key_ok q.1 = true) kvs ∧
  (∀ k v, (k, v) ∈ kvs → gossip_section (node c (self_chitchat_id c)) !! k = Some v).
Proof.
  intros [Hk Hs Hid Ho Hst]. cbn zeta. destruct (published_wf dev_mode params kvs Hk Hs) as (Hwf & Hlen & Hnd).
  destruct (program_starts dev_mode display opened params cool_id generation now kvs Hk Hs Hid Ho) as (p' & addrs & Hst' & Hinv & Hw).
  rewrite Hst in Hst'. injection Hst' as <-.
  destruct (starts_fresh _ addrs kvs _ (pg_chitchat p) (N.lt_le_incl _ _ Hlen) Hw) as (Hself & Hcfg & Hmax & Hf).
  split_and!; [done|by rewrite Hcfg|apply Hinv|done|done| |].
  - eapply Forall_impl; [exact Hwf|]. by intros [k v] (_ & _ & ?).
  - intros k v Hin. by apply (initial_section _ addrs kvs _ (pg_chitchat p) Hnd (N.lt_le_incl _ _ Hlen) Hw).
Qed.
Lemma shows_from c id params kvs section : to_gossip dev_mode (gossip_params params) = inl kvs →
  (∀ k v, (k, v) ∈ kvs → section !! k = Some v) → gossip_section (node c id) = section → shows_licences c id params.
Proof.
  intros Hk Hsec Heq. destruct (to_gossip_accepted dev_mode _ kvs _ Hk Hsec) as (Hfrom & Hlic & Hprox).
  rewrite <-Heq in Hfrom, Hlic, Hprox. split; [done|]. intros Hd. simpl.
  assert (node c id ∈ snap_node_states (state_snapshot c)) as Hin.
  { unfold node_state_mut in *. destruct (node_states (cluster_state c) !! id) as [ns|] eqn:E.
    - simpl. apply list_elem_of_fmap. exists (id, ns). split; [done|]. by apply elem_of_btree_items.
    - exfalso. by vm_compute in Hfrom. }
  apply list_elem_of_filter. split; [|exact Hin]. apply shown_valid; [done..|]. eexists. by split.
Qed.
(** A start of the program. *)
Record Launch : Type := mkLaunch {
  la_display : SocketAddr → string;
  la_opened : SocketAddr → res unit;
  la_params : CliParams;
  la_cool_id : string;
  la_generation : N;
  la_now : Instant;
  la_kvs : list (string * string);
  la_program : Program;
}.
Definition launched (l : Launch) : Prop :=
  started (la_display l) (la_opened l) (la_params l) (la_cool_id l) (la_generation l) (la_now l) (la_kvs l) (la_program l).
Definition la_engine (l : Launch) : Chitchat := pg_chitchat (la_program l).
Definition la_id (l : Launch) : ChitchatId := self_chitchat_id (la_engine l).
Definition la_cluster (l : Launch) : string := cluster_id (params_config (la_params l)).
Definition published_by (ls : list Launch) : list (string * string) := mjoin (la_kvs <$> ls).

Lemma launched_newcomers ls cluster : Forall launched ls → Forall (λ l, la_cluster l = cluster) ls → ∃ ss : list Newcomer,
  nc_engine <$> ss = la_engine <$> ls ∧ nc_kvs <$> ss = la_kvs <$> ls ∧
  Forall (newcomer_ok cluster MAX_UDP_DATAGRAM_PAYLOAD_SIZE) ss ∧
  Forall (λ q : string * string, event_key_ok q.1 = true) (published_by ls).
Proof.
  induction 1 as [|l ls Hl _ IH]; intros Hc; [exists []; split_and!; (done || constructor)|].
  apply Forall_cons in Hc as [Hc Hcs]. destruct (IH Hcs) as (ss & He & Hk & Hok & Hev).
  apply started_fresh in Hl as (_ & C & I & Mx & (h & F) & E & _).
  exists (mkNewcomer (la_kvs l) h (la_engine l) :: ss). rewrite !fmap_cons, He, Hk. split_and!; [done..| |by apply Forall_app].
  constructor; [|done]. split; [|exact I|exact Mx|exact F]. etrans; [exact C|exact Hc].
Qed.
Lemma newcomers_of ls ss : nc_engine <$> ss = la_engine <$> ls → nc_kvs <$> ss = la_kvs <$> ls →
  nc_id <$> ss = la_id <$> ls ∧ given ss = published_by ls ∧ length ss = length ls.
Proof.
  intros He Hk. split_and!.
  - apply (f_equal (fmap self_chitchat_id)) in He. by rewrite <-!list_fmap_compose in He.
  - unfold given, published_by. by rewrite Hk.
  - apply (f_equal length) in He. by rewrite !length_fmap in He.
Qed.
(** They form a crowd that can meet, and in the end each shows the licences
    of all. *)
Lemma launched_crowd ls cluster dlen : Forall launched ls → Forall (λ l, la_cluster l = cluster) ls → wf_String cluster →
  NoDup (la_id <$> ls) → crowd_fits (la_id <$> ls) (published_by ls) MAX_UDP_DATAGRAM_PAYLOAD_SIZE dlen →
  ∃ hist, let ids := list_to_set (la_id <$> ls) in
  network_ok hist ids MAX_UDP_DATAGRAM_PAYLOAD_SIZE dlen ∧ crowd_ok hist ids MAX_UDP_DATAGRAM_PAYLOAD_SIZE (la_engine <$> ls) ∧
  ∀ n cs l c k, crowd_rounds ids n (la_engine <$> ls) cs → blen ls * blen (published_by ls) < N.of_nat n →
    l ∈ ls → c ∈ cs → get (node c (la_id l)) k = get (node (la_engine l) (la_id l)) k.
Proof.
  intros Hls Hc Hcw Hdup Hfit. destruct (launched_newcomers ls cluster Hls Hc) as (ss & He & Hk & Hok & Hev).
  destruct (newcomers_of ls ss He Hk) as (Hid & Hg & Hlen). exists (histories ss). cbn zeta.
  rewrite <-Hid in Hdup, Hfit |- *. rewrite <-He. rewrite <-Hg in Hfit, Hev |- *. split_and!.
  - by apply (newcomers_network ss cluster).
  - by apply (newcomers_ok ss cluster MAX_UDP_DATAGRAM_PAYLOAD_SIZE dlen).
  - intros n cs l c k Hr Hlt Hl Hcin.
    assert (la_engine l ∈ nc_engine <$> ss) as (s & Es & Hs)%list_elem_of_fmap by (rewrite He; apply list_elem_of_fmap; by exists l).
    unfold la_id. rewrite Es.
    apply (newcomers_meet ss cluster MAX_UDP_DATAGRAM_PAYLOAD_SIZE dlen Hdup Hcw Hfit Hev Hok n cs Hr); [|done..].
    unfold blen in *. by rewrite Hlen.
Qed.
End programs.

(** ** Three concrete igniters
    The same parameters under three names, and a zstd that does not compress. *)
Module ThreeNodes.
Import RawZstd Concrete FirstRng Node.
#[export] Instance keep_order_ok : @ShuffleOk keep_order.
Proof. intros A n l. done. Qed.
Definition launch (name : string) : Launch :=
  mkLaunch display (λ _, Ok ()) params name 5 0 kvs
    (match program_start false display (λ _, Ok ()) params name (Some 5) 0 with Ok p => p | _ => running end).
Definition three : list Launch := [launch "x"; launch "y"; launch "z"].
Definition names : list ChitchatId := la_id <$> three.
Definition engines : list Chitchat := la_engine <$> three.
Definition digests_len : N := 6 + sum_of digest_entry_len names.
Lemma raw_digests (l : list ChitchatId) d : NoDup l → 6 + sum_of digest_entry_len l ≤ u16_max → digest_wf d →
  dom d ⊆ (list_to_set l : gset ChitchatId) → wf_Digest d ∧ digest_serialized_len d ≤ 6 + sum_of digest_entry_len l.
Proof.
  intros Hdup Hsmall Hwf Hd. pose proof (digest_uncompressed_len _ d Hd) as Hlen. rewrite (sum_list_to_set _ l Hdup) in Hlen.
  assert (blen l ≤ sum_of digest_entry_len l) as Hcount.
  { clear. unfold sum_of. induction l as [|id l IH]; [done|]. rewrite blen_cons. simpl. unfold digest_entry_len at 1. lia. }
  unfold u16_max in Hsmall. split.
  - split; [done| |].
    + rewrite <-size_dom. apply subseteq_size in Hd. rewrite size_list_to_set in Hd by done. unfold blen, u16_max in *. lia.
    + eexists. split; [reflexivity|]. apply (N.le_lt_trans _ 65535); [etrans; [exact Hlen|]; lia|done].
  - unfold digest_serialized_len, digest_serialize. cbn [encode_all raw default]. rewrite blen_app, serialize_len.
    change (serialized_len codec_u32 _) with 4. simpl. lia.
Qed.
Lemma launched_ok name : name = "x"%string ∨ name = "y"%string ∨ name = "z"%string → launched false (launch name).
Proof.
  intros [->|[-> | ->]]; (split; [vm_compute; reflexivity|apply (bool_decide_unpack _); vm_compute; exact I
    |apply (bool_decide_unpack _); vm_compute; exact I|reflexivity|vm_compute; reflexivity]).
Qed.
Lemma three_launched : Forall (launched false) three.
Proof.
  apply Forall_cons. split; [apply launched_ok; by left|]. apply Forall_cons. split; [apply launched_ok; by right; left|].
  apply Forall_cons. split; [apply launched_ok; by right; right|]. constructor.
Qed.
Lemma names_differ : NoDup names.
Proof. apply (bool_decide_unpack _). vm_compute. exact I. Qed.
Lemma one_cluster : Forall (λ l, la_cluster l = la_cluster (launch "x")) three.
Proof. apply (bool_decide_unpack _). vm_compute. exact I. Qed.
Lemma cluster_wf : wf_String (la_cluster (launch "x")).
Proof. apply (bool_decide_unpack _). vm_compute. exact I. Qed.
Lemma three_fit : crowd_fits names (published_by three) MAX_UDP_DATAGRAM_PAYLOAD_SIZE digests_len.
Proof.
  split; [apply N.leb_le; vm_compute; reflexivity..| | | |].
  - apply (bool_decide_unpack _). vm_compute. exact I.
  - apply N.leb_le. vm_compute. reflexivity.
  - apply (bool_decide_unpack _). vm_compute. exact I.
  - intros d Hwf Hd. apply raw_digests; [apply names_differ|apply N.leb_le; vm_compute; reflexivity|done|done].
Qed.
Lemma three_crowd : ∃ hist, network_ok hist (list_to_set names) MAX_UDP_DATAGRAM_PAYLOAD_SIZE digests_len ∧
  crowd_ok hist (list_to_set names) MAX_UDP_DATAGRAM_PAYLOAD_SIZE engines.
Proof.
  destruct (launched_crowd false three _ _ three_launched one_cluster cluster_wf names_differ three_fit) as (hist & Hnet & Hok & _).
  by exists hist.
Qed.
Lemma three_meet n : ∃ cs, crowd_rounds (list_to_set names) n engines cs.
Proof.
  destruct three_crowd as (hist & Hnet & Hok).
  eapply crowd_can_meet; [exact Hnet|exact Hok|]. refine (proj1 (Forall_forall (λ c, fd_dead_nodes (failure_detector c) = ∅) engines) _).
  apply (bool_decide_unpack _). vm_compute. exact I.
Qed.
End ThreeNodes.

(** ** Properties *)

(** C5: Engines that keep meeting agree in the end, however many they are,
    while they keep equal watermarks and schedule nobody for deletion.  After
    as many rounds in which every two have met, and one more, as there are
    versions that some of them lack, every engine shows the latest write of
    every key that any of them had seen, unless it expires.  In between they
    meet and are cut off in any order, and do what leaves their data alone;
    and after any such rounds two of them that have nobody scheduled for
    deletion at that moment complete a handshake without a panic.  The
    conditions ([network_ok], [crowd_ok]): datagrams of at most 65535 bytes
    with room for the digest, the headers of the nodes and any one entry; one
    cluster id; keys that listeners accept; states of the nodes' histories
    whose remaining tombstones are younger than the watermark; and for every
    node one watermark that all share. *)
Theorem engines_agree `{ZstdOk, ShuffleOk} hist ids max dlen cs n cs' :
  network_ok hist ids max dlen → crowd_ok hist ids max cs → crowd_rounds ids n cs cs' →
  (∀ a b t0 t1 t2 t3, a ∈ cs' → b ∈ cs' → nobody_scheduled a b t0 t1 t2 → ∃ r, handshake a b t0 t1 t2 t3 = Ok r) ∧
  (lack hist ids cs < N.of_nat n → ∀ id k kv c c', c ∈ cs → c' ∈ cs' → latest (hist id) k = Some kv →
     kv_status kv ≠ MDeleteAfterTtl → kv_version kv ≤ max_version (node c id) → get (node c' id) k = shown_as kv).
Proof.
  intros Hnet Hok Hr. destruct (crowd_rounds_ok hist ids max dlen Hnet n cs cs' Hok Hr) as (Hok' & Hg & Hall). split.
  - intros a b t0 t1 t2 t3 Ha Hb Hns.
    destruct (handshake_ok hist ids max dlen Hnet a b t0 t1 t2 t3 (Hok' a b Ha Hb) Hns) as (x & y & Hh & _). eauto.
  - intros Hlt id k kv c c' (i & Hi)%list_elem_of_lookup Hc' Hl Httl Hv. specialize (Hall (or_intror Hlt)).
    destruct (Forall2_lookup_l _ _ _ _ _ Hg Hi) as (c1 & Hc1 & _ & _ & [_ More _]). apply list_elem_of_lookup_2 in Hc1.
    eapply (agreed_key hist ids max dlen Hnet c1 c'); [by apply Hok'|by apply Hall|done|done|].
    etrans; [exact Hv|apply More].
Qed.

(** Three engines, after one round more than they lack versions. *)
Lemma engines_agree_witness : ∃ hist cs',
  @crowd_rounds RawZstd.raw Node.keep_order (list_to_set ThreeNodes.names)
    (S (N.to_nat (lack hist (list_to_set ThreeNodes.names) ThreeNodes.engines))) ThreeNodes.engines cs' ∧
  ∀ id k kv c c', c ∈ ThreeNodes.engines → c' ∈ cs' → latest (hist id) k = Some kv → kv_status kv ≠ MDeleteAfterTtl →
    kv_version kv ≤ max_version (node c id) → get (node c' id) k = shown_as kv.
Proof.
  destruct ThreeNodes.three_crowd as (hist & Hnet & Hok).
  destruct (ThreeNodes.three_meet (S (N.to_nat (lack hist (list_to_set ThreeNodes.names) ThreeNodes.engines)))) as (cs' & Hr).
  exists hist, cs'. split; [exact Hr|].
  apply (proj2 (@engines_agree _ RawZstd.raw_ok _ ThreeNodes.keep_order_ok hist _ _ _ _ _ cs' Hnet Hok Hr)). lia.
Defined.

(** C17: Igniters come to show each other's licences, however many they are.
    When igniters of one cluster have just started, with little enough to
    publish for their datagrams, then after more rounds in which every two
    have met than there are keys for each of them, every igniter shows the
    keys, the licences and the version of every one, whoever starts the
    handshakes, whichever are cut off, and whatever leaves the data alone in
    between; and the index shows it, unless another state claims its key. *)
Theorem licences_spread `{ZstdOk, ShuffleOk, Rng, Resolver, Crypto, JsonOk, JsonPretty} dev_mode ls cluster dlen n cs :
  Forall (launched dev_mode) ls → Forall (λ l, la_cluster l = cluster) ls → wf_String cluster →
  NoDup (la_id <$> ls) → crowd_fits (la_id <$> ls) (published_by ls) MAX_UDP_DATAGRAM_PAYLOAD_SIZE dlen →
  crowd_rounds (list_to_set (la_id <$> ls)) n (la_engine <$> ls) cs → blen ls * blen (published_by ls) < N.of_nat n →
  ∀ l c, l ∈ ls → c ∈ cs → shows_licences dev_mode c (la_id l) (la_params l).
Proof.
  intros Hls Hc Hcw Hdup Hfit Hr Hn l c Hl Hcin.
  destruct (launched_crowd dev_mode ls cluster dlen Hls Hc Hcw Hdup Hfit) as (hist & _ & _ & Hshow).
  rewrite Forall_forall in Hls. pose proof (sd_published _ _ _ _ _ _ _ _ _ (Hls l Hl)) as Hk.
  specialize (Hls l Hl). apply started_fresh in Hls as (_ & _ & _ & _ & _ & _ & Hsec).
  apply (shows_from dev_mode c (la_id l) (la_params l) (la_kvs l) _ Hk Hsec).
  apply map_eq. intros k. rewrite !gossip_section_lookup. by apply (Hshow n cs l c k).
Qed.
(** Each of the three shows the licence of each. *)
Lemma licences_spread_witness : ∃ cs,
  @crowd_rounds RawZstd.raw Node.keep_order (list_to_set ThreeNodes.names) 55 ThreeNodes.engines cs ∧
  ∀ l c, l ∈ ThreeNodes.three → c ∈ cs →
    @shows_licences Concrete.crypto Concrete.json false c (la_id l) (la_params l).
Proof.
  destruct (ThreeNodes.three_meet 55) as (cs & Hr). exists cs. split; [exact Hr|].
  apply (@licences_spread _ RawZstd.raw_ok _ ThreeNodes.keep_order_ok FirstRng.first Node.no_names Concrete.crypto _ Concrete.json_ok Node.no_text false
    ThreeNodes.three _ ThreeNodes.digests_len 55 cs ThreeNodes.three_launched ThreeNodes.one_cluster ThreeNodes.cluster_wf
    ThreeNodes.names_differ ThreeNodes.three_fit Hr). vm_compute. reflexivity.
Defined.
