(* ===== verification/RangeSet.v ===== *)
(** * Sets of ranges (the [RangeSet<usize>] of the crate rangemap)

    An interface with the documented behaviour of the two operations that
    the streams use, and an implementation of it as a sorted list of ranges
    that neither overlap nor touch. *)
From S2P Require Import Prelude.
Open Scope N_scope.

Class RangeSets : Type := {
  rangeset : Type;
  rs_new : rangeset;
  (** panics on an empty range, which the code does not insert *)
  rs_insert : N * N → rangeset → rangeset;
  rs_first : rangeset → option (N * N);
}.
(** Ranges [a..b] are half open; [rs_first] is the lowest maximal range. *)
Class RangeSetsOk `{RangeSets} : Type := {
  rs_ok : rangeset → Prop;
  rs_mem : N → rangeset → Prop;
  rs_new_ok : rs_ok rs_new;
  rs_mem_new i : ¬ rs_mem i rs_new;
  rs_insert_ok a b s : a < b → rs_ok s → rs_ok (rs_insert (a, b) s);
  rs_mem_insert a b s i : a < b → rs_ok s → rs_mem i (rs_insert (a, b) s) ↔ a ≤ i < b ∨ rs_mem i s;
  rs_first_spec s : rs_ok s →
    match rs_first s with
    | None => ∀ i, ¬ rs_mem i s
    | Some (a, b) => a < b ∧ (∀ i, i < a → ¬ rs_mem i s) ∧ (∀ i, a ≤ i < b → rs_mem i s) ∧ ¬ rs_mem b s
    end;
}.

(** ** Sorted lists of ranges *)
Module Ranges.
Fixpoint insert_range (a b : N) (l : list (N * N)) : list (N * N) :=
  match l with
  | [] => [(a, b)]
  | (c, d) :: l =>
      if b <? c then (a, b) :: (c, d) :: l
      else if d <? a then (c, d) :: insert_range a b l
      else insert_range (N.min a c) (N.max b d) l
  end.
Definition member (i : N) (l : list (N * N)) : Prop := Exists (λ p, p.1 ≤ i < p.2) l.
(** Every range is non-empty and ends before those that follow begin. *)
Fixpoint separated (l : list (N * N)) : Prop :=
  match l with
  | [] => True
  | (a, b) :: l => a < b ∧ Forall (λ p, b < p.1) l ∧ separated l
  end.
Lemma insert_range_from n a b l : n < a → Forall (λ p : N * N, n < p.1) l →
  Forall (λ p, n < p.1) (insert_range a b l).
Proof.
  revert a b. induction l as [|[c d] l IH]; intros a b Ha Hl; simpl; [by repeat constructor|].
  apply Forall_cons in Hl as [Hc Hl]. simpl in Hc. repeat case_match.
  - by repeat constructor.
  - constructor; [done|]. by apply IH.
  - apply IH; [lia|done].
Qed.
Lemma insert_range_separated a b l : a < b → separated l → separated (insert_range a b l).
Proof.
  revert a b. induction l as [|[c d] l IH]; intros a b Hab Hl; simpl; [done|].
  destruct Hl as (Hcd & Hd & Hl). destruct (b <? c) eqn:E.
  { apply N.ltb_lt in E. simpl. split_and!; try done. constructor; [done|].
    eapply Forall_impl; [exact Hd|]. intros p. simpl. lia. }
  destruct (d <? a) eqn:E2; [|apply IH; [lia|done]].
  apply N.ltb_lt in E2. simpl. split_and!; [done| |by apply IH]. by apply insert_range_from.
Qed.
Lemma insert_range_member i a b l : a < b → separated l →
  member i (insert_range a b l) ↔ a ≤ i < b ∨ member i l.
Proof.
  unfold member. revert a b. induction l as [|[c d] l IH]; intros a b Hab Hl; simpl.
  { rewrite Exists_cons, Exists_nil. simpl. tauto. }
  destruct Hl as (Hcd & Hd & Hl). repeat case_match.
  - rewrite !Exists_cons. simpl. tauto.
  - rewrite !Exists_cons, IH by done. simpl. tauto.
  - rewrite IH, Exists_cons by (done || lia). simpl.
    repeat match goal with H : (_ <? _) = false |- _ => apply N.ltb_ge in H end.
    assert (N.min a c ≤ i < N.max b d ↔ a ≤ i < b ∨ c ≤ i < d) by lia. tauto.
Qed.
End Ranges.

#[export] Instance range_lists : RangeSets := {|
  rangeset := list (N * N);
  rs_new := [];
  rs_insert p s := Ranges.insert_range p.1 p.2 s;
  rs_first s := head s;
|}.
#[export] Instance range_lists_ok : RangeSetsOk.
Proof.
  refine {| rs_ok := Ranges.separated : @rangeset range_lists → Prop;
            rs_mem := Ranges.member : _ → @rangeset range_lists → Prop |}.
  - done.
  - intros i Hm. inversion Hm.
  - intros a b s. apply Ranges.insert_range_separated.
  - intros a b s i. apply Ranges.insert_range_member.
  - intros [|[a b] s] Hs; simpl.
    + intros i Hm. inversion Hm.
    + destruct Hs as (Hab & Hb & _). unfold Ranges.member. rewrite Forall_forall in Hb. split_and!; [done|..].
      * intros i Hi Hm. apply Exists_cons in Hm as [Hm|Hm]; [simpl in Hm; lia|].
        apply Exists_exists in Hm as (p & Hp & Hm). specialize (Hb p Hp). lia.
      * intros i Hi. by left.
      * intros Hm. apply Exists_cons in Hm as [Hm|Hm]; [simpl in Hm; lia|].
        apply Exists_exists in Hm as (p & Hp & Hm). specialize (Hb p Hp). lia.
Defined.
