(* ===== verification/RecvBuffer.v ===== *)
(** * Buffers of a QUIC stream (transport-layer/src/msquic/msquic_async/buffer.rs)

    [StreamRecvBuffer] walks over the buffers that one receive event lends to
    the stream.  A [QUIC_BUFFER] is its bytes; its [Length] is a [u32].
    [WriteBuffer] holds the bytes of a send until msquic is done with them. *)
From S2P Require Import Prelude.
Open Scope N_scope.

Record StreamRecvBuffer : Type := mkRecvBuffer {
  rb_buffers : list bytes;
  rb_offset : N;
  rb_len : N;
  rb_read_cursor : nat;
  rb_cursor_in_buffer : nat;
  rb_fin : bool;
}.
Definition set_cursor (cursor cursor_in_buffer : nat) (b : StreamRecvBuffer) : StreamRecvBuffer :=
  mkRecvBuffer (rb_buffers b) (rb_offset b) (rb_len b) cursor cursor_in_buffer (rb_fin b).

(** [.map(|x| x.Length).sum::<u32>()] *)
Definition sum_lengths (l : list bytes) : N := foldl (λ acc c, wrap 32 (acc + blen c)) 0 l.
Definition StreamRecvBuffer_new (offset : N) (buffers : list bytes) (fin : bool) : StreamRecvBuffer :=
  mkRecvBuffer buffers offset (sum_lengths buffers) 0 0 fin.
(** [len], [is_empty], [range] *)
Definition rb_length (b : StreamRecvBuffer) : N :=
  if (length (rb_buffers b) <=? rb_read_cursor b)%nat then 0
  else wsub64 (wsub64 (rb_len b) (sum_lengths (take (rb_read_cursor b) (rb_buffers b))))
         (N.of_nat (rb_cursor_in_buffer b)).
Definition rb_is_empty (b : StreamRecvBuffer) : bool := rb_length b =? 0.
Definition rb_range (b : StreamRecvBuffer) : N * N := (rb_offset b, wrap64 (rb_offset b + rb_len b)).

Definition as_slice_upto_size (b : StreamRecvBuffer) (size : nat) : res bytes :=
  match rb_buffers b !! rb_read_cursor b with
  | None => Ok []
  | Some buffer =>
      do* rassert "buffer.Length as usize >= self.read_cursor_in_buffer"
        (rb_cursor_in_buffer b <=? length buffer)%nat in
      let len := Nat.min (length buffer - rb_cursor_in_buffer b) size in
      Ok (take len (drop (rb_cursor_in_buffer b) buffer))
  end.
Definition get_bytes_upto_size (b : StreamRecvBuffer) (size : nat)
    : res (option bytes * StreamRecvBuffer) :=
  match rb_buffers b !! rb_read_cursor b with
  | None => Ok (None, b)
  | Some buffer =>
      do* rassert "buffer.Length as usize >= self.read_cursor_in_buffer"
        (rb_cursor_in_buffer b <=? length buffer)%nat in
      let len := Nat.min (length buffer - rb_cursor_in_buffer b) size in
      let slice := take len (drop (rb_cursor_in_buffer b) buffer) in
      let cursor_in := (rb_cursor_in_buffer b + len)%nat in
      Ok (Some slice,
          if (length buffer <=? cursor_in)%nat then set_cursor (S (rb_read_cursor b)) 0 b
          else set_cursor (rb_read_cursor b) cursor_in b)
  end.

(** [Buf::advance] *)
Fixpoint advance_loop (buffers : list bytes) (cursor cursor_in count : nat) : nat * nat :=
  match buffers with
  | [] => (cursor, cursor_in)
  | buffer :: buffers =>
      if (count =? 0)%nat then (cursor, cursor_in)
      else
        let remaining := (length buffer - cursor_in)%nat in
        if (count <? remaining)%nat then (cursor, (cursor_in + count)%nat)
        else advance_loop buffers (S cursor) 0 (count - remaining)
  end.
Definition advance (b : StreamRecvBuffer) (count : nat) : res StreamRecvBuffer :=
  do* rassert "count == 0 || count <= self.remaining()"
    ((count =? 0)%nat || (N.of_nat count <=? rb_length b)) in
  let '(cursor, cursor_in) :=
    advance_loop (drop (rb_read_cursor b) (rb_buffers b)) (rb_read_cursor b) (rb_cursor_in_buffer b)
      count in
  Ok (set_cursor cursor cursor_in b).
(** [Buf::chunk]; [Buf::chunks_vectored] into [n] slices. *)
Definition chunk (b : StreamRecvBuffer) : res bytes :=
  as_slice_upto_size b (N.to_nat (rb_length b)).
Definition chunks_vectored (b : StreamRecvBuffer) (n : nat) : list bytes :=
  take n (match drop (rb_read_cursor b) (rb_buffers b) with
          | [] => []
          | c :: cs => drop (rb_cursor_in_buffer b) c :: cs
          end).

(** [WriteBuffer]: [wb_buffers] is what the list of [BufferRef]s points to. *)
Record WriteBuffer : Type := mkWriteBuffer {
  wb_internal : bytes;
  wb_zerocopy : list bytes;
  wb_buffers : list bytes;
}.
Definition WriteBuffer_new : WriteBuffer := mkWriteBuffer [] [] [].
Definition put_zerocopy (w : WriteBuffer) (buf : bytes) : nat * WriteBuffer :=
  (length buf, mkWriteBuffer (wb_internal w) (wb_zerocopy w ++ [buf]) (wb_buffers w)).
Definition put_slice (w : WriteBuffer) (slice : bytes) : nat * WriteBuffer :=
  (length slice, mkWriteBuffer (wb_internal w ++ slice) (wb_zerocopy w) (wb_buffers w)).
Definition get_buffers (w : WriteBuffer) : list bytes * WriteBuffer :=
  let buffers := wb_buffers w ++ (match wb_zerocopy w with
                                  | [] => [wb_internal w]
                                  | zerocopy => zerocopy
                                  end) in
  (buffers, mkWriteBuffer (wb_internal w) (wb_zerocopy w) buffers).
Definition wb_reset (w : WriteBuffer) : WriteBuffer := mkWriteBuffer [] [] [].

(** ** What a buffer still holds *)
Definition rb_content (b : StreamRecvBuffer) : bytes :=
  drop (rb_cursor_in_buffer b) (concat (drop (rb_read_cursor b) (rb_buffers b))).
Record rb_wf (b : StreamRecvBuffer) : Prop := {
  rw_total : fits 32 (blen (concat (rb_buffers b)));
  rw_len : rb_len b = blen (concat (rb_buffers b));
  rw_cursor : (rb_read_cursor b ≤ length (rb_buffers b))%nat;
  rw_in : (rb_cursor_in_buffer b ≤ length (default [] (rb_buffers b !! rb_read_cursor b)))%nat;
}.

Lemma sum_lengths_spec l : fits 32 (blen (concat l)) → sum_lengths l = blen (concat l).
Proof.
  unfold sum_lengths.
  assert (∀ acc, fits 32 (acc + blen (concat l)) →
    foldl (λ acc c, wrap 32 (acc + blen c)) acc l = acc + blen (concat l)) as Hgen.
  { induction l as [|c l IH]; intros acc Hf; simpl in *; [by rewrite blen_nil, N.add_0_r|].
    rewrite blen_app in *. unfold wrap. rewrite N.mod_small by lia. rewrite IH; lia. }
  intros Hf. by rewrite Hgen.
Qed.
Lemma rb_new_wf offset buffers fin : fits 32 (blen (concat buffers)) →
  rb_wf (StreamRecvBuffer_new offset buffers fin) ∧
  rb_content (StreamRecvBuffer_new offset buffers fin) = concat buffers.
Proof.
  intros Hf. split; [|done]. split; simpl; [done|by apply sum_lengths_spec|lia|lia].
Qed.
(** The cursor as one position in the whole. *)
Lemma concat_split (l : list bytes) n : concat l = concat (take n l) ++ concat (drop n l).
Proof. by rewrite <-concat_app, take_drop. Qed.
Lemma rb_length_spec b : rb_wf b → rb_length b = blen (rb_content b).
Proof.
  intros [Ht Hl Hc Hi]. unfold rb_length, rb_content. destruct (_ <=? _)%nat eqn:E.
  - apply Nat.leb_le in E. rewrite (drop_ge (rb_buffers b)) by done. by destruct (rb_cursor_in_buffer b).
  - apply Nat.leb_gt in E. destruct (lookup_lt_is_Some_2 _ _ E) as [c Hcur].
    rewrite Hcur in Hi. simpl in Hi.
    pose proof (concat_split (rb_buffers b) (rb_read_cursor b)) as Hsplit.
    rewrite (drop_S _ _ _ Hcur) in *. simpl in *.
    rewrite sum_lengths_spec, Hl by (rewrite Hsplit, !blen_app in Ht; lia).
    rewrite blen_drop, Hsplit, !blen_app in *.
    assert (N.of_nat (rb_cursor_in_buffer b) ≤ blen c) by (unfold blen; lia).
    rewrite (wsub64_small (_ + _)) by lia. rewrite wsub64_small by lia. lia.
Qed.

Lemma rb_content_at b c : rb_buffers b !! rb_read_cursor b = Some c →
  (rb_cursor_in_buffer b ≤ length c)%nat →
  rb_content b = drop (rb_cursor_in_buffer b) c ++ concat (drop (S (rb_read_cursor b)) (rb_buffers b)).
Proof.
  intros Hc Hi. unfold rb_content. rewrite (drop_S _ _ _ Hc). simpl. by rewrite drop_app_le.
Qed.
Lemma rb_content_end b : rb_buffers b !! rb_read_cursor b = None → rb_content b = [].
Proof.
  intros Hc. unfold rb_content. rewrite (drop_ge (rb_buffers b)) by by apply lookup_ge_None.
  by destruct (rb_cursor_in_buffer b).
Qed.
(** Moving on inside a buffer, or to the next one. *)
Lemma rb_move_in b c k : rb_wf b → rb_buffers b !! rb_read_cursor b = Some c →
  (rb_cursor_in_buffer b + k < length c)%nat →
  rb_wf (set_cursor (rb_read_cursor b) (rb_cursor_in_buffer b + k) b) ∧
  rb_content b = take k (drop (rb_cursor_in_buffer b) c) ++
    rb_content (set_cursor (rb_read_cursor b) (rb_cursor_in_buffer b + k) b).
Proof.
  intros [Ht Hl Hcur Hi] Hc Hk. split.
  - split; simpl; try done. rewrite Hc. simpl. lia.
  - rewrite (rb_content_at b c) by (done || lia).
    rewrite (rb_content_at (set_cursor _ _ b) c) by (done || simpl; lia). simpl.
    rewrite (assoc_L (++)). f_equal. by rewrite <-drop_drop, take_drop.
Qed.
Lemma rb_move_next b c : rb_wf b → rb_buffers b !! rb_read_cursor b = Some c →
  rb_wf (set_cursor (S (rb_read_cursor b)) 0 b) ∧
  rb_content b = drop (rb_cursor_in_buffer b) c ++ rb_content (set_cursor (S (rb_read_cursor b)) 0 b).
Proof.
  intros [Ht Hl Hcur Hi] Hc. pose proof (lookup_lt_Some _ _ _ Hc). rewrite Hc in Hi. simpl in Hi. split.
  - split; simpl; try done; lia.
  - by rewrite (rb_content_at b c) by done.
Qed.
(** [get_bytes_upto_size] never panics, and takes the bytes it returns off
    the front; when it gives less than [size] it has used up a buffer. *)
Lemma get_bytes_spec b size : rb_wf b →
  match get_bytes_upto_size b size with
  | Ok (Some slice, b') => rb_wf b' ∧ rb_content b = slice ++ rb_content b' ∧
      (length slice ≤ size)%nat ∧ rb_fin b' = rb_fin b ∧ rb_buffers b' = rb_buffers b ∧
      (length slice = size ∧ (rb_read_cursor b ≤ rb_read_cursor b')%nat ∨
       (rb_read_cursor b < rb_read_cursor b')%nat)
  | Ok (None, b') => rb_content b = [] ∧ b' = b
  | _ => False
  end.
Proof.
  intros Hwf. unfold get_bytes_upto_size.
  destruct (rb_buffers b !! rb_read_cursor b) as [c|] eqn:Hc; [|split; [by apply rb_content_end|done]].
  pose proof (rw_in _ Hwf) as Hi. rewrite Hc in Hi. simpl in Hi.
  assert ((rb_cursor_in_buffer b <=? length c)%nat = true) as -> by by apply Nat.leb_le.
  cbn [rassert rbind]. set (len := Nat.min (length c - rb_cursor_in_buffer b) size).
  assert (length (take len (drop (rb_cursor_in_buffer b) c)) = len) as Hlen
    by (rewrite length_take, length_drop; subst len; lia).
  destruct (length c <=? _)%nat eqn:E.
  - apply Nat.leb_le in E. destruct (rb_move_next b c Hwf Hc) as [Hwf' Hcont].
    assert (take len (drop (rb_cursor_in_buffer b) c) = drop (rb_cursor_in_buffer b) c) as ->
      by (apply take_ge; rewrite length_drop; lia).
    split_and!; try done; [rewrite length_drop; subst len; lia|right; simpl; lia].
  - apply Nat.leb_gt in E. destruct (rb_move_in b c len Hwf Hc E) as [Hwf' Hcont].
    split_and!; try done; [rewrite Hlen; subst len; lia|left; simpl; subst len; lia].
Qed.
(** Reading does not change the range of the stream that a buffer holds. *)
Lemma get_bytes_span b size o b' : get_bytes_upto_size b size = Ok (o, b') →
  rb_offset b' = rb_offset b ∧ rb_len b' = rb_len b.
Proof.
  unfold get_bytes_upto_size. destruct (_ !! _); [|by intros [= <- <-]].
  destruct (rassert _ _); try done. cbn [rbind]. destruct (_ <=? _)%nat; by intros [= <- <-].
Qed.
Lemma as_slice_spec b size : rb_wf b →
  ∃ slice rest, as_slice_upto_size b size = Ok slice ∧ rb_content b = slice ++ rest ∧
    (length slice ≤ size)%nat.
Proof.
  intros Hwf. pose proof (get_bytes_spec b size Hwf) as Hg. unfold get_bytes_upto_size in Hg.
  unfold as_slice_upto_size. destruct (rb_buffers b !! rb_read_cursor b) as [c|] eqn:Hc.
  - destruct (rassert _ _); try done. simpl in *. destruct Hg as (_ & Hg & Hl & _). eauto.
  - destruct Hg as [Hg _]. exists [], []. split_and!; [done|done|simpl; lia].
Qed.

Lemma advance_loop_spec b count : rb_wf b → (count ≤ length (rb_content b))%nat →
  let '(cursor, cursor_in) := advance_loop (drop (rb_read_cursor b) (rb_buffers b))
                                (rb_read_cursor b) (rb_cursor_in_buffer b) count in
  rb_wf (set_cursor cursor cursor_in b) ∧ rb_content (set_cursor cursor cursor_in b) = drop count (rb_content b).
Proof.
  remember (drop (rb_read_cursor b) (rb_buffers b)) as bufs eqn:Eb. revert b count Eb.
  induction bufs as [|c bufs IH]; intros b count Eb Hwf Hn; cbn [advance_loop].
  - assert (rb_content b = []) as Hnil by (unfold rb_content; rewrite <-Eb; by destruct (rb_cursor_in_buffer b)).
    rewrite Hnil in *. replace (set_cursor _ _ b) with b by by destruct b. split; [done|].
    rewrite Hnil. by destruct count.
  - assert (rb_buffers b !! rb_read_cursor b = Some c) as Hc.
    { by rewrite <-(Nat.add_0_r (rb_read_cursor b)), <-lookup_drop, <-Eb. }
    pose proof (rw_in _ Hwf) as Hi. rewrite Hc in Hi. simpl in Hi.
    destruct (count =? 0)%nat eqn:E0.
    { apply Nat.eqb_eq in E0 as ->. replace (set_cursor _ _ b) with b by by destruct b. by rewrite drop_0. }
    destruct (count <? length c - rb_cursor_in_buffer b)%nat eqn:E.
    + apply Nat.ltb_lt in E. destruct (rb_move_in b c count Hwf Hc ltac:(lia)) as [Hwf' Hcont].
      split; [done|]. rewrite Hcont, drop_app_length'; [done|].
      rewrite length_take, length_drop. lia.
    + apply Nat.ltb_ge in E. destruct (rb_move_next b c Hwf Hc) as [Hwf' Hcont].
      rewrite Hcont, length_app, length_drop in Hn.
      specialize (IH (set_cursor (S (rb_read_cursor b)) 0 b)
        (count - (length c - rb_cursor_in_buffer b))%nat).
      simpl in IH. destruct (advance_loop bufs _ _ _) as [cu ci].
      rewrite Hcont, drop_app_ge by (rewrite length_drop; lia). rewrite length_drop. apply IH.
      * rewrite (drop_S _ _ _ Hc) in Eb. by injection Eb.
      * done.
      * unfold rb_content in *. simpl in *. lia.
Qed.

(** ** Property *)

(** For a buffer lent by one receive event, [remaining] is the number of
    bytes not read yet; [advance] drops that many bytes off the front and
    panics exactly beyond the end; [chunk] and [get_bytes_upto_size] give
    a prefix of what remains, and the latter takes it off. *)
Theorem recv_buffer_is_a_cursor b count size : rb_wf b →
  rb_length b = blen (rb_content b) ∧
  match advance b count with
  | Ok b' => (count ≤ length (rb_content b))%nat ∧ rb_wf b' ∧ rb_content b' = drop count (rb_content b)
  | Panic _ => (length (rb_content b) < count)%nat
  | _ => False
  end ∧
  (∃ slice rest, chunk b = Ok slice ∧ rb_content b = slice ++ rest) ∧
  match get_bytes_upto_size b size with
  | Ok (Some slice, b') => rb_content b = slice ++ rb_content b' ∧ (length slice ≤ size)%nat ∧ rb_wf b'
  | Ok (None, b') => rb_content b = [] ∧ b' = b
  | _ => False
  end.
Proof.
  intros Hwf. split_and!.
  - by apply rb_length_spec.
  - unfold advance. rewrite rb_length_spec by done. unfold blen.
    destruct ((count =? 0)%nat || (N.of_nat count <=? N.of_nat (length (rb_content b)))) eqn:E;
      cbn [rassert rbind].
    + assert (count ≤ length (rb_content b))%nat as Hn.
      { apply orb_true_iff in E as [E|E]; [apply Nat.eqb_eq in E; lia|apply N.leb_le in E; lia]. }
      pose proof (advance_loop_spec b count Hwf Hn) as Ha.
      destruct (advance_loop _ _ _ _) as [cu ci]. by destruct Ha.
    + apply orb_false_iff in E as [_ E]. apply N.leb_gt in E. lia.
  - destruct (as_slice_spec b (N.to_nat (rb_length b)) Hwf) as (slice & rest & Hs & Hc & _).
    by exists slice, rest.
  - pose proof (get_bytes_spec b size Hwf) as Hg.
    destruct (get_bytes_upto_size b size) as [[[slice|] b']| | |]; try done. naive_solver.
Qed.
Lemma recv_buffer_is_a_cursor_witness :
  let b := StreamRecvBuffer_new 0 [[u8 1; u8 2]; []; [u8 3]] true in
  rb_length b = 3 ∧ ∃ b', advance b 2 = Ok b' ∧ rb_content b' = [u8 3].
Proof.
  intros b. destruct (recv_buffer_is_a_cursor b 2 0) as (Hl & Ha & _).
  - apply rb_new_wf. vm_compute. reflexivity.
  - split; [exact Hl|]. destruct (advance b 2) as [b'| | |]; [|contradiction|simpl in Ha; lia|contradiction].
    exists b'. split; [reflexivity|]. apply Ha.
Defined.
