(* ===== verification/QuicStream.v ===== *)
(** * QUIC streams (transport-layer/src/msquic/msquic_async/stream.rs)

    A stream is a state machine driven from two sides: the polls of the tasks
    that read and write it, and the events msquic calls back with, each under
    the lock of the stream.  A call into msquic that can fail is given its
    result; wakers are numbers, and an operation returns those it wakes, and
    the lengths it passes to [receive_complete]. *)
From S2P Require Import Prelude RangeSet RecvBuffer.
Open Scope N_scope.

Inductive poll (A : Type) : Type := Pending | Ready (a : A).
Arguments Pending {A}.
Arguments Ready {A} a.

(** ** Data *)
Inductive StreamType : Type := Bidirectional | Unidirectional.
Inductive StreamState : Type := SOpen | SStart | SStartComplete | SShutdownComplete.
Inductive StreamRecvState : Type := RClosed | RStart | RStartComplete | RShutdown | RShutdownComplete.
Inductive StreamSendState : Type := WClosed | WStart | WStartComplete | WShutdown | WShutdownComplete.
#[export] Instance StreamState_eq_dec : EqDecision StreamState.
Proof. solve_decision. Defined.
#[export] Instance StreamRecvState_eq_dec : EqDecision StreamRecvState.
Proof. solve_decision. Defined.
(** [msquic::Status], as far as the code tells them apart: [StatusUnknown] is a
    status that [msquic::StatusCode] does not name. *)
Inductive Status : Type :=
  | StatusOk | StreamLimitReached | StatusAborted | StatusInvalidState
  | StatusOther (code : N) | StatusUnknown (code : N).
Definition status_is_ok (s : Status) : bool := match s with StatusOk => true | _ => false end.
Inductive ConnectionError : Type :=
  | ShutdownByTransport (status : Status) (code : N)
  | ShutdownByPeer (code : N)
  | ShutdownByLocal
  | ConnectionClosed
  | ConnectionOtherError (s : Status).
Inductive StartError : Type :=
  | ConnectionNotStarted | LimitReached | StartConnectionLost (e : ConnectionError)
  | StartOtherError (s : Status).
Inductive ReadError : Type :=
  ReadClosed | ReadReset (code : N) | ReadConnectionLost (e : ConnectionError) | ReadOtherError (s : Status).
Inductive WriteError : Type :=
  | WriteClosed | WriteFinished | WriteStopped (code : N) | WriteConnectionLost (e : ConnectionError)
  | WriteOtherError (s : Status).
Inductive ReadStatus (A : Type) : Type :=
  Readable (a : A) | ReadFinished (a : option A) | ReadBlocked (a : option A).
Arguments Readable {A} a.
Arguments ReadFinished {A} a.
Arguments ReadBlocked {A} a.
Definition read_status {A} (status : option A * bool) : ReadStatus A :=
  match status with (read, true) => ReadFinished read | (read, false) => ReadBlocked read end.
Inductive WriteStatus (A : Type) : Type :=
  Writable (a : A) | WriteDone (a : option A) | WriteBlocked (a : option A).
Arguments Writable {A} a.
Arguments WriteDone {A} a.
Arguments WriteBlocked {A} a.
Definition write_status {A} (status : option A * bool) : WriteStatus A :=
  match status with (write, true) => WriteDone write | (write, false) => WriteBlocked write end.
Definition poll_map {A B} (f : A → B) (p : poll A) : poll B :=
  match p with Ready a => Ready (f a) | Pending => Pending end.
Definition or_default {A E} (d : A) (r : option A + E) : A + E :=
  match r with inl o => inl (default d o) | inr e => inr e end.

Inductive StreamEvent : Type :=
  | EvStartComplete (status : Status) (id : N) (peer_accepted : bool)
  | EvReceive (absolute_offset total_buffer_length : N) (buffers : list bytes) (fin : bool)
  | EvSendComplete (client_context : WriteBuffer)
  | EvPeerSendShutdown
  | EvPeerSendAborted (code : N)
  | EvPeerReceiveAborted (code : N)
  | EvSendShutdownComplete (graceful : bool)
  | EvShutdownComplete (connection_shutdown app_close_in_progress by_app closed_remotely : bool)
      (code : N) (status : Status)
  | EvIdealSendBufferSize
  | EvPeerAccepted.

Section stream.
Context `{RS : RangeSets}.

(** [StreamInnerExclusive] and [StreamInnerShared] *)
Record StreamInner : Type := mkInner {
  x_type : StreamType;
  x_local_open : bool;
  x_id : option N;
  x_state : StreamState;
  x_start_status : option Status;
  x_recv_state : StreamRecvState;
  x_recv_buffers : list StreamRecvBuffer;
  x_recv_len : N;
  x_read_complete_map : rangeset;
  x_read_complete_cursor : N;
  x_send_state : StreamSendState;
  x_write_pool : list WriteBuffer;
  x_recv_error_code : option N;
  x_send_error_code : option N;
  x_conn_error : option ConnectionError;
  x_start_waiters : list nat;
  x_read_waiters : list nat;
  x_write_shutdown_waiters : list nat;
}.
Definition set_id (id : option N) (x : StreamInner) : StreamInner :=
  mkInner (x_type x) (x_local_open x) id (x_state x) (x_start_status x) (x_recv_state x)
    (x_recv_buffers x) (x_recv_len x) (x_read_complete_map x) (x_read_complete_cursor x) (x_send_state x)
    (x_write_pool x) (x_recv_error_code x) (x_send_error_code x) (x_conn_error x) (x_start_waiters x)
    (x_read_waiters x) (x_write_shutdown_waiters x).
Definition set_states (s : StreamState) (r : StreamRecvState) (w : StreamSendState) (x : StreamInner) : StreamInner :=
  mkInner (x_type x) (x_local_open x) (x_id x) s (x_start_status x) r (x_recv_buffers x) (x_recv_len x)
    (x_read_complete_map x) (x_read_complete_cursor x) w (x_write_pool x) (x_recv_error_code x)
    (x_send_error_code x) (x_conn_error x) (x_start_waiters x) (x_read_waiters x)
    (x_write_shutdown_waiters x).
Definition set_recv_state (r : StreamRecvState) (x : StreamInner) := set_states (x_state x) r (x_send_state x) x.
Definition set_send_state (w : StreamSendState) (x : StreamInner) := set_states (x_state x) (x_recv_state x) w x.
Definition set_waiters (st rd wr : list nat) (x : StreamInner) : StreamInner :=
  mkInner (x_type x) (x_local_open x) (x_id x) (x_state x) (x_start_status x) (x_recv_state x)
    (x_recv_buffers x) (x_recv_len x) (x_read_complete_map x) (x_read_complete_cursor x) (x_send_state x)
    (x_write_pool x) (x_recv_error_code x) (x_send_error_code x) (x_conn_error x) st rd wr.
Definition set_buffers (bs : list StreamRecvBuffer) (len : N) (x : StreamInner) : StreamInner :=
  mkInner (x_type x) (x_local_open x) (x_id x) (x_state x) (x_start_status x) (x_recv_state x) bs len
    (x_read_complete_map x) (x_read_complete_cursor x) (x_send_state x) (x_write_pool x)
    (x_recv_error_code x) (x_send_error_code x) (x_conn_error x) (x_start_waiters x) (x_read_waiters x)
    (x_write_shutdown_waiters x).
Definition set_completion (m : rangeset) (cursor : N) (x : StreamInner) : StreamInner :=
  mkInner (x_type x) (x_local_open x) (x_id x) (x_state x) (x_start_status x) (x_recv_state x)
    (x_recv_buffers x) (x_recv_len x) m cursor (x_send_state x) (x_write_pool x) (x_recv_error_code x)
    (x_send_error_code x) (x_conn_error x) (x_start_waiters x) (x_read_waiters x)
    (x_write_shutdown_waiters x).
Definition set_pool (pool : list WriteBuffer) (x : StreamInner) : StreamInner :=
  mkInner (x_type x) (x_local_open x) (x_id x) (x_state x) (x_start_status x) (x_recv_state x)
    (x_recv_buffers x) (x_recv_len x) (x_read_complete_map x) (x_read_complete_cursor x) (x_send_state x)
    pool (x_recv_error_code x) (x_send_error_code x) (x_conn_error x) (x_start_waiters x)
    (x_read_waiters x) (x_write_shutdown_waiters x).
Definition set_errors (start_status : option Status) (rc wc : option N) (ce : option ConnectionError) (x : StreamInner) : StreamInner :=
  mkInner (x_type x) (x_local_open x) (x_id x) (x_state x) start_status (x_recv_state x)
    (x_recv_buffers x) (x_recv_len x) (x_read_complete_map x) (x_read_complete_cursor x) (x_send_state x)
    (x_write_pool x) rc wc ce (x_start_waiters x) (x_read_waiters x) (x_write_shutdown_waiters x).
Definition push_start_waiter (cx : nat) (x : StreamInner) :=
  set_waiters (x_start_waiters x ++ [cx]) (x_read_waiters x) (x_write_shutdown_waiters x) x.
Definition push_read_waiter (cx : nat) (x : StreamInner) :=
  set_waiters (x_start_waiters x) (x_read_waiters x ++ [cx]) (x_write_shutdown_waiters x) x.
Definition push_write_waiter (cx : nat) (x : StreamInner) :=
  set_waiters (x_start_waiters x) (x_read_waiters x) (x_write_shutdown_waiters x ++ [cx]) x.
(** [drain(..).for_each(wake)]: the wakers woken and the state without them. *)
Definition wake_start (x : StreamInner) : list nat * StreamInner :=
  (x_start_waiters x, set_waiters [] (x_read_waiters x) (x_write_shutdown_waiters x) x).
Definition wake_read (x : StreamInner) : list nat * StreamInner :=
  (x_read_waiters x, set_waiters (x_start_waiters x) [] (x_write_shutdown_waiters x) x).
Definition wake_write (x : StreamInner) : list nat * StreamInner :=
  (x_write_shutdown_waiters x, set_waiters (x_start_waiters x) (x_read_waiters x) [] x).

Definition StreamInner_new (t : StreamType) (w : StreamSendState) (r : StreamRecvState)
    (local_open : bool) : StreamInner :=
  mkInner t local_open None SOpen None r [] 0 rs_new 0 w [] None None None [] [] [].
(** [Stream::open] and [Stream::from_raw] *)
Definition stream_open (t : StreamType) : StreamInner := StreamInner_new t WClosed RClosed true.
Definition stream_from_raw (t : StreamType) : StreamInner :=
  StreamInner_new t (match t with Bidirectional => WStartComplete | Unidirectional => WClosed end)
    RStartComplete false.
(** [StreamInstance::id]; [param] is what msquic answers when asked. *)
Definition stream_id (x : StreamInner) (param : option N) : option N * StreamInner :=
  match x_id x with
  | Some id => (Some id, x)
  | None => match param with Some id => (Some id, set_id (Some id) x) | None => (None, x) end
  end.

(** ** Starting (poll_start) *)
Definition poll_start (x : StreamInner) (cx : nat) (start : Status)
    : res (poll (unit + StartError) * StreamInner) :=
  match x_state x with
  | SOpen =>
      if status_is_ok start then
        let r := match x_type x with Bidirectional => RStart | Unidirectional => x_recv_state x end in
        Ok (Pending, push_start_waiter cx (set_states SStart r WStart x))
      else Ok (Ready (inr (StartOtherError start)), x)
  | SStart => Ok (Pending, push_start_waiter cx x)
  | _ =>
      match x_start_status x with
      | None | Some StatusOk => Ok (Ready (inl ()), x)
      | Some StreamLimitReached => Ok (Ready (inr LimitReached), x)
      | Some StatusAborted | Some StatusInvalidState =>
          let* e := unwrap "conn_error" (x_conn_error x) in
          Ok (Ready (inr (StartConnectionLost e)), x)
      (** [try_as_status_code().unwrap()] *)
      | Some (StatusUnknown _) => Panic "called `Result::unwrap()` on an `Err` value"
      | Some s => Ok (Ready (inr (StartOtherError s)), x)
      end
  end.

(** ** Giving buffers back (read_complete)

    The new state, and the length passed to [receive_complete] if called. *)
Definition read_complete (x : StreamInner) (buffer : StreamRecvBuffer) : StreamInner * option N :=
  let '(first, last) := rb_range buffer in
  let m := if first <? last then rs_insert (first, last) (x_read_complete_map x)
           else x_read_complete_map x in
  let cursor := x_read_complete_cursor x in
  match rs_first m with
  | Some (first, last) =>
      if (first =? 0) && (cursor <? last) then (set_completion m last x, Some (last - cursor))
      else if (first =? 0) && (cursor =? last) && (rb_offset buffer =? last) && rb_is_empty buffer
              && rb_fin buffer
      then (set_completion m cursor x, Some 0)
      else (set_completion m cursor x, None)
  | None => (set_completion m cursor x, if rb_is_empty buffer && rb_fin buffer then Some 0 else None)
  end.
(** Buffers dropped one after the other. *)
Fixpoint drop_buffers (x : StreamInner) (buffers : list StreamRecvBuffer) : StreamInner * list N :=
  match buffers with
  | [] => (x, [])
  | b :: buffers =>
      let '(x, n) := read_complete x b in
      let '(x, ns) := drop_buffers x buffers in
      (x, option_list n ++ ns)
  end.

(** ** Reading (poll_read, poll_read_chunk, poll_read_generic) *)

(** The closure of [poll_read]: it fills a buffer of [room] bytes, [read]
    being what is in it; [done] are the buffers used up. *)
Fixpoint read_loop (fuel room : nat) (read : bytes) (fin : bool) (bufs done : list StreamRecvBuffer)
    : res (ReadStatus bytes * list StreamRecvBuffer * list StreamRecvBuffer) :=
  match fuel with
  | O => OutOfFuel
  | S fuel =>
      if (length read =? room)%nat then Ok (Readable read, bufs, done)
      else
        match bufs with
        | [] => Ok (read_status (if (0 <? length read)%nat then Some read else None, fin), [], done)
        | front :: rest =>
            let* (slice, front) := get_bytes_upto_size front (room - length read) in
            match slice with
            | Some slice => read_loop fuel room (read ++ slice) fin (front :: rest) done
            | None => read_loop fuel room read (rb_fin front) rest (done ++ [front])
            end
        end
  end.
(** One turn per buffer and per slice left, and two more. *)
Definition read_fuel (bufs : list StreamRecvBuffer) : nat :=
  foldr (λ b n, S (length (rb_buffers b) - rb_read_cursor b) + n)%nat 2%nat bufs.

(** The buffers in the third result are dropped when the lock is released. *)
Definition poll_read_generic {A : Type}
    (read_fn : list StreamRecvBuffer → res (ReadStatus A * list StreamRecvBuffer * list StreamRecvBuffer))
    (x : StreamInner) (cx : nat)
    : res (poll (option A + ReadError) * StreamInner * list StreamRecvBuffer) :=
  match x_recv_state x with
  | RClosed => Ok (Ready (inr ReadClosed), x, [])
  | RStart => Ok (Pending, push_start_waiter cx x, [])
  | RShutdown => Ok (Ready (inl None), x, [])
  | RShutdownComplete =>
      Ok (Ready (match x_conn_error x, x_recv_error_code x with
                 | Some e, _ => inr (ReadConnectionLost e)
                 | None, Some code => inr (ReadReset code)
                 | None, None => inl None
                 end), x, [])
  | RStartComplete =>
      let* (p, done) := read_fn (x_recv_buffers x) in
      let '(status, bufs) := p in
      let x := set_buffers bufs (x_recv_len x) x in
      match status with
      | Readable read | ReadBlocked (Some read) => Ok (Ready (inl (Some read)), x, done)
      | ReadFinished read => Ok (Ready (inl read), set_recv_state RShutdown x, done)
      | ReadBlocked None => Ok (Pending, push_read_waiter cx x, done)
      end
  end.
(** The bytes written into a buffer of [room] bytes, none at the end; the
    state; the lengths passed to [receive_complete]. *)
Definition poll_read (x : StreamInner) (cx room : nat)
    : res (poll (bytes + ReadError) * StreamInner * list N) :=
  let* (p, done) :=
    poll_read_generic (λ bufs, read_loop (read_fuel bufs) room [] false bufs []) x cx in
  let '(r, x) := p in
  let '(x, completed) := drop_buffers x done in
  Ok (poll_map (or_default []) r, x, completed).
(** The chunk is dropped by the caller. *)
Definition poll_read_chunk (x : StreamInner) (cx : nat)
    : res (poll (option StreamRecvBuffer + ReadError) * StreamInner) :=
  let* (p, _) :=
    poll_read_generic (λ bufs,
      match bufs with
      | b :: bufs => Ok (read_status (Some b, rb_fin b), bufs, [])
      | [] => Ok (read_status (None, false), [], [])
      end) x cx in
  Ok p.

(** ** Writing (poll_write_generic and its users)

    [send] is the result of handing the bytes to msquic; [Some] of the
    buffers, the FIN flag and the context is what was handed over. *)
Definition poll_write_generic
    (write_fn : WriteBuffer → WriteStatus nat * WriteBuffer)
    (x : StreamInner) (cx : nat) (send : Status)
    : res (poll (option nat + WriteError) * StreamInner * option (list bytes * bool * WriteBuffer)) :=
  match x_send_state x with
  | WClosed => Ok (Ready (inr WriteClosed), x, None)
  | WStart => Ok (Pending, push_start_waiter cx x, None)
  | WShutdown => Ok (Ready (inr WriteFinished), x, None)
  | WShutdownComplete =>
      Ok (Ready (inr (match x_conn_error x, x_send_error_code x with
                      | Some e, _ => WriteConnectionLost e
                      | None, Some code => WriteStopped code
                      | None, None => WriteFinished
                      end)), x, None)
  | WStartComplete =>
      (** [write_pool.pop()] *)
      let '(write_buf, x) :=
        match last (x_write_pool x) with
        | Some w => (w, set_pool (removelast (x_write_pool x)) x)
        | None => (WriteBuffer_new, x)
        end in
      let '(status, write_buf) := write_fn write_buf in
      let '(buffers, write_buf) := get_buffers write_buf in
      match status with
      | Writable val | WriteBlocked (Some val) =>
          if status_is_ok send then Ok (Ready (inl (Some val)), x, Some (buffers, false, write_buf))
          else Ok (Ready (inr (WriteOtherError send)), x, None)
      | WriteBlocked None => Panic "internal error: entered unreachable code"
      | WriteDone val =>
          if status_is_ok send
          then Ok (Ready (inl val), set_send_state WShutdown x, Some (buffers, true, write_buf))
          else Ok (Ready (inr (WriteOtherError send)), x, None)
      end
  end.
(** How [poll_write] and [poll_write_chunk(s)] judge what they have put. *)
Definition put_status (written len : nat) (fin : bool) : WriteStatus nat :=
  if (written =? len)%nat && negb fin then Writable written else write_status (Some written, fin).
Definition WriteResult : Type := res (poll (nat + WriteError) * StreamInner * option (list bytes * bool * WriteBuffer)).
Definition written (r : res (poll (option nat + WriteError) * StreamInner * option (list bytes * bool * WriteBuffer)))
    : WriteResult :=
  let* (p, sent) := r in let '(r, x) := p in Ok (poll_map (or_default 0%nat) r, x, sent).
Definition poll_write (x : StreamInner) (cx : nat) (buf : bytes) (fin : bool) (send : Status) : WriteResult :=
  written (poll_write_generic (λ write_buf,
    let '(n, write_buf) := put_slice write_buf buf in (put_status n (length buf) fin, write_buf)) x cx send).
Definition poll_write_chunk (x : StreamInner) (cx : nat) (chunk : bytes) (fin : bool) (send : Status) : WriteResult :=
  written (poll_write_generic (λ write_buf,
    let '(n, write_buf) := put_zerocopy write_buf chunk in (put_status n (length chunk) fin, write_buf)) x cx send).
Fixpoint put_chunks (chunks : list bytes) (total_len total_written : nat) (write_buf : WriteBuffer)
    : nat * nat * WriteBuffer :=
  match chunks with
  | [] => (total_len, total_written, write_buf)
  | buf :: chunks =>
      let '(n, write_buf) := put_zerocopy write_buf buf in
      put_chunks chunks (total_len + length buf)%nat (total_written + n)%nat write_buf
  end.
Definition poll_write_chunks (x : StreamInner) (cx : nat) (chunks : list bytes) (fin : bool) (send : Status) : WriteResult :=
  written (poll_write_generic (λ write_buf,
    let '(total_len, total_written, write_buf) := put_chunks chunks 0 0 write_buf in
    (put_status total_written total_len fin, write_buf)) x cx send).

(** The answer once the send side is shut down. *)
Definition write_shutdown_result (x : StreamInner) : unit + WriteError :=
  match x_conn_error x, x_send_error_code x with
  | Some e, _ => inr (WriteConnectionLost e)
  | None, Some code => inr (WriteStopped code)
  | None, None => inl ()
  end.
(** [poll_finish_write] and [poll_abort_write]; [shutdown] is the result of
    the graceful, respectively aborting, shutdown of the send side. *)
Definition poll_finish_write (x : StreamInner) (cx : nat) (shutdown : Status)
    : poll (unit + WriteError) * StreamInner :=
  match x_send_state x with
  | WStart => (Pending, push_start_waiter cx x)
  | WStartComplete =>
      if status_is_ok shutdown then (Pending, push_write_waiter cx (set_send_state WShutdown x))
      else (Ready (inr (WriteOtherError shutdown)), x)
  | WShutdown => (Pending, push_write_waiter cx x)
  | WShutdownComplete => (Ready (write_shutdown_result x), x)
  | WClosed => (Ready (inr WriteClosed), x)
  end.
Definition poll_abort_write (x : StreamInner) (cx : nat) (shutdown : Status)
    : poll (unit + WriteError) * StreamInner :=
  poll_finish_write x cx shutdown.
Definition abort_write (x : StreamInner) (shutdown : Status) : (unit + WriteError) * StreamInner :=
  match x_send_state x with
  | WStartComplete =>
      if status_is_ok shutdown then (inl (), set_send_state WShutdown x)
      else (inr (WriteOtherError shutdown), x)
  | _ => (inr WriteClosed, x)
  end.
Definition poll_abort_read (x : StreamInner) (cx : nat) (shutdown : Status)
    : poll (unit + ReadError) * StreamInner * list nat :=
  match x_recv_state x with
  | RStart => (Pending, push_start_waiter cx x, [])
  | RStartComplete =>
      if status_is_ok shutdown then
        let '(woken, x) := wake_read (set_recv_state RShutdownComplete x) in (Ready (inl ()), x, woken)
      else (Ready (inr (ReadOtherError shutdown)), x, [])
  | RShutdownComplete =>
      (Ready (match x_conn_error x, x_recv_error_code x with
              | Some e, _ => inr (ReadConnectionLost e)
              | None, Some code => inr (ReadReset code)
              | None, None => inl ()
              end), x, [])
  | _ => (Ready (inr ReadClosed), x, [])
  end.
Definition abort_read (x : StreamInner) (shutdown : Status) : (unit + ReadError) * StreamInner :=
  match x_recv_state x with
  | RStartComplete =>
      if status_is_ok shutdown then (inl (), set_recv_state RShutdownComplete x)
      else (inr (ReadOtherError shutdown), x)
  | _ => (inr ReadClosed, x)
  end.

(** ** Events (callback_handler_impl)

    The wakers woken, the state, and the length passed to [receive_complete]
    if it is called. *)

(** The peer has taken the stream: both directions of a bidirectional one
    open, and otherwise the direction to write. *)
Definition started (x : StreamInner) : StreamInner :=
  set_states SStartComplete
    (match x_type x with Bidirectional => RStartComplete | Unidirectional => x_recv_state x end)
    WStartComplete x.
Definition handle_event_start_complete (x : StreamInner) (status : Status) (id : N) (peer_accepted : bool)
    : list nat * StreamInner :=
  let x := if status_is_ok status then set_id (Some id) x else x in
  let x := set_errors (Some status) (x_recv_error_code x) (x_send_error_code x) (x_conn_error x) x in
  let x := if status_is_ok status && peer_accepted then started x else x in
  match status with
  | StreamLimitReached => wake_start x
  | _ => if peer_accepted then wake_start x else ([], x)
  end.
Definition handle_event_receive (x : StreamInner) (absolute_offset total_buffer_length : N)
    (buffers : list bytes) (fin : bool) : list nat * StreamInner :=
  let recv_buffer := StreamRecvBuffer_new absolute_offset buffers fin in
  wake_read (set_buffers (x_recv_buffers x ++ [recv_buffer])
    (wrap64 (x_recv_len x + total_buffer_length)) x).
Definition handle_event_send_complete (x : StreamInner) (write_buf : WriteBuffer)
    : list nat * StreamInner :=
  ([], set_pool (x_write_pool x ++ [wb_reset write_buf]) x).
Definition handle_event_peer_send_shutdown (x : StreamInner) : list nat * StreamInner :=
  wake_read (set_recv_state RShutdownComplete x).
Definition handle_event_peer_send_aborted (x : StreamInner) (code : N) : list nat * StreamInner :=
  wake_read (set_errors (x_start_status x) (Some code) (x_send_error_code x) (x_conn_error x)
    (set_recv_state RShutdownComplete x)).
Definition handle_event_peer_receive_aborted (x : StreamInner) (code : N) : list nat * StreamInner :=
  wake_write (set_errors (x_start_status x) (x_recv_error_code x) (Some code) (x_conn_error x)
    (set_send_state WShutdownComplete x)).
Definition handle_event_send_shutdown_complete (x : StreamInner) (graceful : bool) : list nat * StreamInner :=
  wake_write (set_send_state WShutdownComplete x).
Definition handle_event_peer_accepted (x : StreamInner) : list nat * StreamInner :=
  wake_start (started x).
Definition handle_event_shutdown_complete (x : StreamInner)
    (connection_shutdown app_close_in_progress by_app closed_remotely : bool) (code : N) (status : Status)
    : list nat * StreamInner * option N :=
  let '(x, completed) :=
    match x_recv_buffers x with
    | [] => (x, None)
    | _ => (set_buffers [] (x_recv_len x) x,
            if app_close_in_progress then None
            else Some (wsub64 (x_recv_len x) (x_read_complete_cursor x)))
    end in
  let x := set_states SShutdownComplete RShutdownComplete WShutdownComplete x in
  let x :=
    if connection_shutdown then
      let e := match by_app, closed_remotely with
               | true, true => ShutdownByPeer code
               | true, false => ShutdownByLocal
               | false, _ => ShutdownByTransport status code
               end in
      set_errors (x_start_status x) (x_recv_error_code x) (x_send_error_code x) (Some e) x
    else x in
  let '(w1, x) := wake_start x in
  let '(w2, x) := wake_read x in
  let '(w3, x) := wake_write x in
  (w1 ++ w2 ++ w3, x, completed).
Definition callback_handler_impl (x : StreamInner) (ev : StreamEvent) : list nat * StreamInner * option N :=
  match ev with
  | EvStartComplete status id peer_accepted => (handle_event_start_complete x status id peer_accepted, None)
  | EvReceive offset total buffers fin => (handle_event_receive x offset total buffers fin, None)
  | EvSendComplete client_context => (handle_event_send_complete x client_context, None)
  | EvPeerSendShutdown => (handle_event_peer_send_shutdown x, None)
  | EvPeerSendAborted code => (handle_event_peer_send_aborted x code, None)
  | EvPeerReceiveAborted code => (handle_event_peer_receive_aborted x code, None)
  | EvSendShutdownComplete graceful => (handle_event_send_shutdown_complete x graceful, None)
  | EvShutdownComplete c app a r code status => handle_event_shutdown_complete x c app a r code status
  | EvPeerAccepted => (handle_event_peer_accepted x, None)
  | EvIdealSendBufferSize => ([], x, None)
  end.
(** The state after an event. *)
Definition after (x : StreamInner) (ev : StreamEvent) : StreamInner := (callback_handler_impl x ev).1.2.
End stream.
