(* ===== verification/QuicConn.v ===== *)
(** * QUIC connections (transport-layer/src/msquic/msquic_async/connection.rs)

    Like a stream, a connection is a state machine under a lock, driven by
    the polls of tasks and by the events of msquic.  The streams that the peer
    opens wait in queues, as their handles; the event that announces one also
    gives the state of the new stream.  [OpenOutboundStream] ties a connection
    to a stream that is opened here. *)
From S2P Require Import Prelude RangeSet RecvBuffer QuicStream.
Open Scope N_scope.

(** ** Data *)
Inductive ConnectionState : Type := COpen | CConnecting | CConnected | CShutdown | CShutdownComplete.
#[export] Instance ConnectionState_eq_dec : EqDecision ConnectionState.
Proof. solve_decision. Defined.
Inductive DgramReceiveError : Type :=
  | ReceiveNotStarted | ReceiveConnectionLost (e : ConnectionError) | ReceiveOtherError (s : Status).
Inductive DgramSendError : Type :=
  | SendNotStarted | SendDenied | SendTooBig | SendConnectionLost (e : ConnectionError)
  | SendOtherError (s : Status).
(** [connection::StartError] and [ShutdownError] *)
Inductive ConnStartError : Type := ConnLost (e : ConnectionError) | ConnOtherError (s : Status).
Inductive ShutdownError : Type :=
  | ShutdownNotStarted | ShutdownConnectionLost (e : ConnectionError) | ShutdownOtherError (s : Status).
(** [msquic::DatagramSendState], as far as the code tells them apart *)
Inductive DatagramSendState : Type := DgramSent | DgramCanceled | DgramOther.

(** [ConnectionInnerExclusive] *)
Record ConnectionInner : Type := mkConnection {
  c_state : ConnectionState;
  c_error : option ConnectionError;
  c_start_waiters : list nat;
  c_certificate_waiters : list nat;
  c_inbound_stream_waiters : list nat;
  c_inbound_uni_stream_waiters : list nat;
  c_inbound_streams : list N;
  c_inbound_uni_streams : list N;
  c_recv_buffers : list bytes;
  c_recv_waiters : list nat;
  c_write_pool : list WriteBuffer;
  c_shutdown_waiters : list nat;
  c_negotiates_alpn : bytes;
  c_certificate : option bytes;
}.
Definition cset_state (st : ConnectionState) (c : ConnectionInner) : ConnectionInner :=
  mkConnection st (c_error c) (c_start_waiters c) (c_certificate_waiters c) (c_inbound_stream_waiters c)
    (c_inbound_uni_stream_waiters c) (c_inbound_streams c) (c_inbound_uni_streams c) (c_recv_buffers c)
    (c_recv_waiters c) (c_write_pool c) (c_shutdown_waiters c) (c_negotiates_alpn c) (c_certificate c).
Definition cset_error (e : option ConnectionError) (c : ConnectionInner) : ConnectionInner :=
  mkConnection (c_state c) e (c_start_waiters c) (c_certificate_waiters c) (c_inbound_stream_waiters c)
    (c_inbound_uni_stream_waiters c) (c_inbound_streams c) (c_inbound_uni_streams c) (c_recv_buffers c)
    (c_recv_waiters c) (c_write_pool c) (c_shutdown_waiters c) (c_negotiates_alpn c) (c_certificate c).
Definition cset_start_waiters (l : list nat) (c : ConnectionInner) : ConnectionInner :=
  mkConnection (c_state c) (c_error c) l (c_certificate_waiters c) (c_inbound_stream_waiters c)
    (c_inbound_uni_stream_waiters c) (c_inbound_streams c) (c_inbound_uni_streams c) (c_recv_buffers c)
    (c_recv_waiters c) (c_write_pool c) (c_shutdown_waiters c) (c_negotiates_alpn c) (c_certificate c).
Definition cset_certificate_waiters (l : list nat) (c : ConnectionInner) : ConnectionInner :=
  mkConnection (c_state c) (c_error c) (c_start_waiters c) l (c_inbound_stream_waiters c)
    (c_inbound_uni_stream_waiters c) (c_inbound_streams c) (c_inbound_uni_streams c) (c_recv_buffers c)
    (c_recv_waiters c) (c_write_pool c) (c_shutdown_waiters c) (c_negotiates_alpn c) (c_certificate c).
Definition cset_inbound_stream_waiters (l : list nat) (c : ConnectionInner) : ConnectionInner :=
  mkConnection (c_state c) (c_error c) (c_start_waiters c) (c_certificate_waiters c) l
    (c_inbound_uni_stream_waiters c) (c_inbound_streams c) (c_inbound_uni_streams c) (c_recv_buffers c)
    (c_recv_waiters c) (c_write_pool c) (c_shutdown_waiters c) (c_negotiates_alpn c) (c_certificate c).
Definition cset_inbound_uni_stream_waiters (l : list nat) (c : ConnectionInner) : ConnectionInner :=
  mkConnection (c_state c) (c_error c) (c_start_waiters c) (c_certificate_waiters c)
    (c_inbound_stream_waiters c) l (c_inbound_streams c) (c_inbound_uni_streams c) (c_recv_buffers c)
    (c_recv_waiters c) (c_write_pool c) (c_shutdown_waiters c) (c_negotiates_alpn c) (c_certificate c).
Definition cset_inbound_streams (l : list N) (c : ConnectionInner) : ConnectionInner :=
  mkConnection (c_state c) (c_error c) (c_start_waiters c) (c_certificate_waiters c)
    (c_inbound_stream_waiters c) (c_inbound_uni_stream_waiters c) l (c_inbound_uni_streams c)
    (c_recv_buffers c) (c_recv_waiters c) (c_write_pool c) (c_shutdown_waiters c) (c_negotiates_alpn c)
    (c_certificate c).
Definition cset_inbound_uni_streams (l : list N) (c : ConnectionInner) : ConnectionInner :=
  mkConnection (c_state c) (c_error c) (c_start_waiters c) (c_certificate_waiters c)
    (c_inbound_stream_waiters c) (c_inbound_uni_stream_waiters c) (c_inbound_streams c) l
    (c_recv_buffers c) (c_recv_waiters c) (c_write_pool c) (c_shutdown_waiters c) (c_negotiates_alpn c)
    (c_certificate c).
Definition cset_recv_buffers (l : list bytes) (c : ConnectionInner) : ConnectionInner :=
  mkConnection (c_state c) (c_error c) (c_start_waiters c) (c_certificate_waiters c)
    (c_inbound_stream_waiters c) (c_inbound_uni_stream_waiters c) (c_inbound_streams c)
    (c_inbound_uni_streams c) l (c_recv_waiters c) (c_write_pool c) (c_shutdown_waiters c)
    (c_negotiates_alpn c) (c_certificate c).
Definition cset_recv_waiters (l : list nat) (c : ConnectionInner) : ConnectionInner :=
  mkConnection (c_state c) (c_error c) (c_start_waiters c) (c_certificate_waiters c)
    (c_inbound_stream_waiters c) (c_inbound_uni_stream_waiters c) (c_inbound_streams c)
    (c_inbound_uni_streams c) (c_recv_buffers c) l (c_write_pool c) (c_shutdown_waiters c)
    (c_negotiates_alpn c) (c_certificate c).
Definition cset_write_pool (l : list WriteBuffer) (c : ConnectionInner) : ConnectionInner :=
  mkConnection (c_state c) (c_error c) (c_start_waiters c) (c_certificate_waiters c)
    (c_inbound_stream_waiters c) (c_inbound_uni_stream_waiters c) (c_inbound_streams c)
    (c_inbound_uni_streams c) (c_recv_buffers c) (c_recv_waiters c) l (c_shutdown_waiters c)
    (c_negotiates_alpn c) (c_certificate c).
Definition cset_shutdown_waiters (l : list nat) (c : ConnectionInner) : ConnectionInner :=
  mkConnection (c_state c) (c_error c) (c_start_waiters c) (c_certificate_waiters c)
    (c_inbound_stream_waiters c) (c_inbound_uni_stream_waiters c) (c_inbound_streams c)
    (c_inbound_uni_streams c) (c_recv_buffers c) (c_recv_waiters c) (c_write_pool c) l
    (c_negotiates_alpn c) (c_certificate c).
Definition cset_negotiates_alpn (alpn : bytes) (c : ConnectionInner) : ConnectionInner :=
  mkConnection (c_state c) (c_error c) (c_start_waiters c) (c_certificate_waiters c)
    (c_inbound_stream_waiters c) (c_inbound_uni_stream_waiters c) (c_inbound_streams c)
    (c_inbound_uni_streams c) (c_recv_buffers c) (c_recv_waiters c) (c_write_pool c)
    (c_shutdown_waiters c) alpn (c_certificate c).
Definition cset_certificate (cert : option bytes) (c : ConnectionInner) : ConnectionInner :=
  mkConnection (c_state c) (c_error c) (c_start_waiters c) (c_certificate_waiters c)
    (c_inbound_stream_waiters c) (c_inbound_uni_stream_waiters c) (c_inbound_streams c)
    (c_inbound_uni_streams c) (c_recv_buffers c) (c_recv_waiters c) (c_write_pool c)
    (c_shutdown_waiters c) (c_negotiates_alpn c) cert.
Definition ConnectionInner_new (st : ConnectionState) : ConnectionInner :=
  mkConnection st None [] [] [] [] [] [] [] [] [] [] [] None.
(** [Connection::new] and [Connection::from_raw] *)
Definition connection_new : ConnectionInner := ConnectionInner_new COpen.
Definition connection_from_raw (is_connected : bool) : ConnectionInner :=
  ConnectionInner_new (if is_connected then CConnected else CConnecting).
Definition get_negotiated_alpn (c : ConnectionInner) : option bytes :=
  match c_negotiates_alpn c with [] => None | alpn => Some alpn end.

(** ** Polls *)
(** [exclusive.error.as_ref().expect("error")], in the error of a poll *)
Definition conn_lost {A E} (f : ConnectionError → E) (c : ConnectionInner)
    : res (poll (A + E) * ConnectionInner) :=
  let* e := unwrap "error" (c_error c) in Ok (Ready (inr (f e)), c).
Definition wait_start (cx : nat) (c : ConnectionInner) : ConnectionInner :=
  cset_start_waiters (c_start_waiters c ++ [cx]) c.

Definition poll_accept (c : ConnectionInner) (cx : nat)
    : res (poll (unit + ConnStartError) * ConnectionInner) :=
  match c_state c with
  | COpen | CConnecting => Ok (Pending, wait_start cx c)
  | CConnected => Ok (Ready (inl ()), c)
  | CShutdown | CShutdownComplete => conn_lost ConnLost c
  end.
(** [start] is the answer of msquic to the call of [start]. *)
Definition conn_poll_start (c : ConnectionInner) (cx : nat) (start : Status)
    : res (poll (unit + ConnStartError) * ConnectionInner) :=
  match c_state c with
  | COpen =>
      if status_is_ok start then Ok (Pending, wait_start cx (cset_state CConnecting c))
      else Ok (Ready (inr (ConnOtherError start)), c)
  | CConnecting => Ok (Pending, wait_start cx c)
  | CConnected => Ok (Ready (inl ()), c)
  | CShutdown | CShutdownComplete => conn_lost ConnLost c
  end.
Definition poll_receive_remote_certificate (c : ConnectionInner) (cx : nat)
    : res (poll (bytes + ConnStartError) * ConnectionInner) :=
  match c_certificate c with
  | Some cert => Ok (Ready (inl cert), c)
  | None =>
      match c_state c with
      | COpen | CConnecting | CConnected =>
          Ok (Pending, cset_certificate_waiters (c_certificate_waiters c ++ [cx]) c)
      | CShutdown | CShutdownComplete => conn_lost ConnLost c
      end
  end.
Definition poll_accept_inbound_stream (c : ConnectionInner) (cx : nat)
    : res (poll (N + StartError) * ConnectionInner) :=
  match c_state c with
  | COpen => Ok (Ready (inr ConnectionNotStarted), c)
  | CConnecting => Ok (Pending, wait_start cx c)
  | CConnected =>
      match c_inbound_streams c with
      | s :: streams => Ok (Ready (inl s), cset_inbound_streams streams c)
      | [] => Ok (Pending, cset_inbound_stream_waiters (c_inbound_stream_waiters c ++ [cx]) c)
      end
  | CShutdown | CShutdownComplete => conn_lost StartConnectionLost c
  end.
Definition poll_accept_inbound_uni_stream (c : ConnectionInner) (cx : nat)
    : res (poll (N + StartError) * ConnectionInner) :=
  match c_state c with
  | COpen => Ok (Ready (inr ConnectionNotStarted), c)
  | CConnecting => Ok (Pending, wait_start cx c)
  | CConnected =>
      match c_inbound_uni_streams c with
      | s :: streams => Ok (Ready (inl s), cset_inbound_uni_streams streams c)
      | [] => Ok (Pending, cset_inbound_uni_stream_waiters (c_inbound_uni_stream_waiters c ++ [cx]) c)
      end
  | CShutdown | CShutdownComplete => conn_lost StartConnectionLost c
  end.
Definition poll_receive_datagram (c : ConnectionInner) (cx : nat)
    : res (poll (bytes + DgramReceiveError) * ConnectionInner) :=
  match c_state c with
  | COpen => Ok (Ready (inr ReceiveNotStarted), c)
  | CConnecting => Ok (Pending, wait_start cx c)
  | CConnected =>
      match c_recv_buffers c with
      | buf :: bufs => Ok (Ready (inl buf), cset_recv_buffers bufs c)
      | [] => Ok (Pending, cset_recv_waiters (c_recv_waiters c ++ [cx]) c)
      end
  | CShutdown | CShutdownComplete => conn_lost ReceiveConnectionLost c
  end.

(** Handing a datagram to msquic; [send] is its answer.  The third result is
    the buffers handed over, with their context. *)
Definition datagram_send (c : ConnectionInner) (buf : bytes) (send : Status)
    : (unit + DgramSendError) * ConnectionInner * option (list bytes * WriteBuffer) :=
  let '(write_buf, c) :=
    match last (c_write_pool c) with
    | Some w => (w, cset_write_pool (removelast (c_write_pool c)) c)
    | None => (WriteBuffer_new, c)
    end in
  let '(_, write_buf) := put_zerocopy write_buf buf in
  let '(buffers, write_buf) := get_buffers write_buf in
  if status_is_ok send then (inl (), c, Some (buffers, write_buf))
  else (inr (SendOtherError send), c, None).
Definition poll_send_datagram (c : ConnectionInner) (cx : nat) (buf : bytes) (send : Status)
    : res (poll (unit + DgramSendError) * ConnectionInner * option (list bytes * WriteBuffer)) :=
  match c_state c with
  | COpen => Ok (Ready (inr SendNotStarted), c, None)
  | CConnecting => Ok (Pending, wait_start cx c, None)
  | CConnected => let '(r, c, sent) := datagram_send c buf send in Ok (Ready r, c, sent)
  | CShutdown | CShutdownComplete => let* p := conn_lost SendConnectionLost c in Ok (p, None)
  end.
Definition send_datagram (c : ConnectionInner) (buf : bytes) (send : Status)
    : res ((unit + DgramSendError) * ConnectionInner * option (list bytes * WriteBuffer)) :=
  match c_state c with
  | COpen | CConnecting => Ok (inr SendNotStarted, c, None)
  | CConnected => Ok (datagram_send c buf send)
  | CShutdown | CShutdownComplete =>
      let* e := unwrap "error" (c_error c) in Ok (inr (SendConnectionLost e), c, None)
  end.

(** The shutdown of a connected connection, after the call into msquic. *)
Definition shut_down (c : ConnectionInner) : ConnectionInner :=
  let c := cset_state CShutdown c in
  match c_error c with None => cset_error (Some ShutdownByLocal) c | Some _ => c end.
Definition poll_shutdown (c : ConnectionInner) (cx : nat)
    : res (poll (unit + ShutdownError) * ConnectionInner) :=
  let wait c := Ok (Pending, cset_shutdown_waiters (c_shutdown_waiters c ++ [cx]) c) in
  match c_state c with
  | COpen => Ok (Ready (inr ShutdownNotStarted), c)
  | CConnecting => Ok (Pending, wait_start cx c)
  | CConnected => wait (shut_down c)
  | CShutdown => wait c
  | CShutdownComplete =>
      match c_error c with
      | Some ShutdownByLocal => Ok (Ready (inl ()), c)
      | _ => conn_lost ShutdownConnectionLost c
      end
  end.
Definition conn_shutdown (c : ConnectionInner) : (unit + ShutdownError) * ConnectionInner :=
  match c_state c with
  | COpen | CConnecting => (inr ShutdownNotStarted, c)
  | CConnected => (inl (), shut_down c)
  | _ => (inl (), c)
  end.

(** ** Events *)
Inductive ConnectionEvent : Type :=
  | CvConnected (negotiated_alpn : bytes)
  | CvShutdownInitiatedByTransport (status : Status) (code : N)
  | CvShutdownInitiatedByPeer (code : N)
  | CvShutdownComplete
  | CvPeerStreamStarted (stream : N) (unidirectional : bool)
  | CvStreamsAvailable
  | CvDatagramStateChanged
  | CvDatagramReceived (buffer : bytes)
  | CvDatagramSendStateChanged (client_context : WriteBuffer) (st : DatagramSendState)
  | CvPeerCertificateReceived (certificate : option bytes).

(** The queues drained when the connection goes down; not the one of the
    receivers of datagrams. *)
Definition wake_lost (c : ConnectionInner) : list nat * ConnectionInner :=
  (c_start_waiters c ++ c_certificate_waiters c ++ c_inbound_stream_waiters c ++ c_inbound_uni_stream_waiters c,
   cset_inbound_uni_stream_waiters [] (cset_inbound_stream_waiters []
     (cset_certificate_waiters [] (cset_start_waiters [] c)))).
Definition handle_event_connected (c : ConnectionInner) (negotiated_alpn : bytes)
    : list nat * ConnectionInner :=
  let c := cset_negotiates_alpn negotiated_alpn (cset_state CConnected c) in
  (c_start_waiters c, cset_start_waiters [] c).
Definition handle_event_shutdown_initiated_by_transport (c : ConnectionInner) (status : Status) (code : N)
    : list nat * ConnectionInner :=
  wake_lost (cset_error (Some (ShutdownByTransport status code)) (cset_state CShutdown c)).
Definition handle_event_shutdown_initiated_by_peer (c : ConnectionInner) (code : N)
    : list nat * ConnectionInner :=
  wake_lost (cset_error (Some (ShutdownByPeer code)) (cset_state CShutdown c)).
Definition conn_event_shutdown_complete (c : ConnectionInner) : list nat * ConnectionInner :=
  let c := cset_state CShutdownComplete c in
  let c := match c_error c with None => cset_error (Some ShutdownByLocal) c | Some _ => c end in
  let '(woken, c) := wake_lost c in
  (woken ++ c_shutdown_waiters c, cset_shutdown_waiters [] c).
(** [Stream::split]: which halves a stream has. *)
Definition split `{RangeSets} (s : StreamInner) : bool * bool :=
  match x_type s, x_local_open s with
  | Unidirectional, true => (false, true)
  | Unidirectional, false => (true, false)
  | Bidirectional, _ => (true, true)
  end.
Definition handle_event_peer_stream_started `{RangeSets} (c : ConnectionInner) (stream : N) (unidirectional : bool)
    : res (list nat * ConnectionInner * option (N * StreamInner)) :=
  let s := stream_from_raw (if unidirectional then Unidirectional else Bidirectional) in
  if unidirectional then
    match split s with
    | (true, false) =>
        let c := cset_inbound_uni_streams (c_inbound_uni_streams c ++ [stream]) c in
        Ok (c_inbound_uni_stream_waiters c, cset_inbound_uni_stream_waiters [] c, Some (stream, s))
    | _ => Panic "internal error: entered unreachable code"
    end
  else
    let c := cset_inbound_streams (c_inbound_streams c ++ [stream]) c in
    Ok (c_inbound_stream_waiters c, cset_inbound_stream_waiters [] c, Some (stream, s)).
Definition handle_event_datagram_received (c : ConnectionInner) (buffer : bytes) : list nat * ConnectionInner :=
  let c := cset_recv_buffers (c_recv_buffers c ++ [buffer]) c in
  (c_recv_waiters c, cset_recv_waiters [] c).
Definition handle_event_datagram_send_state_changed (c : ConnectionInner) (client_context : WriteBuffer)
    (st : DatagramSendState) : list nat * ConnectionInner :=
  match st with
  | DgramSent | DgramCanceled => ([], cset_write_pool (c_write_pool c ++ [wb_reset client_context]) c)
  | DgramOther => ([], c)
  end.
Definition handle_event_peer_certificate_received (c : ConnectionInner) (certificate : option bytes)
    : list nat * ConnectionInner :=
  match certificate with
  | None => ([], c)
  | Some cert =>
      let c := cset_certificate (Some cert) c in
      (c_certificate_waiters c, cset_certificate_waiters [] c)
  end.
(** The wakers woken, the state, and the stream that the event brings. *)
Definition conn_callback_handler_impl `{RangeSets} (c : ConnectionInner) (ev : ConnectionEvent)
    : res (list nat * ConnectionInner * option (N * StreamInner)) :=
  match ev with
  | CvConnected alpn => Ok (handle_event_connected c alpn, None)
  | CvShutdownInitiatedByTransport status code =>
      Ok (handle_event_shutdown_initiated_by_transport c status code, None)
  | CvShutdownInitiatedByPeer code => Ok (handle_event_shutdown_initiated_by_peer c code, None)
  | CvShutdownComplete => Ok (conn_event_shutdown_complete c, None)
  | CvPeerStreamStarted stream unidirectional => handle_event_peer_stream_started c stream unidirectional
  | CvStreamsAvailable | CvDatagramStateChanged => Ok ([], c, None)
  | CvDatagramReceived buffer => Ok (handle_event_datagram_received c buffer, None)
  | CvDatagramSendStateChanged ctx st => Ok (handle_event_datagram_send_state_changed c ctx st, None)
  | CvPeerCertificateReceived cert => Ok (handle_event_peer_certificate_received c cert, None)
  end.

(** ** Opening a stream ([OpenOutboundStream]) *)
Record OpenOutboundStream `{RangeSets} : Type := mkOpenOutbound {
  oo_stream_type : option StreamType;
  oo_stream : option StreamInner;
}.
Definition open_outbound_stream `{RangeSets} (t : StreamType) : OpenOutboundStream :=
  mkOpenOutbound _ (Some t) None.
(** [open] and [start] are the answers of msquic to the calls of
    [Stream::open] and [start], if they are made. *)
Definition open_outbound_poll `{RangeSets} (c : ConnectionInner) (o : OpenOutboundStream) (cx : nat)
    (open start : Status)
    : res (poll (StreamInner + StartError) * ConnectionInner * OpenOutboundStream) :=
  match c_state c with
  | COpen => Ok (Ready (inr ConnectionNotStarted), c, o)
  | CConnecting => Ok (Pending, wait_start cx c, o)
  | CShutdown | CShutdownComplete => let* p := conn_lost StartConnectionLost c in Ok (p, o)
  | CConnected =>
      let* (opened, o) :=
        match oo_stream o with
        | Some s => Ok (inl s, o)
        | None =>
            let* t := unwrap "stream_type" (oo_stream_type o) in
            if status_is_ok open
            then Ok (inl (QuicStream.stream_open t), mkOpenOutbound _ None (Some (QuicStream.stream_open t)))
            else Ok (inr (StartOtherError open), mkOpenOutbound _ None None)
        end in
      match opened with
      | inr e => Ok (Ready (inr e), c, o)
      | inl s =>
          let* (p, s) := poll_start s cx start in
          match p with
          | Pending => Ok (Pending, c, mkOpenOutbound _ (oo_stream_type o) (Some s))
          | Ready (inl _) => Ok (Ready (inl s), c, mkOpenOutbound _ (oo_stream_type o) None)
          | Ready (inr e) => Ok (Ready (inr e), c, mkOpenOutbound _ (oo_stream_type o) (Some s))
          end
      end
  end.
