(* ===== verification/ConnRuns.v ===== *)
(** * Runs of QUIC connections (transport-layer/src/msquic/msquic_async/connection.rs)

    What the operations of [QuicConn] guarantee over whole runs: no poll
    panics, the streams and datagrams of the peer are handed out in order, no
    waiting task is forgotten (but the receivers of datagrams), and a stream
    is opened and started. *)
From S2P Require Import Prelude RangeSet RecvBuffer QuicStream QuicConn.
Open Scope N_scope.

(** ** One name for all polls *)
Inductive ConnOp : Type :=
  | OpAccept | OpStart (start : Status) | OpCertificate | OpAcceptStream | OpAcceptUniStream
  | OpReceiveDatagram | OpSendDatagram (buf : bytes) (send : Status) | OpShutdown.
(** The kind of an answer, and what it hands out. *)
Inductive Handed : Type := HandStream (s : N) | HandUniStream (s : N) | HandDatagram (buf : bytes).
Inductive Answer : Type :=
  | AWait | ADone (h : option Handed) | ANotStarted | ALost (e : ConnectionError) | AFailed (s : Status).
Definition conn_start_answer (r : unit + ConnStartError) : Answer :=
  match r with inl _ => ADone None | inr (ConnLost e) => ALost e | inr (ConnOtherError s) => AFailed s end.
Definition accept_answer (f : N → Handed) (r : N + StartError) : Answer :=
  match r with
  | inl s => ADone (Some (f s))
  | inr ConnectionNotStarted => ANotStarted
  | inr (StartConnectionLost e) => ALost e
  | inr LimitReached => AFailed StreamLimitReached
  | inr (StartOtherError s) => AFailed s
  end.
Definition answer_of {A} (f : A → Answer) (p : poll A) : Answer :=
  match p with Pending => AWait | Ready a => f a end.
Definition conn_op (c : ConnectionInner) (cx : nat) (op : ConnOp) : res (Answer * ConnectionInner) :=
  match op with
  | OpAccept => let* (p, c) := poll_accept c cx in Ok (answer_of conn_start_answer p, c)
  | OpStart start => let* (p, c) := conn_poll_start c cx start in Ok (answer_of conn_start_answer p, c)
  | OpCertificate =>
      let* (p, c) := poll_receive_remote_certificate c cx in
      Ok (answer_of (λ r, match r with
                          | inl _ => ADone None
                          | inr (ConnLost e) => ALost e
                          | inr (ConnOtherError s) => AFailed s
                          end) p, c)
  | OpAcceptStream => let* (p, c) := poll_accept_inbound_stream c cx in Ok (answer_of (accept_answer HandStream) p, c)
  | OpAcceptUniStream =>
      let* (p, c) := poll_accept_inbound_uni_stream c cx in Ok (answer_of (accept_answer HandUniStream) p, c)
  | OpReceiveDatagram =>
      let* (p, c) := poll_receive_datagram c cx in
      Ok (answer_of (λ r, match r with
                          | inl buf => ADone (Some (HandDatagram buf))
                          | inr ReceiveNotStarted => ANotStarted
                          | inr (ReceiveConnectionLost e) => ALost e
                          | inr (ReceiveOtherError s) => AFailed s
                          end) p, c)
  | OpSendDatagram buf send =>
      let* (p, _) := poll_send_datagram c cx buf send in
      let '(p, c) := p in
      Ok (answer_of (λ r, match r with
                          | inl _ => ADone None
                          | inr SendNotStarted => ANotStarted
                          | inr (SendConnectionLost e) => ALost e
                          | inr (SendOtherError s) => AFailed s
                          | inr _ => AFailed StatusOk
                          end) p, c)
  | OpShutdown =>
      let* (p, c) := poll_shutdown c cx in
      Ok (answer_of (λ r, match r with
                          | inl _ => ADone None
                          | inr ShutdownNotStarted => ANotStarted
                          | inr (ShutdownConnectionLost e) => ALost e
                          | inr (ShutdownOtherError s) => AFailed s
                          end) p, c)
  end.

(** ** Runs *)
Section runs.
Context `{RS : RangeSets}.

(** A connection with what the peer has sent and what has been handed out. *)
Record ConnRun : Type := mkConnRun {
  cr_conn : ConnectionInner;
  cr_arrived : list Handed;
  cr_handed : list Handed;
}.
Definition arrival (ev : ConnectionEvent) : list Handed :=
  match ev with
  | CvPeerStreamStarted s true => [HandUniStream s]
  | CvPeerStreamStarted s false => [HandStream s]
  | CvDatagramReceived buf => [HandDatagram buf]
  | _ => []
  end.
Definition handed_by (a : Answer) : list Handed :=
  match a with ADone (Some h) => [h] | _ => [] end.
Inductive conn_step : ConnRun → ConnRun → Prop :=
  | step_op c arrived handed cx op a c' :
      conn_op c cx op = Ok (a, c') →
      conn_step (mkConnRun c arrived handed) (mkConnRun c' arrived (handed ++ handed_by a))
  | step_shutdown c arrived handed :
      conn_step (mkConnRun c arrived handed) (mkConnRun (conn_shutdown c).2 arrived handed)
  | step_send c arrived handed buf send r c' sent :
      send_datagram c buf send = Ok (r, c', sent) →
      conn_step (mkConnRun c arrived handed) (mkConnRun c' arrived handed)
  | step_conn_event c arrived handed ev woken c' s :
      conn_callback_handler_impl c ev = Ok (woken, c', s) →
      conn_step (mkConnRun c arrived handed) (mkConnRun c' (arrived ++ arrival ev) handed).
Definition fresh_conn (c : ConnectionInner) : Prop := c = connection_new ∨ ∃ b, c = connection_from_raw b.

(** The three queues, in one type. *)
Definition is_stream (h : Handed) : option N := match h with HandStream s => Some s | _ => None end.
Definition is_uni_stream (h : Handed) : option N := match h with HandUniStream s => Some s | _ => None end.
Definition is_datagram (h : Handed) : option bytes := match h with HandDatagram b => Some b | _ => None end.
Definition down (c : ConnectionInner) : Prop := c_state c = CShutdown ∨ c_state c = CShutdownComplete.
Record conn_inv (r : ConnRun) : Prop := {
  ci_error : down (cr_conn r) → c_error (cr_conn r) ≠ None;
  ci_streams : omap is_stream (cr_arrived r) = omap is_stream (cr_handed r) ++ c_inbound_streams (cr_conn r);
  ci_uni : omap is_uni_stream (cr_arrived r) = omap is_uni_stream (cr_handed r) ++ c_inbound_uni_streams (cr_conn r);
  ci_datagrams : omap is_datagram (cr_arrived r) = omap is_datagram (cr_handed r) ++ c_recv_buffers (cr_conn r);
}.

Lemma conn_event_total c ev : ∃ woken c' s, conn_callback_handler_impl c ev = Ok (woken, c', s).
Proof.
  destruct ev as [|? ?|?| |? []| | |?|? ?|?]; unfold conn_callback_handler_impl; try (by eexists _, _, _);
    match goal with |- ∃ _ _ _, Ok (?p, ?s) = _ => exists p.1, p.2, s; by destruct p end.
Qed.
(** Every poll answers, and it answers [ALost] with the recorded error
    exactly when the connection is down (a certificate that was received, and
    a finished shutdown, excepted). *)
Definition op_down (c : ConnectionInner) (op : ConnOp) (a : Answer) : Prop :=
  match op with
  | OpCertificate => if c_certificate c then a = ADone None else Some a = ALost <$> c_error c
  | OpShutdown =>
      match c_state c, c_error c with
      | CShutdown, _ => a = AWait
      | _, Some ShutdownByLocal => a = ADone None
      | _, e => Some a = ALost <$> e
      end
  | _ => Some a = ALost <$> c_error c
  end.
Lemma conn_op_total c cx op : (down c → c_error c ≠ None) →
  ∃ a c', conn_op c cx op = Ok (a, c') ∧ (down c → op_down c op a) ∧
    (¬ down c → ∀ e, a ≠ ALost e).
Proof.
  intros He. unfold op_down.
  assert (c_state c = CShutdown ∨ c_state c = CShutdownComplete → ∃ e, c_error c = Some e) as Hd.
  { intros Hs. destruct (c_error c) as [e|]; [by exists e|by specialize (He Hs)]. }
  unfold down in *. destruct (c_state c) eqn:Est;
    try (destruct (Hd ltac:(tauto)) as [e Ee]); clear Hd He;
    destruct op; unfold conn_op, poll_accept, conn_poll_start, poll_receive_remote_certificate,
    poll_accept_inbound_stream, poll_accept_inbound_uni_stream, poll_receive_datagram, poll_send_datagram,
    datagram_send, poll_shutdown, conn_lost; rewrite ?Est, ?Ee; cbn [unwrap rbind];
    repeat match goal with
    | |- context [if status_is_ok ?s then _ else _] => destruct (status_is_ok s)
    | |- context [match c_certificate c with _ => _ end] => destruct (c_certificate c)
    | |- context [match c_inbound_streams c with _ => _ end] => destruct (c_inbound_streams c)
    | |- context [match c_inbound_uni_streams c with _ => _ end] => destruct (c_inbound_uni_streams c)
    | |- context [match c_recv_buffers c with _ => _ end] => destruct (c_recv_buffers c)
    | |- context [match last ?l with _ => _ end] => destruct (last l)
    | e : ConnectionError |- _ => destruct e
    end; cbn [unwrap rbind];
    try (eexists _, _; split; [reflexivity|]; simpl; naive_solver).
Qed.
(** What an operation may do to the queues, and to the error of a connection
    that is down. *)
Definition op_queues (c : ConnectionInner) (a : Answer) (c' : ConnectionInner) : Prop :=
  c_inbound_streams c = omap is_stream (handed_by a) ++ c_inbound_streams c' ∧
  c_inbound_uni_streams c = omap is_uni_stream (handed_by a) ++ c_inbound_uni_streams c' ∧
  c_recv_buffers c = omap is_datagram (handed_by a) ++ c_recv_buffers c' ∧
  (down c' → c_error c' ≠ None ∨ down c ∧ c_error c' = c_error c).
Lemma conn_op_queues c cx op a c' : conn_op c cx op = Ok (a, c') → op_queues c a c'.
Proof.
  destruct c as [st err sw cw isw iusw ins ius rbs rw wp shw alpn cert].
  unfold op_queues, down.
  destruct op; unfold conn_op;
    unfold poll_accept, conn_poll_start, poll_receive_remote_certificate, poll_accept_inbound_stream,
      poll_accept_inbound_uni_stream, poll_receive_datagram, poll_send_datagram, poll_shutdown, datagram_send; simpl.
  - destruct st, err; simpl; intros [= <- <-]; simpl; naive_solver.
  - destruct st, err; simpl; destruct (status_is_ok start); simpl; intros [= <- <-]; simpl; naive_solver.
  - destruct cert, st, err; simpl; intros [= <- <-]; simpl; naive_solver.
  - destruct st, err, ins; simpl; intros [= <- <-]; simpl; naive_solver.
  - destruct st, err, ius; simpl; intros [= <- <-]; simpl; naive_solver.
  - destruct st, err, rbs; simpl; intros [= <- <-]; simpl; naive_solver.
  - destruct (last wp), st, err; simpl; destruct (status_is_ok send); simpl; intros [= <- <-]; simpl; naive_solver.
  - destruct st, err as [[]|]; simpl; intros [= <- <-]; simpl; naive_solver.
Qed.
Lemma down_dec c : down c ∨ ¬ down c.
Proof. unfold down. destruct (c_state c); naive_solver. Qed.
Lemma conn_shutdown_same c :
  c_inbound_streams (conn_shutdown c).2 = c_inbound_streams c ∧
  c_inbound_uni_streams (conn_shutdown c).2 = c_inbound_uni_streams c ∧
  c_recv_buffers (conn_shutdown c).2 = c_recv_buffers c ∧
  (down (conn_shutdown c).2 → c_error (conn_shutdown c).2 ≠ None ∨
    down c ∧ c_error (conn_shutdown c).2 = c_error c).
Proof.
  destruct c as [st err sw cw isw iusw ins ius rbs rw wp shw alpn cert]. unfold conn_shutdown, down. simpl.
  destruct st, err; simpl; naive_solver.
Qed.
Lemma send_datagram_queues c buf send r c' sent : send_datagram c buf send = Ok (r, c', sent) →
  c' = cset_write_pool (c_write_pool c') c.
Proof.
  destruct c as [st err sw cw isw iusw ins ius rbs rw wp shw alpn cert]. unfold send_datagram, datagram_send. simpl.
  destruct st, err, (last wp); simpl; destruct (status_is_ok send); simpl; by intros [= <- <- <-].
Qed.
Lemma conn_event_queues c ev woken c' s : conn_callback_handler_impl c ev = Ok (woken, c', s) →
  c_inbound_streams c' = c_inbound_streams c ++ omap is_stream (arrival ev) ∧
  c_inbound_uni_streams c' = c_inbound_uni_streams c ++ omap is_uni_stream (arrival ev) ∧
  c_recv_buffers c' = c_recv_buffers c ++ omap is_datagram (arrival ev) ∧
  (down c' → c_error c' ≠ None ∨ down c ∧ c_error c' = c_error c).
Proof.
  destruct c as [st err sw cw isw iusw ins ius rbs rw wp shw alpn cert]. unfold down.
  destruct ev as [|? ?|?| |? []| | |?|? []|[]]; unfold conn_callback_handler_impl; simpl;
    intros [= <- <- <-]; simpl; rewrite ?app_nil_r; try naive_solver.
  destruct err; simpl; naive_solver.
Qed.
Lemma conn_inv_step r r' : conn_inv r → conn_step r r' → conn_inv r'.
Proof.
  intros [He Hs Hu Hd] Hstep. destruct Hstep as
    [c arrived handed cx op a c' Hop|c arrived handed|c arrived handed buf send re c' sent Hse
    |c arrived handed ev woken c' s Hev]; simpl in *.
  - destruct (conn_op_queues _ _ _ _ _ Hop) as (Q1 & Q2 & Q3 & Q4).
    split; simpl; rewrite ?omap_app, <-?app_assoc; [|congruence..].
    intros Hd'. destruct (Q4 Hd') as [?|[? ->]]; auto.
  - destruct (conn_shutdown_same c) as (Q1 & Q2 & Q3 & Q4).
    split; simpl; rewrite ?Q1, ?Q2, ?Q3; auto. intros Hd'. destruct (Q4 Hd') as [?|[? ->]]; auto.
  - apply send_datagram_queues in Hse. split; simpl; rewrite Hse; simpl; auto.
  - destruct (conn_event_queues _ _ _ _ _ Hev) as (Q1 & Q2 & Q3 & Q4).
    split; simpl; rewrite ?omap_app; [|rewrite ?Hs, ?Hu, ?Hd, <-app_assoc; congruence..].
    intros Hd'. destruct (Q4 Hd') as [?|[? ->]]; auto.
Qed.
Lemma conn_inv_run c r : fresh_conn c → rtc conn_step (mkConnRun c [] []) r → conn_inv r.
Proof.
  intros Hc Hr. assert (conn_inv (mkConnRun c [] [])) as Hi.
  { destruct Hc as [->|[[] ->]]; split; simpl; try done; unfold down; simpl; naive_solver. }
  remember (mkConnRun c [] []) as r0. clear Heqr0. induction Hr; eauto using conn_inv_step.
Qed.

(** All the tasks that wait. *)
Definition conn_waiters (c : ConnectionInner) : list nat :=
  c_start_waiters c ++ c_certificate_waiters c ++ c_inbound_stream_waiters c ++ c_inbound_uni_stream_waiters c ++
  c_recv_waiters c ++ c_shutdown_waiters c.
(** A task waits only while what it waits for has not happened. *)
Record nothing_missed (c : ConnectionInner) : Prop := {
  nm_start : c_start_waiters c ≠ [] → c_state c = COpen ∨ c_state c = CConnecting;
  nm_certificate : c_certificate_waiters c ≠ [] → c_certificate c = None ∧ c_state c ≠ CShutdownComplete;
  nm_streams : c_inbound_stream_waiters c ≠ [] → c_inbound_streams c = [] ∧ c_state c ≠ CShutdownComplete;
  nm_uni : c_inbound_uni_stream_waiters c ≠ [] → c_inbound_uni_streams c = [] ∧ c_state c ≠ CShutdownComplete;
  nm_datagrams : c_recv_waiters c ≠ [] → c_recv_buffers c = [];
  nm_shutdown : c_shutdown_waiters c ≠ [] → c_state c ≠ CShutdownComplete;
}.
Lemma app_singleton_nil {A} (l : list A) x : l ++ [x] ≠ [].
Proof. by destruct l. Qed.
(** One clause of [nothing_missed], from the same clause before. *)
Ltac missed_clause :=
  let H := fresh in
  intros H; first [by destruct H | by auto | match goal with Hc : _ → _ |- _ => specialize (Hc H); clear - Hc; naive_solver end].
Ltac missed := let H := fresh in intros H; destruct H; simpl in *; constructor; simpl; missed_clause.
Ltac perm_apps := rewrite <-?app_assoc; first [reflexivity | solve_Permutation].
Lemma conn_op_waiters c cx op a c' : conn_op c cx op = Ok (a, c') →
  conn_waiters c' ≡ₚ (match a with AWait => [cx] | _ => [] end) ++ conn_waiters c ∧
  (nothing_missed c → nothing_missed c').
Proof.
  destruct c as [st err sw cw isw iusw ins ius rbs rw wp shw alpn cert]. unfold conn_waiters.
  destruct op; unfold conn_op;
    unfold poll_accept, conn_poll_start, poll_receive_remote_certificate, poll_accept_inbound_stream,
      poll_accept_inbound_uni_stream, poll_receive_datagram, poll_send_datagram, poll_shutdown, datagram_send; simpl.
  - destruct st, err; simpl; intros [= <- <-]; simpl; (split; [perm_apps|missed]).
  - destruct st, err; simpl; destruct (status_is_ok start); simpl; intros [= <- <-]; simpl; (split; [perm_apps|missed]).
  - destruct cert, st, err; simpl; intros [= <- <-]; simpl; (split; [perm_apps|missed]).
  - destruct st, err, ins; simpl; intros [= <- <-]; simpl; (split; [perm_apps|missed]).
  - destruct st, err, ius; simpl; intros [= <- <-]; simpl; (split; [perm_apps|missed]).
  - destruct st, err, rbs; simpl; intros [= <- <-]; simpl; (split; [perm_apps|missed]).
  - destruct (last wp), st, err; simpl; destruct (status_is_ok send); simpl; intros [= <- <-]; simpl;
      (split; [perm_apps|missed]).
  - destruct st, err as [[]|]; simpl; intros [= <- <-]; simpl; (split; [perm_apps|missed]).
Qed.
Lemma conn_event_waiters c ev woken c' s : conn_callback_handler_impl c ev = Ok (woken, c', s) →
  conn_waiters c ≡ₚ woken ++ conn_waiters c' ∧ (nothing_missed c → nothing_missed c').
Proof.
  destruct c as [st err sw cw isw iusw ins ius rbs rw wp shw alpn cert].
  destruct ev as [|? ?|?| |? []| | |?|? []|[]], err; unfold conn_callback_handler_impl; simpl;
    intros [= <- <- <-]; unfold conn_waiters; simpl; (split; [rewrite ?app_nil_r; perm_apps|missed]).
Qed.
Lemma conn_shutdown_waiters c :
  conn_waiters (conn_shutdown c).2 = conn_waiters c ∧ (nothing_missed c → nothing_missed (conn_shutdown c).2).
Proof.
  destruct c as [st err sw cw isw iusw ins ius rbs rw wp shw alpn cert]. unfold conn_waiters, conn_shutdown.
  destruct st, err; simpl; (split; [done|missed]).
Qed.
Lemma nothing_missed_step r r' : nothing_missed (cr_conn r) → conn_step r r' → nothing_missed (cr_conn r').
Proof.
  intros Hn Hstep. destruct Hstep as
    [c arrived handed cx op a c' Hop|c arrived handed|c arrived handed buf send re c' sent Hse
    |c arrived handed ev woken c' s Hev]; simpl in *.
  - by apply (conn_op_waiters _ _ _ _ _ Hop).
  - by apply conn_shutdown_waiters.
  - apply send_datagram_queues in Hse. rewrite Hse. by destruct Hn.
  - by apply (conn_event_waiters _ _ _ _ _ Hev).
Qed.
Lemma nothing_missed_run c r : fresh_conn c → rtc conn_step (mkConnRun c [] []) r → nothing_missed (cr_conn r).
Proof.
  intros Hc Hr. assert (nothing_missed (cr_conn (mkConnRun c [] []))) as Hi.
  { destruct Hc as [->|[[] ->]]; by split. }
  remember (mkConnRun c [] []) as r0. clear Heqr0. induction Hr; eauto using nothing_missed_step.
Qed.


(** C28: No task that waits on a connection is forgotten.  A poll that answers
    that the task must wait registers it, and only then; an event that takes
    tasks off the lists wakes them all; and in every reachable state a task
    waits only while what it waits for has not happened: for the start only
    until the connection is up, for a stream or a datagram only while none is
    queued, for a certificate only while there is none, and for all of them
    (but a datagram) only until the shutdown is complete. *)
Theorem connection_no_lost_wakeup c r : fresh_conn c → rtc conn_step (mkConnRun c [] []) r →
  nothing_missed (cr_conn r) ∧
  (∀ cx op a c', conn_op (cr_conn r) cx op = Ok (a, c') →
     conn_waiters c' ≡ₚ (match a with AWait => [cx] | _ => [] end) ++ conn_waiters (cr_conn r)) ∧
  (∀ ev woken c' s, conn_callback_handler_impl (cr_conn r) ev = Ok (woken, c', s) →
     conn_waiters (cr_conn r) ≡ₚ woken ++ conn_waiters c') ∧
  conn_waiters (conn_shutdown (cr_conn r)).2 = conn_waiters (cr_conn r).
Proof.
  intros Hc Hr. split; [by apply (nothing_missed_run c)|]. split; [|split].
  - intros cx op a c' Hop. by apply conn_op_waiters in Hop as [Hp _].
  - intros ev woken c' s Hev. by apply conn_event_waiters in Hev as [Hp _].
  - apply conn_shutdown_waiters.
Qed.

(** C27: The streams and the datagrams of the peer are handed out in the order
    in which they arrived, each once: per kind, what arrived is what was
    handed out followed by what is queued. *)
Theorem inbound_in_order c r : fresh_conn c → rtc conn_step (mkConnRun c [] []) r →
  omap is_stream (cr_arrived r) = omap is_stream (cr_handed r) ++ c_inbound_streams (cr_conn r) ∧
  omap is_uni_stream (cr_arrived r) = omap is_uni_stream (cr_handed r) ++ c_inbound_uni_streams (cr_conn r) ∧
  omap is_datagram (cr_arrived r) = omap is_datagram (cr_handed r) ++ c_recv_buffers (cr_conn r).
Proof. intros Hc Hr. by destruct (conn_inv_run _ _ Hc Hr). Qed.

(** ** Opening a stream *)
(** A stream being opened, with its connection, and the answer of the future. *)
Record Outbound : Type := mkOutbound {
  ob_conn : ConnectionInner;
  ob_future : OpenOutboundStream;
  ob_done : option (StreamInner + StartError);
}.
(** The start was refused because the connection is going down. *)
Definition refused (x : StreamInner) : bool :=
  match x_start_status x with Some StatusAborted | Some StatusInvalidState => true | _ => false end.
(** A status that the crate names. *)
Definition named (st : Status) : bool := match st with StatusUnknown _ => false | _ => true end.
(** What msquic reports of a stream being opened: the end of its start with a
    status that the crate names; a refused start is neither accepted, and when
    such a stream shuts down it is with the connection. *)
Definition reported (x : StreamInner) (ev : StreamEvent) : Prop :=
  match ev with
  | EvStartComplete status _ _ => x_state x = SStart ∧ named status = true
  | EvPeerAccepted => refused x = false
  | EvShutdownComplete connection_shutdown _ _ _ _ _ => refused x = true → connection_shutdown = true
  | _ => True
  end.
Inductive outbound_step : Outbound → Outbound → Prop :=
  | step_ob_poll c o cx open start p c' o' :
      open_outbound_poll c o cx open start = Ok (p, c', o') →
      outbound_step (mkOutbound c o None)
        (mkOutbound c' o' (match p with Pending => None | Ready r => Some r end))
  | step_ob_conn c o d c' :
      (down c' → c_error c' ≠ None) →
      outbound_step (mkOutbound c o d) (mkOutbound c' o d)
  | step_ob_event c t x d ev :
      reported x ev →
      outbound_step (mkOutbound c (mkOpenOutbound _ t (Some x)) d)
        (mkOutbound c (mkOpenOutbound _ t (Some (after x ev))) d).
(** A stream opened here for [t]; a refused start is told by the error of
    the connection. *)
Record opening (t : StreamType) (x : StreamInner) : Prop := {
  op_type : x_type x = t;
  op_local : x_local_open x = true;
  op_named : from_option named true (x_start_status x) = true;
  op_refused : x_state x ≠ SOpen → x_state x ≠ SStart → refused x = true → x_conn_error x ≠ None;
}.
Definition outbound_inv (t : StreamType) (ob : Outbound) : Prop :=
  (down (ob_conn ob) → c_error (ob_conn ob) ≠ None) ∧
  (ob_done ob = None → ob_future ob = open_outbound_stream t ∨
    ∃ x, ob_future ob = mkOpenOutbound _ None (Some x) ∧ opening t x) ∧
  (∀ x, ob_done ob = Some (inl x) → opening t x ∧ x_state x ≠ SOpen ∧ x_state x ≠ SStart ∧
    (x_start_status x = None ∨ x_start_status x = Some StatusOk)).
Lemma opening_start t x cx start : opening t x → ∃ p x',
  poll_start x cx start = Ok (p, x') ∧ (p = Pending → opening t x') ∧
  (p = Ready (inl ()) → x' = x ∧ x_state x ≠ SOpen ∧ x_state x ≠ SStart ∧
     (x_start_status x = None ∨ x_start_status x = Some StatusOk)).
Proof.
  destruct x as [ty lo id st ss rs rb rl rm rc ws wp re se ce sw rw wsw].
  intros [Ht Hl Hn Hr]. unfold poll_start, refused in *. simpl in *.
  destruct st; simpl.
  - destruct (status_is_ok start); by eexists _, _.
  - by eexists _, _.
  - destruct ss as [[]|]; try done; try (eexists _, _; split; [reflexivity|]; by naive_solver);
      (destruct ce; simpl; [by eexists _, _|by destruct Hr]).
  - destruct ss as [[]|]; try done; try (eexists _, _; split; [reflexivity|]; by naive_solver);
      (destruct ce; simpl; [by eexists _, _|by destruct Hr]).
Qed.
Lemma opening_event t x ev : opening t x → reported x ev → opening t (after x ev).
Proof.
  destruct x as [ty lo id st ss rs rb rl rm rc ws wp re se ce sw rw wsw].
  intros [Ht Hl Hn Hr] Hev. unfold after. simpl in Ht, Hl, Hn. subst ty lo.
  destruct ev as [status ? []|? ? ? ?| | | | | |[] ? ? ? ? ?| |]; simpl in Hev.
  1-2: destruct Hev as [-> Hst]; destruct status; by constructor.
  1-6: by constructor.
  1-2: destruct rb; constructor; simpl; try done; intros _ _ Href; by specialize (Hev Href).
  - by constructor.
  - constructor; simpl; try done. intros _ _ Href. unfold refused in *; simpl in *. destruct ss as [[]|]; done.
Qed.
Lemma outbound_poll t c o cx open start :
  (down c → c_error c ≠ None) →
  o = open_outbound_stream t ∨ (∃ x, o = mkOpenOutbound _ None (Some x) ∧ opening t x) →
  ∃ p c' o', open_outbound_poll c o cx open start = Ok (p, c', o') ∧
    outbound_inv t (mkOutbound c' o' (match p with Pending => None | Ready r => Some r end)).
Proof.
  intros He Ho. unfold open_outbound_poll, outbound_inv.
  destruct (c_state c) eqn:Est; try (destruct (c_error c) eqn:Ee; [|exfalso; unfold down in He; naive_solver]).
  - eexists _, _, _. split; [done|]. simpl. naive_solver.
  - eexists _, _, _. split; [done|]. simpl. unfold down. simpl. rewrite Est. naive_solver.
  - assert (∀ x, opening t x → ∃ p x', poll_start x cx start = Ok (p, x') ∧ (p = Pending → opening t x') ∧
      (p = Ready (inl ()) → x' = x ∧ x_state x ≠ SOpen ∧ x_state x ≠ SStart ∧
       (x_start_status x = None ∨ x_start_status x = Some StatusOk))) as Hs by (intros; by apply opening_start).
    destruct Ho as [->|(x & -> & Hx)]; simpl.
    + destruct (status_is_ok open); simpl; [|by eexists _, _, _].
      destruct (Hs (stream_open t)) as (p & x' & -> & Hp & Hr); [by constructor|].
      destruct p as [|[[]|]]; simpl; eexists _, _, _; (split; [done|]); simpl;
        [by split; [done|split; [right; eexists; split; [done|by apply Hp]|]]| |by split; [done|split]].
      split; [done|]. split; [done|]. intros y [= <-]. destruct (Hr eq_refl) as (-> & ?). by split.
    + destruct (Hs x Hx) as (p & x' & -> & Hp & Hr).
      destruct p as [|[[]|]]; simpl; eexists _, _, _; (split; [done|]); simpl;
        [by split; [done|split; [right; eexists; split; [done|by apply Hp]|]]| |by split; [done|split]].
      split; [done|]. split; [done|]. intros y [= <-]. destruct (Hr eq_refl) as (-> & ?). by split.
  - unfold conn_lost. rewrite Ee. simpl. eexists _, _, _. split; [done|]. simpl. rewrite Ee. naive_solver.
  - unfold conn_lost. rewrite Ee. simpl. eexists _, _, _. split; [done|]. simpl. rewrite Ee. naive_solver.
Qed.
Lemma outbound_inv_step t ob ob' : outbound_inv t ob → outbound_step ob ob' → outbound_inv t ob'.
Proof.
  intros (He & Ho & Hd) Hstep. destruct Hstep as [c o cx open start p c' o' Hp|c o d c' Hc|c x ty d ev Hev]; simpl in *.
  - destruct (outbound_poll t c o cx open start He (Ho eq_refl)) as (p1 & c1 & o1 & Hp1 & Hi).
    rewrite Hp in Hp1. by injection Hp1 as -> -> ->.
  - done.
  - split; [done|]. split; [|done]. intros Hdone. right. destruct (Ho Hdone) as [?|(x' & [= -> ->] & Hx)]; [done|].
    eexists. split; [done|]. by apply opening_event.
Qed.

(** Opening a stream on a connection: as long as the future of
    [open_outbound_stream] has not answered, its next poll answers without a
    panic, whatever happened to the connection and to the stream in between;
    and the stream it hands out in the end is of the kind asked for, opened
    here, and its start has succeeded (it is past [Start], with no status but
    success). *)
Theorem outbound_stream_opens c t ob : (down c → c_error c ≠ None) →
  rtc outbound_step (mkOutbound c (open_outbound_stream t) None) ob →
  (ob_done ob = None → ∀ cx open start,
     ∃ p c' o', open_outbound_poll (ob_conn ob) (ob_future ob) cx open start = Ok (p, c', o')) ∧
  (∀ x, ob_done ob = Some (inl x) → x_type x = t ∧ x_local_open x = true ∧
     (x_state x = SStartComplete ∨ x_state x = SShutdownComplete) ∧
     (x_start_status x = None ∨ x_start_status x = Some StatusOk)).
Proof.
  intros Hc Hr. assert (outbound_inv t (mkOutbound c (open_outbound_stream t) None)) as Hi by (repeat split; auto; done).
  remember (mkOutbound c _ None) as ob0. clear Heqob0.
  induction Hr as [ob|ob ob1 ob2 Hstep Hr IH]; [|by eauto using outbound_inv_step].
  destruct Hi as (He & Ho & Hd). split.
  - intros Hdone cx open start. destruct (outbound_poll t _ _ cx open start He (Ho Hdone)) as (p & c' & o' & Hp & _).
    by exists p, c', o'.
  - intros x Hx. destruct (Hd x Hx) as ([] & Ho1 & Ho2 & ?). repeat split; auto. destruct (x_state x); naive_solver.
Qed.

(** A task that waits for a datagram stays on the list when the connection
    goes down: no event wakes it, though a poll would tell it that the
    connection is lost. *)
Lemma datagram_receiver_not_woken : ∃ r,
  rtc conn_step (mkConnRun (connection_from_raw true) [] []) r ∧
  c_state (cr_conn r) = CShutdownComplete ∧ 7%nat ∈ c_recv_waiters (cr_conn r) ∧
  conn_op (cr_conn r) 7 OpReceiveDatagram = Ok (ALost (ShutdownByPeer 1), cr_conn r).
Proof.
  exists (mkConnRun (cset_recv_waiters [7%nat] (cset_error (Some (ShutdownByPeer 1))
    (cset_state CShutdownComplete (connection_from_raw true)))) [] []).
  split; [|split; [|split]].
  - eapply rtc_l; [by eapply (step_op _ _ _ 7 OpReceiveDatagram)|].
    eapply rtc_l; [by eapply (step_conn_event _ _ _ (CvShutdownInitiatedByPeer 1))|].
    eapply rtc_l; [by eapply (step_conn_event _ _ _ CvShutdownComplete)|]. apply rtc_refl.
  - reflexivity.
  - by apply list_elem_of_singleton.
  - reflexivity.
Qed.
End runs.

(** ** A run *)
Definition served_conn : ConnectionInner :=
  cset_inbound_streams [6] (cset_state CConnected (connection_from_raw false)).
Lemma served_run : rtc conn_step (mkConnRun (connection_from_raw false) [] [])
  (mkConnRun served_conn [HandStream 5; HandStream 6] [HandStream 5]).
Proof.
  eapply rtc_l; [by eapply (step_op _ _ _ 3 OpAcceptStream)|].
  eapply rtc_l; [by eapply (step_conn_event _ _ _ (CvPeerStreamStarted 5 false))|].
  eapply rtc_l; [by eapply (step_conn_event _ _ _ (CvConnected []))|].
  eapply rtc_l; [by eapply (step_conn_event _ _ _ (CvPeerStreamStarted 6 false))|].
  eapply rtc_l; [by eapply (step_op _ _ _ 3 OpAcceptStream)|]. apply rtc_refl.
Qed.

Lemma inbound_in_order_witness : [5; 6] = [5] ++ c_inbound_streams served_conn.
Proof.
  exact (proj1 (inbound_in_order (connection_from_raw false) (mkConnRun served_conn _ _)
    (or_intror (ex_intro _ false eq_refl)) served_run)).
Defined.
(** A task that waits for a unidirectional stream is woken by the first one. *)
Definition waiting_conn : ConnectionInner :=
  match conn_op served_conn 9 OpAcceptUniStream with Ok (_, c) => c | _ => served_conn end.
Lemma waiting_run : rtc conn_step (mkConnRun (connection_from_raw false) [] [])
  (mkConnRun waiting_conn [HandStream 5; HandStream 6] [HandStream 5]).
Proof.
  eapply rtc_r; [exact served_run|].
  exact (step_op served_conn _ [HandStream 5] 9 OpAcceptUniStream AWait waiting_conn eq_refl).
Qed.
Lemma connection_no_lost_wakeup_witness : nothing_missed waiting_conn ∧
  conn_waiters waiting_conn = [9%nat] ∧
  ∃ woken c' s, conn_callback_handler_impl waiting_conn (CvPeerStreamStarted 8 true) = Ok (woken, c', s) ∧
    woken = [9%nat] ∧ conn_waiters waiting_conn ≡ₚ woken ++ conn_waiters c'.
Proof.
  destruct (connection_no_lost_wakeup (connection_from_raw false) (mkConnRun waiting_conn _ _)
    (or_intror (ex_intro _ false eq_refl)) waiting_run) as (Hn & _ & Hev & _).
  split_and!; [exact Hn|reflexivity|]. do 3 eexists. split_and!; [reflexivity|reflexivity|].
  exact (Hev (CvPeerStreamStarted 8 true) _ _ _ eq_refl).
Defined.

(** A stream opened on a connection that is up, accepted by the peer. *)
Definition open_conn : ConnectionInner := connection_from_raw true.
Definition opened_stream : StreamInner :=
  after (push_start_waiter 2 (set_states SStart RStart WStart (stream_open Bidirectional)))
    (EvStartComplete StatusOk 4 true).
Lemma outbound_stream_opens_witness :
  x_type opened_stream = Bidirectional ∧ x_local_open opened_stream = true ∧
  (x_state opened_stream = SStartComplete ∨ x_state opened_stream = SShutdownComplete) ∧
  (x_start_status opened_stream = None ∨ x_start_status opened_stream = Some StatusOk).
Proof.
  refine (proj2 (outbound_stream_opens open_conn Bidirectional
    (mkOutbound open_conn (mkOpenOutbound _ None None) (Some (inl opened_stream))) _ _) opened_stream eq_refl).
  - intros [|]; done.
  - eapply rtc_l; [by eapply (step_ob_poll _ _ 2 StatusOk StatusOk)|].
    eapply rtc_l; [by eapply (step_ob_event _ _ _ _ (EvStartComplete StatusOk 4 true))|].
    eapply rtc_l; [by eapply (step_ob_poll _ _ 2 StatusOk StatusOk)|]. apply rtc_refl.
Defined.
