(* ===== verification/QuicListener.v ===== *)
(** * QUIC listeners (transport-layer/src/msquic/msquic_async/listener.rs)

    A listener is a state machine under a lock: [start] and the polls of
    tasks on one side, the events of msquic on the other.  The connections of
    peers wait in a queue until a task accepts them; they have their callbacks
    already, so that their own events change them there. *)
From S2P Require Import Prelude RangeSet RecvBuffer QuicStream QuicConn ConnRuns.
Open Scope N_scope.

(** ** Data *)
Inductive ListenerState : Type := LOpen | LStartComplete | LShutdown | LShutdownComplete.
Inductive ListenError : Type :=
  | ListenNotStarted | AlreadyStarted | ListenFinished | ListenFailed | ListenOtherError (s : Status).
(** [ListenerInnerExclusive] *)
Record ListenerInner : Type := mkListener {
  l_state : ListenerState;
  l_new_connections : list (N * ConnectionInner);
  l_new_connection_waiters : list nat;
  l_shutdown_complete_waiters : list nat;
}.
Definition listener_new : ListenerInner := mkListener LOpen [] [] [].

(** ** Operations *)
(** [start] is the answer of msquic to the call of [start]. *)
Definition listener_start (l : ListenerInner) (start : Status) : (unit + ListenError) * ListenerInner :=
  match l_state l with
  | LOpen | LShutdownComplete =>
      if status_is_ok start
      then (inl (), mkListener LStartComplete (l_new_connections l) (l_new_connection_waiters l)
                      (l_shutdown_complete_waiters l))
      else (inr (ListenOtherError start), l)
  | LStartComplete | LShutdown => (inr AlreadyStarted, l)
  end.
Definition listener_poll_accept (l : ListenerInner) (cx : nat)
    : poll (N * ConnectionInner + ListenError) * ListenerInner :=
  match l_new_connections l with
  | connection :: rest =>
      (Ready (inl connection),
       mkListener (l_state l) rest (l_new_connection_waiters l) (l_shutdown_complete_waiters l))
  | [] =>
      match l_state l with
      | LOpen => (Ready (inr ListenNotStarted), l)
      | LShutdownComplete => (Ready (inr ListenFinished), l)
      | LStartComplete | LShutdown =>
          (Pending, mkListener (l_state l) [] (l_new_connection_waiters l ++ [cx]) (l_shutdown_complete_waiters l))
      end
  end.
(** The third result tells whether msquic is told to stop. *)
Definition listener_poll_stop (l : ListenerInner) (cx : nat)
    : poll (unit + ListenError) * ListenerInner * bool :=
  match l_state l with
  | LOpen => (Ready (inr ListenNotStarted), l, false)
  | LShutdownComplete => (Ready (inl ()), l, false)
  | LStartComplete | LShutdown =>
      (Pending,
       mkListener LShutdown (l_new_connections l) (l_new_connection_waiters l)
         (l_shutdown_complete_waiters l ++ [cx]),
       match l_state l with LStartComplete => true | _ => false end)
  end.
(** [configured] is the answer of msquic to [set_configuration]; the handle
    [connection] is wrapped by [Connection::from_raw]. *)
Definition handle_event_new_connection (l : ListenerInner) (connection : N) (configured : Status)
    : (unit + Status) * list nat * ListenerInner :=
  if status_is_ok configured then
    (inl (), l_new_connection_waiters l,
     mkListener (l_state l) (l_new_connections l ++ [(connection, connection_from_raw false)]) []
       (l_shutdown_complete_waiters l))
  else (inr configured, [], l).
Definition handle_event_stop_complete (l : ListenerInner) : list nat * ListenerInner :=
  (l_new_connection_waiters l ++ l_shutdown_complete_waiters l,
   mkListener LShutdownComplete (l_new_connections l) [] []).

(** [Connection::from_raw] installs the callback of the connection: an event
    of the [i]-th connection in the queue.  Nobody else has it there. *)
Definition conn_event `{RangeSets} (c : ConnectionInner) (ev : ConnectionEvent) : ConnectionInner :=
  match conn_callback_handler_impl c ev with Ok (_, c, _) => c | _ => c end.
Definition queued_event `{RangeSets} (l : ListenerInner) (i : nat) (ev : ConnectionEvent) : ListenerInner :=
  mkListener (l_state l) (alter (λ p, (p.1, conn_event p.2 ev)) i (l_new_connections l))
    (l_new_connection_waiters l) (l_shutdown_complete_waiters l).

(** ** Runs *)
Section runs.
Context `{RS : RangeSets}.
(** A listener with the connections that arrived, each with its events before
    it was accepted, and those that were accepted, as they were then; and how
    often msquic was told to start and to stop, and said that it stopped. *)
Record ListenerRun : Type := mkListenerRun {
  lr_listener : ListenerInner;
  lr_arrived : list (N * list ConnectionEvent);
  lr_accepted : list (N * ConnectionInner);
  lr_starts : nat;
  lr_stops : nat;
  lr_stopped : nat;
}.
Definition accepted_by (p : poll (N * ConnectionInner + ListenError)) : list (N * ConnectionInner) :=
  match p with Ready (inl c) => [c] | _ => [] end.
Definition count (b : bool) : nat := if b then 1 else 0.
Inductive listener_step : ListenerRun → ListenerRun → Prop :=
  | step_listen l a d ups stops downs start r l' :
      listener_start l start = (r, l') →
      listener_step (mkListenerRun l a d ups stops downs)
        (mkListenerRun l' a d (ups + match r with inl _ => 1 | inr _ => 0 end) stops downs)
  | step_accept l a d ups stops downs cx p l' :
      listener_poll_accept l cx = (p, l') →
      listener_step (mkListenerRun l a d ups stops downs) (mkListenerRun l' a (d ++ accepted_by p) ups stops downs)
  | step_stop l a d ups stops downs cx p l' b :
      listener_poll_stop l cx = (p, l', b) →
      listener_step (mkListenerRun l a d ups stops downs) (mkListenerRun l' a d ups (stops + count b) downs)
  | step_new_connection l a d ups stops downs connection configured r woken l' :
      handle_event_new_connection l connection configured = (r, woken, l') →
      listener_step (mkListenerRun l a d ups stops downs)
        (mkListenerRun l' (a ++ match r with inl _ => [(connection, [])] | inr _ => [] end) d ups stops downs)
  | step_queued_event l a d ups stops downs i ev :
      (i < length (l_new_connections l))%nat →
      listener_step (mkListenerRun l a d ups stops downs)
        (mkListenerRun (queued_event l i ev) (alter (λ p, (p.1, p.2 ++ [ev])) (length d + i)%nat a) d ups stops downs)
  | step_stop_complete l a d ups stops downs woken l' :
      l_state l = LStartComplete ∨ l_state l = LShutdown →
      handle_event_stop_complete l = (woken, l') →
      listener_step (mkListenerRun l a d ups stops downs) (mkListenerRun l' a d ups stops (S downs)).
Definition listener_run : ListenerRun → Prop := rtc listener_step (mkListenerRun listener_new [] [] 0 0 0).

(** The state that its events bring a new connection to. *)
Definition after_events (evs : list ConnectionEvent) : ConnectionInner :=
  foldl conn_event (connection_from_raw false) evs.
Definition with_state (p : N * list ConnectionEvent) : N * ConnectionInner := (p.1, after_events p.2).
Lemma after_events_snoc evs ev : after_events (evs ++ [ev]) = conn_event (after_events evs) ev.
Proof. unfold after_events. by rewrite foldl_app. Qed.
Lemma after_events_run evs :
  rtc conn_step (mkConnRun (connection_from_raw false) [] []) (mkConnRun (after_events evs) (evs ≫= arrival) []).
Proof.
  induction evs as [|ev evs IH] using rev_ind; [apply rtc_refl|]. eapply rtc_r; [exact IH|].
  rewrite after_events_snoc, bind_app. simpl. rewrite app_nil_r.
  destruct (conn_event_total (after_events evs) ev) as (woken & c' & s & E).
  unfold conn_event. rewrite E. by eapply step_conn_event.
Qed.
(** Nobody waits on a connection that nobody has. *)
Lemma after_events_waiters evs : conn_waiters (after_events evs) = [].
Proof.
  induction evs as [|ev evs IH] using rev_ind; [done|]. rewrite after_events_snoc.
  unfold conn_event. destruct (conn_callback_handler_impl _ ev) as [[[woken c'] s]| | |] eqn:E; [|done..].
  destruct (conn_event_waiters _ _ _ _ _ E) as [Hp _]. rewrite IH in Hp. apply Permutation_nil_l in Hp.
  by symmetry in Hp; apply app_nil in Hp as [_ ?].
Qed.
Lemma after_events_started evs : c_state (after_events evs) ≠ COpen.
Proof.
  induction evs as [|ev evs IH] using rev_ind; [done|]. rewrite after_events_snoc.
  unfold conn_event. destruct (after_events evs) as [st err]. simpl in IH.
  by destruct ev as [|? ?|?| |? []| | |?|? []|[]], err.
Qed.

Definition running (st : ListenerState) : bool :=
  match st with LStartComplete | LShutdown => true | _ => false end.
Record listener_inv (r : ListenerRun) : Prop := {
  li_order : with_state <$> lr_arrived r = lr_accepted r ++ l_new_connections (lr_listener r);
  li_accepters : l_new_connection_waiters (lr_listener r) ≠ [] →
    running (l_state (lr_listener r)) = true ∧ l_new_connections (lr_listener r) = [];
  li_stoppers : l_shutdown_complete_waiters (lr_listener r) ≠ [] → l_state (lr_listener r) = LShutdown;
  li_rounds : (lr_starts r = lr_stopped r + count (running (l_state (lr_listener r))))%nat;
  li_stops : (lr_stops r ≤ lr_stopped r + count (match l_state (lr_listener r) with LShutdown => true | _ => false end))%nat;
}.
Lemma listener_inv_step r r' : listener_inv r → listener_step r r' → listener_inv r'.
Proof.
  intros [Ho Ha Hs Hr Hp] Hstep.
  destruct Hstep as [l a d ups stops downs start r l' Hl|l a d ups stops downs cx p l' Hl
    |l a d ups stops downs cx p l' b Hl|l a d ups stops downs connection configured r woken l' Hl
    |l a d ups stops downs i ev Hi|l a d ups stops downs woken l' Hrun Hl]; destruct l as [st conns ws sws]; simpl in *.
  - unfold listener_start in Hl. simpl in Hl.
    destruct st, (status_is_ok start); injection Hl as <- <-; constructor; simpl in *; try done; try lia;
      intros Hne; try (by destruct (Ha Hne)); by specialize (Hs Hne).
  - unfold listener_poll_accept in Hl. simpl in Hl. destruct conns as [|c conns].
    + destruct st; injection Hl as <- <-; constructor; simpl in *; rewrite ?app_nil_r in *; done.
    + injection Hl as <- <-. constructor; simpl in *; try done; [by rewrite <-app_assoc|].
      intros Hne. by destruct (Ha Hne).
  - unfold listener_poll_stop in Hl. simpl in Hl.
    destruct st; injection Hl as <- <- <-; constructor; simpl in *; try done; try lia;
      intros Hne; by destruct (Ha Hne).
  - unfold handle_event_new_connection in Hl. simpl in Hl.
    destruct (status_is_ok configured); injection Hl as <- <- <-; constructor; simpl in *; rewrite ?app_nil_r; try done.
    by rewrite fmap_app, Ho, <-app_assoc.
  - constructor; simpl in *; try done; [|intros Hne; destruct (Ha Hne) as [_ ->]; simpl in Hi; lia].
    assert (∀ b : list (N * list ConnectionEvent), with_state <$> alter (λ p, (p.1, p.2 ++ [ev])) (length d + i)%nat b =
      alter (λ p, (p.1, conn_event p.2 ev)) (length d + i)%nat (with_state <$> b)) as Hfmap.
    { intros b. apply list_eq. intros j. destruct (decide (j = length d + i)%nat) as [->|Hj].
      - rewrite list_lookup_fmap, !list_lookup_alter_eq, list_lookup_fmap. destruct (b !! _) as [[c evs]|]; [|done].
        unfold with_state. simpl. by rewrite after_events_snoc.
      - rewrite list_lookup_fmap, !list_lookup_alter_ne by done. by rewrite list_lookup_fmap. }
    by rewrite Hfmap, Ho, alter_app_r.
  - unfold handle_event_stop_complete in Hl. simpl in Hl. injection Hl as <- <-.
    constructor; simpl; try done; destruct Hrun as [->| ->]; simpl in *; lia.
Qed.
Lemma listener_inv_run r : listener_run r → listener_inv r.
Proof.
  unfold listener_run. intros Hr. assert (listener_inv (mkListenerRun listener_new [] [] 0 0 0)) as Hi.
  { by constructor; simpl. }
  remember (mkListenerRun listener_new [] [] 0 0 0) as r0. clear Heqr0. induction Hr; eauto using listener_inv_step.
Qed.

(** C29: A listener hands out every connection that arrived, once and in the
    order of arrival, whenever it was stopped meanwhile, in the state that its
    own events brought it to since it arrived: what arrived is what was
    accepted followed by the queue.  An accept answers the first of the queue
    in every state; with an empty queue it waits exactly while the listener
    runs, and says whether it was never started or is finished otherwise.  A
    connection that is handed out has been started, nobody waits on it, what
    the peer sent on it meanwhile is in its queues, and if it went down in the
    queue it carries the error for it. *)
Theorem listener_accepts_in_order r : listener_run r →
  with_state <$> lr_arrived r = lr_accepted r ++ l_new_connections (lr_listener r) ∧
  (∀ cx, (listener_poll_accept (lr_listener r) cx).1 =
    match l_new_connections (lr_listener r), l_state (lr_listener r) with
    | c :: _, _ => Ready (inl c)
    | [], LOpen => Ready (inr ListenNotStarted)
    | [], LShutdownComplete => Ready (inr ListenFinished)
    | [], _ => Pending
    end) ∧
  ∀ c evs ci, (c, evs) ∈ lr_arrived r → ci = after_events evs →
    c_state ci ≠ COpen ∧ conn_waiters ci = [] ∧
    c_inbound_streams ci = omap is_stream (evs ≫= arrival) ∧
    c_inbound_uni_streams ci = omap is_uni_stream (evs ≫= arrival) ∧
    c_recv_buffers ci = omap is_datagram (evs ≫= arrival) ∧
    (down ci → c_error ci ≠ None).
Proof.
  intros Hr. destruct (listener_inv_run r Hr) as [Ho _ _ _ _]. split; [done|]. split.
  - intros cx. destruct r as [[st conns ws sws] arr acc ups stops downs]. unfold listener_poll_accept. simpl in *.
    destruct conns as [|c conns]; [by destruct st|done].
  - intros c evs ci _ ->. split; [apply after_events_started|]. split; [apply after_events_waiters|].
    destruct (conn_inv_run _ _ (or_intror (ex_intro _ false eq_refl)) (after_events_run evs)) as [He Hs Hu Hd].
    by split_and!.
Qed.

(** Msquic is told to stop at most once for every successful start, and
    never for a listener that does not run: the starts are the stops that
    completed and the round under way, and msquic has been told to stop only
    in the rounds that completed or, once the state says so, in this one.  A
    stop is reported as done only when the last round has completed. *)
Theorem listener_stops_once r : listener_run r →
  lr_starts r = (lr_stopped r + count (running (l_state (lr_listener r))))%nat ∧
  (lr_stops r ≤ lr_stopped r + count (match l_state (lr_listener r) with LShutdown => true | _ => false end))%nat ∧
  ∀ cx, (listener_poll_stop (lr_listener r) cx).1.1 = Ready (inl ()) →
    lr_starts r = lr_stopped r ∧ (lr_stops r ≤ lr_starts r)%nat.
Proof.
  intros Hr. destruct (listener_inv_run r Hr) as [_ _ _ Hups Hst]. split; [done|]. split; [done|].
  intros cx. unfold listener_poll_stop. destruct (l_state (lr_listener r)); simpl in *; try done. lia.
Qed.

(** No task that waits on a listener is forgotten: tasks wait for a
    connection only while the listener runs and none is queued, and for the
    stop only while it is under way; the event that ends the round wakes all
    of them, a new connection all that accept, and a poll that answers
    [Pending] registers its task. *)
Theorem listener_no_lost_wakeup r l : listener_run r → l = lr_listener r →
  (l_new_connection_waiters l ≠ [] → running (l_state l) = true ∧ l_new_connections l = []) ∧
  (l_shutdown_complete_waiters l ≠ [] → l_state l = LShutdown) ∧
  (∀ cx l', listener_poll_accept l cx = (Pending, l') → cx ∈ l_new_connection_waiters l') ∧
  (∀ cx l' b, listener_poll_stop l cx = (Pending, l', b) → cx ∈ l_shutdown_complete_waiters l') ∧
  (∀ c woken l', handle_event_new_connection l c StatusOk = (inl (), woken, l') →
     woken = l_new_connection_waiters l) ∧
  (handle_event_stop_complete l).1 = l_new_connection_waiters l ++ l_shutdown_complete_waiters l.
Proof.
  intros Hr ->. destruct (listener_inv_run r Hr) as [_ Ha Hs _ _]. do 2 (split; [done|]).
  destruct (lr_listener r) as [st conns ws sws]. split; [|split; [|split]]; [| | |done].
  - unfold listener_poll_accept. simpl. intros cx l' Hp. destruct conns; [|done].
    destruct st; try done; injection Hp as <-; simpl; apply elem_of_app; right; by apply list_elem_of_singleton.
  - unfold listener_poll_stop. simpl. intros cx l' b Hp.
    destruct st; try done; injection Hp as <- _; simpl; apply elem_of_app; right; by apply list_elem_of_singleton.
  - intros c woken l'. unfold handle_event_new_connection. simpl. by intros [= <- _].
Qed.

(** ** A run: two connections arrive, the second comes up and gets a stream,
    the listener stops, and the first is accepted. *)
Definition second_connection : ConnectionInner := after_events [CvConnected []; CvPeerStreamStarted 4 false].
Definition stopped_listener : ListenerInner := mkListener LShutdownComplete [(8, second_connection)] [] [].
Definition stopped_run : ListenerRun :=
  mkListenerRun stopped_listener [(7, []); (8, [CvConnected []; CvPeerStreamStarted 4 false])]
    [(7, connection_from_raw false)] 1 1 1.
Lemma stopped_run_reachable : listener_run stopped_run.
Proof.
  unfold listener_run.
  eapply rtc_l; [by eapply (step_listen _ _ _ _ _ _ StatusOk)|].
  eapply rtc_l; [by eapply (step_accept _ _ _ _ _ _ 1)|].
  eapply rtc_l; [by eapply (step_new_connection _ _ _ _ _ _ 7 StatusOk)|].
  eapply rtc_l; [by eapply (step_new_connection _ _ _ _ _ _ 8 StatusOk)|].
  eapply rtc_l; [apply (step_queued_event _ _ _ _ _ _ 1 (CvConnected [])); simpl; lia|].
  eapply rtc_l; [apply (step_queued_event _ _ _ _ _ _ 1 (CvPeerStreamStarted 4 false)); simpl; lia|].
  eapply rtc_l; [by eapply (step_stop _ _ _ _ _ _ 2)|].
  eapply rtc_l; [eapply step_stop_complete; [by right|reflexivity]|].
  eapply rtc_l; [by eapply (step_accept _ _ _ _ _ _ 1)|]. apply rtc_refl.
Qed.
End runs.
Lemma listener_accepts_in_order_witness :
  (listener_poll_accept stopped_listener 1).1 = Ready (inl (8, second_connection)) ∧
  c_state second_connection = CConnected ∧ c_inbound_streams second_connection = [4].
Proof.
  destruct (listener_accepts_in_order stopped_run stopped_run_reachable) as (_ & Ha & Hc). split; [exact (Ha 1%nat)|].
  split; [reflexivity|].
  exact (proj1 (proj2 (proj2 (Hc 8 [CvConnected []; CvPeerStreamStarted 4 false] second_connection ltac:(right; left) eq_refl)))).
Defined.
Lemma listener_stops_once_witness : 1%nat = 1%nat ∧ (1 ≤ 1)%nat.
Proof. exact (proj2 (proj2 (listener_stops_once stopped_run stopped_run_reachable)) 1%nat eq_refl). Defined.
Lemma listener_no_lost_wakeup_witness :
  l_shutdown_complete_waiters stopped_listener ≠ [] → l_state stopped_listener = LShutdown.
Proof. exact (proj1 (proj2 (listener_no_lost_wakeup stopped_run _ stopped_run_reachable eq_refl))). Defined.
