(* ===== verification/Pkcs12.v ===== *)
(** * The PKCS#12 container of the credentials (transport-layer/src/msquic/pkcs12.rs)

    The key derivation of RFC 7292 (appendix B) as the code computes it, byte
    by byte, with the reference it is equal to; the strings of passwords; the
    data of a container, how it is written and how it is built.  SHA-1, HMAC,
    the two ciphers, the source of random bytes and the DER writer (yasna) are
    interfaces. *)
From S2P Require Import Prelude Serialize.
Open Scope N_scope.

(** ** Key derivation *)
(** [iter().cycle().take(n)]: [cur] is what is left of this turn. *)
Fixpoint cycle_take {A} (l cur : list A) (n : nat) : list A :=
  match n with
  | O => []
  | S n =>
      match cur with
      | x :: cur => x :: cycle_take l cur n
      | [] => match l with [] => [] | x :: cur => x :: cycle_take l cur n end
      end
  end.
Definition V : N := 512 / 8.
Definition U : N := 160 / 8.
Definition div_ceil (a b : N) : N := if a mod b =? 0 then a / b else a / b + 1.
Definition get_len (s : N) : N := V * div_ceil s V.
(** The addition of [B] and 1 to the blocks of [I], from the last byte to
    the first: [i3] counts the bytes, the carry restarts with every block. *)
Fixpoint add_blocks (i3 : N) (inc : N) (i_b : list (byte * byte)) : bytes :=
  match i_b with
  | [] => []
  | (ii, bi) :: i_b =>
      let inc := if i3 mod V =? 0 then 1 else inc in
      let ii2 := (N_of_ascii ii + N_of_ascii bi) mod 256 in
      let inc2 := 256 <=? N_of_ascii ii + N_of_ascii bi in
      let ii3 := (ii2 + inc) mod 256 in
      let inc3 := 256 <=? ii2 + inc in
      u8 ii3 :: add_blocks (i3 + 1) (if inc2 || inc3 then 1 else 0) i_b
  end.
(** One round of the loop on [i]: the bytes that the iterator of [b] does not
    reach stay. *)
Definition next_i (i ai : bytes) : bytes :=
  let b := cycle_take ai ai (N.to_nat V) in
  let b_iter := cycle_take (rev b) (rev b) (length i) in
  rev (add_blocks 0 1 (zip (rev i) b_iter) ++ drop (length b_iter) (rev i)).

(** [sha1]: the digest is a parameter of the whole development of this file. *)
Class Sha1 : Type := sha1 : bytes → bytes.
Class Sha1Ok `{Sha1} : Prop := sha1_length x : length (sha1 x) = N.to_nat U.

Section kdf.
Context `{Sha1}.
(** The first result is [ai], the second [a] with [ai] appended. *)
Definition pbepkcs12sha1core (d i a : bytes) (iterations : N) : bytes * bytes :=
  let ai := N.iter iterations sha1 (d ++ i) in (ai, a ++ ai).
Fixpoint pbe_loop (n : nat) (d i a : bytes) (iterations : N) : bytes * bytes :=
  match n with
  | O => (i, a)
  | S n =>
      let '(ai, a) := pbepkcs12sha1core d i a iterations in
      pbe_loop n d (next_i i ai) a iterations
  end.
Definition pbepkcs12sha1 (pass salt : bytes) (iterations : N) (id : byte) (size : N) : bytes :=
  let d := replicate (N.to_nat V) id in
  let s := cycle_take salt salt (N.to_nat (get_len (blen salt))) in
  let p := cycle_take pass pass (N.to_nat (get_len (blen pass))) in
  let c := div_ceil size U in
  let '(i, a) := pbe_loop (N.to_nat c - 1) d (s ++ p) [] iterations in
  take (N.to_nat size) (pbepkcs12sha1core d i a iterations).2.

(** The derivation as RFC 7292, B.2, states it: the blocks of [I] are
    64-byte integers, most significant byte first. *)
Definition copies (n : nat) (l : bytes) : bytes := take n (concat (replicate n l)).
Fixpoint blocks (n : nat) (l : bytes) : list bytes :=
  match n with O => [] | S n => take 64 l :: blocks n (drop 64 l) end.
Definition rfc_blocks (l : bytes) : list bytes :=
  let n := N.to_nat (div_ceil (blen l) 64) in blocks n (copies (64 * n) l).
Definition rfc_next (I : list bytes) (A : bytes) : list bytes :=
  let B := from_be_bytes (copies 64 A) in
  (λ I_j, to_be_bytes 64 ((from_be_bytes I_j + B + 1) mod 2 ^ 512)) <$> I.
Fixpoint rfc_A (c : nat) (D : bytes) (I : list bytes) (r : N) : bytes :=
  match c with
  | O => []
  | S c => let A := N.iter r sha1 (D ++ concat I) in A ++ rfc_A c D (rfc_next I A) r
  end.
Definition rfc_kdf (pass salt : bytes) (r : N) (id : byte) (n : N) : bytes :=
  take (N.to_nat n) (rfc_A (N.to_nat (div_ceil n 20)) (replicate 64 id) (rfc_blocks salt ++ rfc_blocks pass) r).
End kdf.

(** *** Cycles *)
Lemma cycle_take_copies {A} (l cur : list A) n m : l ≠ [] → (n ≤ m)%nat →
  cycle_take l cur n = take n (cur ++ concat (replicate m l)).
Proof.
  intros Hl. revert cur m. induction n as [|n IH]; intros cur m Hm; [done|]. destruct cur as [|x cur]; simpl.
  - destruct l as [|x l]; [done|]. destruct m as [|m]; [lia|]. simpl. rewrite (IH _ m) by lia. done.
  - by rewrite (IH _ m) by lia.
Qed.
Lemma cycle_take_nil {A} n : cycle_take (@nil A) [] n = [].
Proof. by destruct n. Qed.
Lemma length_copies_ge {A} (l : list A) n : l ≠ [] → (n ≤ length (concat (replicate n l)))%nat.
Proof. intros Hl. destruct l; [done|]. induction n; simpl; [lia|]. rewrite length_app. lia. Qed.
Lemma cycle_take_eq (l : bytes) n : cycle_take l l n = copies n l.
Proof.
  destruct (decide (l = [])) as [->|Hne].
  { rewrite cycle_take_nil. unfold copies.
    assert (concat (replicate n (@nil byte)) = []) as -> by (by induction n). by rewrite take_nil. }
  destruct n as [|n]; [done|].
  rewrite (cycle_take_copies l l _ (S n)) by (done || lia). unfold copies. simpl.
  set (m := concat (replicate n l)).
  assert (l ++ m = m ++ l) as Hc.
  { unfold m. clear. induction n as [|n IH]; simpl; [by rewrite app_nil_r|]. by rewrite <-app_assoc, <-IH. }
  rewrite Hc, app_assoc, <-Hc. rewrite take_app_le; [done|].
  rewrite length_app. unfold m. specialize (length_copies_ge l n Hne). destruct l; [done|]. simpl. lia.
Qed.
Lemma length_copies (l : bytes) n : l ≠ [] → length (copies n l) = n.
Proof. intros Hl. unfold copies. rewrite length_take. specialize (length_copies_ge l n Hl). lia. Qed.
Lemma copies_concat (l : bytes) n m : l ≠ [] → length l = m → copies (n * m) l = concat (replicate n l).
Proof.
  intros Hl <-. unfold copies.
  assert (∀ k, length (concat (replicate k l)) = k * length l)%nat as Hlen.
  { induction k; simpl; [done|]. rewrite length_app. lia. }
  assert (n ≤ n * length l)%nat as Hn by (destruct l; [done|]; simpl; nia).
  rewrite <-(Nat.sub_add _ _ Hn) at 2. rewrite Nat.add_comm.
  rewrite replicate_add, concat_app, take_app_le by (rewrite Hlen; lia).
  apply take_ge. rewrite Hlen. lia.
Qed.

(** *** One block *)
Notation le_val := from_le_bytes.
Lemma u8_mod n : N_of_ascii (u8 (n mod 256)) = n mod 256.
Proof. apply u8_N. unfold fits. change (2 ^ 8) with 256. by apply N.mod_lt. Qed.
Lemma carry_byte s inc : s ≤ 510 → inc ≤ 1 →
  (s mod 256 + inc) mod 256 + 256 * (if (256 <=? s) || (256 <=? s mod 256 + inc) then 1 else 0) = s + inc.
Proof.
  intros Hs Hinc. assert (∀ n, n < 512 → n mod 256 = if 256 <=? n then n - 256 else n) as Hmod.
  { intros n Hn. destruct (256 <=? n) eqn:E; [|apply N.mod_small; lia].
    replace n with (n - 256 + 1 * 256) at 1 by lia. rewrite N.Div0.mod_add. apply N.mod_small. lia. }
  rewrite (Hmod s) by lia. destruct (256 <=? s) eqn:E1; rewrite Hmod by lia; simpl;
    [|destruct (256 <=? s + inc) eqn:E2; lia].
  destruct (256 <=? s - 256 + inc) eqn:E2; lia.
Qed.
(** Inside a block the carry goes from byte to byte. *)
Lemma add_blocks_carry i3 inc i_b rest : inc ≤ 1 →
  (∀ k, (k < length i_b)%nat → (i3 + N.of_nat k) mod V = 0 → k = 0%nat ∧ inc = 1) →
  ∃ carry out, carry ≤ 1 ∧ length out = length i_b ∧
    add_blocks i3 inc (i_b ++ rest) = out ++ add_blocks (i3 + blen i_b) carry rest ∧
    le_val out + 2 ^ (8 * blen i_b) * carry = le_val i_b.*1 + le_val i_b.*2 + inc.
Proof.
  revert i3 inc. induction i_b as [|[x y] i_b IH]; intros i3 inc Hinc Hk.
  - exists inc, []. simpl. rewrite blen_nil, N.add_0_r. split_and!; try done. lia.
  - simpl. specialize (Hk 0%nat ltac:(simpl; lia)) as H0. rewrite N.add_0_r in H0.
    replace (if i3 mod V =? 0 then 1 else inc) with inc by (destruct (N.eqb_spec (i3 mod V) 0); naive_solver).
    clear H0.
    set (s := N_of_ascii x + N_of_ascii y).
    set (inc' := if (256 <=? s) || (256 <=? s mod 256 + inc) then 1 else 0).
    destruct (IH (i3 + 1) inc') as (carry & out & Hc & Hl & He & Hv).
    { unfold inc'. by destruct (_ || _). }
    { intros k Hlt Hm. destruct (Hk (S k) ltac:(simpl; lia)); [|done].
      by replace (i3 + N.of_nat (S k)) with (i3 + 1 + N.of_nat k) by lia. }
    exists carry, (u8 ((s mod 256 + inc) mod 256) :: out). split_and!; [done|simpl; lia| |].
    { simpl. rewrite He. do 2 f_equal. f_equal. rewrite blen_cons. lia. }
    csimpl. rewrite u8_mod, blen_cons, N.mul_add_distr_l, N.pow_add_r, (N.mul_1_r 8).
    change (2 ^ 8) with 256.
    specialize (byte_bound x) as Hx. specialize (byte_bound y) as Hy.
    change (N_of_ascii x < 256) in Hx. change (N_of_ascii y < 256) in Hy.
    assert ((s mod 256 + inc) mod 256 + 256 * inc' = s + inc) as Hs.
    { unfold inc'. apply carry_byte; unfold s; lia. }
    clearbody inc'. unfold s in *. clear - Hs Hv. nia.
Qed.
Lemma add_blocks_restart i3 inc i_b : i3 mod V = 0 → add_blocks i3 inc i_b = add_blocks i3 1 i_b.
Proof. intros Hm. destruct i_b as [|[x y] i_b]; [done|]. simpl. by rewrite Hm. Qed.
Lemma le_val_take_mod l v n : length l = n → le_val l + 2 ^ (8 * N.of_nat n) * v = le_val l + 2 ^ (8 * blen l) * v.
Proof. by intros <-. Qed.
#[local] Arguments to_le_bytes : simpl never.
#[local] Arguments N.pow : simpl never.
#[local] Arguments N.modulo : simpl never.
Lemma add_one_block j inc (a b : bytes) rest : length a = 64%nat → length b = 64%nat →
  add_blocks (64 * j) inc (zip a b ++ rest) =
    to_le_bytes 64 ((le_val a + le_val b + 1) mod 2 ^ 512) ++ add_blocks (64 * (j + 1)) 1 rest.
Proof.
  intros Ha Hb. rewrite add_blocks_restart by (by rewrite N.mul_comm, N.Div0.mod_mul).
  assert (length (zip a b) = 64%nat) as Hz by (rewrite length_zip; lia).
  destruct (add_blocks_carry (64 * j) 1 (zip a b) rest) as (carry & out & Hc & Hl & -> & Hv); [done| |].
  { intros k Hk Hm. split; [|done]. rewrite Hz in Hk. change V with 64 in Hm.
    rewrite N.mul_comm, N.add_comm, N.Div0.mod_add, N.mod_small in Hm by lia. lia. }
  unfold blen in *. rewrite Hz in *. replace (64 * j + N.of_nat 64) with (64 * (j + 1)) by lia.
  rewrite fst_zip, snd_zip in Hv by lia. change (8 * N.of_nat 64) with 512 in Hv.
  rewrite (add_blocks_restart _ carry) by (by rewrite N.mul_comm, N.Div0.mod_mul).
  f_equal. rewrite <-Hv. rewrite (N.mul_comm (2 ^ 512)), N.Div0.mod_add, N.mod_small.
  - replace 64%nat with (length out). by rewrite to_from_le_bytes.
  - specialize (from_le_bytes_bound out). rewrite Hl. done.
Qed.
(** All the blocks, in the order of the iterator. *)
Lemma add_all_blocks j (xs : list bytes) (b : bytes) : Forall (λ i, length i = 64%nat) xs → length b = 64%nat →
  add_blocks (64 * j) 1 (zip (concat xs) (concat (replicate (length xs) b))) =
    concat ((λ i, to_le_bytes 64 ((le_val i + le_val b + 1) mod 2 ^ 512)) <$> xs).
Proof.
  intros His Hb. revert j. induction His as [|i xs Hi His IH]; intros j; [done|].
  rewrite fmap_cons. cbn [length replicate concat].
  rewrite zip_with_app by lia. by rewrite add_one_block, IH.
Qed.
Lemma reverse_rev {A} (l : list A) : reverse l = rev l.
Proof. symmetry. apply rev_alt. Qed.
Lemma list_fmap_map_rev {A B} (f : A → B) l : f <$> rev l = rev (f <$> l).
Proof. apply map_rev. Qed.
Lemma rev_concat {A} (ls : list (list A)) : rev (concat ls) = concat (rev (@rev A <$> ls)).
Proof.
  induction ls as [|l ls IH]; [done|]. csimpl. rewrite rev_app_distr, IH. simpl.
  rewrite concat_app. simpl. by rewrite app_nil_r.
Qed.
(** A round of the code is a round of the reference. *)
Lemma next_i_rfc (I : list bytes) (A : bytes) : Forall (λ i, length i = 64%nat) I → A ≠ [] →
  next_i (concat I) A = concat (rfc_next I A).
Proof.
  intros HI HA. unfold next_i, rfc_next. change (N.to_nat V) with 64%nat. rewrite cycle_take_eq.
  set (b := copies 64 A). assert (length b = 64)%nat as Hb by (by apply length_copies).
  assert (length (concat I) = length I * 64)%nat as Hlen.
  { clear -HI. induction HI as [|i I Hi HI IH]; [done|]. simpl. rewrite length_app. lia. }
  rewrite cycle_take_eq, Hlen, (copies_concat (rev b)) by (rewrite ?length_rev; try done; by destruct (rev b) eqn:E; [apply (f_equal length) in E; rewrite length_rev in E; simpl in E; lia|]).
  assert (length (concat (replicate (length I) (rev b))) = length I * 64)%nat as Hlb.
  { clear -Hb. induction I; simpl; [done|]. rewrite length_app, length_rev. lia. }
  rewrite Hlb, drop_ge, app_nil_r by (rewrite length_rev; lia).
  rewrite rev_concat. replace (length I) with (length (rev (@rev byte <$> I))) by (by rewrite length_rev, length_fmap).
  rewrite (add_all_blocks 0).
  - rewrite rev_concat. f_equal. rewrite <-!list_fmap_map_rev, rev_involutive, <-!list_fmap_compose.
    apply list_fmap_ext. intros ? i Hi. cbn [compose]. unfold to_be_bytes, from_be_bytes. by rewrite !reverse_rev.
  - apply Forall_rev, Forall_fmap. eapply Forall_impl; [exact HI|]. intros i Hi. simpl. by rewrite length_rev.
  - by rewrite length_rev.
Qed.

Lemma length_to_be_bytes n v : length (to_be_bytes n v) = n.
Proof. unfold to_be_bytes. by rewrite length_reverse, length_to_le_bytes. Qed.
Lemma rfc_next_wf I A : Forall (λ i, length i = 64%nat) (rfc_next I A).
Proof. apply Forall_fmap, Forall_true. intros i. apply length_to_be_bytes. Qed.
Lemma blocks_spec n l : length l = (64 * n)%nat →
  concat (blocks n l) = l ∧ Forall (λ i, length i = 64%nat) (blocks n l).
Proof.
  revert l. induction n as [|n IH]; intros l Hl; [by destruct l|].
  destruct (IH (drop 64 l)) as [IH1 IH2]; [rewrite length_drop; lia|]. cbn [blocks concat]. split.
  - by rewrite IH1, take_drop.
  - constructor; [rewrite length_take; lia|done].
Qed.
Lemma get_len_blocks (l : bytes) : N.to_nat (get_len (blen l)) = (64 * N.to_nat (div_ceil (blen l) 64))%nat.
Proof. unfold get_len. change V with 64. lia. Qed.
Lemma rfc_blocks_spec (l : bytes) :
  concat (rfc_blocks l) = cycle_take l l (N.to_nat (get_len (blen l))) ∧
  Forall (λ i, length i = 64%nat) (rfc_blocks l).
Proof.
  rewrite cycle_take_eq, get_len_blocks. unfold rfc_blocks. apply blocks_spec.
  destruct (decide (l = [])) as [->|Hl]; [done|by apply length_copies].
Qed.

Section equivalence.
Context `{Sha1Ok}.
Lemma iter_sha1_nonempty r (x : bytes) : x ≠ [] → N.iter r sha1 x ≠ [].
Proof.
  intros Hx. destruct (N.eq_dec r 0) as [->|Hr]; [done|]. replace r with (N.succ (N.pred r)) by lia.
  rewrite N.iter_succ. intros Hn. apply (f_equal length) in Hn. by rewrite sha1_length in Hn.
Qed.
Lemma pbe_loop_rfc n (id : byte) I a r : Forall (λ i, length i = 64%nat) I →
  let '(i', a') := pbe_loop n (replicate 64 id) (concat I) a r in
  (pbepkcs12sha1core (replicate 64 id) i' a' r).2 = a ++ rfc_A (S n) (replicate 64 id) I r.
Proof.
  revert I a. induction n as [|n IH]; intros I a HI.
  - cbn [pbe_loop rfc_A pbepkcs12sha1core snd]. by rewrite app_nil_r.
  - cbn [pbe_loop]. unfold pbepkcs12sha1core at 1.
    rewrite next_i_rfc by (done || by apply iter_sha1_nonempty).
    specialize (IH (rfc_next I (N.iter r sha1 (replicate 64 id ++ concat I)))
      (a ++ N.iter r sha1 (replicate 64 id ++ concat I)) (rfc_next_wf _ _)).
    destruct (pbe_loop _ _ _ _ _) as [i' a']. rewrite IH, <-app_assoc. done.
Qed.
Lemma length_rfc_A n D I r : r ≠ 0 → length (rfc_A n D I r) = (20 * n)%nat.
Proof.
  intros Hr. revert I. induction n as [|n IH]; intros I; [done|]. cbn [rfc_A]. rewrite length_app, IH.
  replace r with (N.succ (N.pred r)) by lia. rewrite N.iter_succ, sha1_length. change (N.to_nat U) with 20%nat. lia.
Qed.

Lemma pbe_rfc pass salt iterations id size :
  pbepkcs12sha1 pass salt iterations id size = rfc_kdf pass salt iterations id size.
Proof.
  unfold pbepkcs12sha1, rfc_kdf. change (N.to_nat V) with 64%nat. change U with 20.
  destruct (rfc_blocks_spec salt) as [<- Hs]. destruct (rfc_blocks_spec pass) as [<- Hp].
  rewrite <-concat_app.
  specialize (pbe_loop_rfc (N.to_nat (div_ceil size 20) - 1) id (rfc_blocks salt ++ rfc_blocks pass) [] iterations
    (proj2 (Forall_app _ _ _) (conj Hs Hp))) as Hl.
  destruct (pbe_loop _ _ _ _ _) as [i' a']. rewrite Hl. cbn [app].
  destruct (N.to_nat (div_ceil size 20)) as [|c] eqn:Ec; [|by rewrite Nat.sub_succ, Nat.sub_0_r].
  assert (size = 0) as ->; [|done]. unfold div_ceil in Ec. destruct (N.eqb_spec (size mod 20) 0); [|lia].
  specialize (N.div_mod size 20). lia.
Qed.
Lemma pbe_length pass salt iterations id size : iterations ≠ 0 →
  blen (pbepkcs12sha1 pass salt iterations id size) = size.
Proof.
  intros Hr. rewrite pbe_rfc. unfold rfc_kdf. rewrite blen_take. unfold blen. rewrite length_rfc_A by done.
  assert (size ≤ 20 * div_ceil size 20); [|lia].
  unfold div_ceil. specialize (N.div_mod size 20). specialize (N.mod_lt size 20).
  destruct (N.eqb_spec (size mod 20) 0); lia.
Qed.

(** C24: The key derivation of the code, whose additions go byte by byte from
    the last byte with a carry, is the one of RFC 7292 (appendix B.2), where
    every 64-byte block of [I] is a number to which [B] and 1 are added modulo
    2^512; for every password, salt, number of iterations, purpose and size;
    and with at least one iteration the key has the length asked for. *)
Theorem pbepkcs12sha1_is_rfc7292 pass salt iterations id size :
  pbepkcs12sha1 pass salt iterations id size = rfc_kdf pass salt iterations id size ∧
  (iterations ≠ 0 → blen (pbepkcs12sha1 pass salt iterations id size) = size).
Proof. split; [apply pbe_rfc|apply pbe_length]. Qed.
End equivalence.

(** ** Passwords *)
(** [str::encode_utf16], of the Unicode scalar values of a string *)
Definition utf16_units (c : N) : list N :=
  if c <? 65536 then [c]
  else [55296 + (c - 65536) / 1024; 56320 + (c - 65536) mod 1024].
Definition encode_utf16 (s : list N) : list N := s ≫= utf16_units.
Definition bmp_string (s : list N) : bytes :=
  (encode_utf16 s ≫= λ c, [u8 (c / 256); u8 (c mod 256)]) ++ [u8 0; u8 0].
(** A Unicode scalar value. *)
Definition scalar (c : N) : bool := (c <? 55296) || (57344 <=? c) && (c <? 1114112).
(** Reading it back. *)
Fixpoint decode_units (l : bytes) : list N :=
  match l with hi :: lo :: l => N_of_ascii hi * 256 + N_of_ascii lo :: decode_units l | _ => [] end.
Fixpoint decode_utf16 (l : list N) : list N :=
  match l with
  | [] => []
  | c :: l =>
      if (55296 <=? c) && (c <? 56320) then
        match l with
        | d :: l => 65536 + (c - 55296) * 1024 + (d - 56320) :: decode_utf16 l
        | [] => []
        end
      else c :: decode_utf16 l
  end.
Definition read_bmp_string (l : bytes) : list N := decode_utf16 (removelast (decode_units l)).
Lemma decode_units_spec us rest : Forall (λ c, c < 65536) us →
  decode_units ((us ≫= λ c, [u8 (c / 256); u8 (c mod 256)]) ++ rest) = us ++ decode_units rest.
Proof.
  intros Hus. induction Hus as [|c us Hc Hus IH]; [done|]. csimpl. rewrite IH. f_equal.
  rewrite u8_mod, u8_N. { specialize (N.div_mod c 256). lia. }
  change (c / 256 < 256). by apply N.Div0.div_lt_upper_bound.
Qed.
Lemma scalar_units c : scalar c = true → Forall (λ u, u < 65536) (utf16_units c) ∧
  ∀ l, decode_utf16 (utf16_units c ++ l) = c :: decode_utf16 l.
Proof.
  unfold scalar, utf16_units. intros Hc. destruct (N.ltb_spec c 65536) as [Hlt|Hge].
  - split; [by repeat constructor|]. intros l. simpl. by replace ((55296 <=? c) && (c <? 56320)) with false by lia.
  - assert ((c - 65536) / 1024 < 1024) as Hd by (apply N.Div0.div_lt_upper_bound; lia).
    assert ((c - 65536) mod 1024 < 1024) as Hm by (by apply N.mod_lt).
    specialize (N.div_mod (c - 65536) 1024) as Hdm.
    split; [repeat constructor; lia|]. intros l. cbn [app decode_utf16].
    replace ((55296 <=? _) && (_ <? 56320)) with true by lia. f_equal. lia.
Qed.

(** The bytes of a password determine it: reading them as UTF-16, two
    bytes a unit, most significant first, up to the two closing zero bytes,
    gives the characters back; so two passwords never have the same bytes. *)
Theorem bmp_string_roundtrip s : Forall (λ c, scalar c = true) s →
  read_bmp_string (bmp_string s) = s ∧ ∀ s', Forall (λ c, scalar c = true) s' → bmp_string s = bmp_string s' → s = s'.
Proof.
  assert (∀ s, Forall (λ c, scalar c = true) s → read_bmp_string (bmp_string s) = s) as Hr.
  { clear s. intros s Hs. unfold read_bmp_string, bmp_string. rewrite decode_units_spec.
    - cbn [decode_units]. rewrite removelast_last. unfold encode_utf16.
      induction Hs as [|c s Hc Hs IH]; [done|]. csimpl. destruct (scalar_units c Hc) as [_ ->]. by rewrite IH.
    - unfold encode_utf16. induction Hs as [|c s Hc Hs IH]; [done|]. csimpl. apply Forall_app. split; [|done].
      by apply scalar_units. }
  intros Hs. split; [by apply Hr|]. intros s' Hs' Heq. by rewrite <-(Hr s), <-(Hr s'), Heq.
Qed.

(** ** Concrete inputs *)
(** A digest of the right length, and what it derives. *)
Definition digest_1 : Sha1 := λ x, to_be_bytes 20 (from_be_bytes x + 1).
Lemma digest_1_ok : @Sha1Ok digest_1.
Proof. intros x. apply length_to_be_bytes. Qed.
Lemma pbepkcs12sha1_is_rfc7292_witness :
  @pbepkcs12sha1 digest_1 [u8 1] [u8 2; u8 3] 2 (u8 1) 24 = @rfc_kdf digest_1 [u8 1] [u8 2; u8 3] 2 (u8 1) 24.
Proof. exact (proj1 (@pbepkcs12sha1_is_rfc7292 digest_1 digest_1_ok [u8 1] [u8 2; u8 3] 2 (u8 1) 24)). Defined.
Lemma bmp_string_roundtrip_witness :
  bmp_string [233; 128512] = u8 <$> [0; 233; 216; 61; 222; 0; 0; 0] ∧
  read_bmp_string (bmp_string [233; 128512]) = [233; 128512].
Proof.
  split; [reflexivity|].
  refine (proj1 (bmp_string_roundtrip [233; 128512] _)). by repeat constructor.
Defined.
