(* ===== verification/Pfx.v ===== *)
(** * Building a PKCS#12 container (transport-layer/src/msquic/pkcs12.rs, quic_settings.rs)

    The data of a container, how each part is written with the DER writer, and
    [Pfx::new], which encrypts the key and the certificates and computes the
    MAC.  The theorems read the container as RFC 7292 says it is read. *)
From S2P Require Import Prelude Serialize Pkcs12.
Open Scope N_scope.

(** ** Interfaces *)
(** The DER writer (yasna): what is written is the concatenation of complete
    values; [der_value] says which strings of bytes are one. *)
Class Der : Type := {
  write_sequence : list bytes → bytes;
  write_sequence_of : list bytes → bytes;
  write_set_of : list bytes → bytes;
  write_oid : list N → bytes;
  write_bytes : bytes → bytes;
  write_uint : N → bytes;
  write_null : bytes;
  write_bmp_string : list N → bytes;
  write_tagged : N → bytes → bytes;
  write_tagged_implicit : N → bytes → bytes;
  der_value : bytes → Prop;
}.
(** DER has one encoding for a value, and a value for an encoding: what is
    written determines the parts. *)
Class DerOk `{Der} : Prop := {
  der_value_oid o : der_value (write_oid o);
  der_value_bytes b : der_value (write_bytes b);
  der_value_uint n : der_value (write_uint n);
  der_value_null : der_value write_null;
  der_value_sequence l : Forall der_value l → der_value (write_sequence l);
  der_value_tagged t b : der_value b → der_value (write_tagged t b);
  der_value_implicit t b : der_value b → der_value (write_tagged_implicit t b);
  der_sequence_inj l l' : Forall der_value l → Forall der_value l' → write_sequence l = write_sequence l' → l = l';
  der_bytes_inj : Inj (=) (=) write_bytes;
  der_uint_inj : Inj (=) (=) write_uint;
  der_oid_inj : Inj (=) (=) write_oid;
  der_tagged_inj t : Inj (=) (=) (write_tagged t);
  der_implicit_inj t : Inj (=) (=) (write_tagged_implicit t);
}.
(** The two ciphers in CBC mode, with PKCS#7 padding: [None] where the lengths
    of the key and of the initial vector do not fit. *)
Class Ciphers : Type := {
  hmac_sha1 : bytes → bytes → bytes;
  rc2_cbc_encrypt : bytes → bytes → bytes → option bytes;
  rc2_cbc_decrypt : bytes → bytes → bytes → option bytes;
  tdes_cbc_encrypt : bytes → bytes → bytes → option bytes;
  tdes_cbc_decrypt : bytes → bytes → bytes → option bytes;
}.
Class CiphersOk `{Ciphers} : Prop := {
  rc2_cbc_ok key iv data : blen key = 5 → blen iv = 8 →
    ∃ c, rc2_cbc_encrypt key iv data = Some c ∧ rc2_cbc_decrypt key iv c = Some data;
  tdes_cbc_ok key iv data : blen key = 24 → blen iv = 8 →
    ∃ c, tdes_cbc_encrypt key iv data = Some c ∧ tdes_cbc_decrypt key iv c = Some data;
}.

(** ** Data *)
Definition OID_DATA_CONTENT_TYPE : list N := [1; 2; 840; 113549; 1; 7; 1].
Definition OID_ENCRYPTED_DATA_CONTENT_TYPE : list N := [1; 2; 840; 113549; 1; 7; 6].
Definition OID_FRIENDLY_NAME : list N := [1; 2; 840; 113549; 1; 9; 20].
Definition OID_LOCAL_KEY_ID : list N := [1; 2; 840; 113549; 1; 9; 21].
Definition OID_CERT_TYPE_X509_CERTIFICATE : list N := [1; 2; 840; 113549; 1; 9; 22; 1].
Definition OID_PBE_WITH_SHA_AND3_KEY_TRIPLE_DESCBC : list N := [1; 2; 840; 113549; 1; 12; 1; 3].
Definition OID_SHA1 : list N := [1; 3; 14; 3; 2; 26].
Definition OID_PBE_WITH_SHA1_AND40_BIT_RC2_CBC : list N := [1; 2; 840; 113549; 1; 12; 1; 6].
Definition OID_KEY_BAG : list N := [1; 2; 840; 113549; 1; 12; 10; 1; 1].
Definition OID_PKCS8_SHROUDED_KEY_BAG : list N := [1; 2; 840; 113549; 1; 12; 10; 1; 2].
Definition OID_CERT_BAG : list N := [1; 2; 840; 113549; 1; 12; 10; 1; 3].
Definition ITERATIONS : N := 2048.

Record Pkcs12PbeParams : Type := mkPbeParams { pbe_salt : bytes; pbe_iterations : N }.
Inductive AlgorithmIdentifier : Type :=
  | AlgSha1
  | PbeWithSHAAnd40BitRC2CBC (p : Pkcs12PbeParams)
  | PbeWithSHAAnd3KeyTripleDESCBC (p : Pkcs12PbeParams).
Record EncryptedContentInfo : Type := mkEncryptedContentInfo {
  content_encryption_algorithm : AlgorithmIdentifier;
  encrypted_content : bytes;
}.
(** [EncryptedData] has one field. *)
Inductive ContentInfo : Type :=
  | Data (data : bytes)
  | EncryptedData (encrypted_content_info : EncryptedContentInfo).
Record DigestInfo : Type := mkDigestInfo { digest_algorithm : AlgorithmIdentifier; digest : bytes }.
Record MacData : Type := mkMacData { mac : DigestInfo; mac_salt : bytes; mac_iterations : N }.
Record EncryptedPrivateKeyInfo : Type := mkEncryptedKey {
  encryption_algorithm : AlgorithmIdentifier;
  encrypted_data : bytes;
}.
Inductive CertBag : Type := X509 (x509 : bytes).
Inductive SafeBagKind : Type :=
  | KeyBag (k : bytes)
  | Pkcs8ShroudedKey (epk : EncryptedPrivateKeyInfo)
  | Cert (cb : CertBag).
Inductive PKCS12Attribute : Type := FriendlyName (name : list N) | LocalKeyId (id : bytes).
Record SafeBag : Type := mkSafeBag { bag : SafeBagKind; attributes : list PKCS12Attribute }.
Record Pfx : Type := mkPfx { version : N; auth_safe : ContentInfo; mac_data : option MacData }.

(** ** Writing *)
Section writing.
Context `{Der}.
Definition Pkcs12PbeParams_write (p : Pkcs12PbeParams) : bytes :=
  write_sequence [write_bytes (pbe_salt p); write_uint (pbe_iterations p)].
Definition AlgorithmIdentifier_write (a : AlgorithmIdentifier) : bytes :=
  write_sequence
    match a with
    | AlgSha1 => [write_oid OID_SHA1; write_null]
    | PbeWithSHAAnd40BitRC2CBC p => [write_oid OID_PBE_WITH_SHA1_AND40_BIT_RC2_CBC; Pkcs12PbeParams_write p]
    | PbeWithSHAAnd3KeyTripleDESCBC p =>
        [write_oid OID_PBE_WITH_SHA_AND3_KEY_TRIPLE_DESCBC; Pkcs12PbeParams_write p]
    end.
Definition EncryptedContentInfo_write (e : EncryptedContentInfo) : bytes :=
  write_sequence [write_oid OID_DATA_CONTENT_TYPE; AlgorithmIdentifier_write (content_encryption_algorithm e);
    write_tagged_implicit 0 (write_bytes (encrypted_content e))].
Definition EncryptedData_write (e : EncryptedContentInfo) : bytes :=
  write_sequence [write_uint 0; EncryptedContentInfo_write e].
Definition ContentInfo_write (c : ContentInfo) : bytes :=
  match c with
  | Data data => write_sequence [write_oid OID_DATA_CONTENT_TYPE; write_tagged 0 (write_bytes data)]
  | EncryptedData e =>
      write_sequence [write_oid OID_ENCRYPTED_DATA_CONTENT_TYPE; write_tagged 0 (EncryptedData_write e)]
  end.
Definition DigestInfo_write (d : DigestInfo) : bytes :=
  write_sequence [AlgorithmIdentifier_write (digest_algorithm d); write_bytes (digest d)].
Definition MacData_write (m : MacData) : bytes :=
  write_sequence [DigestInfo_write (mac m); write_bytes (mac_salt m); write_uint (mac_iterations m)].
Definition CertBag_write (c : CertBag) : bytes :=
  match c with
  | X509 x509 => write_sequence [write_oid OID_CERT_TYPE_X509_CERTIFICATE; write_tagged 0 (write_bytes x509)]
  end.
Definition EncryptedPrivateKeyInfo_write (e : EncryptedPrivateKeyInfo) : bytes :=
  write_sequence [AlgorithmIdentifier_write (encryption_algorithm e); write_bytes (encrypted_data e)].
(** [write_der] writes the bytes as they are. *)
Definition SafeBagKind_write (k : SafeBagKind) : bytes :=
  match k with
  | KeyBag kb => kb
  | Pkcs8ShroudedKey epk => EncryptedPrivateKeyInfo_write epk
  | Cert cb => CertBag_write cb
  end.
Definition SafeBagKind_oid (k : SafeBagKind) : list N :=
  match k with
  | KeyBag _ => OID_KEY_BAG
  | Pkcs8ShroudedKey _ => OID_PKCS8_SHROUDED_KEY_BAG
  | Cert _ => OID_CERT_BAG
  end.
Definition PKCS12Attribute_write (a : PKCS12Attribute) : bytes :=
  write_sequence
    match a with
    | FriendlyName name => [write_oid OID_FRIENDLY_NAME; write_set_of [write_bmp_string name]]
    | LocalKeyId id => [write_oid OID_LOCAL_KEY_ID; write_set_of [write_bytes id]]
    end.
Definition SafeBag_write (b : SafeBag) : bytes :=
  write_sequence ([write_oid (SafeBagKind_oid (bag b)); write_tagged 0 (SafeBagKind_write (bag b))] ++
    match attributes b with
    | [] => []
    | attrs => [write_set_of (PKCS12Attribute_write <$> attrs)]
    end).
Definition Pfx_write (p : Pfx) : bytes :=
  write_sequence ([write_uint (version p); ContentInfo_write (auth_safe p)] ++
    match mac_data p with Some m => [MacData_write m] | None => [] end).
Definition to_der (p : Pfx) : bytes := Pfx_write p.
End writing.

(** ** Building *)
Section building.
Context `{Sha1} `{Ciphers} `{Der}.
Definition pbe_with_sha1_and40_bit_rc2_cbc_encrypt (data password salt : bytes) (iterations : N) : option bytes :=
  let dk := pbepkcs12sha1 password salt iterations (u8 1) 5 in
  let iv := pbepkcs12sha1 password salt iterations (u8 2) 8 in
  rc2_cbc_encrypt dk iv data.
Definition pbe_with_sha_and3_key_triple_des_cbc_encrypt (data password salt : bytes) (iterations : N) : option bytes :=
  let dk := pbepkcs12sha1 password salt iterations (u8 1) 24 in
  let iv := pbepkcs12sha1 password salt iterations (u8 2) 8 in
  tdes_cbc_encrypt dk iv data.
(** [rand] is the answer of [rand()], of eight bytes. *)
Definition EncryptedContentInfo_from_safe_bags (safe_bags : list SafeBag) (password : bytes) (rand : option bytes)
    : option EncryptedContentInfo :=
  let data := write_sequence_of (SafeBag_write <$> safe_bags) in
  salt ← rand;
  encrypted_content ← pbe_with_sha1_and40_bit_rc2_cbc_encrypt data password salt ITERATIONS;
  Some (mkEncryptedContentInfo (PbeWithSHAAnd40BitRC2CBC (mkPbeParams salt ITERATIONS)) encrypted_content).
Definition MacData_new (data password : bytes) (rand : option bytes) : res MacData :=
  let* salt := unwrap "rand" rand in
  let key := pbepkcs12sha1 password salt ITERATIONS (u8 3) 20 in
  Ok (mkMacData (mkDigestInfo AlgSha1 (hmac_sha1 key data)) salt ITERATIONS).
(** The bag of the key, and the password as the rest uses it. *)
Definition key_bag_of (key_der : bytes) (password name : list N) (cert_id : bytes) (rand : option bytes)
    : option (SafeBag * bytes) :=
  let attributes := [FriendlyName name; LocalKeyId cert_id] in
  match password with
  | [] => Some (mkSafeBag (KeyBag key_der) attributes, [])
  | _ =>
      let password := bmp_string password in
      salt ← rand;
      encrypted_data ← pbe_with_sha_and3_key_triple_des_cbc_encrypt key_der password salt ITERATIONS;
      Some (mkSafeBag (Pkcs8ShroudedKey (mkEncryptedKey
              (PbeWithSHAAnd3KeyTripleDESCBC (mkPbeParams salt ITERATIONS)) encrypted_data)) attributes, password)
  end.
(** [rand1], [rand2] and [rand3] are the answers of [rand()] for the key, for
    the certificates and for the MAC, where it is called. *)
Definition new_with_cas (cert_der key_der : bytes) (ca_der_list : list bytes) (password name : list N)
    (rand1 rand2 rand3 : option bytes) : res (option Pfx) :=
  let cert_id := sha1 cert_der in
  match key_bag_of key_der password name cert_id rand1 with
  | None => Ok None
  | Some (key_bag, password) =>
      let cert_bags :=
        mkSafeBag (Cert (X509 cert_der)) [FriendlyName name; LocalKeyId cert_id] ::
        ((λ ca, mkSafeBag (Cert (X509 ca)) []) <$> ca_der_list) in
      let* certs :=
        match password with
        | [] => Ok (Data (write_sequence_of (SafeBag_write <$> cert_bags)))
        | _ => let* e := unwrap "ASN1Error" (EncryptedContentInfo_from_safe_bags cert_bags password rand2) in
               Ok (EncryptedData e)
        end in
      let contents := write_sequence_of
        [ContentInfo_write certs; ContentInfo_write (Data (write_sequence_of [SafeBag_write key_bag]))] in
      let* mac := MacData_new contents password rand3 in
      Ok (Some (mkPfx 3 (Data contents) (Some mac)))
  end.
Definition Pfx_new (cert_der key_der : bytes) (ca_der : option bytes) (password name : list N)
    (rand1 rand2 rand3 : option bytes) : res (option Pfx) :=
  new_with_cas cert_der key_der (match ca_der with Some ca => [ca] | None => [] end) password name rand1 rand2 rand3.
(** [build_pkcs12] (quic_settings.rs), of the certificates and the key of a
    [NetCredential]. *)
Definition build_pkcs12 (my_certs : list bytes) (my_key : bytes) (rand1 rand2 rand3 : option bytes) : res bytes :=
  let* cert := unwrap "index out of bounds" (head my_certs) in
  let* pfx := Pfx_new cert my_key None [] [] rand1 rand2 rand3 in
  let* pfx := with_context "Failed to build PFX" pfx in
  Ok (to_der pfx).
End building.

(** ** What is written determines the container *)
#[local] Create HintDb der.
Section injective.
Context `{DerOk}.
#[local] Existing Instances der_bytes_inj der_uint_inj der_oid_inj der_tagged_inj der_implicit_inj.
Hint Resolve der_value_oid der_value_bytes der_value_uint der_value_null der_value_sequence der_value_tagged
  der_value_implicit : der.
Ltac der_values := repeat first [solve [eauto with der] | apply Forall_cons; split | apply Forall_nil_2
  | apply Forall_app; split | apply der_value_sequence | apply der_value_tagged | apply der_value_implicit].
Lemma PbeParams_value p : der_value (Pkcs12PbeParams_write p).
Proof. unfold Pkcs12PbeParams_write. der_values. Qed.
Lemma AlgorithmIdentifier_value a : der_value (AlgorithmIdentifier_write a).
Proof. unfold AlgorithmIdentifier_write. destruct a; der_values; apply PbeParams_value. Qed.
Hint Resolve PbeParams_value AlgorithmIdentifier_value : der.
Lemma EncryptedContentInfo_value e : der_value (EncryptedContentInfo_write e).
Proof. unfold EncryptedContentInfo_write. der_values. Qed.
Hint Resolve EncryptedContentInfo_value : der.
Lemma ContentInfo_value c : der_value (ContentInfo_write c).
Proof. destruct c; unfold ContentInfo_write, EncryptedData_write; der_values. Qed.
Lemma DigestInfo_value d : der_value (DigestInfo_write d).
Proof. unfold DigestInfo_write. der_values. Qed.
Hint Resolve ContentInfo_value DigestInfo_value : der.
Lemma MacData_value m : der_value (MacData_write m).
Proof. unfold MacData_write. der_values. Qed.
Hint Resolve MacData_value : der.
Ltac der_inj H := apply der_sequence_inj in H; [simplify_eq/=|der_values..].
#[local] Instance PbeParams_inj : Inj (=) (=) Pkcs12PbeParams_write.
Proof. intros [] [] Heq. unfold Pkcs12PbeParams_write in Heq. simpl in Heq. der_inj Heq. done. Qed.
#[local] Instance AlgorithmIdentifier_inj : Inj (=) (=) AlgorithmIdentifier_write.
Proof.
  intros a b Heq. unfold AlgorithmIdentifier_write in Heq. destruct a, b; by der_inj Heq.
Qed.
#[local] Instance EncryptedContentInfo_inj : Inj (=) (=) EncryptedContentInfo_write.
Proof. intros [] [] Heq. unfold EncryptedContentInfo_write in Heq. simpl in Heq. by der_inj Heq. Qed.
#[local] Instance EncryptedData_inj : Inj (=) (=) EncryptedData_write.
Proof. intros a b Heq. unfold EncryptedData_write in Heq. by der_inj Heq. Qed.
#[local] Instance ContentInfo_inj : Inj (=) (=) ContentInfo_write.
Proof.
  intros a b Heq. unfold ContentInfo_write in Heq.
  destruct a, b; (apply der_sequence_inj in Heq; [simplify_eq/=; done|..]);
    unfold EncryptedData_write; der_values.
Qed.
#[local] Instance DigestInfo_inj : Inj (=) (=) DigestInfo_write.
Proof. intros [] [] Heq. unfold DigestInfo_write in Heq. simpl in Heq. by der_inj Heq. Qed.
#[local] Instance MacData_inj : Inj (=) (=) MacData_write.
Proof. intros [] [] Heq. unfold MacData_write in Heq. simpl in Heq. by der_inj Heq. Qed.

(** The bytes of a container determine it: two containers that are
    written to the same bytes have the same version, the same contents (in the
    clear or encrypted, with the same algorithm, salt and iterations) and the
    same MAC data, or both none. *)
Theorem pfx_bytes_determine p q : to_der p = to_der q → p = q.
Proof.
  destruct p as [v a m], q as [v' a' m']. unfold to_der, Pfx_write. simpl. intros Heq.
  destruct m, m'; by der_inj Heq.
Qed.
End injective.

(** ** Opening a container, as RFC 7292 says *)
Section opening.
Context `{Sha1Ok} `{CiphersOk} `{Der}.
Definition decrypt (alg : AlgorithmIdentifier) (password data : bytes) : option bytes :=
  match alg with
  | AlgSha1 => None
  | PbeWithSHAAnd40BitRC2CBC p =>
      rc2_cbc_decrypt (rfc_kdf password (pbe_salt p) (pbe_iterations p) (u8 1) 5)
        (rfc_kdf password (pbe_salt p) (pbe_iterations p) (u8 2) 8) data
  | PbeWithSHAAnd3KeyTripleDESCBC p =>
      tdes_cbc_decrypt (rfc_kdf password (pbe_salt p) (pbe_iterations p) (u8 1) 24)
        (rfc_kdf password (pbe_salt p) (pbe_iterations p) (u8 2) 8) data
  end.
Definition open_content (password : bytes) (c : ContentInfo) : option bytes :=
  match c with
  | Data data => Some data
  | EncryptedData e => decrypt (content_encryption_algorithm e) password (encrypted_content e)
  end.
Definition open_key (password : bytes) (b : SafeBag) : option bytes :=
  match bag b with
  | KeyBag k => Some k
  | Pkcs8ShroudedKey epk => decrypt (encryption_algorithm epk) password (encrypted_data epk)
  | Cert _ => None
  end.
Definition mac_verifies (password : bytes) (p : Pfx) : Prop :=
  ∃ data m, auth_safe p = Data data ∧ mac_data p = Some m ∧ digest_algorithm (mac m) = AlgSha1 ∧
    digest (mac m) = hmac_sha1 (rfc_kdf password (mac_salt m) (mac_iterations m) (u8 3) 20) data.
(** The bytes of the password that encrypt: none for the empty one. *)
Definition password_bytes (password : list N) : bytes :=
  match password with [] => [] | _ => bmp_string password end.
Definition cert_bags_of (cert_der : bytes) (ca_der_list : list bytes) (name : list N) : list SafeBag :=
  mkSafeBag (Cert (X509 cert_der)) [FriendlyName name; LocalKeyId (sha1 cert_der)] ::
  ((λ ca, mkSafeBag (Cert (X509 ca)) []) <$> ca_der_list).

Lemma bmp_string_nonempty s : ∃ b l, bmp_string s = b :: l.
Proof. unfold bmp_string. destruct (encode_utf16 s ≫= _); simpl; eauto. Qed.
Lemma kdf_opens password salt id size : pbepkcs12sha1 password salt ITERATIONS id size =
    rfc_kdf password salt ITERATIONS id size ∧ blen (rfc_kdf password salt ITERATIONS id size) = size.
Proof. split; [apply pbe_rfc|]. rewrite <-pbe_rfc. by apply pbe_length. Qed.
Lemma key_bag_opens key password name cert_id rand1 : (password = [] ∨ is_Some rand1) →
  ∃ b, key_bag_of key password name cert_id rand1 = Some (b, password_bytes password) ∧
    open_key (password_bytes password) b = Some key ∧ attributes b = [FriendlyName name; LocalKeyId cert_id].
Proof.
  intros Hr. unfold key_bag_of, password_bytes. destruct password as [|c password].
  { by eexists. }
  destruct Hr as [|[salt ->]]; [done|]. set (pw := bmp_string (c :: password)). simpl.
  unfold pbe_with_sha_and3_key_triple_des_cbc_encrypt.
  destruct (kdf_opens pw salt (u8 1) 24) as [-> Hk]. destruct (kdf_opens pw salt (u8 2) 8) as [-> Hi].
  destruct (tdes_cbc_ok _ _ key Hk Hi) as (ct & -> & Hd). simpl. eexists. split; [done|]. by split.
Qed.
Lemma certs_open bags password rand2 :
  is_Some rand2 → ∃ e, EncryptedContentInfo_from_safe_bags bags password rand2 = Some e ∧
    open_content password (EncryptedData e) = Some (write_sequence_of (SafeBag_write <$> bags)).
Proof.
  intros [salt ->]. unfold EncryptedContentInfo_from_safe_bags. simpl.
  unfold pbe_with_sha1_and40_bit_rc2_cbc_encrypt.
  destruct (kdf_opens password salt (u8 1) 5) as [-> Hk]. destruct (kdf_opens password salt (u8 2) 8) as [-> Hi].
  destruct (rc2_cbc_ok _ _ (write_sequence_of (SafeBag_write <$> bags)) Hk Hi) as (ct & -> & Hd). simpl.
  eexists. by split.
Qed.

(** C25: A container is built, and who has the password opens it: when random
    bytes are available, [Pfx::new_with_cas] returns a container of version 3;
    its MAC verifies; its contents are two parts, one that opens to the bags
    of the certificates (the own one first, with the name and the id of the
    key) and one with the bag of the key, which opens to the key and has the
    same name and id.  Keys, initial vectors and the MAC key are those of
    RFC 7292 for the salts and the iterations that the container itself
    carries. *)
Theorem pfx_opens cert_der key_der cas password name rand1 rand2 rand3 :
  is_Some rand1 → is_Some rand2 → is_Some rand3 → let pw := password_bytes password in
  ∃ p certs key_bag, new_with_cas cert_der key_der cas password name rand1 rand2 rand3 = Ok (Some p) ∧
    version p = 3 ∧ mac_verifies pw p ∧
    auth_safe p = Data (write_sequence_of
      [ContentInfo_write certs; ContentInfo_write (Data (write_sequence_of [SafeBag_write key_bag]))]) ∧
    open_content pw certs = Some (write_sequence_of (SafeBag_write <$> cert_bags_of cert_der cas name)) ∧
    open_key pw key_bag = Some key_der ∧
    attributes key_bag = [FriendlyName name; LocalKeyId (sha1 cert_der)].
Proof.
  intros Hr1 Hr2 [salt3 ->] pw. unfold new_with_cas.
  destruct (key_bag_opens key_der password name (sha1 cert_der) rand1 (or_intror Hr1)) as (b & -> & Hk & Ha).
  fold pw in Hk |- *.
  set (bags := _ :: _). change bags with (cert_bags_of cert_der cas name).
  assert (∃ certs, (match pw with
      | [] => Ok (Data (write_sequence_of (SafeBag_write <$> cert_bags_of cert_der cas name)))
      | _ => let* e := unwrap "ASN1Error"
               (EncryptedContentInfo_from_safe_bags (cert_bags_of cert_der cas name) pw rand2) in
             Ok (EncryptedData e)
      end)%rust = Ok certs ∧ open_content pw certs =
        Some (write_sequence_of (SafeBag_write <$> cert_bags_of cert_der cas name))) as (certs & -> & Hc).
  { destruct (certs_open (cert_bags_of cert_der cas name) pw rand2 Hr2) as (e & He & Ho).
    destruct pw; [by eexists|]. rewrite He. simpl. by eexists. }
  simpl. eexists _, certs, b. split; [reflexivity|]. split; [done|]. split; [|done].
  eexists _, _. split; [done|]. split; [done|]. split; [done|]. simpl. f_equal. apply kdf_opens.
Qed.

(** How building a container ends, for every answer of the source of
    random bytes: without those for the key, which are drawn only when there is
    a password, it returns [None]; without those for the certificates (drawn
    then too) or for the MAC it panics; otherwise it returns a container. *)
Theorem pfx_outcomes cert_der key_der ca password name rand1 rand2 rand3 :
  let r := Pfx_new cert_der key_der ca password name rand1 rand2 rand3 in
  match password, rand1, rand2, rand3 with
  | [], _, _, Some _ => ∃ p, r = Ok (Some p)
  | _ :: _, Some _, Some _, Some _ => ∃ p, r = Ok (Some p)
  | _ :: _, None, _, _ => r = Ok None
  | _, _, _, _ => is_panic r = true
  end.
Proof.
  intros r. subst r. unfold Pfx_new, new_with_cas. set (cas := match ca with Some _ => _ | None => _ end). clearbody cas.
  set (bags := _ :: _). clearbody bags.
  destruct password as [|c password].
  { simpl. destruct rand3; simpl; [by eexists|done]. }
  destruct rand1 as [salt1|]; [|done].
  destruct (key_bag_opens key_der (c :: password) name (sha1 cert_der) (Some salt1)) as (b & -> & _); [by right|].
  unfold password_bytes. destruct (bmp_string_nonempty (c :: password)) as (x & pw & ->).
  destruct rand2 as [salt2|]; [|done].
  destruct (certs_open bags (x :: pw) (Some salt2)) as (e & -> & _); [done|]. simpl.
  destruct rand3; simpl; [by eexists|done].
Qed.

(** The credentials that QUIC is given hold the first certificate only,
    and the key in the clear, whatever the source of random bytes says for
    them; without a certificate the code panics. *)
Theorem build_pkcs12_exact my_certs my_key rand1 rand2 salt :
  match my_certs with
  | [] => is_panic (build_pkcs12 my_certs my_key rand1 rand2 (Some salt)) = true
  | cert :: _ => ∃ p key_bag, build_pkcs12 my_certs my_key rand1 rand2 (Some salt) = Ok (to_der p) ∧
      mac_verifies [] p ∧ open_key [] key_bag = Some my_key ∧
      auth_safe p = Data (write_sequence_of
        [ContentInfo_write (Data (write_sequence_of (SafeBag_write <$> cert_bags_of cert [] [])));
         ContentInfo_write (Data (write_sequence_of [SafeBag_write key_bag]))])
  end.
Proof.
  destruct my_certs as [|cert certs]; [done|]. unfold build_pkcs12. simpl.
  eexists _, (mkSafeBag (KeyBag my_key) [FriendlyName []; LocalKeyId (sha1 cert)]).
  split; [reflexivity|]. split; [|split; [done|reflexivity]].
  eexists _, _. split; [done|]. split; [done|]. split; [done|]. simpl. f_equal. apply kdf_opens.
Qed.
End opening.

(** ** The interfaces can be met *)
(** Ciphers and a writer that satisfy the laws. *)
Definition toy_encrypt (k v : N) (key iv data : bytes) : option bytes :=
  if (blen key =? k) && (blen iv =? v) then Some (key ++ iv ++ data) else None.
Definition toy_decrypt (k v : N) (key iv data : bytes) : option bytes :=
  if decide (take (N.to_nat (k + v)) data = key ++ iv) then Some (drop (N.to_nat (k + v)) data) else None.
Definition toy_ciphers : Ciphers := {|
  hmac_sha1 key data := key ++ data;
  rc2_cbc_encrypt := toy_encrypt 5 8;
  rc2_cbc_decrypt := toy_decrypt 5 8;
  tdes_cbc_encrypt := toy_encrypt 24 8;
  tdes_cbc_decrypt := toy_decrypt 24 8;
|}.
Fixpoint bits (p : positive) : bytes :=
  match p with xH => [] | xO p => u8 0 :: bits p | xI p => u8 1 :: bits p end.
Definition toy_der : Der := {|
  write_sequence l := u8 48 :: bits (encode l);
  write_sequence_of l := u8 48 :: bits (encode l);
  write_set_of l := u8 49 :: bits (encode l);
  write_oid o := u8 6 :: bits (encode o);
  write_bytes b := u8 4 :: b;
  write_uint n := u8 2 :: bits (encode n);
  write_null := [u8 5];
  write_bmp_string s := u8 30 :: bits (encode s);
  write_tagged t b := u8 160 :: b;
  write_tagged_implicit t b := u8 128 :: b;
  der_value b := b ≠ [];
|}.
Lemma bits_inj p q : bits p = bits q → p = q.
Proof.
  revert q. induction p as [p IH|p IH|]; intros [q|q|] Heq; try done; injection Heq as Heq; f_equal; by apply IH.
Qed.
Lemma bits_encode_inj `{Countable A} (b : byte) (x y : A) : b :: bits (encode x) = b :: bits (encode y) → x = y.
Proof. intros [= Heq]. by apply bits_inj, encode_inj in Heq. Qed.
Lemma toy_der_ok : @DerOk toy_der.
Proof.
  split; simpl; try done; try (intros x y Heq; by apply (bits_encode_inj (u8 0)); injection Heq as Heq; f_equal).
  all: try (intros ? ? Heq; by injection Heq). all: try (intros ? ? ? Heq; by injection Heq).
  intros l l' _ _ Heq. by apply bits_encode_inj in Heq.
Qed.
Lemma toy_cipher_ok k v key iv data : blen key = k → blen iv = v →
  ∃ c, toy_encrypt k v key iv data = Some c ∧ toy_decrypt k v key iv c = Some data.
Proof.
  intros Hk Hv. unfold toy_encrypt, toy_decrypt. rewrite Hk, Hv, !N.eqb_refl. simpl. eexists. split; [done|].
  assert (N.to_nat (k + v) = length (key ++ iv)) as -> by (rewrite length_app; unfold blen in *; lia).
  rewrite app_assoc, take_app_length, drop_app_length. by rewrite decide_True.
Qed.
Lemma toy_ciphers_ok : @CiphersOk toy_ciphers.
Proof. split; intros; by apply toy_cipher_ok. Qed.
Definition salt_1 : bytes := u8 <$> [1; 2; 3; 4; 5; 6; 7; 8].
Lemma pfx_bytes_determine_witness :
  let p := mkPfx 3 (Data [u8 7]) None in @to_der toy_der p = @to_der toy_der p → p = p.
Proof. intros p Heq. exact (@pfx_bytes_determine toy_der toy_der_ok p p Heq). Defined.
Lemma pfx_opens_witness :
  ∃ p certs key_bag, @new_with_cas digest_1 toy_ciphers toy_der [u8 9] [u8 8] [] [112; 119] []
    (Some salt_1) (Some salt_1) (Some salt_1) = Ok (Some p) ∧ version p = 3 ∧
    @mac_verifies digest_1 toy_ciphers (password_bytes [112; 119]) p ∧
    auth_safe p = Data (@write_sequence_of toy_der [@ContentInfo_write toy_der certs;
      @ContentInfo_write toy_der (Data (@write_sequence_of toy_der [@SafeBag_write toy_der key_bag]))]) ∧
    @open_content digest_1 toy_ciphers (password_bytes [112; 119]) certs =
      Some (@write_sequence_of toy_der (@SafeBag_write toy_der <$> @cert_bags_of digest_1 [u8 9] [] [])) ∧
    @open_key digest_1 toy_ciphers (password_bytes [112; 119]) key_bag = Some [u8 8] ∧
    attributes key_bag = [FriendlyName []; LocalKeyId (digest_1 [u8 9])].
Proof.
  exact (@pfx_opens digest_1 digest_1_ok toy_ciphers toy_ciphers_ok toy_der [u8 9] [u8 8] [] [112; 119] []
    (Some salt_1) (Some salt_1) (Some salt_1) (mk_is_Some _ _ eq_refl) (mk_is_Some _ _ eq_refl) (mk_is_Some _ _ eq_refl)).
Defined.
Lemma pfx_outcomes_witness :
  @Pfx_new digest_1 toy_ciphers toy_der [u8 9] [u8 8] None [112] [] None None None = Ok None.
Proof.
  exact (@pfx_outcomes digest_1 digest_1_ok toy_ciphers toy_ciphers_ok toy_der [u8 9] [u8 8] None [112] [] None None None).
Defined.
Lemma build_pkcs12_exact_witness :
  is_panic (@build_pkcs12 digest_1 toy_ciphers toy_der [] [u8 8] None None (Some salt_1)) = true.
Proof.
  exact (@build_pkcs12_exact digest_1 digest_1_ok toy_ciphers toy_der [] [u8 8] None None salt_1).
Defined.
