(* ===== verification/Telemetry.v ===== *)
(** * Clocks and channel metrics (telemetry_utils/src/lib.rs, mpsc.rs)

    The clock in milliseconds with its tolerance, and the channel that reports
    its length: a send or a receive changes the queue first, then the counter,
    then tells the observer, so the three agree only when no operation is
    under way.  One that fails changes none of them; a receiver that is dropped
    takes what is queued with it, uncounted. *)
From S2P Require Import Prelude.
Open Scope Z_scope.

(** ** Clocks *)
(** [SystemTime::now()] in nanoseconds from the epoch, negative before it. *)
Definition now_ms (now_ns : Z) : Z := if now_ns <? 0 then 0 else (now_ns / 1000000) mod 2 ^ 64.
Definition millis_from_now (now start_ms : Z) : Z + string :=
  if start_ms <=? now then inl (now - start_ms)
  else if start_ms - now <? 5 then inl 0
  else inr "System clock out of sync. Please check NTP or system time settings."%string.

(** The time since [start_ms] is an error exactly when the start lies
    five milliseconds or more in the future; otherwise it is the difference,
    and zero for a start in the future: never negative, and no subtraction
    wraps around. *)
Theorem millis_from_now_exact now start_ms :
  0 ≤ now < 2 ^ 64 → 0 ≤ start_ms < 2 ^ 64 →
  match millis_from_now now start_ms with
  | inl ms => ms = Z.max 0 (now - start_ms) ∧ start_ms < now + 5 ∧ 0 ≤ ms < 2 ^ 64
  | inr _ => now + 5 ≤ start_ms
  end.
Proof.
  intros Hn Hs. unfold millis_from_now.
  destruct (Z.leb_spec start_ms now); [lia|]. destruct (Z.ltb_spec (start_ms - now) 5); lia.
Qed.
Lemma millis_from_now_exact_witness : 0 = Z.max 0 (10 - 14) ∧ 14 < 10 + 5 ∧ 0 ≤ 0 < 2 ^ 64.
Proof. apply (millis_from_now_exact 10 14); lia. Defined.

(** ** Channels *)
Section channel.
Context {T : Type}.
(** [AtomicIsize]: addition wraps around. *)
Definition wrap_isize (n : Z) : Z := (n + 2 ^ 63) mod 2 ^ 64 - 2 ^ 63.
(** [ChannelMetrics], with what its observer was told. *)
Record ChannelMetrics : Type := mkMetrics { cm_len : Z; cm_reported : list Z }.
(** [std::sync::mpsc::channel()]: what was sent and not received, and whether
    each side is still there. *)
Record Channel : Type := mkChannel { ch_queue : list T; ch_sender : bool; ch_receiver : bool }.
Definition instrumented_channel (metrics : bool) : Channel * option ChannelMetrics :=
  (mkChannel [] true true, if metrics then Some (mkMetrics 0 []) else None).
(** [inc_len], in its two steps. *)
Definition fetch_add (m : ChannelMetrics) (delta : Z) : ChannelMetrics :=
  mkMetrics (wrap_isize (cm_len m + delta)) (cm_reported m).
Definition report_channel (m : ChannelMetrics) (delta : Z) : ChannelMetrics :=
  mkMetrics (cm_len m) (cm_reported m ++ [delta]).
(** [Drop for ChannelMetrics] *)
Definition metrics_drop (m : ChannelMetrics) : ChannelMetrics :=
  if 0 <? cm_len m then report_channel m (- cm_len m) else m.
(** The first part of [send] and of [recv]: the channel, and the argument of
    the call of [inc_len] that follows, if any. *)
Definition send (c : Channel) (t : T) : (unit + T) * Channel * option Z :=
  if ch_receiver c then (inl (), mkChannel (ch_queue c ++ [t]) (ch_sender c) (ch_receiver c), Some 1)
  else (inr t, c, None).
Inductive TryRecvError : Type := Empty | Disconnected.
Definition try_recv (c : Channel) : (T + TryRecvError) * Channel * option Z :=
  match ch_queue c with
  | t :: q => (inl t, mkChannel q (ch_sender c) (ch_receiver c), Some (-1))
  | [] => (inr (if ch_sender c then Empty else Disconnected), c, None)
  end.
(** [recv] blocks ([None]) where [try_recv] finds the channel empty. *)
Definition recv (c : Channel) : option (T + unit) * Channel * option Z :=
  match try_recv c with
  | (inl t, c, d) => (Some (inl t), c, d)
  | (inr Disconnected, c, d) => (Some (inr ()), c, d)
  | (inr Empty, c, d) => (None, c, d)
  end.

(** A receiver that is dropped discards the messages that wait. *)
Definition drop_sender (c : Channel) : Channel := mkChannel (ch_queue c) false (ch_receiver c).
Definition drop_receiver (c : Channel) : Channel := mkChannel [] (ch_sender c) false.

(** ** Runs *)
(** [adding] and [reporting] are the operations under way: those that have
    not reached the counter, and those that have not reached the observer. *)
Record Instrumented : Type := mkInstrumented {
  in_channel : Channel;
  in_metrics : ChannelMetrics;
  in_adding : list Z;
  in_reporting : list Z;
  in_sent : list T;
  in_received : list T;
  in_discarded : list T;
  in_dropped : bool;
}.
Definition due (d : option Z) : list Z := match d with Some d => [d] | None => [] end.
Definition sent_by {E} (t : T) (r : unit + E) : list T := match r with inl _ => [t] | inr _ => [] end.
Definition received_by {E} (r : T + E) : list T := match r with inl t => [t] | inr _ => [] end.
Inductive channel_step : Instrumented → Instrumented → Prop :=
  | step_send c m a r s v x t answer c' d :
      ch_sender c = true → send c t = (answer, c', d) →
      channel_step (mkInstrumented c m a r s v x false)
        (mkInstrumented c' m (a ++ due d) r (s ++ sent_by t answer) v x false)
  | step_try_recv c m a r s v x answer c' d :
      ch_receiver c = true → try_recv c = (answer, c', d) →
      channel_step (mkInstrumented c m a r s v x false)
        (mkInstrumented c' m (a ++ due d) r s (v ++ received_by answer) x false)
  | step_recv c m a r s v x answer c' d :
      ch_receiver c = true → recv c = (Some answer, c', d) →
      channel_step (mkInstrumented c m a r s v x false)
        (mkInstrumented c' m (a ++ due d) r s (v ++ received_by answer) x false)
  | step_add c m a1 d a2 r s v x :
      channel_step (mkInstrumented c m (a1 ++ d :: a2) r s v x false)
        (mkInstrumented c (fetch_add m d) (a1 ++ a2) (r ++ [d]) s v x false)
  | step_report c m a r1 d r2 s v x :
      channel_step (mkInstrumented c m a (r1 ++ d :: r2) s v x false)
        (mkInstrumented c (report_channel m d) a (r1 ++ r2) s v x false)
  | step_drop_sender c m a r s v x :
      channel_step (mkInstrumented c m a r s v x false) (mkInstrumented (drop_sender c) m a r s v x false)
  | step_drop_receiver c m a r s v x :
      channel_step (mkInstrumented c m a r s v x false)
        (mkInstrumented (drop_receiver c) m a r s v (x ++ ch_queue c) false)
  | step_drop c m s v x :
      ch_sender c = false → ch_receiver c = false →
      channel_step (mkInstrumented c m [] [] s v x false) (mkInstrumented c (metrics_drop m) [] [] s v x true).
Definition fresh_channel : Instrumented :=
  mkInstrumented (instrumented_channel true).1 (mkMetrics 0 []) [] [] [] [] [] false.
Definition sum (l : list Z) : Z := foldr Z.add 0 l.
Lemma sum_app l k : sum (l ++ k) = sum l + sum k.
Proof. induction l as [|x l IH]; simpl; [lia|]. rewrite IH. lia. Qed.

Record channel_inv (i : Instrumented) : Prop := {
  iv_order : in_sent i = in_received i ++ in_discarded i ++ ch_queue (in_channel i);
  iv_discarded : if ch_receiver (in_channel i) then in_discarded i = [] else ch_queue (in_channel i) = [];
  iv_unit : Forall (λ d, d = 1 ∨ d = -1) (in_adding i);
  iv_len : Z.of_nat (length (in_sent i)) < 2 ^ 62 →
    cm_len (in_metrics i) + sum (in_adding i) = Z.of_nat (length (in_discarded i ++ ch_queue (in_channel i))) ∧
    Z.of_nat (length (in_adding i)) + Z.abs (cm_len (in_metrics i)) ≤
      Z.of_nat (length (in_sent i)) + Z.of_nat (length (in_received i));
  iv_reported : Z.of_nat (length (in_sent i)) < 2 ^ 62 →
    sum (cm_reported (in_metrics i)) + sum (in_reporting i) = if in_dropped i then 0 else cm_len (in_metrics i);
}.
Lemma wrap_isize_small n : - 2 ^ 63 ≤ n < 2 ^ 63 → wrap_isize n = n.
Proof. intros Hn. unfold wrap_isize. rewrite Z.mod_small; lia. Qed.
Lemma try_recv_inv c m a r s v x (answer : T + TryRecvError) c' d :
  channel_inv (mkInstrumented c m a r s v x false) → ch_receiver c = true → try_recv c = (answer, c', d) →
  channel_inv (mkInstrumented c' m (a ++ due d) r s (v ++ received_by answer) x false).
Proof.
  intros [Ho Hx Hu Hl Hr] Hs Hc. simpl in *. rewrite Hs in Hx. subst x. unfold try_recv in Hc.
  destruct (ch_queue c) as [|t q] eqn:Eq; injection Hc as <- <- <-.
  - simpl. rewrite !app_nil_r. constructor; simpl; by rewrite ?Hs, ?Eq.
  - constructor; simpl; rewrite ?Hs, ?length_app, ?sum_app; simpl; [|done|apply Forall_app; by repeat constructor| |done].
    + by rewrite Ho, <-app_assoc.
    + intros Hn. destruct (Hl Hn). simpl in *. lia.
Qed.
Lemma channel_inv_step i i' : channel_inv i → channel_step i i' → channel_inv i'.
Proof.
  intros Hi Hstep. destruct Hstep as
    [c m a r s v x t answer c' d Hs Hc|c m a r s v x answer c' d Hs Hc|c m a r s v x answer c' d Hs Hc
    |c m a1 d a2 r s v x|c m a r1 d r2 s v x|c m a r s v x|c m a r s v x|c m s v x Hs Hc].
  2: by eapply try_recv_inv.
  2: { unfold recv in Hc. destruct (try_recv c) as [[[t|[]] c1] d1] eqn:E; try done; injection Hc as <- <- <-;
         exact (try_recv_inv _ _ _ _ _ _ _ _ _ _ Hi Hs E). }
  all: destruct Hi as [Ho Hx Hu Hl Hr]; simpl in *.
  - unfold send in Hc. destruct (ch_receiver c) eqn:Erecv; injection Hc as <- <- <-; simpl.
    + subst x. constructor; simpl; rewrite ?length_app, ?sum_app, ?Erecv; simpl.
      * by rewrite Ho, <-app_assoc.
      * done.
      * apply Forall_app. split; [done|]. repeat constructor.
      * intros Hn. destruct Hl as [Hl1 Hl2]; [lia|]. simpl in *. lia.
      * intros Hn. apply Hr. lia.
    + rewrite !app_nil_r. constructor; simpl; by rewrite ?Erecv.
  - rewrite Forall_app, Forall_cons in Hu. destruct Hu as (Hu1 & Hd & Hu2).
    assert (length v ≤ length s)%nat by (rewrite Ho, length_app; lia).
    constructor; simpl; [done|done|by apply Forall_app| |]; intros Hn; specialize (Hl Hn); specialize (Hr Hn);
      rewrite !length_app, sum_app in Hl; simpl in Hl; rewrite wrap_isize_small by lia;
      rewrite ?length_app, ?sum_app; simpl; lia.
  - constructor; simpl; try done. intros Hn. specialize (Hr Hn). rewrite sum_app in Hr |- *. rewrite sum_app.
    simpl in *. lia.
  - by constructor.
  - constructor; simpl; rewrite ?app_nil_r; done.
  - constructor; simpl; [done..| |]; intros Hn; specialize (Hl Hn); specialize (Hr Hn);
      unfold metrics_drop; destruct (Z.ltb_spec 0 (cm_len m)); simpl in *; rewrite ?sum_app; simpl; lia.
Qed.
Lemma channel_inv_run i : rtc channel_step fresh_channel i → channel_inv i.
Proof.
  intros Hr. assert (channel_inv fresh_channel) as Hi by (constructor; simpl; by try lia).
  remember fresh_channel as i0. clear Heqi0. induction Hr; eauto using channel_inv_step.
Qed.

(** C30: The observer of an instrumented channel is never off by more than the
    operations under way, whatever the interleaving of senders, receiver and
    their reports, successful and failed operations and drops of either side,
    for fewer than 2^62 messages: the deltas it was told, and those under way,
    add up to the number of messages that were sent and not received, which
    are those that wait and, once the receiver is gone, those it discarded;
    when the channel is gone the deltas add up to zero.  The messages are
    received in the order sent, each once, and none is discarded while the
    receiver is there. *)
Theorem channel_metrics_balanced i :
  rtc channel_step fresh_channel i → Z.of_nat (length (in_sent i)) < 2 ^ 62 →
  in_sent i = in_received i ++ in_discarded i ++ ch_queue (in_channel i) ∧
  (ch_receiver (in_channel i) = true → in_discarded i = []) ∧
  (if in_dropped i then sum (cm_reported (in_metrics i)) + sum (in_reporting i) = 0
   else sum (cm_reported (in_metrics i)) + sum (in_reporting i) + sum (in_adding i) =
     Z.of_nat (length (in_sent i)) - Z.of_nat (length (in_received i))).
Proof.
  intros Hr Hn. destruct (channel_inv_run i Hr) as [Ho Hx _ Hl Hre]. split; [done|].
  split; [by intros E; rewrite E in Hx|]. specialize (Hl Hn). specialize (Hre Hn).
  rewrite (f_equal length Ho), length_app. destruct (in_dropped i); lia.
Qed.
End channel.
(** A message is sent, and received before the sender reports it; then the
    channel is empty, another is sent, and the receiver goes. *)
Definition overtaken : Instrumented :=
  mkInstrumented (mkChannel [] true false) (mkMetrics (-1) [-1]) [1; 1] [] [7%nat; 8%nat] [7%nat] [8%nat] false.
Lemma channel_metrics_balanced_witness : -1 + 0 + (1 + (1 + 0)) = 2 - 1 ∧ rtc channel_step fresh_channel overtaken.
Proof.
  assert (rtc channel_step fresh_channel overtaken) as Hr.
  { eapply rtc_l; [by eapply (step_send _ _ _ _ _ _ _ 7%nat)|].
    eapply rtc_l; [by eapply step_try_recv|].
    eapply rtc_l; [apply (step_add _ _ [1] (-1) [])|].
    eapply rtc_l; [apply (step_report _ _ _ [] (-1) [])|].
    eapply rtc_l; [by eapply step_try_recv|].
    eapply rtc_l; [by eapply (step_send _ _ _ _ _ _ _ 8%nat)|].
    eapply rtc_l; [apply step_drop_receiver|].
    eapply rtc_l; [by eapply (step_send _ _ _ _ _ _ _ 9%nat)|]. apply rtc_refl. }
  split; [|exact Hr]. apply (channel_metrics_balanced overtaken Hr). done.
Defined.
