(* ===== verification/NetTransport.v ===== *)
(** * Connections over msquic (transport-layer/src/lib.rs, msquic/mod.rs, msquic/quic_settings.rs)

    What an endpoint presents of itself, what every connection tells of its two
    ends (the traits of lib.rs), the configuration given to msquic, and how the
    two ends of a connection come to know each other.  SHA-256, hexadecimal
    and the answers of msquic are parameters. *)
From S2P Require Import Prelude Types Serialize Pkcs12 Pfx.

(** ** Credentials and identities *)
Class Identities : Type := {
  sha256 : bytes → bytes;
  hex_encode : bytes → string;
  ip_to_string : IpAddr → string;
  addr_to_string : SocketAddr → string;
}.
Record NetCredential : Type := mkCredential {
  my_key : bytes;
  my_certs : list bytes;
  root_certs : list bytes;
}.
(** [rcgen] answers with the certificate and the key, if at all. *)
Definition generate_self_signed (rcgen : option (bytes * bytes)) : res NetCredential :=
  let* (cert, key) := unwrap "generate_simple_self_signed" rcgen in Ok (mkCredential key [cert] []).

(** ** The traits
    What [NetConnection] tells of a connection, with its default method. *)
Class NetConnection (C : Type) : Type := {
  local_addr : C → SocketAddr;
  remote_addr : C → SocketAddr;
  local_identity : C → string;
  remote_identity : C → string;
  alpn_negotiated : C → option string;
}.
Definition alpn_negotiated_is `{NetConnection C} (c : C) (protocol : string) : bool :=
  match alpn_negotiated c with Some x => bool_decide (x = protocol) | None => false end.
(** Their contract: the two ends of a connection know each other by the names
    they have themselves. *)
Definition ends_agree `{NetConnection C} (c c' : C) : Prop :=
  remote_identity c = local_identity c' ∧ remote_identity c' = local_identity c.

(** ** What msquic is told (quic_settings.rs) *)
Inductive ConfigFactory : Type := Client | Server.
(** What is not set keeps the default of msquic. *)
Inductive ResumptionLevel : Type := ResumeAndZerortt.
Record Settings : Type := mkSettings {
  ServerResumptionLevel : option ResumptionLevel;
  PeerBidiStreamCount : option N;
  PeerUnidiStreamCount : option N;
  InitialRttMs : option N;
  IdleTimeoutMs : option N;
  MaxAckDelayMs : option N;
}.
Definition build_settings : Settings :=
  mkSettings (Some ResumeAndZerortt) (Some 0%N) (Some 300%N) (Some 2%N) (Some 0%N) (Some 1%N).
Inductive CredentialFlag : Type :=
  | NO_CERTIFICATE_VALIDATION | CLIENT | INDICATE_CERTIFICATE_RECEIVED
  | USE_PORTABLE_CERTIFICATES | REQUIRE_CLIENT_AUTHENTICATION.
Record CredentialConfig : Type := mkCredentialConfig { credential_flags : list CredentialFlag; pkcs12 : bytes }.
Definition cred_flags (f : ConfigFactory) : list CredentialFlag :=
  match f with
  | Client => [NO_CERTIFICATE_VALIDATION; CLIENT; INDICATE_CERTIFICATE_RECEIVED; USE_PORTABLE_CERTIFICATES]
  | Server => [REQUIRE_CLIENT_AUTHENTICATION; NO_CERTIFICATE_VALIDATION; INDICATE_CERTIFICATE_RECEIVED;
               USE_PORTABLE_CERTIFICATES]
  end.

Section identities.
Context `{Identities}.
Definition cert_hash (cert : bytes) : bytes := sha256 cert.
Definition identity (c : NetCredential) : string :=
  match my_certs c with [] => EmptyString | cert :: _ => hex_encode (cert_hash cert) end.

Section msquic.
Context `{Sha1} `{Ciphers} `{Der}.
(** [rand] is the answer of the source of random bytes. *)
Definition build_credential (f : ConfigFactory) (c : NetCredential) (rand : option bytes) : res CredentialConfig :=
  let* pkcs12 := build_pkcs12 (my_certs c) (my_key c) None None rand in
  Ok (mkCredentialConfig (cred_flags f) pkcs12).
(** [open] and [load] are the answers of msquic. *)
Definition config_build (f : ConfigFactory) (alpn : list string) (c : NetCredential) (rand : option bytes)
    (open : list string → Settings → res unit) (load : CredentialConfig → res unit) : res unit :=
  let settings := build_settings in
  let* credential := build_credential f c rand in
  do* open alpn settings in load credential.

(** ** Endpoints over msquic (msquic/mod.rs)
    [Inner] is what msquic tells of a connection. *)
Record Inner : Type := mkInner {
  get_local_addr : option SocketAddr;
  get_remote_addr : option SocketAddr;
  get_negotiated_alpn : option string;
}.
Record MsQuicNetConnection : Type := mkMsQuicConnection {
  mq_inner : Inner; mq_local_identity : string; mq_remote_identity : string;
}.
Definition any_addr : SocketAddr := SockV4 0 0.
#[export] Instance msquic_connection : NetConnection MsQuicNetConnection := {|
  local_addr c := default any_addr (get_local_addr (mq_inner c));
  remote_addr c := default any_addr (get_remote_addr (mq_inner c));
  local_identity := mq_local_identity;
  remote_identity := mq_remote_identity;
  alpn_negotiated c := get_negotiated_alpn (mq_inner c);
|}.
Record MsQuicListener : Type := mkMsQuicListener { ml_local_identity : string }.
Record MsQuicNetIncomingRequest : Type := mkMsQuicRequest { mr_connection : Inner; mr_local_identity : string }.
Definition msquic_create_listener (bind_addr : SocketAddr) (alpn : list string) (c : NetCredential)
    (rand : option bytes) (open : list string → Settings → res unit) (load : CredentialConfig → res unit)
    (new : res unit) (start : list string → SocketAddr → res unit) : res MsQuicListener :=
  do* config_build Server alpn c rand open load in do* new in do* start alpn bind_addr in
  Ok (mkMsQuicListener (identity c)).
(** [remote_cert] is the answer of [receive_remote_certificate]. *)
Definition msquic_connect (addr : SocketAddr) (alpn : list string) (c : NetCredential) (rand : option bytes)
    (open : list string → Settings → res unit) (load : CredentialConfig → res unit)
    (new : res Inner) (start : string → N → res unit) (remote_cert : res bytes) : res MsQuicNetConnection :=
  do* config_build Client alpn c rand open load in let* conn := new in
  do* start (ip_to_string (SocketAddr_ip addr)) (SocketAddr_port addr) in
  let* remote_cert := remote_cert in
  Ok (mkMsQuicConnection conn (identity c) (hex_encode (cert_hash remote_cert))).
Definition msquic_listener_accept (l : MsQuicListener) (accept : res Inner) : res MsQuicNetIncomingRequest :=
  let* connection := accept in Ok (mkMsQuicRequest connection (ml_local_identity l)).
Definition msquic_request_accept (r : MsQuicNetIncomingRequest) (accept : res unit) (remote_cert : res bytes)
    : res MsQuicNetConnection :=
  do* accept in let* remote_cert := remote_cert in
  Ok (mkMsQuicConnection (mr_connection r) (mr_local_identity r) (hex_encode (cert_hash remote_cert))).

(** The two ends of a connection over msquic know each other by the same
    names: when each is told the certificate that the other presents, which is
    the first of the other's credential, the remote identity at one end is the
    local identity at the other; and an end without a certificate never gets
    as far (it panics while the configuration is built). *)
Theorem identities_agree addr alpn client server rand open_c load_c new_c start_c bind alpn' rand' open_l load_l new_l start_l
    accepted accept cert_s cert_c conn l r conn' :
  head (my_certs server) = Some cert_s → head (my_certs client) = Some cert_c →
  msquic_connect addr alpn client rand open_c load_c new_c start_c (Ok cert_s) = Ok conn →
  msquic_create_listener bind alpn' server rand' open_l load_l new_l start_l = Ok l →
  msquic_listener_accept l accepted = Ok r → msquic_request_accept r accept (Ok cert_c) = Ok conn' →
  ends_agree conn conn' ∧
  ∀ c, my_certs c = [] →
    is_panic (msquic_connect addr alpn c rand open_c load_c new_c start_c (Ok cert_s)) = true ∧
    is_panic (msquic_create_listener bind alpn' c rand' open_l load_l new_l start_l) = true.
Proof.
  unfold msquic_connect, msquic_create_listener, msquic_listener_accept, msquic_request_accept, identity.
  intros Hs Hc Hconn Hl Hr Hacc.
  destruct (my_certs server); [done|]. destruct (my_certs client); [done|]. simplify_eq/=.
  res_inv. split; [done|]. unfold config_build, build_credential. by intros c' ->.
Qed.

(** What msquic is given of a credential is its first certificate and its
    key: the root certificates and the rest of the chain change nothing, the
    other end's certificate is never validated but always indicated, and only
    the listener asks for one. *)
Theorem roots_ignored f alpn c c' rand open load : head (my_certs c) = head (my_certs c') → my_key c = my_key c' →
  config_build f alpn c rand open load = config_build f alpn c' rand open load ∧
  NO_CERTIFICATE_VALIDATION ∈ cred_flags f ∧ INDICATE_CERTIFICATE_RECEIVED ∈ cred_flags f ∧
  (REQUIRE_CLIENT_AUTHENTICATION ∈ cred_flags f ↔ f = Server).
Proof.
  intros Hcert Hkey. unfold config_build, build_credential, build_pkcs12. rewrite Hcert, Hkey.
  split; [done|]. destruct f; simpl; set_solver.
Qed.
End msquic.
End identities.
