(* ===== verification/WebTransport.v ===== *)
(** * Connections over WebTransport (transport-layer/src/wtransport/mod.rs, tls.rs)

    The TLS configurations of both ends, the configuration of a listener, the
    choice of the protocol, and messages as whole streams.  The libraries
    rustls, quinn and wtransport are an interface; [Stream] and [Frame] have
    the streams, and the messages over msquic. *)
From S2P Require Import Prelude Types Serialize Frame NetTransport.
Open Scope N_scope.

(** ** TLS (tls.rs) *)
(** Who verifies the certificates of the other end: the one of this file,
    which takes any, or the one of rustls for some trust anchors. *)
Inductive Verifier : Type :=
  | NoCertVerification
  | WebPkiVerifier (roots : list bytes).
Inductive SignatureScheme : Type :=
  | RSA_PKCS1_SHA1 | ECDSA_SHA1_Legacy | RSA_PKCS1_SHA256 | ECDSA_NISTP256_SHA256 | RSA_PKCS1_SHA384
  | ECDSA_NISTP384_SHA384 | RSA_PKCS1_SHA512 | ECDSA_NISTP521_SHA512 | RSA_PSS_SHA256 | RSA_PSS_SHA384
  | RSA_PSS_SHA512 | ED25519 | ED448.
Inductive KeyLog : Type := NoKeyLog | KeyLogFile.
Record TlsConfig : Type := mkTlsConfig {
  tls_verifier : Verifier;
  tls_certs : list bytes;
  tls_key : bytes;
  key_log : KeyLog;
}.

(** rustls: which certificates parse, whether a key fits a chain, and
    what its own verifiers answer. *)
Class Rustls : Type := {
  parsable : bytes → bool;
  key_fits : list bytes → bytes → res unit;
  verifier_build : list bytes → res unit;
  webpki_verify : list bytes → bytes → list bytes → res unit;
  webpki_signature : list bytes → bytes → bytes → bytes → res unit;
  webpki_schemes : list SignatureScheme;
}.
(** Documented: a verifier of client certificates without a trust anchor is
    an error, and so is a chain without an anchor. *)
Class RustlsOk `{Rustls} : Prop := {
  build_no_anchor : is_ok (verifier_build []) = false;
  verify_no_anchor : ∀ cert chain, is_ok (webpki_verify [] cert chain) = false;
}.

Section tls.
Context `{Rustls}.
(** [verify_server_cert] and [verify_client_cert] *)
Definition verify_server_cert (v : Verifier) (end_entity : bytes) (intermediates : list bytes) : res unit :=
  match v with NoCertVerification => Ok () | WebPkiVerifier roots => webpki_verify roots end_entity intermediates end.
Definition verify_client_cert (v : Verifier) (end_entity : bytes) (intermediates : list bytes) : res unit :=
  match v with NoCertVerification => Ok () | WebPkiVerifier roots => webpki_verify roots end_entity intermediates end.
(** [verify_tls13_signature], of either role: both ends only speak TLS 1.3. *)
Definition verify_tls13_signature (v : Verifier) (message cert dss : bytes) : res unit :=
  match v with NoCertVerification => Ok () | WebPkiVerifier roots => webpki_signature roots message cert dss end.
Definition supported_verify_schemes (v : Verifier) : list SignatureScheme :=
  match v with
  | NoCertVerification =>
      [RSA_PKCS1_SHA1; ECDSA_SHA1_Legacy; RSA_PKCS1_SHA256; ECDSA_NISTP256_SHA256; RSA_PKCS1_SHA384;
       ECDSA_NISTP384_SHA384; RSA_PKCS1_SHA512; ECDSA_NISTP521_SHA512; RSA_PSS_SHA256; RSA_PSS_SHA384;
       RSA_PSS_SHA512; ED25519; ED448]
  | WebPkiVerifier _ => webpki_schemes
  end.
Definition root_cert_store (c : NetCredential) : list bytes := filter (λ cert, parsable cert = true) (root_certs c).
Definition create_client_config (is_debug : bool) (c : NetCredential) : res TlsConfig :=
  let verifier := if is_debug then NoCertVerification else WebPkiVerifier (root_cert_store c) in
  do* key_fits (my_certs c) (my_key c) in Ok (mkTlsConfig verifier (my_certs c) (my_key c) KeyLogFile).
Definition server_tls_config (is_debug : bool) (c : NetCredential) : res TlsConfig :=
  if is_debug then
    do* key_fits (my_certs c) (my_key c) in Ok (mkTlsConfig NoCertVerification (my_certs c) (my_key c) NoKeyLog)
  else
    let roots := root_cert_store c in
    do* verifier_build roots in
    do* key_fits (my_certs c) (my_key c) in Ok (mkTlsConfig (WebPkiVerifier roots) (my_certs c) (my_key c) NoKeyLog).
End tls.

(** ** The configuration of a listener
    The settings of quinn that the code changes; the others, and those that
    are [None], keep the default of quinn. *)
Inductive Congestion : Type := Bbr.
Record TransportConfig : Type := mkTransport {
  max_concurrent_uni_streams : option N;
  congestion_controller : option Congestion;
  max_idle_timeout : option Duration;
  keep_alive_interval : option Duration;
  send_window : option N;
}.
Definition TransportConfig_default : TransportConfig := mkTransport None None None None None.
Record ServerConfig : Type := mkServerConfig {
  bind_address : SocketAddr;
  sc_tls : TlsConfig;
  sc_transport : TransportConfig;
  max_udp_payload_size : option N;
  min_reset_interval : option Duration;
}.
Definition millis (n : N) : Duration := n * 1000000.
(** The builder of [create_listener]. *)
Definition server_config_built (bind_addr : SocketAddr) (tls_config : TlsConfig) : ServerConfig :=
  let quic_transport_config := mkTransport (Some 1000) None None None None in
  let with_keep_alive := mkTransport (max_concurrent_uni_streams quic_transport_config) None None
    (Some (millis 1500)) None in
  let with_timeout := mkTransport (max_concurrent_uni_streams with_keep_alive) None (Some (millis 3000))
    (keep_alive_interval with_keep_alive) None in
  mkServerConfig bind_addr tls_config with_timeout None None.
(** The settings made afterwards: [transport_config] puts a new transport in
    the place of the one of the builder. *)
Definition server_config_of (bind_addr : SocketAddr) (tls_config : TlsConfig) : ServerConfig :=
  let server_config := server_config_built bind_addr tls_config in
  let transport_config := mkTransport None (Some Bbr) (Some (millis 10000)) (Some (millis 2000)) (Some (2 * 1024 * 1024)) in
  mkServerConfig (bind_address server_config) (sc_tls server_config) transport_config (Some 65000) (Some (millis 2)).

(** ** Protocols *)
(** [str::split(',')] *)
Fixpoint split_comma (s : string) : list string :=
  match s with
  | EmptyString => [EmptyString]
  | String c s =>
      match split_comma s with
      | [] => [String c EmptyString]
      | w :: ws => if ascii_dec c "," then EmptyString :: w :: ws else String c w :: ws
      end
  end.
(** [join(",")] *)
Fixpoint join_comma (l : list string) : string :=
  match l with
  | [] => EmptyString
  | [w] => w
  | w :: ws => w +:+ String "," (join_comma ws)
  end.
(** [connect] sends the preferred protocols in a header; [accept] takes the
    first of them that the listener supports. *)
Definition alpn_header (alpn_preferred : list string) : string := join_comma alpn_preferred.
Definition alpn_negotiate (alpn_supported : gset string) (header : option string) : option string :=
  alpn_preferred ← header;
  head (filter (λ x, x ≠ EmptyString ∧ x ∈ alpn_supported) (split_comma alpn_preferred)).

(** ** Endpoints *)
Record WTransport : Type := mkWTransport { debug_tls_mode : bool }.
Definition WTransport_default : WTransport := mkWTransport false.
Definition with_debug_tls_mode (_ : WTransport) (mode : bool) : WTransport := mkWTransport mode.
(** What wtransport tells of a connection. *)
Record WtInner : Type := mkWtInner { remote_address : SocketAddr; peer_identity : option (list bytes) }.
Record WTransportConnection : Type := mkWtConnection {
  wc_connection : WtInner;
  wc_local_addr : SocketAddr;
  wc_local_identity : string;
  wc_alpn_negotiated : option string;
}.
Record WTransportListener : Type := mkWtListener {
  wl_endpoint : ServerConfig;
  wl_local_addr : SocketAddr;
  wl_local_identity : string;
  wl_alpn_supported : gset string;
}.
Record WTransportIncomingRequest : Type := mkWtRequest {
  wr_local_addr : SocketAddr;
  wr_local_identity : string;
  wr_alpn_supported : gset string;
}.
Section endpoints.
Context `{Identities} `{Rustls}.
(** [remote_identity]: the certificates of the peer, if it presented any. *)
Definition wt_remote_identity (peer_identity : option (list bytes)) (remote_addr : SocketAddr) : string :=
  match peer_identity with
  | Some (first_cert :: _) => hex_encode (cert_hash first_cert)
  | _ => addr_to_string remote_addr
  end.
#[export] Instance wt_connection : NetConnection WTransportConnection := {|
  local_addr := wc_local_addr;
  remote_addr c := remote_address (wc_connection c);
  local_identity := wc_local_identity;
  remote_identity c := wt_remote_identity (peer_identity (wc_connection c)) (remote_address (wc_connection c));
  alpn_negotiated := wc_alpn_negotiated;
|}.
(** [endpoint] is the answer of the operating system to binding. *)
Definition wt_create_listener (t : WTransport) (bind_addr : SocketAddr) (alpn_supported : list string)
    (c : NetCredential) (endpoint : ServerConfig → res unit) : res WTransportListener :=
  let* tls_config := server_tls_config (debug_tls_mode t) c in
  let server_config := server_config_of bind_addr tls_config in
  do* endpoint server_config in
  Ok (mkWtListener server_config bind_addr (identity c) (list_to_set alpn_supported)).
(** [connected] is the answer to a request to connect, with its URL and the
    header of the preferred protocols. *)
Definition wt_connect (t : WTransport) (addr : SocketAddr) (alpn_preferred : list string) (c : NetCredential)
    (client : TlsConfig → res unit) (connected : string → string → res WtInner) (local : res SocketAddr)
    : res WTransportConnection :=
  let* config := create_client_config (debug_tls_mode t) c in
  do* client config in
  let* connection := connected ("https://" +:+ addr_to_string addr) (alpn_header alpn_preferred) in
  let* local := local in
  Ok (mkWtConnection connection local (identity c) None).
Definition wt_listener_accept (l : WTransportListener) : WTransportIncomingRequest :=
  mkWtRequest (wl_local_addr l) (wl_local_identity l) (wl_alpn_supported l).
(** [request] is the answer to the wait for the request: the value of the
    header, if it has one. *)
Definition wt_request_accept (r : WTransportIncomingRequest) (request : res (option string)) (accept : res WtInner)
    : res WTransportConnection :=
  let* header := request in
  let alpn_negotiated := alpn_negotiate (wr_alpn_supported r) header in
  let* connection := accept in
  Ok (mkWtConnection connection (wr_local_addr r) (wr_local_identity r) alpn_negotiated).
(** [close]: the code is cut to 32 bits. *)
Definition wt_close (code : N) : N := wrap 32 code.
(** [send]: a message is a whole stream. *)
Definition wt_send (open_uni opened : res unit) (write_all finish : res unit) (data : bytes) : res bytes :=
  do* open_uni in do* opened in do* write_all in do* finish in Ok data.
(** [recv]: [read_to_end], a portion at a time, into what is read so far. *)
Fixpoint read_to_end (chunks : list bytes) (ending : StreamEnd) (data : bytes) : res bytes :=
  match chunks with
  | [] => match ending with Finished => Ok data | Broken e => Err e end
  | c :: cs => read_to_end cs ending (data ++ c)
  end.
Definition wt_recv (s : ByteStream) : res bytes := read_to_end (bs_chunks s) (bs_end s) [].
End endpoints.

(** ** The protocol that is chosen *)
Fixpoint no_comma (s : string) : bool :=
  match s with EmptyString => true | String c s => negb (bool_decide (c = ","%char)) && no_comma s end.
Lemma split_no_comma s : no_comma s = true → split_comma s = [s].
Proof.
  induction s as [|c s IH]; [done|]. simpl. intros [Hc Hs]%andb_prop. rewrite (IH Hs).
  destruct (ascii_dec c ",") as [->|]; [done|done].
Qed.
Lemma split_comma_app s t : no_comma s = true → split_comma (s +:+ String "," t) = s :: split_comma t.
Proof.
  assert (∀ t, split_comma t ≠ []) as Hne.
  { intros t'. destruct t'; simpl; [done|]. destruct (split_comma t'); [done|]. by destruct (ascii_dec a ","). }
  induction s as [|c s IH].
  - intros _. change (split_comma (String "," t) = [EmptyString] ++ split_comma t). simpl. specialize (Hne t). by destruct (split_comma t).
  - change (String c s +:+ String "," t) with (String c (s +:+ String "," t)). cbn [split_comma no_comma].
    intros [Hc Hs]%andb_prop. rewrite (IH Hs). destruct (ascii_dec c ",") as [->|]; [done|reflexivity].
Qed.
Lemma split_join l : l ≠ [] → Forall (λ s, no_comma s = true) l → split_comma (join_comma l) = l.
Proof.
  intros Hl Hf. induction Hf as [|s l Hs Hf IH]; [done|]. destruct l as [|s' l]; [by apply split_no_comma|].
  change (join_comma (s :: s' :: l)) with (s +:+ String "," (join_comma (s' :: l))).
  by rewrite split_comma_app, IH.
Qed.
Lemma alpn_negotiate_header supported preferred : Forall (λ s, no_comma s = true) preferred →
  alpn_negotiate supported (Some (alpn_header preferred)) =
    head (filter (λ x, x ≠ EmptyString ∧ x ∈ supported) preferred).
Proof.
  intros Hf. unfold alpn_negotiate, alpn_header. simpl. destruct preferred as [|s l]; [done|]. by rewrite split_join.
Qed.

(** The protocol a WebTransport listener chooses is the first of those
    the client prefers that it supports (names without a comma, and not
    empty), and none when it supports none of them, or when the client sent
    no header. *)
Theorem alpn_negotiate_exact supported preferred :
  Forall (λ s, no_comma s = true) preferred →
  alpn_negotiate supported (Some (alpn_header preferred)) =
    head (filter (λ x, x ≠ EmptyString ∧ x ∈ supported) preferred) ∧
  alpn_negotiate supported None = None ∧
  (∀ p, alpn_negotiate supported (Some (alpn_header preferred)) = Some p → p ∈ preferred ∧ p ∈ supported).
Proof.
  intros Hf. pose proof (alpn_negotiate_header supported preferred Hf) as He.
  split; [done|]. split; [done|]. intros p. rewrite He. intros Hp.
  assert (p ∈ filter (λ x, x ≠ EmptyString ∧ x ∈ supported) preferred) as Hin.
  { destruct (filter _ _); [done|]. injection Hp as ->. apply list_elem_of_here. }
  apply list_elem_of_filter in Hin. naive_solver.
Qed.
Lemma alpn_negotiate_exact_witness :
  alpn_negotiate {["b"; "c"]} (Some (alpn_header ["a"; "c"; "b"])) = Some "c"%string.
Proof.
  transitivity (head (filter (λ x, x ≠ EmptyString ∧ x ∈@{gset string} {["b"; "c"]}) ["a"; "c"; "b"]%string)).
  - apply (alpn_negotiate_exact {["b"; "c"]} ["a"; "c"; "b"]%string). by repeat constructor.
  - reflexivity.
Defined.

(** ** Both ends *)
Section ends.
Context `{Identities} `{Rustls}.
(** The two ends of a WebTransport connection know each other by the names
    they have themselves, when each presents its chain.  Only the listener
    knows the protocol: the client's end never has one, so that
    [alpn_negotiated_is] is false there whatever was chosen. *)
Theorem wt_ends_agree t t' addr preferred client server cl conn_c local bind supported ep l request accept conn conn' :
  my_certs client ≠ [] → my_certs server ≠ [] →
  Forall (λ s, no_comma s = true) preferred →
  wt_connect t addr preferred client cl conn_c local = Ok conn →
  wt_create_listener t' bind supported server ep = Ok l →
  wt_request_accept (wt_listener_accept l) request accept = Ok conn' →
  request = Ok (Some (alpn_header preferred)) →
  peer_identity (wc_connection conn) = Some (my_certs server) →
  peer_identity (wc_connection conn') = Some (my_certs client) →
  ends_agree conn conn' ∧
  alpn_negotiated conn' = head (filter (λ x, x ≠ EmptyString ∧ x ∈@{gset string} list_to_set supported) preferred) ∧
  ∀ p, alpn_negotiated_is conn p = false.
Proof.
  unfold wt_connect, wt_create_listener, wt_request_accept, wt_listener_accept.
  intros Hnc Hns Hp Hconn Hl Hacc -> Hpc Hps. res_inv. unfold ends_agree, alpn_negotiated_is. simpl in *.
  unfold identity. rewrite Hpc, Hps. split; [by destruct (my_certs client), (my_certs server)|].
  split; [by apply alpn_negotiate_header|done].
Qed.

(** Whom an end trusts.  In debug mode any certificate is taken, with any
    signature, on both ends; otherwise exactly what the verifier of rustls
    takes for those of the root certificates that parse. *)
Theorem trust_exact c cfg_c cfg_s debug cert chain msg dss :
  create_client_config debug c = Ok cfg_c → server_tls_config debug c = Ok cfg_s →
  let roots := filter (λ cert, parsable cert = true) (root_certs c) in
  verify_server_cert (tls_verifier cfg_c) cert chain = (if debug then Ok () else webpki_verify roots cert chain) ∧
  verify_client_cert (tls_verifier cfg_s) cert chain = (if debug then Ok () else webpki_verify roots cert chain) ∧
  verify_tls13_signature (tls_verifier cfg_s) msg cert dss = (if debug then Ok () else webpki_signature roots msg cert dss) ∧
  tls_certs cfg_c = my_certs c ∧ tls_certs cfg_s = my_certs c.
Proof. unfold create_client_config, server_tls_config. intros Hc Hs. destruct debug; res_inv; done. Qed.

(** Outside debug mode a credential without a root certificate that parses,
    as [generate_self_signed] makes them, is of no use: no listener comes up
    with it, and a client that has it trusts no server. *)
Theorem no_roots_no_listener `{!RustlsOk} c bind supported ep cfg cert chain :
  Forall (λ cert, parsable cert = false) (root_certs c) →
  is_ok (wt_create_listener WTransport_default bind supported c ep) = false ∧
  (create_client_config (debug_tls_mode WTransport_default) c = Ok cfg →
   is_ok (verify_server_cert (tls_verifier cfg) cert chain) = false) ∧
  ∀ answer self, generate_self_signed answer = Ok self → Forall (λ cert, parsable cert = false) (root_certs self).
Proof.
  intros Hroots. assert (root_cert_store c = []) as He.
  { unfold root_cert_store. induction Hroots as [|x l Hx Hl IH]; [done|]. rewrite filter_cons, decide_False by congruence. done. }
  unfold wt_create_listener, server_tls_config, create_client_config. simpl. rewrite He. split_and!.
  - pose proof build_no_anchor as Hb. by destruct (verifier_build []).
  - intros Hcfg. res_inv. simpl. apply verify_no_anchor.
  - intros answer self Hs. unfold generate_self_signed in Hs. res_inv. constructor.
Qed.

(** The listener runs with the transport set last: what the builder set for
    it has no effect, so the number of streams that a peer may open at once
    is the default of quinn, not the 1000 asked for. *)
Theorem listener_transport t bind supported c ep l : wt_create_listener t bind supported c ep = Ok l →
  let built := sc_transport (server_config_built bind (sc_tls (wl_endpoint l))) in
  let runs := sc_transport (wl_endpoint l) in
  max_concurrent_uni_streams built = Some 1000 ∧ max_concurrent_uni_streams runs = None ∧
  keep_alive_interval built ≠ keep_alive_interval runs ∧ max_idle_timeout built ≠ max_idle_timeout runs ∧
  bind_address (wl_endpoint l) = bind.
Proof. unfold wt_create_listener. intros Hl. res_inv. simpl. split_and!; done. Qed.
End ends.

(** ** Messages on streams
    What a transport promises of its messages: what one end sends on a stream
    the other end receives, however it is cut, and a stream that breaks
    never gives another message. *)
Class MessageStreams : Type := {
  put_message : bytes → bytes;
  take_message : ByteStream → res bytes;
}.
Class MessageStreamsOk `{MessageStreams} (wf : bytes → Prop) : Prop := {
  message_back : ∀ s m, wf_stream s → wf m → stream_bytes s = put_message m → bs_end s = Finished →
    take_message s = Ok m;
  broken_message : ∀ s m e, wf_stream s → wf m → stream_bytes s `prefix_of` put_message m → bs_end s = Broken e →
    take_message s = Err e ∨ take_message s = Ok m;
}.
#[export] Instance msquic_streams : MessageStreams := {|
  put_message := frame;
  take_message s := rmap fst (read_message_from_stream (length (stream_bytes s) + 2) s [] []);
|}.
Definition wt_streams : MessageStreams := {| put_message m := m; take_message := wt_recv |}.
Lemma read_to_end_spec chunks ending data : read_to_end chunks ending data =
  match ending with Finished => Ok (data ++ concat chunks) | Broken e => Err e end.
Proof.
  revert data. induction chunks as [|c cs IH]; intros data; simpl; [by rewrite app_nil_r|]. by rewrite IH, <-app_assoc.
Qed.
Lemma frame_result_broken content e : frame_result content (Broken e) = Some (Err e) ∨
  (frame_result content (Broken e) = Some (Ok []) ∧ 4 ≤ blen content ∧ from_be_bytes (take 4 content) = 0).
Proof.
  unfold frame_result. destruct (N.ltb_spec (blen content) 4); [by left|].
  destruct (N.eqb_spec (from_be_bytes (take 4 content)) 0); [by right|]. left. by destruct (_ <=? _).
Qed.
#[export] Instance msquic_streams_ok : @MessageStreamsOk msquic_streams (λ m, fits 32 (blen m)).
Proof.
  split; simpl.
  - intros s m Hwf Hm Hs He. apply (frame_roundtrip s m [] _ Hwf Hm He); [by rewrite app_nil_r|]. rewrite Hs. lia.
  - intros s m e Hwf Hm [rest Hs] He. pose proof (read_message_start (length (stream_bytes s) + 2) s Hwf) as Hr.
    rewrite He in Hr. destruct (frame_result_broken (stream_bytes s) e) as [Hf|(Hf & Hlen & Hz)]; rewrite Hf in Hr;
      [left|right]; rewrite Hr by lia; [done|]. f_equal.
    assert (take 4 (stream_bytes s) = take 4 (frame m)) as Ht.
    { rewrite Hs, take_app_le; [done|]. unfold blen in Hlen. lia. }
    rewrite Ht in Hz. unfold frame in Hz. rewrite take_app_length' in Hz by (symmetry; apply Nat2N.inj, (blen_to_be_bytes 4)).
    unfold wrap in Hz. rewrite N.mod_small, from_to_be_bytes in Hz by done. symmetry. by apply blen_0.
Qed.
Lemma wt_streams_ok : @MessageStreamsOk wt_streams (λ _, True).
Proof.
  split; simpl; unfold wt_recv.
  - intros s m _ _ Hs He. by rewrite read_to_end_spec, He, <-Hs.
  - intros s m e _ _ _ He. left. by rewrite read_to_end_spec, He.
Qed.

(** A receiver that takes the streams in the order in which they were
    opened ([accept_recv], then [recv]). *)
Fixpoint recv_all `{MessageStreams} (streams : list ByteStream) : res (list bytes) :=
  match streams with
  | [] => Ok []
  | s :: streams => let* m := take_message s in let* ms := recv_all streams in Ok (m :: ms)
  end.
Definition carries `{MessageStreams} (m : bytes) (s : ByteStream) : Prop :=
  wf_stream s ∧ stream_bytes s = put_message m ∧ bs_end s = Finished.
(** Over either transport, whatever the streams are cut into, the receiver
    gets the messages that were sent, one per stream. *)
Theorem messages_relayed `{MessageStreamsOk wf} ms streams : Forall wf ms → Forall2 carries ms streams →
  recv_all streams = Ok ms.
Proof.
  intros Hwf Hc. induction Hc as [|m s ms streams (Hs & Hb & He) Hc IH]; [done|].
  apply Forall_cons in Hwf as [Hm Hwf]. simpl. rewrite (message_back s m) by done. simpl. by rewrite IH.
Qed.
Lemma messages_relayed_witness :
  @recv_all msquic_streams [mkByteStream [[u8 0; u8 0]; [u8 0; u8 1; u8 7]] Finished; mkByteStream [[u8 0; u8 0; u8 0; u8 0]] Finished] =
    Ok [[u8 7]; []] ∧
  @recv_all wt_streams [mkByteStream [[u8 1]; [u8 2; u8 3]] Finished] = Ok [[u8 1; u8 2; u8 3]].
Proof.
  split.
  - apply (@messages_relayed msquic_streams (λ m, fits 32 (blen m)) msquic_streams_ok); repeat constructor; done.
  - apply (@messages_relayed wt_streams (λ _, True) wt_streams_ok); repeat constructor; done.
Defined.

(** A stream that is finished too early goes unnoticed over WebTransport,
    where messages have no length: the receiver takes its part for a message. *)
Theorem wt_short_message_accepted m sent s : sent `prefix_of` @put_message wt_streams m →
  stream_bytes s = sent → bs_end s = Finished → @take_message wt_streams s = Ok sent.
Proof. intros _ Hb He. simpl. unfold wt_recv. by rewrite read_to_end_spec, He, <-Hb. Qed.

(** The code of a close is cut to 32 bits over WebTransport. *)
Theorem wt_close_cut code : wt_close code = code ↔ fits 32 code.
Proof.
  unfold wt_close, wrap. split; [|apply N.mod_small]. intros <-. by apply N.mod_lt.
Qed.

(** ** The interface can be met *)
Module ToyRustls.
(** One certificate, [7], is trusted when it is an anchor. *)
#[export] Instance toy : Rustls := {|
  parsable cert := bool_decide (cert ≠ []);
  key_fits certs key := if bool_decide (certs = []) then Err "NoCertificatesPresented" else Ok ();
  verifier_build roots := if bool_decide (roots = []) then Err "NoRootAnchors" else Ok ();
  webpki_verify roots cert chain := if bool_decide (cert ∈ roots) then Ok () else Err "UnknownIssuer";
  webpki_signature roots msg cert dss := if bool_decide (dss = msg) then Ok () else Err "BadSignature";
  webpki_schemes := [ED25519];
|}.
#[export] Instance toy_ok : RustlsOk.
Proof. split; [done|]. intros cert chain. reflexivity. Qed.
#[export] Instance names : Identities := {|
  sha256 b := b; hex_encode := bytes_str; ip_to_string _ := "127.0.0.1"%string; addr_to_string _ := "127.0.0.1:80"%string;
|}.
Definition alice : NetCredential := mkCredential [u8 1] [[u8 65]] [[u8 66]].
Definition bob : NetCredential := mkCredential [u8 2] [[u8 66]] [[u8 65]].
Definition bind : SocketAddr := SockV4 2130706433 80.
Definition endpoint (_ : ServerConfig) : res unit := Ok ().
Definition at_alice : WTransportConnection :=
  mkWtConnection (mkWtInner bind (Some [[u8 66]])) bind "A" None.
Definition at_bob : WTransportConnection :=
  mkWtConnection (mkWtInner bind (Some [[u8 65]])) bind "B" (Some "x"%string).
End ToyRustls.
Import ToyRustls.
Lemma wt_ends_agree_witness : ends_agree ToyRustls.at_alice ToyRustls.at_bob.
Proof.
  refine (proj1 (wt_ends_agree WTransport_default WTransport_default ToyRustls.bind ["x"]%string
    ToyRustls.alice ToyRustls.bob (λ _, Ok ()) (λ _ _, Ok (mkWtInner ToyRustls.bind (Some [[u8 66]])))
    (Ok ToyRustls.bind) ToyRustls.bind ["y"; "x"]%string (λ _, Ok ())
    (mkWtListener (server_config_of ToyRustls.bind (mkTlsConfig (WebPkiVerifier [[u8 65]]) [[u8 66]] [u8 2] NoKeyLog))
      ToyRustls.bind "B" (list_to_set ["y"; "x"]%string))
    (Ok (Some "x"%string)) (Ok (mkWtInner ToyRustls.bind (Some [[u8 65]]))) ToyRustls.at_alice ToyRustls.at_bob
    _ _ _ _ _ _ _ _ _)); first [done | by repeat constructor | by vm_compute].
Defined.
