(* ===== verification/ErrorText.v ===== *)
(** * Error messages on one line (transport-layer/src/utils.rs)

    [repl] replaces again and again until a pattern is gone.  Strings are
    lists of bytes; [str::contains] and [str::replace] work on them alike. *)
From S2P Require Import Prelude.

Fixpoint is_prefix (p s : bytes) : bool :=
  match p, s with
  | [], _ => true
  | x :: p, y :: s => bool_decide (x = y) && is_prefix p s
  | _, [] => false
  end.
Fixpoint contains (s old : bytes) : bool :=
  is_prefix old s || match s with [] => false | _ :: s => contains s old end.
(** [str::replace]: from left to right, the occurrences not overlapping; [skip]
    bytes of the last one are still to be passed over.  An empty pattern
    matches before every character and at the end. *)
Fixpoint replace_from (skip : nat) (s old new : bytes) : bytes :=
  match s with
  | [] => match skip, old with O, [] => new | _, _ => [] end
  | x :: s' =>
      match skip with
      | S k => replace_from k s' old new
      | O =>
          if is_prefix old s
          then new ++ (match old with [] => x :: replace_from 0 s' old new
                       | _ => replace_from (length old - 1) s' old new end)
          else x :: replace_from 0 s' old new
      end
  end.
Definition replace (s old new : bytes) : bytes := replace_from 0 s old new.
(** One pair of [repl]; the fuel bounds the rounds of the loop. *)
Fixpoint repl_while (fuel : nat) (s old new : bytes) : res bytes :=
  match fuel with
  | O => OutOfFuel
  | S fuel => if contains s old then repl_while fuel (replace s old new) old new else Ok s
  end.
Fixpoint repl (fuel : nat) (s : bytes) (old_new : list (bytes * bytes)) : res bytes :=
  match old_new with
  | [] => Ok s
  | (old, new) :: rest => let* s := repl_while fuel s old new in repl fuel s rest
  end.
Definition newline : bytes := [u8 10].
Definition detailed_patterns : list (bytes * bytes) :=
  [(newline, str_bytes " "); (str_bytes "  ", str_bytes " "); (str_bytes "( ", str_bytes "(");
   (str_bytes " )", str_bytes ")"); (str_bytes "{ ", str_bytes "{"); (str_bytes " }", str_bytes "}");
   (str_bytes ",)", str_bytes ")"); (str_bytes ",}", str_bytes "}")].
(** [debug] is [format!("{err:#?}")]. *)
Definition detailed (fuel : nat) (debug : bytes) : res bytes := repl fuel debug detailed_patterns.

(** ** Every round shortens the text, or removes the pattern for good *)
Lemma is_prefix_app p s : is_prefix p s = true → ∃ r, s = p ++ r.
Proof.
  revert s. induction p as [|x p IH]; intros s; [by exists s|]. destruct s as [|y s]; [done|]. simpl.
  intros [Hx Hp]%andb_prop. apply bool_decide_eq_true in Hx as ->. destruct (IH s Hp) as [r ->]. by exists r.
Qed.
Lemma replace_skip k s old new : (k ≤ length s)%nat → old ≠ [] →
  replace_from k s old new = replace_from 0 (drop k s) old new.
Proof.
  revert s. induction k as [|k IH]; intros s Hk Ho; [done|]. destruct s as [|x s]; [simpl in Hk; lia|].
  simpl in *. apply IH; [lia|done].
Qed.
Lemma replace_at s old new : old ≠ [] → is_prefix old s = true →
  replace s old new = new ++ replace (drop (length old) s) old new.
Proof.
  intros Ho Hp. destruct (is_prefix_app _ _ Hp) as [r ->]. destruct old as [|o old]; [done|].
  unfold replace at 1. cbn [app replace_from]. cbn [app] in Hp. rewrite Hp. f_equal.
  rewrite replace_skip; [|rewrite length_app; simpl; lia|done]. simpl. by rewrite Nat.sub_0_r.
Qed.
Lemma replace_not_at x s old new : is_prefix old (x :: s) = false →
  replace (x :: s) old new = x :: replace s old new.
Proof. intros Hp. unfold replace at 1. cbn [replace_from]. by rewrite Hp. Qed.
Lemma replace_length_le n s old new : (length s < n)%nat → old ≠ [] → (length new ≤ length old)%nat →
  (length (replace s old new) ≤ length s)%nat.
Proof.
  revert s. induction n as [|n IH]; intros s Hn Ho Hl; [lia|].
  destruct s as [|x s]; [by destruct old|]. destruct (is_prefix old (x :: s)) eqn:Hp.
  - rewrite replace_at, length_app by done. destruct (is_prefix_app _ _ Hp) as [r Hr].
    assert (length (x :: s) = length old + length r)%nat as Hlen by (by rewrite Hr, length_app).
    specialize (IH (drop (length old) (x :: s))). rewrite length_drop in IH.
    assert (length old ≠ 0)%nat by (by destruct old). lia.
  - rewrite replace_not_at by done. simpl in *. specialize (IH s). lia.
Qed.
Lemma replace_shorter n s old new : (length s < n)%nat → old ≠ [] → (length new < length old)%nat →
  contains s old = true → (length (replace s old new) < length s)%nat.
Proof.
  revert s. induction n as [|n IH]; intros s Hn Ho Hl Hc; [lia|].
  destruct s as [|x s]; [by destruct old|]. destruct (is_prefix old (x :: s)) eqn:Hp.
  - rewrite replace_at, length_app by done. destruct (is_prefix_app _ _ Hp) as [r Hr].
    assert (length (x :: s) = length old + length r)%nat as Hlen by (by rewrite Hr, length_app).
    specialize (replace_length_le (S (length (drop (length old) (x :: s)))) (drop (length old) (x :: s)) old new).
    rewrite length_drop. assert (length old ≠ 0)%nat by (by destruct old). intros IH'. specialize (IH' ltac:(lia) Ho ltac:(lia)). lia.
  - rewrite replace_not_at by done. cbn [contains] in Hc. rewrite Hp in Hc. simpl in *. specialize (IH s). lia.
Qed.
Lemma repl_while_shorter n s old new : (length s < n)%nat → old ≠ [] → (length new < length old)%nat →
  ∃ r, repl_while n s old new = Ok r ∧ contains r old = false ∧ (length r ≤ length s)%nat.
Proof.
  revert s. induction n as [|n IH]; intros s Hn Ho Hl; [lia|]. simpl. destruct (contains s old) eqn:Hc.
  - specialize (replace_shorter (S (length s)) s old new ltac:(lia) Ho Hl Hc) as Hs.
    destruct (IH (replace s old new)) as (r & -> & Hr & Hlr); [lia|done..|]. exists r. repeat split; [done|lia].
  - by exists s.
Qed.
(** Replacing one byte by another one. *)
Lemma contains_byte s x : contains s [x] = bool_decide (x ∈ s).
Proof.
  induction s as [|y s IH]; [done|]. cbn [contains is_prefix]. rewrite IH, andb_true_r.
  repeat case_bool_decide; set_solver.
Qed.
Lemma replace_byte s x y : replace s [x] [y] = (λ z, if decide (z = x) then y else z) <$> s.
Proof.
  induction s as [|z s IH]; [done|]. csimpl. destruct (decide (z = x)) as [->|Hz].
  - rewrite replace_at; [|done|by simpl; rewrite bool_decide_eq_true_2]. simpl. by rewrite drop_0, IH.
  - rewrite replace_not_at; [by rewrite IH|]. simpl. rewrite bool_decide_eq_false_2; naive_solver.
Qed.
Lemma repl_while_byte n s x y : (2 ≤ n)%nat → x ≠ y →
  ∃ r, repl_while n s [x] [y] = Ok r ∧ contains r [x] = false ∧ (length r ≤ length s)%nat.
Proof.
  intros Hn Hxy. assert (∀ s, contains (replace s [x] [y]) [x] = false) as Hgone.
  { intros s'. rewrite contains_byte, replace_byte. apply bool_decide_eq_false_2.
    intros (z & Hz & _)%list_elem_of_fmap. destruct (decide (z = x)); naive_solver. }
  destruct n as [|[|n]]; [lia..|]. simpl. destruct (contains s [x]) eqn:Hc; [|by exists s].
  rewrite Hgone. eexists. split; [done|]. split; [apply Hgone|]. rewrite replace_byte. by rewrite length_fmap.
Qed.
(** A pattern without [x] brings no [x]. *)
Lemma replace_keeps_out n s old new x : (length s < n)%nat → old ≠ [] → x ∉ new → x ∉ s → x ∉ replace s old new.
Proof.
  revert s. induction n as [|n IH]; intros s Hn Ho Hx Hs; [lia|].
  destruct s as [|y s]; [by destruct old|]. destruct (is_prefix old (y :: s)) eqn:Hp.
  - rewrite replace_at by done. intros [?|Hin]%elem_of_app; [done|].
    apply (IH (drop (length old) (y :: s))) in Hin; try done.
    + rewrite length_drop. assert (length old ≠ 0)%nat by (by destruct old). simpl in *. lia.
    + intros Hd. apply Hs. rewrite <-(take_drop (length old) (y :: s)). apply elem_of_app. by right.
  - rewrite replace_not_at by done. apply not_elem_of_cons in Hs as [??]. simpl in Hn.
    apply not_elem_of_cons. split; [done|]. apply IH; [lia|done..].
Qed.
Lemma repl_while_keeps_out n s old new x r : repl_while n s old new = Ok r → old ≠ [] → x ∉ new → x ∉ s → x ∉ r.
Proof.
  revert s. induction n as [|n IH]; intros s Hr Ho Hx Hs; [done|]. simpl in Hr.
  destruct (contains s old); [|by injection Hr as <-].
  apply (IH _ Hr Ho Hx). by apply (replace_keeps_out (S (length s))); [lia|..].
Qed.
(** The pairs that shorten. *)
Lemma repl_shortening n s old_new x : (length s < n)%nat →
  Forall (λ p, p.1 ≠ [] ∧ (length p.2 < length p.1)%nat ∧ x ∉ p.2) old_new → x ∉ s →
  ∃ r, repl n s old_new = Ok r ∧ (length r ≤ length s)%nat ∧ x ∉ r.
Proof.
  intros Hn Hp. revert s Hn. induction Hp as [|[old new] ps (Ho & Hl & Hx) Hp IH]; intros s Hn Hs; [by exists s|].
  simpl in *. destruct (repl_while_shorter n s old new Hn Ho Hl) as (r & Hr & _ & Hlr). rewrite Hr. simpl.
  destruct (IH r) as (r' & -> & Hl' & Hx'); [lia|by apply (repl_while_keeps_out n s old new x)|].
  exists r'. repeat split; [lia|done].
Qed.

(** C31: [detailed] always returns: with two rounds more than the message has
    bytes its loops end; the result is on one line and no longer than the
    message. *)
Theorem detailed_returns debug : ∃ r,
  detailed (length debug + 2) debug = Ok r ∧ contains r newline = false ∧ (length r ≤ length debug)%nat.
Proof.
  unfold detailed, detailed_patterns. cbn [repl].
  destruct (repl_while_byte (length debug + 2) debug (u8 10) (u8 32)) as (r & Hr & Hc & Hl); [lia|done|].
  change (repl_while _ debug newline (str_bytes " ")) with (repl_while (length debug + 2) debug [u8 10] [u8 32]).
  rewrite Hr. cbn [rbind]. rewrite contains_byte in Hc. apply bool_decide_eq_false in Hc.
  match goal with |- ∃ r, ?e = Ok r ∧ _ => change e with (repl (length debug + 2) r (tail detailed_patterns)) end.
  destruct (repl_shortening (length debug + 2) r (tail detailed_patterns) (u8 10)) as (r' & -> & Hl' & Hx); [lia| |done|].
  { unfold detailed_patterns. repeat constructor; simpl; try lia; try done; by apply (bool_decide_unpack _). }
  exists r'. split; [done|]. split; [|lia]. unfold newline. rewrite contains_byte. by apply bool_decide_eq_false_2.
Qed.
(** Without the condition on the lengths the loop would not end. *)
Lemma repl_may_loop fuel : repl fuel (str_bytes "a") [(str_bytes "a", str_bytes "aa")] = OutOfFuel.
Proof.
  assert (∀ n s, repl_while n (str_bytes "a" ++ s) (str_bytes "a") (str_bytes "aa") = OutOfFuel) as Hl.
  { induction n as [|n IH]; intros s; [done|]. simpl. apply (IH ("a"%char :: replace s (str_bytes "a") (str_bytes "aa"))). }
  specialize (Hl fuel []). rewrite app_nil_r in Hl. cbn [repl]. by rewrite Hl.
Qed.
