(* ===== verification/LiteServer.v ===== *)
(** * The block server (transport-layer/src/server.rs)

    Blocks come in over a channel, are encoded with the address of their
    producer and broadcast to a logger and to one task per client.  The
    answers of the broadcast channel, of the clients' connections and of the
    listener are inputs; bincode and the resolver of addresses are
    parameters. *)
From S2P Require Import Prelude.
Open Scope N_scope.

(** ** Data *)
(** [broadcast::Receiver::recv] *)
Inductive RecvAnswer : Type := Received (msg : bytes) | Lagged (n : N) | RecvClosed.
(** How a task ends; [None] is a task that still waits. *)
Definition TaskEnd : Type := option (res unit).

Section server.
Context {AccountId : Type}.
(** The resolver is [FnMut]: it has a state. *)
Context {R : Type} (bp_resolver : R → AccountId → option string * R).
Context (bincode_serialize : option string * bytes → res bytes).

(** ** message_multiplexor *)
(** The messages broadcast for the blocks received; the channel of blocks is
    closed after them, or not. *)
Fixpoint message_multiplexor (st : R) (blocks : list (AccountId * bytes)) (closed : bool) : list bytes * TaskEnd :=
  match blocks with
  | [] => ([], if closed then Some (Err "receiving on a closed channel") else None)
  | (node_id, raw_block) :: blocks =>
      let '(node_addr, st) := bp_resolver st node_id in
      match bincode_serialize (node_addr, raw_block) with
      | Ok msg => let '(msgs, ending) := message_multiplexor st blocks closed in (msg :: msgs, ending)
      | Err e => ([], Some (Err e))
      | Panic e => ([], Some (Panic e))
      | OutOfFuel => ([], Some OutOfFuel)
      end
  end.

(** ** sessions_handler *)
(** The logger prints the first ten bytes of every message. *)
Fixpoint logger_loop (answers : list RecvAnswer) : TaskEnd :=
  match answers with
  | [] => None
  | Received msg :: answers =>
      if blen msg <? 10 then Some (Panic "range end index 10 out of range") else logger_loop answers
  | Lagged _ :: _ => Some (Err "channel lagged")
  | RecvClosed :: _ => Some (Err "channel closed")
  end.
(** The task of a client: what it hands to [connection.send], and its end;
    every answer of the broadcast comes with the answer of [send]. *)
Fixpoint session_loop (turns : list (RecvAnswer * res unit)) : list bytes * TaskEnd :=
  match turns with
  | [] => ([], None)
  | (Received data, sent) :: turns =>
      match sent with
      | Ok _ => let '(msgs, ending) := session_loop turns in (data :: msgs, ending)
      | r => ([data], Some r)
      end
  | (Lagged _, _) :: _ => ([], Some (Err "channel lagged"))
  | (RecvClosed, _) :: _ => ([], Some (Err "channel closed"))
  end.
Definition session (accept : res unit) (turns : list (RecvAnswer * res unit)) : list bytes * TaskEnd :=
  match accept with Ok _ => session_loop turns | r => ([], Some r) end.
(** The pool: a new task is put into it, or one of its tasks has ended, with
    a panic turned into an error. *)
Inductive PoolEvent : Type := TaskQueued | QueueClosed | TaskEnded (r : res unit).
Definition join_result (r : res unit) : res unit :=
  match r with Panic e => Err ("task panicked: " ++ e) | r => r end.
Fixpoint pool_loop (events : list PoolEvent) : TaskEnd :=
  match events with
  | [] => None
  | TaskQueued :: events => pool_loop events
  | QueueClosed :: _ => Some (Err "channel was closed")
  | TaskEnded r :: events =>
      match join_result r with Ok _ => pool_loop events | e => Some e end
  end.
(** [start]: the first of the three tasks to end decides. *)
Definition start (first_ended : res unit) : res unit := join_result first_ended.
(** [server]: the requests handed to the sessions; errors of [accept] are
    logged. *)
Fixpoint server_loop {Req} (accepted : list (res Req)) (session_sender : Req → bool) : list Req * TaskEnd :=
  match accepted with
  | [] => ([], None)
  | Ok req :: accepted =>
      if session_sender req
      then let '(reqs, ending) := server_loop accepted session_sender in (req :: reqs, ending)
      else ([], Some (Err "sending on a closed channel"))
  | _ :: accepted => server_loop accepted session_sender
  end.

(** ** What they do *)
(** The addresses, with the states of the resolver. *)
Fixpoint resolve_all (st : R) (blocks : list (AccountId * bytes)) : list (option string * bytes) :=
  match blocks with
  | [] => []
  | (node_id, raw_block) :: blocks =>
      let '(node_addr, st) := bp_resolver st node_id in (node_addr, raw_block) :: resolve_all st blocks
  end.
(** Every block is broadcast once, in the order received, with the address
    the resolver gives its producer at that time; the multiplexor ends only
    when the channel of the blocks is closed, or when a block cannot be
    encoded, and then every block before it was broadcast. *)
Theorem multiplexor_relays st blocks closed :
  let '(msgs, ending) := message_multiplexor st blocks closed in
  let inputs := resolve_all st blocks in
  Ok <$> msgs = bincode_serialize <$> take (length msgs) inputs ∧
  match ending with
  | None => closed = false ∧ length msgs = length blocks
  | Some r => closed = true ∧ length msgs = length blocks ∨
      (∃ input, inputs !! length msgs = Some input ∧ is_ok (bincode_serialize input) = false)
  end.
Proof.
  revert st. induction blocks as [|[id b] blocks IH]; intros st; simpl.
  { split; [done|]. destruct closed; naive_solver. }
  destruct (bp_resolver st id) as [addr st'] eqn:Er. specialize (IH st').
  destruct (bincode_serialize (addr, b)) as [msg|e|e|] eqn:Es; simpl;
    [|split; [done|]; right; exists (addr, b); by rewrite Es..].
  destruct (message_multiplexor st' blocks closed) as [msgs ending]. destruct IH as [IH1 IH2].
  csimpl. rewrite IH1, Es. split; [done|]. destruct ending; naive_solver.
Qed.

(** A turn of a client's task after which it goes on. *)
Definition goes_on (t : RecvAnswer * res unit) : bool :=
  match t.1 with Received _ => is_ok t.2 | _ => false end.
Definition received (t : RecvAnswer * res unit) : option bytes :=
  match t.1 with Received m => Some m | _ => None end.
(** A client is sent the messages that its task receives, each once and
    in order, for as long as every one of them can be sent; the task ends at
    the first message that cannot be sent, at the first gap in the broadcast
    and at its end, always with an error, and not before. *)
Theorem session_forwards turns :
  let '(msgs, ending) := session (Ok ()) turns in
  ∃ before, Forall (λ t, goes_on t = true) before ∧
  match ending with
  | None => turns = before ∧ msgs = omap received before
  | Some r => is_ok r = false ∧ ∃ t after, turns = before ++ t :: after ∧ goes_on t = false ∧
      msgs = omap received (before ++ [t])
  end.
Proof.
  simpl. induction turns as [|[a sent] turns IH]; simpl.
  { exists []. by repeat split. }
  destruct a as [m|n|].
  - destruct sent as [u|e|e|].
    + destruct (session_loop turns) as [msgs ending]. destruct IH as (before & Hb & IH).
      exists ((Received m, Ok u) :: before). split; [by constructor|]. destruct ending as [r|].
      * destruct IH as (Hr & t & after & -> & Ht & ->). split; [done|]. by exists t, after.
      * destruct IH as [-> ->]. done.
    + exists []. split; [done|]. split; [done|]. by eexists (_, _), _.
    + exists []. split; [done|]. split; [done|]. by eexists (_, _), _.
    + exists []. split; [done|]. split; [done|]. by eexists (_, _), _.
  - exists []. split; [done|]. split; [done|]. by eexists (_, _), _.
  - exists []. split; [done|]. split; [done|]. by eexists (_, _), _.
Qed.

(** One task ends the handler: as soon as the task of one client, or the
    logger, ends with an error or a panic, the handler of the sessions returns
    an error, and with it [start]; it goes on exactly as long as no task has
    failed and the queue of new tasks is open.  What the other tasks do then
    is in [BlockRelay]. *)
Theorem one_task_ends_all events :
  match pool_loop events with
  | None => Forall (λ ev, match ev with TaskQueued => True | QueueClosed => False | TaskEnded r => is_ok r = true end) events
  | Some r => is_ok r = false ∧ is_panic r = false ∧ start r = r ∧
      ∃ before ev after, events = before ++ ev :: after ∧ pool_loop before = None ∧
        match ev with TaskQueued => False | QueueClosed => True | TaskEnded r' => is_ok r' = false end
  end.
Proof.
  induction events as [|[| |r] events IH]; simpl; [done|..].
  - destruct (pool_loop events) as [r|]; [|by constructor].
    destruct IH as (? & ? & ? & before & ev & after & -> & ? & ?). repeat split; try done. by exists (TaskQueued :: before), ev, after.
  - repeat split. by exists [], QueueClosed, events.
  - destruct r as [u|e|e|]; simpl.
    + destruct (pool_loop events) as [r|]; [|by constructor].
      destruct IH as (? & ? & ? & before & ev & after & -> & ? & ?). repeat split; try done.
      by exists (TaskEnded (Ok u) :: before), ev, after.
    + repeat split. by exists [], (TaskEnded (Err e)), events.
    + repeat split. by exists [], (TaskEnded (Panic e)), events.
    + repeat split. by exists [], (TaskEnded OutOfFuel), events.
Qed.
End server.

(** The encoding of bincode: a byte for the option, eight for every length. *)
Definition bincode_size (v : option string * bytes) : N :=
  1 + match v.1 with Some addr => 8 + slen addr | None => 0 end + 8 + blen v.2.
(** An empty block of an unknown producer is too short for the logger. *)
Lemma empty_block_ends_logger bincode msg answers : (∀ v, ∃ b, bincode v = Ok b ∧ blen b = bincode_size v) →
  bincode (None, []) = Ok msg → is_panic <$> logger_loop (Received msg :: answers) = Some true.
Proof. intros Hb Hm. destruct (Hb (None, [])) as (b & Hb' & Hlen). rewrite Hm in Hb'. simplify_eq. simpl. by rewrite Hlen. Qed.
