(* ===== verification/BlockRelay.v ===== *)
(** * The block server at work (transport-layer/src/server.rs)

    [LiteServer::start] with all its tasks: the multiplexor, the logger, the
    task that accepts requests, a task per client, the pool that watches them,
    and [start] itself.  A step is a turn of one of them.  The tasks outlive
    the handles that [start] and the pool drop. *)
From S2P Require Import Prelude LiteServer.

(** ** The broadcast channel (tokio)

    Every receiver has its place among the messages sent since the channel
    was made.  A receiver that is behind by more than the capacity has lost
    messages: the next [recv] says so. *)
Class Broadcasts : Type := {
  Broadcast : Type;
  bc_channel : nat → Broadcast;
  bc_subscribe : Broadcast → Broadcast * nat;
  bc_send : Broadcast → bytes → Broadcast;
  (** [None] while there is nothing to receive *)
  bc_recv : Broadcast → nat → option (RecvAnswer * Broadcast);
  (** the messages sent, the places of the receivers, the capacity *)
  bc_log : Broadcast → list bytes;
  bc_place : Broadcast → nat → option nat;
  bc_capacity : Broadcast → nat;
}.
(** Only the place of [rx] differs. *)
Record only_moves `{Broadcasts} (b b' : Broadcast) (rx : nat) : Prop := {
  om_log : bc_log b' = bc_log b;
  om_place rx' : rx' ≠ rx → bc_place b' rx' = bc_place b rx';
  om_capacity : bc_capacity b' = bc_capacity b;
}.
Class BroadcastsOk `{Broadcasts} : Prop := {
  bc_channel_log n : bc_log (bc_channel n) = [];
  bc_channel_capacity n : (n ≤ bc_capacity (bc_channel n))%nat;
  bc_subscribe_ok b : let '(b', rx) := bc_subscribe b in
    bc_place b rx = None ∧ bc_place b' rx = Some (length (bc_log b)) ∧ only_moves b b' rx;
  bc_send_log b m : bc_log (bc_send b m) = bc_log b ++ [m];
  bc_send_place b m rx : bc_place (bc_send b m) rx = bc_place b rx;
  bc_send_capacity b m : bc_capacity (bc_send b m) = bc_capacity b;
  bc_recv_up_to_date b rx : bc_place b rx = Some (length (bc_log b)) → bc_recv b rx = None;
  bc_recv_next b rx p m : bc_place b rx = Some p → bc_log b !! p = Some m →
    (length (bc_log b) ≤ p + bc_capacity b)%nat →
    ∃ b', bc_recv b rx = Some (Received m, b') ∧ bc_place b' rx = Some (S p) ∧ only_moves b b' rx;
  bc_recv_lagged b rx p : bc_place b rx = Some p → (p + bc_capacity b < length (bc_log b))%nat →
    ∃ n b', bc_recv b rx = Some (Lagged n, b') ∧ only_moves b b' rx;
}.

Definition DEFAULT_BROADCAST_CAPACITY : nat := 10.

Section relay.
Context `{Broadcasts} {AccountId R : Type} (bp_resolver : R → AccountId → option string * R).
Context (bincode_serialize : option string * bytes → res bytes).

(** The task of a client: it waits for the connection, for the broadcast, or
    for [send]. *)
Inductive SessionState : Type :=
  | Accepting
  | Receiving (brx : nat)
  | Sending (brx : nat) (data : bytes)
  | SessionEnded (r : res unit).
(** [cl_sent] is what [send] has taken, [cl_from] where the client came in. *)
Record Client : Type := mkClient { cl_state : SessionState; cl_sent : list bytes; cl_from : nat }.
Inductive LoggerState : Type := LoggerStarting | Logging (brx : nat) | LoggerEnded (r : res unit).
(** The ends of the tasks are [None] while they run.  [rl_done] are the blocks
    that the multiplexor took, [rl_requests] counts the requests in the queue
    of the accepting task. *)
Record Relay : Type := mkRelay {
  rl_btx : Broadcast;
  rl_resolver : R;
  rl_blocks : list (AccountId * bytes);
  rl_done : list (AccountId * bytes);
  rl_clients : list Client;
  rl_logger : LoggerState;
  rl_requests : nat;
  rl_multiplexor : TaskEnd;
  rl_server : TaskEnd;
  rl_acceptor : TaskEnd;
  rl_handler : TaskEnd;
  rl_start : TaskEnd;
}.
Definition relay_start (st : R) : Relay :=
  mkRelay (bc_channel DEFAULT_BROADCAST_CAPACITY) st [] [] [] LoggerStarting 0 None None None None None.
Definition set_btx (b : Broadcast) (s : Relay) : Relay :=
  mkRelay b (rl_resolver s) (rl_blocks s) (rl_done s) (rl_clients s) (rl_logger s) (rl_requests s)
    (rl_multiplexor s) (rl_server s) (rl_acceptor s) (rl_handler s) (rl_start s).
Definition set_client (i : nat) (c : Client) (s : Relay) : Relay :=
  mkRelay (rl_btx s) (rl_resolver s) (rl_blocks s) (rl_done s) (<[i := c]> (rl_clients s)) (rl_logger s) (rl_requests s)
    (rl_multiplexor s) (rl_server s) (rl_acceptor s) (rl_handler s) (rl_start s).
Definition set_logger (l : LoggerState) (s : Relay) : Relay :=
  mkRelay (rl_btx s) (rl_resolver s) (rl_blocks s) (rl_done s) (rl_clients s) l (rl_requests s)
    (rl_multiplexor s) (rl_server s) (rl_acceptor s) (rl_handler s) (rl_start s).
Definition set_server (requests : nat) (server : TaskEnd) (s : Relay) : Relay :=
  mkRelay (rl_btx s) (rl_resolver s) (rl_blocks s) (rl_done s) (rl_clients s) (rl_logger s) requests
    (rl_multiplexor s) server (rl_acceptor s) (rl_handler s) (rl_start s).
Definition set_acceptor (clients : list Client) (requests : nat) (acceptor : TaskEnd) (s : Relay) : Relay :=
  mkRelay (rl_btx s) (rl_resolver s) (rl_blocks s) (rl_done s) clients (rl_logger s) requests
    (rl_multiplexor s) (rl_server s) acceptor (rl_handler s) (rl_start s).
Definition set_ends (handler start : TaskEnd) (s : Relay) : Relay :=
  mkRelay (rl_btx s) (rl_resolver s) (rl_blocks s) (rl_done s) (rl_clients s) (rl_logger s) (rl_requests s)
    (rl_multiplexor s) (rl_server s) (rl_acceptor s) handler start.

Inductive PoolMember : Type := LoggerTask | AcceptorTask | SessionTask (i : nat).
Inductive StartTask : Type := ServerTask | MultiplexorTask | SessionsTask.
Inductive RelayEvent : Type :=
  | BlockQueued (block : AccountId * bytes)
  | MultiplexorTurn
  | BlocksClosed                          (* the senders of blocks are gone *)
  | ListenerAnswer (r : res unit)         (* of [listener.accept()] *)
  | AcceptorTurn
  | ConnectionAnswer (i : nat) (r : res unit)   (* of [incoming_request.accept()] *)
  | SessionTurn (i : nat)                 (* a poll of [brx.recv()] *)
  | SendAnswer (i : nat) (r : res unit)   (* of [connection.send(&data)] *)
  | LoggerTurn
  | PoolTurn (t : PoolMember)             (* [pool.select_next_some()] *)
  | StartTurn (t : StartTask).

(** [message_multiplexor], one round of its loop. *)
Definition multiplexor_turn (s : Relay) : Relay :=
  match rl_multiplexor s, rl_blocks s with
  | None, (node_id, raw_block) :: blocks =>
      let '(node_addr, st) := bp_resolver (rl_resolver s) node_id in
      let s' b e := mkRelay b st blocks (rl_done s ++ [(node_id, raw_block)]) (rl_clients s) (rl_logger s) (rl_requests s)
        e (rl_server s) (rl_acceptor s) (rl_handler s) (rl_start s) in
      match bincode_serialize (node_addr, raw_block) with
      | Ok msg => s' (bc_send (rl_btx s) msg) None
      | Err e => s' (rl_btx s) (Some (Err e))
      | Panic e => s' (rl_btx s) (Some (Panic e))
      | OutOfFuel => s' (rl_btx s) (Some OutOfFuel)
      end
  | _, _ => s
  end.
Definition blocks_closed (s : Relay) : Relay :=
  match rl_multiplexor s, rl_blocks s with
  | None, [] => mkRelay (rl_btx s) (rl_resolver s) [] (rl_done s) (rl_clients s) (rl_logger s) (rl_requests s)
      (Some (Err "receiving on a closed channel")) (rl_server s) (rl_acceptor s) (rl_handler s) (rl_start s)
  | _, _ => s
  end.
(** [LiteServer::server], one round. *)
Definition server_turn (r : res unit) (s : Relay) : Relay :=
  match rl_server s, r with
  | None, Ok _ =>
      if rl_acceptor s then set_server (rl_requests s) (Some (Err "sending on a closed channel")) s
      else set_server (S (rl_requests s)) None s
  | None, Err _ => s
  | None, r => set_server (rl_requests s) (Some r) s
  | Some _, _ => s
  end.
(** The accepting task of [sessions_handler]: the session is spawned, then
    its handle is sent to the pool. *)
Definition acceptor_turn (s : Relay) : Relay :=
  match rl_acceptor s, rl_requests s with
  | None, S requests =>
      let clients := rl_clients s ++ [mkClient Accepting [] 0] in
      set_acceptor clients requests (if rl_handler s then Some (Err "channel closed") else None) s
  | None, O =>
      if rl_server s then set_acceptor (rl_clients s) 0 (Some (Err "receiving on a closed channel")) s else s
  | Some _, _ => s
  end.
Definition connection_answer (i : nat) (r : res unit) (s : Relay) : Relay :=
  match rl_clients s !! i with
  | Some (mkClient Accepting sent _) =>
      match r with
      | Ok _ => let '(b, brx) := bc_subscribe (rl_btx s) in
                set_client i (mkClient (Receiving brx) sent (length (bc_log (rl_btx s)))) (set_btx b s)
      | r => set_client i (mkClient (SessionEnded r) sent 0) s
      end
  | _ => s
  end.
Definition session_turn (i : nat) (s : Relay) : Relay :=
  match rl_clients s !! i with
  | Some (mkClient (Receiving brx) sent from) =>
      match bc_recv (rl_btx s) brx with
      | None => s
      | Some (Received data, b) => set_client i (mkClient (Sending brx data) sent from) (set_btx b s)
      | Some (Lagged _, b) => set_client i (mkClient (SessionEnded (Err "channel lagged")) sent from) (set_btx b s)
      | Some (RecvClosed, b) => set_client i (mkClient (SessionEnded (Err "channel closed")) sent from) (set_btx b s)
      end
  | _ => s
  end.
Definition send_answer (i : nat) (r : res unit) (s : Relay) : Relay :=
  match rl_clients s !! i with
  | Some (mkClient (Sending brx data) sent from) =>
      match r with
      | Ok _ => set_client i (mkClient (Receiving brx) (sent ++ [data]) from) s
      | r => set_client i (mkClient (SessionEnded r) sent from) s
      end
  | _ => s
  end.
(** The slice of ten bytes is what the logger prints. *)
Definition logger_turn (s : Relay) : Relay :=
  match rl_logger s with
  | LoggerStarting => let '(b, brx) := bc_subscribe (rl_btx s) in set_logger (Logging brx) (set_btx b s)
  | Logging brx =>
      match bc_recv (rl_btx s) brx with
      | None => s
      | Some (answer, b) =>
          match logger_loop [answer] with
          | None => set_btx b s
          | Some r => set_logger (LoggerEnded r) (set_btx b s)
          end
      end
  | LoggerEnded _ => s
  end.
(** The end of a member of the pool. *)
Definition member_end (s : Relay) (t : PoolMember) : TaskEnd :=
  match t with
  | LoggerTask => match rl_logger s with LoggerEnded r => Some r | _ => None end
  | AcceptorTask => rl_acceptor s
  | SessionTask i => match cl_state <$> rl_clients s !! i with Some (SessionEnded r) => Some r | _ => None end
  end.
Definition pool_turn (t : PoolMember) (s : Relay) : Relay :=
  match rl_handler s, member_end s t with
  | None, Some r => match join_result r with Ok _ => s | e => set_ends (Some e) (rl_start s) s end
  | _, _ => s
  end.
Definition start_end (s : Relay) (t : StartTask) : TaskEnd :=
  match t with ServerTask => rl_server s | MultiplexorTask => rl_multiplexor s | SessionsTask => rl_handler s end.
Definition start_turn (t : StartTask) (s : Relay) : Relay :=
  match rl_start s, start_end s t with
  | None, Some r => set_ends (rl_handler s) (Some (start r)) s
  | _, _ => s
  end.
Definition relay_step (s : Relay) (e : RelayEvent) : Relay :=
  match e with
  | BlockQueued b =>
      mkRelay (rl_btx s) (rl_resolver s) (rl_blocks s ++ [b]) (rl_done s) (rl_clients s) (rl_logger s) (rl_requests s)
        (rl_multiplexor s) (rl_server s) (rl_acceptor s) (rl_handler s) (rl_start s)
  | MultiplexorTurn => multiplexor_turn s
  | BlocksClosed => blocks_closed s
  | ListenerAnswer r => server_turn r s
  | AcceptorTurn => acceptor_turn s
  | ConnectionAnswer i r => connection_answer i r s
  | SessionTurn i => session_turn i s
  | SendAnswer i r => send_answer i r s
  | LoggerTurn => logger_turn s
  | PoolTurn t => pool_turn t s
  | StartTurn t => start_turn t s
  end.
Definition relay_run (s : Relay) (events : list RelayEvent) : Relay := foldl relay_step s events.
End relay.

(** ** What holds in every state *)
Section invariant.
Context `{BroadcastsOk} {AccountId R : Type} (bp_resolver : R → AccountId → option string * R).
Context (bincode_serialize : option string * bytes → res bytes).
Notation Relay := (@Relay _ AccountId R).
Notation relay_step := (relay_step bp_resolver bincode_serialize).
Notation multiplexor := (message_multiplexor bp_resolver bincode_serialize).

Definition rx_of (c : Client) : option nat :=
  match cl_state c with Receiving rx | Sending rx _ => Some rx | _ => None end.
Definition logger_rx (l : LoggerState) : option nat := match l with Logging rx => Some rx | _ => None end.
(** A client was sent a piece of the broadcast that starts where it came in,
    and its receiver stands right after it. *)
Definition client_ok (b : Broadcast) (c : Client) : Prop :=
  ∃ k, (cl_from c + k ≤ length (bc_log b))%nat ∧ cl_sent c = take k (drop (cl_from c) (bc_log b)) ∧
  match cl_state c with
  | Accepting => cl_sent c = []
  | Receiving rx => bc_place b rx = Some (cl_from c + k)%nat
  | Sending rx m => bc_place b rx = Some (S (cl_from c + k)) ∧ bc_log b !! (cl_from c + k)%nat = Some m
  | SessionEnded _ => True
  end.
Record relay_inv (st0 : R) (s : Relay) : Prop := {
  ri_clients i c : rl_clients s !! i = Some c → client_ok (rl_btx s) c;
  ri_distinct i j ci cj rx : rl_clients s !! i = Some ci → rl_clients s !! j = Some cj →
    rx_of ci = Some rx → rx_of cj = Some rx → i = j;
  ri_logger rx : logger_rx (rl_logger s) = Some rx →
    (∃ p, bc_place (rl_btx s) rx = Some p ∧ (p ≤ length (bc_log (rl_btx s)))%nat) ∧
    ∀ i c, rl_clients s !! i = Some c → rx_of c ≠ Some rx;
  ri_multiplexor :
    match rl_multiplexor s with
    | None => ∀ more, multiplexor st0 (rl_done s ++ more) false =
        let '(l, e) := multiplexor (rl_resolver s) more false in (bc_log (rl_btx s) ++ l, e)
    | Some _ => (multiplexor st0 (rl_done s) false).1 = bc_log (rl_btx s)
    end;
  ri_capacity : (DEFAULT_BROADCAST_CAPACITY ≤ bc_capacity (rl_btx s))%nat;
}.

Lemma only_moves_refl b rx : only_moves b b rx.
Proof. by split. Qed.
Lemma client_ok_rx b c rx : client_ok b c → rx_of c = Some rx → is_Some (bc_place b rx).
Proof. unfold rx_of. intros (k & _ & _ & Hs). destruct (cl_state c); intros; simplify_eq; [by rewrite Hs|by rewrite (proj1 Hs)]. Qed.
Lemma client_ok_moves b b' rx c : only_moves b b' rx → rx_of c ≠ Some rx → client_ok b c → client_ok b' c.
Proof.
  intros [Hl Hp _] Hne (k & Hk & Hsent & Hs). exists k. rewrite Hl. split; [done|]. split; [done|].
  unfold rx_of in Hne. destruct (cl_state c); rewrite ?Hp by congruence; done.
Qed.
Lemma client_ok_send b m c : client_ok b c → client_ok (bc_send b m) c.
Proof.
  intros (k & Hk & Hsent & Hs). exists k. rewrite bc_send_log, length_app. split; [lia|].
  split.
  { rewrite drop_app_le by lia. rewrite take_app_le; [done|]. rewrite length_drop. lia. }
  destruct (cl_state c); rewrite ?bc_send_place; try done. destruct Hs as [? Hm]. split; [done|].
  by apply lookup_app_l_Some.
Qed.
(** The client [i] takes another state, and only its receiver moves. *)
Lemma inv_client st0 s i c c' b' rx : relay_inv st0 s → rl_clients s !! i = Some c →
  only_moves (rl_btx s) b' rx → client_ok b' c' →
  (rx_of c' = Some rx ∨ rx_of c' = None) →
  (∀ j cj, j ≠ i → rl_clients s !! j = Some cj → rx_of cj ≠ Some rx) → logger_rx (rl_logger s) ≠ Some rx →
  relay_inv st0 (set_client i c' (set_btx b' s)).
Proof.
  intros Hi Hc Hm Hok Hrx Hothers Hlog. pose proof Hm as [Hml Hmp Hmc].
  assert (∀ j cj, <[i := c']> (rl_clients s) !! j = Some cj → j = i ∧ cj = c' ∨ j ≠ i ∧ rl_clients s !! j = Some cj) as Hat.
  { intros j cj. rewrite list_lookup_insert_Some. naive_solver. }
  split; simpl.
  - intros j cj [[-> ->]|[Hne Hj]]%Hat; [done|].
    apply (client_ok_moves (rl_btx s) _ rx); [done|by eapply Hothers|by eapply ri_clients].
  - intros j1 j2 c1 c2 rx' [[-> ->]|[Hn1 H1]]%Hat [[-> ->]|[Hn2 H2]]%Hat E1 E2; [done| | |by eapply ri_distinct].
    + destruct Hrx as [E|E]; [|congruence]. assert (rx' = rx) as -> by congruence. by destruct (Hothers _ _ Hn2 H2).
    + destruct Hrx as [E|E]; [|congruence]. assert (rx' = rx) as -> by congruence. by destruct (Hothers _ _ Hn1 H1).
  - intros rx' E. destruct (ri_logger _ _ Hi rx' E) as [Hpl Hne]. split; [rewrite Hmp by congruence; by rewrite Hml|].
    intros j cj [[-> ->]|[_ Hj]]%Hat; [|by eapply Hne]. destruct Hrx as [E'|E']; congruence.
  - rewrite Hml. apply Hi.
  - rewrite Hmc. apply Hi.
Qed.
Lemma own_rx st0 s i c rx : relay_inv st0 s → rl_clients s !! i = Some c → rx_of c = Some rx →
  (∀ j cj, j ≠ i → rl_clients s !! j = Some cj → rx_of cj ≠ Some rx) ∧ logger_rx (rl_logger s) ≠ Some rx.
Proof.
  intros Hi Hc Hrx. split.
  - intros j cj Hne Hj E. apply Hne. by eapply (ri_distinct _ _ Hi).
  - intros E. destruct (ri_logger _ _ Hi rx E) as [_ Hn]. by eapply Hn.
Qed.
Lemma fresh_rx st0 s rx : relay_inv st0 s → bc_place (rl_btx s) rx = None →
  (∀ j cj, rl_clients s !! j = Some cj → rx_of cj ≠ Some rx) ∧ logger_rx (rl_logger s) ≠ Some rx.
Proof.
  intros Hi Hn. split.
  - intros j cj Hj E. pose proof (client_ok_rx _ _ _ (ri_clients _ _ Hi _ _ Hj) E) as [? ?]. congruence.
  - intros E. destruct (ri_logger _ _ Hi rx E) as [(? & ? & _) _]. congruence.
Qed.
Lemma set_client_same (s : Relay) i c : set_client i c (set_btx (rl_btx s) s) = set_client i c s.
Proof. done. Qed.

(** *** Every step keeps it *)
Lemma client_ok_subscribed b b' brx sent from : bc_subscribe b = (b', brx) → client_ok b (mkClient Accepting sent from) →
  client_ok b' (mkClient (Receiving brx) sent (length (bc_log b))).
Proof.
  intros Hsub (k & _ & _ & Hs). simpl in Hs. pose proof (bc_subscribe_ok b) as Hb. rewrite Hsub in Hb.
  destruct Hb as (_ & Hp & Hm). exists 0%nat. simpl. rewrite (om_log _ _ _ Hm), Nat.add_0_r. by rewrite Hp, Hs.
Qed.
Lemma connection_inv st0 s i r : relay_inv st0 s → relay_inv st0 (connection_answer i r s).
Proof.
  intros Hi. unfold connection_answer. destruct (rl_clients s !! i) as [[st sent from]|] eqn:Hc; [|done].
  destruct st; try done. pose proof (ri_clients _ _ Hi _ _ Hc) as Hok.
  assert (∀ e, relay_inv st0 (set_client i (mkClient (SessionEnded e) sent 0) s)) as Hend.
  { intros e. rewrite <-set_client_same.
    destruct Hok as (k & Hk & Hsent & Hs). simpl in Hs.
    destruct Hi as [I1 I2 I3 I4 I5].
    assert (∀ j cj, <[i := mkClient (SessionEnded e) sent 0]> (rl_clients s) !! j = Some cj →
      cj = mkClient (SessionEnded e) sent 0 ∨ rl_clients s !! j = Some cj) as Hat.
    { intros j cj. rewrite list_lookup_insert_Some. naive_solver. }
    split; simpl; try done.
    - intros j cj [-> |Hj]%Hat; [|by eapply I1]. exists 0%nat. simpl. rewrite Hs. split; [lia|done].
    - intros j1 j2 c1 c2 rx [-> |H1]%Hat [-> |H2]%Hat; try done. by apply I2.
    - intros rx E. destruct (I3 rx E) as [Hp Hn]. split; [done|]. intros j cj [-> |Hj]%Hat; [done|by eapply Hn]. }
  destruct r; try done. destruct (bc_subscribe (rl_btx s)) as [b brx] eqn:Hsub.
  pose proof (bc_subscribe_ok (rl_btx s)) as Hb. rewrite Hsub in Hb. destruct Hb as (Hn & Hp & Hm).
  destruct (fresh_rx st0 s brx Hi Hn) as [Ho Hl].
  eapply (inv_client st0 s i _ _ b brx); [done|exact Hc|done| |by left|naive_solver|done].
  by eapply client_ok_subscribed.
Qed.
Lemma session_inv st0 s i : relay_inv st0 s → relay_inv st0 (session_turn i s).
Proof.
  intros Hi. unfold session_turn. destruct (rl_clients s !! i) as [[st sent from]|] eqn:Hc; [|done].
  destruct st as [|brx| |]; try done. pose proof (ri_clients _ _ Hi _ _ Hc) as (k & Hk & Hsent & Hs). simpl in *.
  destruct (own_rx st0 s i _ brx Hi Hc eq_refl) as [Ho Hl].
  destruct (bc_log (rl_btx s) !! (from + k)%nat) as [m|] eqn:Em.
  - destruct (decide (length (bc_log (rl_btx s)) ≤ from + k + bc_capacity (rl_btx s))%nat) as [Hcap|Hcap].
    + destruct (bc_recv_next _ _ _ _ Hs Em Hcap) as (b' & -> & Hp & Hm).
      apply (inv_client st0 s i _ _ b' brx Hi Hc Hm); [|by left|done|done].
      exists k. simpl. rewrite (om_log _ _ _ Hm). done.
    + destruct (bc_recv_lagged _ _ _ Hs) as (lost & b' & -> & Hm); [lia|].
      apply (inv_client st0 s i _ _ b' brx Hi Hc Hm); [|by right|done|done].
      exists k. simpl. rewrite (om_log _ _ _ Hm). done.
  - apply lookup_ge_None in Em. rewrite bc_recv_up_to_date; [done|]. rewrite Hs. f_equal. lia.
Qed.
Lemma send_inv st0 s i r : relay_inv st0 s → relay_inv st0 (send_answer i r s).
Proof.
  intros Hi. unfold send_answer. destruct (rl_clients s !! i) as [[st sent from]|] eqn:Hc; [|done].
  destruct st as [| |brx data|]; try done. pose proof (ri_clients _ _ Hi _ _ Hc) as (k & Hk & Hsent & Hs & Hm). simpl in *.
  destruct (own_rx st0 s i _ brx Hi Hc eq_refl) as [Ho Hl].
  assert (∀ c', client_ok (rl_btx s) c' → rx_of c' = Some brx ∨ rx_of c' = None → relay_inv st0 (set_client i c' s)) as Hset.
  { intros c' Hok Hrx. rewrite <-set_client_same.
    by apply (inv_client st0 s i _ c' _ brx Hi Hc (only_moves_refl _ _)). }
  assert (∀ e, relay_inv st0 (set_client i (mkClient (SessionEnded e) sent from) s)) as Hend.
  { intros e. apply Hset; [|by right]. by exists k. }
  destruct r; try done. apply Hset; [|by left]. exists (S k). simpl. apply lookup_lt_Some in Hm as Hlt.
  split; [lia|]. split; [|by rewrite Hs, Nat.add_succ_r].
  rewrite Hsent. symmetry. apply take_S_r. by rewrite lookup_drop.
Qed.
Lemma logger_inv st0 s : relay_inv st0 s → relay_inv st0 (logger_turn s).
Proof.
  intros Hi. pose proof Hi as [I1 I2 I3 I4 I5].
  assert (∀ b l rx, only_moves (rl_btx s) b rx → (∀ j cj, rl_clients s !! j = Some cj → rx_of cj ≠ Some rx) →
    (logger_rx l = Some rx ∧ (∃ p, bc_place b rx = Some p ∧ (p ≤ length (bc_log b))%nat) ∨ logger_rx l = None) →
    relay_inv st0 (set_logger l (set_btx b s))) as Hset.
  { intros b l rx Hm Hn Hl. split; simpl.
    - intros j cj Hj. apply (client_ok_moves (rl_btx s) _ rx); eauto.
    - done.
    - intros rx' E. destruct Hl as [[E' Hp]|E']; [|congruence]. assert (rx' = rx) as -> by congruence. by split.
    - by rewrite (om_log _ _ _ Hm).
    - by rewrite (om_capacity _ _ _ Hm). }
  unfold logger_turn. destruct (rl_logger s) as [|brx|r] eqn:El; [|  |done].
  - destruct (bc_subscribe (rl_btx s)) as [b brx] eqn:Hsub.
    pose proof (bc_subscribe_ok (rl_btx s)) as Hb. rewrite Hsub in Hb. destruct Hb as (Hn & Hp & Hm).
    apply (Hset b _ brx Hm); [by apply (fresh_rx st0 s brx Hi)|]. left. split; [done|]. eexists. split; [exact Hp|]. by rewrite (om_log _ _ _ Hm).
  - destruct (I3 brx eq_refl) as [(p & Hp & Hple) Hn].
    destruct (bc_recv (rl_btx s) brx) as [[answer b]|] eqn:Hr; [|done].
    assert (only_moves (rl_btx s) b brx ∧ (∀ m, answer = Received m → ∃ p', bc_place b brx = Some p' ∧ (p' ≤ length (bc_log b))%nat)) as [Hm Hpl].
    { destruct (bc_log (rl_btx s) !! p) as [m|] eqn:Em.
      - destruct (decide (length (bc_log (rl_btx s)) ≤ p + bc_capacity (rl_btx s))%nat).
        + destruct (bc_recv_next _ _ _ _ Hp Em) as (b' & Hr' & Hp' & Hm); [done|]. rewrite Hr in Hr'. simplify_eq.
          split; [done|]. intros. eexists. split; [exact Hp'|]. rewrite (om_log _ _ _ Hm).
          by apply lookup_lt_Some in Em.
        + destruct (bc_recv_lagged _ _ _ Hp) as (lost & b' & Hr' & Hm); [lia|]. rewrite Hr in Hr'. by simplify_eq.
      - apply lookup_ge_None in Em. assert (p = length (bc_log (rl_btx s))) as -> by lia.
        by rewrite (bc_recv_up_to_date _ _ Hp) in Hr. }
    assert (set_btx b s = set_logger (Logging brx) (set_btx b s)) as Eset by (unfold set_logger; simpl; by rewrite <-El; destruct s).
    destruct (logger_loop [answer]) as [r|] eqn:E.
    + apply (Hset b _ brx Hm Hn). by right.
    + rewrite Eset. apply (Hset b _ brx Hm Hn). left. split; [done|]. destruct answer as [m| |]; [by eapply Hpl|done..].
Qed.
Lemma multiplexor_inv st0 s : relay_inv st0 s → relay_inv st0 (multiplexor_turn bp_resolver bincode_serialize s).
Proof.
  intros Hi. pose proof Hi as [I1 I2 I3 I4 I5]. unfold multiplexor_turn.
  destruct (rl_multiplexor s); [done|]. destruct (rl_blocks s) as [|[id raw] blocks]; [done|].
  destruct (bp_resolver (rl_resolver s) id) as [addr st] eqn:Er.
  assert (∀ more, multiplexor st0 ((rl_done s ++ [(id, raw)]) ++ more) false =
    let '(l, e) := multiplexor (rl_resolver s) ((id, raw) :: more) false in (bc_log (rl_btx s) ++ l, e)) as Hmore.
  { intros more. rewrite <-(assoc_L (++)). apply I4. }
  cbn [message_multiplexor] in Hmore. rewrite Er in Hmore.
  assert (∀ r, bincode_serialize (addr, raw) = r → is_ok r = false →
    (multiplexor st0 (rl_done s ++ [(id, raw)]) false).1 = bc_log (rl_btx s)) as Hfail.
  { intros r E Hr. specialize (Hmore []). rewrite app_nil_r, E in Hmore.
    destruct r; [done|..]; rewrite Hmore; simpl; by rewrite app_nil_r. }
  destruct (bincode_serialize (addr, raw)) as [msg|e|e|] eqn:Es;
    (split; simpl; [|done| | |]); try done; try exact (Hfail _ eq_refl eq_refl).
  - intros i c Hc. by apply client_ok_send, (I1 i).
  - intros rx E. destruct (I3 rx E) as [(p & Hp & Hle) Hn]. split; [|done].
    exists p. rewrite bc_send_place, bc_send_log, length_app. split; [done|lia].
  - intros more. rewrite Hmore, bc_send_log. destruct (multiplexor st more false) as [l e].
    by rewrite <-(assoc_L (++)).
  - by rewrite bc_send_capacity.
Qed.
Lemma acceptor_inv st0 s : relay_inv st0 s → relay_inv st0 (acceptor_turn s).
Proof.
  intros Hi. pose proof Hi as [I1 I2 I3 I4 I5]. unfold acceptor_turn.
  destruct (rl_acceptor s); [done|]. destruct (rl_requests s) as [|requests]; [by destruct (rl_server s)|].
  assert (∀ i c, (rl_clients s ++ [mkClient Accepting [] 0]) !! i = Some c →
    rl_clients s !! i = Some c ∨ c = mkClient Accepting [] 0) as Hat.
  { intros i c Hc. apply lookup_app_Some in Hc as [Hc|[_ Hc]]; [by left|right].
    by apply list_lookup_singleton_Some in Hc as [_ <-]. }
  split; simpl; try done.
  - intros i c [Hc | ->]%Hat; [by eapply I1|]. exists 0%nat. simpl. split; [lia|done].
  - intros i j ci cj rx [H1| ->]%Hat [H2| ->]%Hat; try done. by apply I2.
  - intros rx E. destruct (I3 rx E) as [Hp Hn]. split; [done|]. intros i c [Hc | ->]%Hat; [by eapply Hn|done].
Qed.
Lemma relay_step_inv st0 s e : relay_inv st0 s → relay_inv st0 (relay_step s e).
Proof.
  intros Hi. destruct e as [b| | |r| |i r|i|i r| |t|t]; cbn [BlockRelay.relay_step].
  - by destruct Hi.
  - by apply multiplexor_inv.
  - unfold blocks_closed. destruct Hi as [I1 I2 I3 I4 I5]. destruct (rl_multiplexor s) eqn:E; [by split; rewrite ?E|].
    destruct (rl_blocks s) eqn:Eb; [|by split; rewrite ?E]. split; simpl; try done.
    specialize (I4 []). rewrite app_nil_r in I4. rewrite I4. simpl. by rewrite app_nil_r.
  - unfold server_turn. destruct (rl_server s); [done|]. destruct r, (rl_acceptor s); try done; by destruct Hi.
  - by apply acceptor_inv.
  - by apply connection_inv.
  - by apply session_inv.
  - by apply send_inv.
  - by apply logger_inv.
  - unfold pool_turn. destruct (rl_handler s); [done|]. destruct (member_end s t) as [r|]; [|done].
    destruct (join_result r); try done; by destruct Hi.
  - unfold start_turn. destruct (rl_start s); [done|]. destruct (start_end s t); [|done]. by destruct Hi.
Qed.
Lemma relay_run_inv st0 events : relay_inv st0 (relay_run bp_resolver bincode_serialize (relay_start st0) events).
Proof.
  unfold relay_run. assert (relay_inv st0 (relay_start (AccountId:=AccountId) st0)) as Hi.
  { split; simpl; try done.
    - intros more. destruct (multiplexor st0 more false) as [l e]. by rewrite bc_channel_log.
    - apply bc_channel_capacity. }
  revert Hi. generalize (relay_start (AccountId:=AccountId) st0). induction events as [|e events IH]; intros s Hi; [done|].
  apply IH. by apply relay_step_inv.
Qed.

(** *** A client that keeps up *)
(** A poll and a successful [send]. *)
Definition served_turns (i n : nat) : list (RelayEvent (AccountId:=AccountId)) :=
  concat (replicate n [SessionTurn i; SendAnswer i (Ok ())]).
Lemma served st0 s i brx sent from k : relay_inv st0 s →
  rl_clients s !! i = Some (mkClient (Receiving brx) sent from) →
  bc_place (rl_btx s) brx = Some (from + k)%nat →
  (length (bc_log (rl_btx s)) ≤ from + k + bc_capacity (rl_btx s))%nat →
  let s' := relay_run bp_resolver bincode_serialize s (served_turns i (length (bc_log (rl_btx s)) - (from + k))) in
  rl_clients s' !! i = Some (mkClient (Receiving brx) (drop from (bc_log (rl_btx s))) from) ∧
  bc_log (rl_btx s') = bc_log (rl_btx s).
Proof.
  remember (length (bc_log (rl_btx s)) - (from + k))%nat as n eqn:Hn. revert s sent k Hn.
  induction n as [|n IH]; intros s sent k Hn Hi Hc Hp Hcap.
  { simpl. split; [|done]. rewrite Hc. do 2 f_equal. destruct (ri_clients _ _ Hi _ _ Hc) as (k' & Hk & Hsent & Hp').
    simpl in *. rewrite Hp in Hp'. injection Hp' as Hkk. rewrite Hsent. apply take_ge. rewrite length_drop. lia. }
  destruct (lookup_lt_is_Some_2 (bc_log (rl_btx s)) (from + k)%nat) as [m Hm]; [lia|].
  destruct (bc_recv_next _ _ _ _ Hp Hm Hcap) as (b' & Hr & Hp' & Hmv).
  cbn zeta. unfold served_turns, relay_run. cbn [replicate concat]. rewrite foldl_app. cbn [foldl].
  fold (served_turns i n).
  assert (relay_step (relay_step s (SessionTurn i)) (SendAnswer i (Ok ())) =
    set_client i (mkClient (Receiving brx) (sent ++ [m]) from) (set_client i (mkClient (Sending brx m) sent from) (set_btx b' s))) as Hst.
  { cbn [BlockRelay.relay_step]. unfold session_turn. rewrite Hc, Hr. unfold send_answer. simpl.
    rewrite list_lookup_insert_eq by by eapply lookup_lt_Some. done. }
  pose proof (relay_step_inv st0 _ (SendAnswer i (Ok ())) (relay_step_inv st0 s (SessionTurn i) Hi)) as Hi'.
  rewrite Hst in Hi' |- *. set (s' := set_client _ _ _) in Hi' |- *.
  destruct (IH s' (sent ++ [m]) (S k)) as [H1 H2]; simpl; rewrite ?(om_log _ _ _ Hmv), ?(om_capacity _ _ _ Hmv); try done; try lia.
  - rewrite list_insert_insert_eq, list_lookup_insert_eq; [done|by eapply lookup_lt_Some].
  - rewrite Hp'. f_equal. lia.
  - simpl in H1, H2. rewrite (om_log _ _ _ Hmv) in H1, H2. by split.
Qed.
End invariant.

(** ** A concrete channel *)
Module ListBroadcast.
Record LB : Type := mkLB { lb_log : list bytes; lb_places : list nat; lb_capacity : nat }.
Definition lb_move (b : LB) (rx p : nat) : LB := mkLB (lb_log b) (<[rx := p]> (lb_places b)) (lb_capacity b).
#[export] Instance list_broadcast : Broadcasts := {|
  Broadcast := LB;
  bc_channel n := mkLB [] [] n;
  bc_subscribe b := (mkLB (lb_log b) (lb_places b ++ [length (lb_log b)]) (lb_capacity b), length (lb_places b));
  bc_send b m := mkLB (lb_log b ++ [m]) (lb_places b) (lb_capacity b);
  bc_recv b rx :=
    p ← lb_places b !! rx;
    m ← lb_log b !! p;
    let oldest := (length (lb_log b) - lb_capacity b)%nat in
    Some (if decide (oldest ≤ p)%nat then (Received m, lb_move b rx (S p))
          else (Lagged (N.of_nat (oldest - p)), lb_move b rx oldest));
  bc_log := lb_log;
  bc_place b rx := lb_places b !! rx;
  bc_capacity := lb_capacity;
|}.
Lemma lb_moves b rx p : only_moves b (lb_move b rx p) rx.
Proof. split; [done| |done]. intros rx' Hne. simpl. by rewrite list_lookup_insert_ne. Qed.
#[export] Instance list_broadcast_ok : BroadcastsOk.
Proof.
  split; try done.
  - intros b. simpl. split; [apply lookup_ge_None; lia|]. split; [by rewrite list_lookup_middle|].
    split; [done| |done]. intros rx' Hne. simpl. destruct (decide (rx' < length (lb_places b))%nat).
    + by rewrite lookup_app_l.
    + rewrite !(proj2 (lookup_ge_None _ _)); [done| |]; rewrite ?length_app; simpl; lia.
  - intros b rx Hp. simpl in *. rewrite Hp. simpl. by rewrite (proj2 (lookup_ge_None _ _)).
  - intros b rx p m Hp Hm Hcap. simpl in *. rewrite Hp. simpl. rewrite Hm. simpl. rewrite decide_True by lia.
    eexists. split; [done|]. split; [|apply lb_moves]. simpl. apply list_lookup_insert_eq. by eapply lookup_lt_Some.
  - intros b rx p Hp Hcap. simpl in *. rewrite Hp. simpl.
    destruct (lookup_lt_is_Some_2 (lb_log b) p) as [m Hm]; [lia|]. rewrite Hm. simpl. rewrite decide_False by lia.
    eexists _, _. split; [done|]. apply lb_moves.
Qed.
End ListBroadcast.

(** ** Properties *)
Section properties.
Context `{BroadcastsOk} {AccountId R : Type} (bp_resolver : R → AccountId → option string * R).
Context (bincode_serialize : option string * bytes → res bytes).
Notation run := (relay_run bp_resolver bincode_serialize).

(** The blocks that came in. *)
Definition queued (events : list (RelayEvent (AccountId:=AccountId))) : list (AccountId * bytes) :=
  omap (λ e, match e with BlockQueued b => Some b | _ => None end) events.
Lemma blocks_conserved (s : Relay) e :
  rl_done (relay_step bp_resolver bincode_serialize s e) ++ rl_blocks (relay_step bp_resolver bincode_serialize s e) =
  (rl_done s ++ rl_blocks s) ++ queued [e].
Proof.
  destruct e as [b| | |r| |i r|i|i r| |t|t]; cbn [relay_step queued omap list_omap]; rewrite ?app_nil_r.
  - simpl. by rewrite (assoc_L (++)).
  - unfold multiplexor_turn. destruct (rl_multiplexor s); [done|]. destruct (rl_blocks s) as [|[id raw] bs] eqn:Eb; [by rewrite Eb|].
    destruct (bp_resolver _ _) as [a st]. destruct (bincode_serialize _); simpl; by rewrite <-(assoc_L (++)).
  - unfold blocks_closed. destruct (rl_multiplexor s); [done|]. by destruct (rl_blocks s) eqn:Eb; [|rewrite Eb].
  - unfold server_turn. destruct (rl_server s); [done|]. by destruct r, (rl_acceptor s).
  - unfold acceptor_turn. destruct (rl_acceptor s); [done|]. destruct (rl_requests s), (rl_server s); done.
  - unfold connection_answer. destruct (rl_clients s !! i) as [[[] sent from]|]; try done.
    destruct r; try done. by destruct (bc_subscribe _).
  - unfold session_turn. destruct (rl_clients s !! i) as [[[] sent from]|]; try done.
    by destruct (bc_recv _ _) as [[[] ?]|].
  - unfold send_answer. destruct (rl_clients s !! i) as [[[] sent from]|]; try done. by destruct r.
  - unfold logger_turn. destruct (rl_logger s); try done; [by destruct (bc_subscribe _)|].
    destruct (bc_recv _ _) as [[a ?]|]; [|done]. by destruct (logger_loop [a]).
  - unfold pool_turn. destruct (rl_handler s); [done|]. destruct (member_end s t) as [r|]; [|done]. by destruct (join_result r).
  - unfold start_turn. destruct (rl_start s); [done|]. by destruct (start_end s t).
Qed.
Lemma run_blocks (s : Relay) events : rl_done (run s events) ++ rl_blocks (run s events) = (rl_done s ++ rl_blocks s) ++ queued events.
Proof.
  revert s. induction events as [|e events IH]; intros s; [by rewrite app_nil_r|].
  change (run s (e :: events)) with (run (relay_step bp_resolver bincode_serialize s e) events).
  rewrite IH, blocks_conserved, <-(assoc_L (++)). f_equal. simpl. by destruct e.
Qed.

(** C36: the block server relays the blocks: whatever the turns of its tasks,
    the answers of the connections and the tasks that have ended, the messages
    broadcast are the encodings of the blocks received, in order, each with
    the address of its producer; what a client was sent is a piece of them
    without a gap, from where it came in; and a client that is at most ten
    messages behind gets all the rest when its sends succeed, even if the
    pool or [start] have returned. *)
Theorem blocks_reach_clients st0 events :
  let s := run (relay_start st0) events in
  let log := bc_log (rl_btx s) in
  rl_done s ++ rl_blocks s = queued events ∧
  log = (message_multiplexor bp_resolver bincode_serialize st0 (rl_done s) false).1 ∧
  ∀ i c, rl_clients s !! i = Some c →
    cl_sent c = take (length (cl_sent c)) (drop (cl_from c) log) ∧
    ∀ brx, cl_state c = Receiving brx →
      (length log ≤ cl_from c + length (cl_sent c) + DEFAULT_BROADCAST_CAPACITY)%nat →
      ∃ n, cl_sent <$> rl_clients (run s (served_turns i n)) !! i = Some (drop (cl_from c) log).
Proof.
  cbn zeta. pose proof (relay_run_inv bp_resolver bincode_serialize st0 events) as Hi.
  split; [apply run_blocks|]. set (s := run (relay_start st0) events) in *. split.
  { pose proof (ri_multiplexor _ _ _ _ Hi) as Hm. destruct (rl_multiplexor s); [by rewrite Hm|].
    specialize (Hm []). rewrite app_nil_r in Hm. rewrite Hm. simpl. by rewrite app_nil_r. }
  intros i [st sent from] Hc. destruct (ri_clients _ _ _ _ Hi _ _ Hc) as (k & Hk & Hsent & Hs). simpl in *.
  assert (length sent = k) as Hlen by (rewrite Hsent, length_take, length_drop; lia).
  rewrite Hlen. split; [exact Hsent|]. intros brx -> Hcap. pose proof (ri_capacity _ _ _ _ Hi) as Hc10.
  eexists. rewrite (proj1 (served bp_resolver bincode_serialize st0 s i brx sent from k Hi Hc Hs ltac:(lia))). done.
Qed.

(** Once one task of the pool has failed, and the handler of the sessions has
    returned with it, at most one more client is let in. *)
Theorem handler_gone_no_clients s events : is_Some (rl_handler s) →
  (length (rl_clients (run s events)) ≤ S (length (rl_clients s)))%nat.
Proof.
  intros Hh. set (room := λ s : Relay (AccountId:=AccountId) (R:=R), (length (rl_clients s) + if rl_acceptor s then 0 else 1)%nat).
  assert (∀ s e, is_Some (rl_handler s) → is_Some (rl_handler (relay_step bp_resolver bincode_serialize s e)) ∧
    (room (relay_step bp_resolver bincode_serialize s e) ≤ room s)%nat) as Hstep.
  { clear s Hh. intros s e Hh. unfold room. destruct e as [b| | |r| |i r|i|i r| |t|t]; cbn [relay_step].
    - done.
    - unfold multiplexor_turn. destruct (rl_multiplexor s); [done|]. destruct (rl_blocks s) as [|[id raw] bs]; [done|].
      destruct (bp_resolver _ _). by destruct (bincode_serialize _).
    - unfold blocks_closed. destruct (rl_multiplexor s); [done|]. by destruct (rl_blocks s).
    - unfold server_turn. destruct (rl_server s); [done|]. destruct r; try done. destruct (rl_acceptor s) eqn:E; simpl; by rewrite E.
    - unfold acceptor_turn. destruct (rl_acceptor s) eqn:E; [by rewrite E|]. destruct (rl_requests s) eqn:Er.
      + destruct (rl_server s); simpl; rewrite ?E; split; try done; lia.
      + destruct Hh as [h Hh]. simpl. rewrite Hh. split; [by eexists|]. rewrite length_app. simpl. lia.
    - unfold connection_answer. destruct (rl_clients s !! i) as [[[] sent from]|]; try done.
      destruct r; simpl; try (destruct (bc_subscribe _); simpl); by rewrite length_insert.
    - unfold session_turn. destruct (rl_clients s !! i) as [[[] sent from]|]; try done.
      destruct (bc_recv _ _) as [[[] ?]|]; simpl; by rewrite ?length_insert.
    - unfold send_answer. destruct (rl_clients s !! i) as [[[] sent from]|]; try done.
      destruct r; simpl; by rewrite length_insert.
    - unfold logger_turn. destruct (rl_logger s); try done; [by destruct (bc_subscribe _)|].
      destruct (bc_recv _ _) as [[a ?]|]; [|done]. by destruct (logger_loop [a]).
    - unfold pool_turn. destruct (rl_handler s) eqn:E; [by rewrite E|]. by destruct Hh.
    - unfold start_turn. destruct (rl_start s); [done|]. by destruct (start_end s t). }
  assert (room (run s events) ≤ room s)%nat as Hr.
  { revert s Hh. induction events as [|e events IH]; intros s Hh; [done|]. destruct (Hstep s e Hh) as [Hh' Hle].
    specialize (IH _ Hh'). change (run s (e :: events)) with (run (relay_step bp_resolver bincode_serialize s e) events). lia. }
  unfold room in Hr. destruct (rl_acceptor (run s events)), (rl_acceptor s); lia.
Qed.
End properties.
Module SmallRelay.
Import ListBroadcast.
Definition resolver (st : unit) (id : N) : option string * unit := (None, st).
Definition encode (v : option string * bytes) : res bytes := Ok v.2.
Definition events : list (RelayEvent (AccountId:=N)) :=
  [ListenerAnswer (Ok ()); AcceptorTurn; ConnectionAnswer 0 (Ok ());
   BlockQueued (1%N, [u8 1]); BlockQueued (2%N, [u8 2]); MultiplexorTurn; MultiplexorTurn].
(** A second client whose first send fails; the pool returns with its error. *)
Definition failing : list (RelayEvent (AccountId:=N)) :=
  [ListenerAnswer (Ok ()); AcceptorTurn; ConnectionAnswer 1 (Ok ()); BlockQueued (3%N, [u8 3]); MultiplexorTurn;
   SessionTurn 1; SendAnswer 1 (Err "connection lost"); PoolTurn (SessionTask 1); StartTurn SessionsTask].
Definition small_run (l : list RelayEvent) : Relay := relay_run resolver encode (relay_start ()) l.
(** [start] has returned the error of one client; the other one still gets
    every block. *)
Lemma others_go_on :
  let s := small_run (events ++ failing) in
  rl_start s = Some (Err "connection lost") ∧
  cl_sent <$> rl_clients (relay_run resolver encode s (served_turns 0 3)) !! 0%nat = Some [[u8 1]; [u8 2]; [u8 3]].
Proof. by vm_compute. Qed.
End SmallRelay.
Section witness.
Import ListBroadcast SmallRelay.
Lemma blocks_reach_clients_witness :
  ∃ n, cl_sent <$> rl_clients (relay_run resolver encode (small_run events) (served_turns 0 n)) !! 0%nat =
    Some [[u8 1]; [u8 2]].
Proof.
  destruct (blocks_reach_clients resolver encode () events) as (_ & _ & Hc).
  destruct (Hc 0%nat (mkClient (Receiving 0) [] 0)) as [_ Hn].
  - vm_compute. reflexivity.
  - destruct (Hn 0%nat eq_refl) as [n E].
    + apply Nat.leb_le. vm_compute. reflexivity.
    + exists n. exact E.
Defined.
End witness.
