(* ===== verification/Updater.v ===== *)
(** * The container updater (updater/src/lib.rs)

    The calls made to the Docker daemon, in their order, with its answers as
    an oracle. *)
From S2P Require Import Prelude.
Open Scope N_scope.

Definition DEFAULT_UPDATE_INTERVAL : N := 120.
Definition DEFAULT_WATCHTOWER_IMAGE : string := "containrrr/watchtower:1.7.1".
Definition DEFAULT_WATCHTOWER_SCOPE : string := "acki-nacki".
Definition DEFAULT_DOCKER_SOCKET : string := "/var/run/docker.sock".
Inductive DockerCall : Type :=
  | Ping
  | CreateImage (from_image : string)
  | CreateContainer (image : string) (binds : list string) (auto_remove : bool) (cmd : list string)
  | StartContainer (id : string).
Record ContainerUpdater : Type := mkUpdater {
  image_name : string;
  interval : N;
  docker_socket : string;
  docker_config : option string;
}.
Section updater.
(** The answer of a call; for a container, its identifier. *)
Context (docker : nat → DockerCall → string + string).
(** [connect] is the answer of [connect_with_local_defaults]. *)
Definition try_new (connect : unit + string) (image : string) (every : N) (socket config : option string)
    : ContainerUpdater + string :=
  match connect, docker 0 Ping with
  | inr _, _ => inr "Failed to connect to Docker daemon"%string
  | _, inr _ => inr "Failed to ping Docker daemon"%string
  | inl _, inl _ =>
      inl (mkUpdater image every (match socket with Some s => s | None => DEFAULT_DOCKER_SOCKET end) config)
  end.
Definition binds (u : ContainerUpdater) : list string :=
  (docker_socket u +:+ ":/var/run/docker.sock") ::
  match docker_config u with Some config => [config +:+ ":/config.json"] | None => [] end.
(** The calls made, and the end; [now] is the time of the round. *)
Definition try_update_container (u : ContainerUpdater) (now : nat) : list DockerCall * (unit + string) :=
  match docker now Ping with
  | inr e => ([Ping], inr e)
  | inl _ =>
      let pull := CreateImage DEFAULT_WATCHTOWER_IMAGE in
      match docker now pull with
      | inr e => ([Ping; pull], inr "Failed to pull watchtower image"%string)
      | inl _ =>
          let create := CreateContainer "containrrr/watchtower:1.7.1" (binds u) true
            ["--run-once"; "--scope"; DEFAULT_WATCHTOWER_SCOPE]%string in
          match docker now create with
          | inr e => ([Ping; pull; create], inr "create container"%string)
          | inl container =>
              ([Ping; pull; create; StartContainer container],
               match docker now (StartContainer container) with
               | inr e => inr "start container"%string
               | inl _ => inl ()
               end)
          end
      end
  end.
(** [run], for a number of rounds: the calls, and the seconds slept. *)
Fixpoint updater_run (u : ContainerUpdater) (rounds now : nat) : list DockerCall * N :=
  match rounds with
  | O => ([], 0)
  | S rounds =>
      let '(calls, _) := try_update_container u now in
      let '(later, slept) := updater_run u rounds (S now) in
      (calls ++ later, interval u + slept)
  end.

(** An update that fails does not stop the updater: in every number of
    rounds each round is made, the Docker daemon is pinged first in each and
    the interval is slept after each; a round that succeeds has started the
    container it created, from the pulled image, with the socket and (if there
    is one) the configuration mounted; a call is made only when the one before
    it has succeeded. *)
Theorem updater_goes_on u rounds now :
  (updater_run u rounds now).2 = N.of_nat rounds * interval u ∧
  (updater_run u rounds now).1 = concat ((λ k, (try_update_container u (now + k)).1) <$> seq 0 rounds) ∧
  (∀ k, let '(calls, ending) := try_update_container u k in
     head calls = Some Ping ∧
     (∀ i call, calls !! i = Some call → (S i < length calls)%nat → ∃ a, docker k call = inl a) ∧
     (ending = inl () → ∃ container create, calls = [Ping; CreateImage DEFAULT_WATCHTOWER_IMAGE; create; StartContainer container] ∧
        create = CreateContainer DEFAULT_WATCHTOWER_IMAGE (binds u) true ["--run-once"; "--scope"; DEFAULT_WATCHTOWER_SCOPE]%string ∧
        docker k create = inl container)).
Proof.
  split; [|split].
  - revert now. induction rounds as [|r IH]; intros now; [done|]. simpl. destruct (try_update_container u now).
    specialize (IH (S now)). destruct (updater_run u r (S now)). simpl in *. rewrite IH. lia.
  - revert now. induction rounds as [|r IH]; intros now; [done|]. simpl. rewrite Nat.add_0_r.
    specialize (IH (S now)). destruct (try_update_container u now), (updater_run u r (S now)). simpl in *.
    rewrite IH, <-fmap_S_seq, <-list_fmap_compose. f_equal. f_equal. apply list_fmap_ext. intros ? k _. simpl.
    by rewrite Nat.add_succ_r.
  - intros k. unfold try_update_container. set (create := CreateContainer _ _ _ _).
    destruct (docker k Ping) eqn:E1; [|split; [done|split; [|done]]; intros [|i] call Hc Hi; simplify_eq/=; eauto; lia].
    destruct (docker k (CreateImage _)) eqn:E2; [|split; [done|split; [|done]]; intros [|[|i]] call Hc Hi; simplify_eq/=; eauto; lia].
    destruct (docker k create) eqn:E3; [|split; [done|split; [|done]]; intros [|[|[|i]]] call Hc Hi; simplify_eq/=; eauto; lia].
    split; [done|]. split; [intros [|[|[|[|i]]]] call Hc Hi; simplify_eq/=; eauto; lia|].
    intros _. by exists s1, create.
Qed.
End updater.
