(* ===== verification/StreamRuns.v ===== *)
(** * Runs of QUIC streams (transport-layer/src/msquic/msquic_async/stream.rs)

    What the operations of [QuicStream] guarantee over whole runs: the bytes
    a reader gets, what msquic is told has been taken, that no waiting task
    is forgotten, and what a writer hands over.  Events come as msquic
    indicates them ([reader_step] says when); the shutdown of a stream, and
    aborts of its reader, come at any time. *)
From S2P Require Import Prelude RangeSet RecvBuffer QuicStream.
Open Scope N_scope.

(** ** Ranges and flags of a queue of buffers *)
Definition span (b : StreamRecvBuffer) : N * N * bool := (rb_offset b, rb_len b, rb_fin b).
Definition in_span (i : N) (b : StreamRecvBuffer) : Prop := rb_offset b ≤ i < rb_offset b + rb_len b.
(** The buffers hold the range [from..upto], in order. *)
Fixpoint contiguous (from : N) (bufs : list StreamRecvBuffer) (upto : N) : Prop :=
  match bufs with
  | [] => from = upto
  | b :: bufs => rb_offset b = from ∧ contiguous (from + rb_len b) bufs upto
  end.
Definition buffered (bufs : list StreamRecvBuffer) : bytes := concat (rb_content <$> bufs).
(** The FIN flag a read ends with when it uses all buffers up. *)
Definition last_fin (fin : bool) (bufs : list StreamRecvBuffer) : bool :=
  foldl (λ _ b, rb_fin b) fin bufs.
(** Only the last buffer can have the FIN flag. *)
Fixpoint fin_last (bufs : list StreamRecvBuffer) : Prop :=
  match bufs with
  | [] | [_] => True
  | b :: (_ :: _) as bufs => rb_fin b = false ∧ fin_last bufs
  end.

Lemma buffered_cons b bufs : buffered (b :: bufs) = rb_content b ++ buffered bufs.
Proof. done. Qed.
Lemma buffered_snoc bufs b : buffered (bufs ++ [b]) = buffered bufs ++ rb_content b.
Proof. unfold buffered. rewrite fmap_app, concat_app. simpl. by rewrite app_nil_r. Qed.
Lemma last_fin_snoc f bufs b : last_fin f (bufs ++ [b]) = rb_fin b.
Proof. unfold last_fin. by rewrite foldl_app. Qed.
Lemma span_eq b b' : span b = span b' →
  rb_offset b = rb_offset b' ∧ rb_len b = rb_len b' ∧ rb_fin b = rb_fin b'.
Proof. by intros [= -> -> ->]. Qed.
Lemma contiguous_spans from upto bufs bufs' : span <$> bufs = span <$> bufs' →
  contiguous from bufs upto → contiguous from bufs' upto.
Proof.
  revert from bufs'. induction bufs as [|b bufs IH]; intros from [|b' bufs'] He; try done.
  injection He as Ho Hl Hf He. simpl. rewrite Ho, Hl. intros [? ?]. split; [done|]. by apply IH.
Qed.
Lemma fin_last_spans bufs bufs' : span <$> bufs = span <$> bufs' → fin_last bufs → fin_last bufs'.
Proof.
  revert bufs'. induction bufs as [|b bufs IH]; intros [|b' bufs'] He; try done.
  injection He as Ho Hl Hf He. specialize (IH bufs' He).
  destruct bufs as [|b2 bufs], bufs' as [|b2' bufs']; try done. simpl in *. rewrite Hf. naive_solver.
Qed.
Lemma contiguous_app from bufs1 bufs2 upto :
  contiguous from (bufs1 ++ bufs2) upto ↔ ∃ mid, contiguous from bufs1 mid ∧ contiguous mid bufs2 upto.
Proof.
  revert from. induction bufs1 as [|b bufs1 IH]; intros from; simpl; [naive_solver|].
  rewrite IH. naive_solver.
Qed.
Lemma contiguous_le from bufs upto : contiguous from bufs upto → from ≤ upto.
Proof.
  revert from. induction bufs as [|b bufs IH]; simpl; intros from; [lia|]. intros [_ Hc%IH]. lia.
Qed.
(** A contiguous queue covers its range, and nothing else. *)
Lemma contiguous_covers from bufs upto i : contiguous from bufs upto →
  Exists (in_span i) bufs ↔ from ≤ i < upto.
Proof.
  revert from. induction bufs as [|b bufs IH]; simpl; intros from.
  - rewrite Exists_nil. lia.
  - intros [Ho Hc]. rewrite Exists_cons, (IH _ Hc). unfold in_span. pose proof (contiguous_le _ _ _ Hc). lia.
Qed.
Lemma contiguous_ends from bufs upto : contiguous from bufs upto →
  Forall (λ b, rb_offset b + rb_len b ≤ upto) bufs.
Proof.
  revert from. induction bufs as [|b bufs IH]; simpl; intros from; [constructor|].
  intros [Ho Hc]. pose proof (contiguous_le _ _ _ Hc). constructor; [lia|]. by eapply IH.
Qed.
Lemma fin_last_app bufs1 bufs2 : fin_last (bufs1 ++ bufs2) → fin_last bufs2.
Proof.
  induction bufs1 as [|b bufs1 IH]; [done|]. intros Hf. apply IH. simpl in Hf.
  destruct (bufs1 ++ bufs2); [done|]. by destruct Hf.
Qed.
Lemma fin_last_snoc bufs b : last_fin false bufs = false → fin_last bufs → fin_last (bufs ++ [b]).
Proof.
  induction bufs as [|b1 bufs IH]; [done|]. destruct bufs as [|b2 bufs]; intros Hl Hf; [done|].
  destruct Hf as [Hf1 Hf]. change (rb_fin b1 = false ∧ fin_last ((b2 :: bufs) ++ [b])). split; [done|].
  by apply IH.
Qed.
(** What is left in a queue is at most what its ranges hold. *)
Lemma rb_content_le b : rb_wf b → blen (rb_content b) ≤ rb_len b.
Proof.
  intros [_ -> _ _]. unfold rb_content. rewrite (concat_split (rb_buffers b) (rb_read_cursor b)), blen_app, blen_drop. lia.
Qed.
Lemma buffered_le from bufs upto : Forall rb_wf bufs → contiguous from bufs upto →
  from + blen (buffered bufs) ≤ upto.
Proof.
  revert from. induction bufs as [|b bufs IH]; intros from Hwf; simpl; [unfold buffered; simpl; rewrite blen_nil; lia|].
  apply Forall_cons in Hwf as [Hb Hwf]. intros [_ Hc%IH]; [|done]. rewrite buffered_cons, blen_app.
  pose proof (rb_content_le b Hb). lia.
Qed.

Section runs.
Context `{RSO : RangeSetsOk}.

(** ** Accounting for buffers given back *)
(** All bytes below the cursor have been given back, and the one at it not. *)
Definition completed_to (m : rangeset) (cursor : N) : Prop :=
  rs_ok m ∧ (∀ i, i < cursor → rs_mem i m) ∧ ¬ rs_mem cursor m.
Definition total (ns : list N) : N := foldr N.add 0 ns.
Lemma total_app ns ns' : total (ns ++ ns') = total ns + total ns'.
Proof. induction ns as [|n ns IH]; simpl; [done|]. unfold total in *. lia. Qed.

Lemma read_complete_spec x b :
  completed_to (x_read_complete_map x) (x_read_complete_cursor x) → fits 64 (rb_offset b + rb_len b) →
  ∃ m cursor n, read_complete x b = (set_completion m cursor x, n) ∧ completed_to m cursor ∧
    (∀ i, rs_mem i m ↔ in_span i b ∨ rs_mem i (x_read_complete_map x)) ∧
    cursor = x_read_complete_cursor x + total (option_list n).
Proof.
  intros (Hok & Hbelow & Hat) Hfits. unfold read_complete, rb_range.
  replace (wrap64 (rb_offset b + rb_len b)) with (rb_offset b + rb_len b)
    by (symmetry; by apply N.mod_small).
  cbv zeta. match goal with |- context [rs_first ?s] => set (m := s) end.
  assert (rs_ok m ∧ ∀ i, rs_mem i m ↔ in_span i b ∨ rs_mem i (x_read_complete_map x)) as [Hok' Hm].
  { subst m. destruct (_ <? _) eqn:E.
    - apply N.ltb_lt in E. split; [by apply rs_insert_ok|]. intros i. by rewrite rs_mem_insert.
    - apply N.ltb_ge in E. split; [done|]. intros i. unfold in_span. split; [tauto|].
      intros [?|?]; [lia|done]. }
  set (c := x_read_complete_cursor x) in *.
  assert (∀ i, i < c → rs_mem i m) as Hb' by (intros i Hi; apply Hm; right; by apply Hbelow).
  pose proof (rs_first_spec m Hok') as Hf. clearbody m. destruct (rs_first m) as [[first last]|].
  - destruct Hf as (Hfl & Hlow & Hin & Hout).
    destruct ((first =? 0) && (c <? last)) eqn:E.
    { apply andb_true_iff in E as [->%N.eqb_eq E%N.ltb_lt]. exists m, last, (Some (last - c)).
      split; [done|]. split; [split; [done|split; [|done]]|split; [done|simpl; lia]].
      intros i Hi. apply Hin. lia. }
    assert (¬ rs_mem c m) as Hc.
    { intros Hc. apply andb_false_iff in E as [E%N.eqb_neq|E%N.ltb_ge].
      - apply (Hlow 0); [lia|]. destruct (decide (c = 0)) as [->|]; [done|]. apply Hb'. lia.
      - destruct (decide (c = last)) as [->|]; [done|]. apply Hout, Hb'. lia. }
    assert (completed_to m c) as Hmc by exact (conj Hok' (conj Hb' Hc)).
    destruct (_ && rb_fin b); [exists m, c, (Some 0)|exists m, c, None];
      (split; [done|]; split; [exact Hmc|]; split; [done|simpl; lia]).
  - exists m, c, (if rb_is_empty b && rb_fin b then Some 0 else None). split; [done|].
    split; [exact (conj Hok' (conj Hb' (Hf c)))|]. split; [done|]. destruct (_ && _); simpl; lia.
Qed.
Lemma drop_buffers_spec x bufs :
  completed_to (x_read_complete_map x) (x_read_complete_cursor x) →
  Forall (λ b, fits 64 (rb_offset b + rb_len b)) bufs →
  ∃ m cursor ns, drop_buffers x bufs = (set_completion m cursor x, ns) ∧ completed_to m cursor ∧
    (∀ i, rs_mem i m ↔ Exists (in_span i) bufs ∨ rs_mem i (x_read_complete_map x)) ∧
    cursor = x_read_complete_cursor x + total ns.
Proof.
  revert x. induction bufs as [|b bufs IH]; intros x Hx Hf; simpl.
  - exists (x_read_complete_map x), (x_read_complete_cursor x), []. split; [by destruct x|].
    split; [exact Hx|]. split; [|simpl; lia]. intros i. rewrite Exists_nil. tauto.
  - apply Forall_cons in Hf as [Hb Hf].
    destruct (read_complete_spec x b Hx Hb) as (m & c & n & -> & Hm & Hmem & Hc).
    destruct (IH (set_completion m c x) Hm Hf) as (m' & c' & ns & -> & Hm' & Hmem' & Hc').
    exists m', c', (option_list n ++ ns). split; [done|]. split; [exact Hm'|]. split.
    + intros i. rewrite Hmem', Exists_cons. simpl. rewrite Hmem. tauto.
    + simpl in Hc'. rewrite Hc', Hc, total_app. lia.
Qed.

(** ** Reading, exactly *)
Lemma read_fuel_cons b bufs :
  read_fuel (b :: bufs) = (S (length (rb_buffers b) - rb_read_cursor b) + read_fuel bufs)%nat.
Proof. done. Qed.
Lemma read_fuel_ge bufs : (2 ≤ read_fuel bufs)%nat.
Proof. induction bufs as [|b bufs IH]; [done|]. rewrite read_fuel_cons. lia. Qed.

(** The result of filling [room] bytes, [read] of which are there, from
    [bufs], with [done] already used up. *)
Definition read_result (room : nat) (read : bytes) (fin : bool) (bufs done : list StreamRecvBuffer)
    (r : ReadStatus bytes * list StreamRecvBuffer * list StreamRecvBuffer) : Prop :=
  let '(status, bufs', done') := r in
  let n := (room - length read)%nat in
  Forall rb_wf bufs' ∧
  (∃ used, done' = done ++ used ∧ span <$> (used ++ bufs') = span <$> bufs) ∧
  if bool_decide (n ≤ length (buffered bufs))%nat then
    status = Readable (read ++ take n (buffered bufs)) ∧ buffered bufs' = drop n (buffered bufs) ∧
    last_fin fin bufs' = last_fin fin bufs ∧ (bufs' = [] → bufs = [])
  else
    bufs' = [] ∧
    status = read_status (if (0 <? length (read ++ buffered bufs))%nat then Some (read ++ buffered bufs)
                          else None, last_fin fin bufs).
(** One slice taken from the front. *)
Lemma read_result_slice room read fin front front' slice rest done r :
  (length read + length slice ≤ room)%nat →
  rb_content front = slice ++ rb_content front' → span front' = span front →
  read_result room (read ++ slice) fin (front' :: rest) done r →
  read_result room read fin (front :: rest) done r.
Proof.
  destruct r as [[status bufs'] d]. intros Hlen Hcont Hspan (Hwf' & (used & Hd & Hsp) & Hres).
  split; [done|]. split.
  { exists used. split; [done|]. rewrite Hsp. simpl. by rewrite Hspan. }
  apply span_eq in Hspan as (_ & _ & Hfin).
  rewrite !buffered_cons in *. rewrite Hcont, <-(assoc_L (++)).
  rewrite (length_app read slice) in Hres. rewrite (length_app slice).
  destruct (decide (room - length read ≤ length slice + length (rb_content front' ++ buffered rest))%nat) as [Hn|Hn].
  - rewrite bool_decide_eq_true_2 in Hres by lia. rewrite bool_decide_eq_true_2 by done.
    destruct Hres as (-> & Hb & Hl & Hne). split_and!.
    + rewrite (take_app_ge slice) by lia. rewrite <-(assoc_L (++)). do 4 f_equal. lia.
    + rewrite Hb, (drop_app_ge slice) by lia. f_equal. lia.
    + rewrite Hl. unfold last_fin. simpl. by rewrite Hfin.
    + intros Hnil. by apply Hne in Hnil.
  - rewrite bool_decide_eq_false_2 in Hres by lia. rewrite bool_decide_eq_false_2 by done.
    destruct Hres as (-> & ->). split; [done|]. rewrite <-(assoc_L (++)).
    unfold last_fin. simpl. by rewrite Hfin.
Qed.
(** The front used up. *)
Lemma read_result_next room read fin front rest done r :
  rb_content front = [] → (length read < room)%nat →
  read_result room read (rb_fin front) rest (done ++ [front]) r →
  read_result room read fin (front :: rest) done r.
Proof.
  destruct r as [[status bufs'] d]. intros Hnil Hroom (Hwf' & (used & Hd & Hsp) & Hres).
  split; [done|]. split.
  { exists (front :: used). split; [by rewrite Hd, <-(assoc_L (++))|].
    cbn [app]. by rewrite !fmap_cons, Hsp. }
  rewrite !buffered_cons in *. rewrite Hnil. cbn [app].
  case_bool_decide as Hn; [|done]. destruct Hres as (-> & Hb & Hl & Hne).
  destruct bufs' as [|b' bufs']; [|by split_and!].
  rewrite (Hne eq_refl) in Hn. simpl in Hn. lia.
Qed.
Lemma read_loop_spec fuel room read fin bufs done : Forall rb_wf bufs → (length read ≤ room)%nat →
  (read_fuel bufs ≤ fuel ∨ (length read = room ∧ 1 ≤ fuel))%nat →
  ∃ r, read_loop fuel room read fin bufs done = Ok r ∧ read_result room read fin bufs done r.
Proof.
  revert read fin bufs done. induction fuel as [|fuel IH]; intros read fin bufs done Hwf Hroom Hfuel.
  { pose proof (read_fuel_ge bufs). lia. }
  cbn [read_loop]. destruct (length read =? room)%nat eqn:Efull.
  { apply Nat.eqb_eq in Efull. eexists. split; [reflexivity|]. split; [done|].
    split; [exists []; by rewrite app_nil_r|].
    replace (room - length read)%nat with 0%nat by lia. rewrite bool_decide_eq_true_2 by lia.
    by rewrite take_0, app_nil_r, drop_0. }
  apply Nat.eqb_neq in Efull. destruct Hfuel as [Hfuel|[? _]]; [|done].
  destruct bufs as [|front rest].
  { eexists. split; [reflexivity|]. split; [done|]. split; [exists []; by rewrite app_nil_r|].
    unfold buffered. simpl. rewrite bool_decide_eq_false_2 by lia. by rewrite app_nil_r. }
  apply Forall_cons in Hwf as [Hf Hrest]. rewrite read_fuel_cons in Hfuel.
  pose proof (read_fuel_ge rest) as Hge.
  pose proof (get_bytes_spec front (room - length read) Hf) as Hg.
  pose proof (get_bytes_span front (room - length read)) as Hspan.
  destruct (get_bytes_upto_size front _) as [[[slice|] front']| | |]; try done; cbn [rbind].
  - destruct Hg as (Hf' & Hcont & Hlen & Hfin & Hbufs & Hprog).
    destruct (Hspan _ _ eq_refl) as [Ho Hl].
    destruct (IH (read ++ slice) fin (front' :: rest) done) as (r & Hr & Hres).
    { by constructor. }
    { rewrite length_app. lia. }
    { pose proof (rw_cursor _ Hf'). rewrite read_fuel_cons, length_app. rewrite Hbufs in *.
      destruct Hprog as [[? ?]|?]; [right|left]; lia. }
    exists r. split; [done|]. apply (read_result_slice _ _ _ _ front' slice); [lia|done| |done].
    unfold span. by rewrite Ho, Hl, Hfin.
  - destruct Hg as [Hnil ->].
    destruct (IH read (rb_fin front) rest (done ++ [front]) Hrest Hroom) as (r & Hr & Hres); [lia|].
    exists r. split; [done|]. apply read_result_next; [done|lia|done].
Qed.

(** The answer of [poll_read] on an open stream. *)
Definition read_answer (room : nat) (content : bytes) (fin : bool) : poll (bytes + ReadError) :=
  if bool_decide (room ≤ length content)%nat then Ready (inl (take room content))
  else if fin then Ready (inl content)
  else match content with [] => Pending | _ => Ready (inl content) end.
(** [x'] is [x] with the queue moved on, before the used buffers are dropped. *)
Record read_step (room : nat) (x x' : StreamInner) (used : list StreamRecvBuffer) : Prop := {
  qs_wf : Forall rb_wf (x_recv_buffers x');
  qs_spans : span <$> (used ++ x_recv_buffers x') = span <$> x_recv_buffers x;
  qs_left : buffered (x_recv_buffers x') = drop room (buffered (x_recv_buffers x));
  qs_state : if bool_decide (room ≤ length (buffered (x_recv_buffers x)))%nat
    then x_recv_state x' = RStartComplete ∧
         last_fin false (x_recv_buffers x') = last_fin false (x_recv_buffers x)
    else x_recv_buffers x' = [] ∧
         x_recv_state x' = (if last_fin false (x_recv_buffers x) then RShutdown else RStartComplete);
  qs_same : x_read_complete_map x' = x_read_complete_map x ∧
    x_read_complete_cursor x' = x_read_complete_cursor x ∧ x_state x' = x_state x ∧
    x_local_open x' = x_local_open x ∧
    x_conn_error x' = x_conn_error x ∧ x_recv_error_code x' = x_recv_error_code x;
}.
Lemma poll_read_spec x cx room : x_recv_state x = RStartComplete → Forall rb_wf (x_recv_buffers x) →
  let answer := read_answer room (buffered (x_recv_buffers x)) (last_fin false (x_recv_buffers x)) in
  ∃ x1 used, poll_read x cx room = (let '(x', ns) := drop_buffers x1 used in Ok (answer, x', ns)) ∧
    read_step room x x1 used ∧ (answer = Pending → cx ∈ x_read_waiters x1).
Proof.
  intros Hst Hwf answer. unfold poll_read, poll_read_generic. rewrite Hst.
  destruct (read_loop_spec (read_fuel (x_recv_buffers x)) room [] false (x_recv_buffers x) [] Hwf)
    as ([[status bufs'] done] & Hr & Hwf' & (used & -> & Hsp) & Hres); [simpl; lia|by left|].
  rewrite Hr. cbn [rbind]. rewrite Nat.sub_0_r in Hres. cbn [app] in *.
  unfold read_answer in answer. destruct (bool_decide _) eqn:En.
  - destruct Hres as (-> & Hb & Hl & _). eexists _, used. cbn [poll_map or_default default].
    split; [reflexivity|]. split; [|done]. split; simpl; try done. by rewrite En.
  - destruct Hres as (-> & ->). apply bool_decide_eq_false in En as En'.
    assert (drop room (buffered (x_recv_buffers x)) = []) as Hd by (apply drop_ge; lia).
    destruct (last_fin false (x_recv_buffers x)) eqn:Efin, (buffered (x_recv_buffers x)) as [|c l] eqn:Ec;
      cbn [read_status]; eexists _, used; (split; [reflexivity|]);
      (split; [split; simpl; rewrite ?Ec, ?Efin, ?En; try done; by rewrite Hst|]); try done.
    intros _. simpl. set_solver.
Qed.

(** ** Runs of a reader

    A stream with what has been received, what has been read, whether the FIN
    has been received, the chunks handed out and not dropped yet, the total
    passed to [receive_complete], and whether reading has been cut off here. *)
Record Reader : Type := mkReader {
  rd_stream : StreamInner;
  rd_received : bytes;
  rd_read : bytes;
  rd_fin : bool;
  rd_held : list StreamRecvBuffer;
  rd_acked : N;
  rd_cut : bool;
}.
(** An error that a read of a finished stream reports is recorded. *)
Definition broken (x : StreamInner) : Prop := x_conn_error x ≠ None ∨ x_recv_error_code x ≠ None.
Definition starting (x : StreamInner) : Prop := x_recv_state x = RClosed ∨ x_recv_state x = RStart.
Definition recv_neutral (ev : StreamEvent) : bool :=
  match ev with
  | EvSendComplete _ | EvIdealSendBufferSize | EvSendShutdownComplete _ | EvPeerReceiveAborted _ => true
  | _ => false
  end.
Definition start_event (ev : StreamEvent) : bool :=
  match ev with EvStartComplete _ _ _ | EvPeerAccepted => true | _ => false end.
(** Reading is cut off here when it is aborted, and when the shutdown of the
    stream is complete although the peer has not ended its direction, no error
    was indicated and the connection stays: after a graceful shutdown of a
    stream that is only written here, or when its start was refused. *)
Definition cut_off (connection_shutdown : bool) (x : StreamInner) : bool :=
  negb connection_shutdown && bool_decide (x_conn_error x = None) && bool_decide (x_recv_error_code x = None) &&
  match x_recv_state x with RShutdown | RShutdownComplete => false | _ => true end.
Definition aborted (p : poll (unit + ReadError)) : bool := match p with Ready (inl _) => true | _ => false end.
(** What msquic indicates: a stream that is opened here is started once; the
    bytes come in order, none after the FIN; the end of the peer's direction
    is indicated once everything has been taken, unless reading was aborted;
    the shutdown of the stream is complete at any time. *)
Inductive reader_step : Reader → Reader → Prop :=
  | step_start x rcv rd fin held acked cut cx start p x' :
      x_local_open x = true → poll_start x cx start = Ok (p, x') →
      reader_step (mkReader x rcv rd fin held acked cut) (mkReader x' rcv rd fin held acked cut)
  | step_started x rcv rd fin held acked cut ev :
      start_event ev = true → starting x → x_state x ≠ SShutdownComplete →
      reader_step (mkReader x rcv rd fin held acked cut) (mkReader (after x ev) rcv rd fin held acked cut)
  | step_receive x rcv rd held acked cut len buffers fin :
      x_recv_state x = RStartComplete →
      fits 32 (blen (concat buffers)) → fits 64 (blen (rcv ++ concat buffers)) →
      reader_step (mkReader x rcv rd false held acked cut)
        (mkReader (after x (EvReceive (blen rcv) len buffers fin)) (rcv ++ concat buffers) rd fin held acked cut)
  | step_read x rcv rd fin held acked cut cx room out x' ns :
      poll_read x cx room = Ok (Ready (inl out), x', ns) →
      reader_step (mkReader x rcv rd fin held acked cut) (mkReader x' rcv (rd ++ out) fin held (acked + total ns) cut)
  | step_wait x rcv rd fin held acked cut cx room x' ns :
      poll_read x cx room = Ok (Pending, x', ns) →
      reader_step (mkReader x rcv rd fin held acked cut) (mkReader x' rcv rd fin held (acked + total ns) cut)
  | step_read_chunk x rcv rd fin held acked cut cx b x' :
      poll_read_chunk x cx = Ok (Ready (inl (Some b)), x') →
      reader_step (mkReader x rcv rd fin held acked cut)
        (mkReader x' rcv (rd ++ rb_content b) fin (b :: held) acked cut)
  | step_wait_chunk x rcv rd fin held acked cut cx x' :
      poll_read_chunk x cx = Ok (Pending, x') →
      reader_step (mkReader x rcv rd fin held acked cut) (mkReader x' rcv rd fin held acked cut)
  | step_drop x rcv rd fin held1 b held2 acked cut b' x' n :
      (** the owner may have read [b] *)
      span b' = span b → read_complete x b' = (x', n) →
      reader_step (mkReader x rcv rd fin (held1 ++ b :: held2) acked cut)
        (mkReader x' rcv rd fin (held1 ++ held2) (acked + total (option_list n)) cut)
  | step_peer_send_shutdown x rcv rd fin held acked cut :
      fin = true ∧ buffered (x_recv_buffers x) = [] ∨ cut = true ∧ x_recv_state x = RShutdownComplete →
      reader_step (mkReader x rcv rd fin held acked cut) (mkReader (after x EvPeerSendShutdown) rcv rd fin held acked cut)
  | step_peer_send_aborted x rcv rd fin held acked cut code :
      x_recv_state x ≠ RClosed →
      reader_step (mkReader x rcv rd fin held acked cut) (mkReader (after x (EvPeerSendAborted code)) rcv rd fin held acked cut)
  | step_shutdown_complete x rcv rd fin held acked cut c app by_app remote code status woken x' n :
      callback_handler_impl x (EvShutdownComplete c app by_app remote code status) = (woken, x', n) →
      reader_step (mkReader x rcv rd fin held acked cut)
        (mkReader x' rcv rd fin held (acked + total (option_list n)) (cut || cut_off c x))
  | step_abort_read x rcv rd fin held acked cut shutdown r x' :
      abort_read x shutdown = (r, x') →
      reader_step (mkReader x rcv rd fin held acked cut) (mkReader x' rcv rd fin held acked (cut || aborted (Ready r)))
  | step_poll_abort_read x rcv rd fin held acked cut cx shutdown p x' woken :
      poll_abort_read x cx shutdown = (p, x', woken) →
      reader_step (mkReader x rcv rd fin held acked cut) (mkReader x' rcv rd fin held acked (cut || aborted p))
  | step_neutral x rcv rd fin held acked cut ev :
      recv_neutral ev = true →
      reader_step (mkReader x rcv rd fin held acked cut) (mkReader (after x ev) rcv rd fin held acked cut).

Definition fresh_reader (x : StreamInner) : Reader := mkReader x [] [] false [] 0 false.
Definition opened (x : StreamInner) : Prop := ∃ t, x = stream_from_raw t ∨ x = stream_open t.

(** *** The bytes *)
Definition log_inv (r : Reader) : Prop :=
  let x := rd_stream r in
  let bufs := x_recv_buffers x in
  Forall rb_wf bufs ∧
  (x_local_open x = true → x_state x = SOpen → x_recv_state x = RClosed) ∧
  match x_recv_state x with
  | RClosed | RStart => bufs = [] ∧ rd_received r = [] ∧ rd_read r = [] ∧ rd_fin r = false
  | RStartComplete =>
      rd_received r = rd_read r ++ buffered bufs ∧ last_fin false bufs = rd_fin r ∧ fin_last bufs
  | RShutdown => bufs = [] ∧ rd_received r = rd_read r ∧ rd_fin r = true
  | RShutdownComplete =>
      (∃ lost, rd_received r = rd_read r ++ lost) ∧
      (broken x ∨ rd_cut r = true ∨ rd_received r = rd_read r ∧ rd_fin r = true)
  end.

Lemma read_complete_shape x b : ∃ m cursor n, read_complete x b = (set_completion m cursor x, n).
Proof.
  unfold read_complete, rb_range. cbv zeta. repeat case_match; simplify_eq; eauto.
Qed.
Lemma drop_buffers_shape x bufs : ∃ m cursor ns, drop_buffers x bufs = (set_completion m cursor x, ns).
Proof.
  revert x. induction bufs as [|b bufs IH]; intros x; simpl.
  - eexists (x_read_complete_map x), (x_read_complete_cursor x), []. by destruct x.
  - destruct (read_complete_shape x b) as (m & c & n & ->).
    destruct (IH (set_completion m c x)) as (m' & c' & ns & ->). by eexists m', c', _.
Qed.
Lemma read_answer_out room content fin out : read_answer room content fin = Ready (inl out) →
  content = out ++ drop room content ∧ out = take room content ∧
  (length content < room → fin = true ∨ content ≠ [])%nat.
Proof.
  unfold read_answer. case_bool_decide as Hn; [intros [= <-]; rewrite take_drop; split_and!; [done..|intros; lia]|].
  assert (drop room content = []) as -> by (apply drop_ge; lia).
  assert (take room content = content) as -> by (apply take_ge; lia).
  destruct fin; [intros [= <-]; rewrite app_nil_r; by split_and!; auto|].
  destruct content; [done|]. intros [= <-]. rewrite app_nil_r. split_and!; auto.
Qed.
Lemma read_answer_pending room content fin : read_answer room content fin = Pending →
  content = [] ∧ fin = false ∧ (0 < room)%nat.
Proof. unfold read_answer. case_bool_decide as Hn; [done|]. destruct fin, content; try done. simpl in Hn.
  intros _. split_and!; [done..|lia].
Qed.
(** A poll of a stream that is not open for reading. *)
Lemma poll_read_closed x cx room p x' ns : x_recv_state x ≠ RStartComplete →
  poll_read x cx room = Ok (p, x', ns) → ns = [] ∧
  match x_recv_state x with
  | RStart => p = Pending ∧ x' = push_start_waiter cx x
  | RShutdown => p = Ready (inl []) ∧ x' = x
  | RShutdownComplete => x' = x ∧
      (p = Ready (inl []) ∧ ¬ broken x ∨ (∃ e, p = Ready (inr e)) ∧ broken x)
  | _ => x' = x ∧ ∃ e, p = Ready (inr e)
  end.
Proof.
  intros Hst Hp. unfold poll_read, poll_read_generic in Hp. unfold broken.
  destruct (x_recv_state x); try done; cbn [rbind drop_buffers] in Hp; apply Ok_inj in Hp;
    injection Hp as <- <- <-; split_and!; eauto.
  destruct (x_conn_error x), (x_recv_error_code x); simpl; naive_solver.
Qed.
(** A chunk read is the front of the queue. *)
Lemma poll_read_chunk_spec x cx p x' : poll_read_chunk x cx = Ok (p, x') →
  match p with
  | Ready (inl (Some b)) => ∃ bufs, x_recv_state x = RStartComplete ∧ x_recv_buffers x = b :: bufs ∧
      x' = (if rb_fin b then set_recv_state RShutdown else id) (set_buffers bufs (x_recv_len x) x)
  | Pending => x' = push_start_waiter cx x ∨
      x_recv_state x = RStartComplete ∧ x_recv_buffers x = [] ∧ x' = push_read_waiter cx (set_buffers [] (x_recv_len x) x)
  | _ => True
  end.
Proof.
  unfold poll_read_chunk, poll_read_generic. destruct (x_recv_state x) eqn:Hst; cbn [rbind]; intros Hp.
  - apply Ok_inj in Hp. by injection Hp as <- <-.
  - apply Ok_inj in Hp. injection Hp as <- <-. by left.
  - destruct (x_recv_buffers x) as [|b bufs] eqn:Hb; cbn [rbind read_status] in Hp.
    + apply Ok_inj in Hp. injection Hp as <- <-. by right.
    + destruct (rb_fin b) eqn:Hf; cbn [read_status] in Hp; apply Ok_inj in Hp; injection Hp as <- <-;
        exists bufs; rewrite Hf; by split_and!.
  - apply Ok_inj in Hp. by injection Hp as <- <-.
  - apply Ok_inj in Hp. injection Hp as <- <-. by destruct (x_conn_error x), (x_recv_error_code x).
Qed.

Lemma log_poll x rcv rd fin held acked cut cx room p x' ns acked' :
  log_inv (mkReader x rcv rd fin held acked cut) → poll_read x cx room = Ok (p, x', ns) →
  match p with
  | Ready (inl out) => log_inv (mkReader x' rcv (rd ++ out) fin held acked' cut)
  | Pending => log_inv (mkReader x' rcv rd fin held acked' cut)
  | Ready (inr _) => True
  end.
Proof.
  intros (Hwf & Hopen & Hst) Hp. simpl in *. destruct (decide (x_recv_state x = RStartComplete)) as [E|E].
  - destruct (poll_read_spec x cx room E Hwf) as (x1 & used & Hp2 & [Hwf1 Hsp Hleft Hstate Hsame] & _).
    destruct (drop_buffers_shape x1 used) as (m & c & ns' & Hd). rewrite Hd in Hp2. rewrite Hp2 in Hp.
    apply Ok_inj in Hp. injection Hp as Hans <- <-. rewrite E in *.
    destruct Hst as (Hlog & Hlast & Hfl), Hsame as (_ & _ & Hs & Hlo & _). rewrite <-Hs, <-Hlo in Hopen.
    assert (x_local_open x1 = true → x_state x1 = SOpen → x_recv_state x1 = RClosed) as Hopen1
      by (intros Hl Ho; by specialize (Hopen Hl Ho)).
    assert (fin_last (x_recv_buffers x1)) as Hfl1 by (apply (fin_last_app used); by eapply fin_last_spans).
    destruct (read_answer _ _ _) as [|[out|e]] eqn:Ha; subst p; [|split; [done|split; [done|]]|done]; simpl.
    + apply read_answer_pending in Ha as (Hc & Hf & Hr). rewrite Hc, Hf in *.
      rewrite bool_decide_eq_false_2 in Hstate by (simpl; lia). destruct Hstate as [Hb Hst1].
      split; [done|]. split; [done|]. simpl. rewrite Hst1, Hb. split_and!; [by rewrite Hlog|by subst|done].
    + apply read_answer_out in Ha as (Hc & Hout & _). case_bool_decide as Hn.
      * destruct Hstate as [-> Hl]. rewrite <-(assoc_L (++)), Hleft, <-Hc, Hl. by split_and!.
      * destruct Hstate as [Hb ->]. rewrite <-Hleft, Hb in Hc. unfold buffered at 2 in Hc. simpl in Hc.
        rewrite app_nil_r in Hc. rewrite Hlast. destruct fin; rewrite Hlog, Hc, Hb; split_and!; try done.
        by rewrite app_nil_r.
  - destruct (poll_read_closed _ _ _ _ _ _ E Hp) as [_ Hcl].
    destruct (x_recv_state x) eqn:E'; try done.
    + by destruct Hcl as [-> [e ->]].
    + destruct Hcl as [-> ->]. unfold log_inv. simpl. by rewrite E'.
    + destruct Hcl as [-> ->]. rewrite app_nil_r. unfold log_inv. simpl. by rewrite E'.
    + destruct Hcl as [-> [[-> _]|[[e ->] _]]]; [|done]. rewrite app_nil_r. unfold log_inv. simpl. by rewrite E'.
Qed.

Lemma log_chunk x rcv rd fin held acked cut cx b x' held' :
  log_inv (mkReader x rcv rd fin held acked cut) → poll_read_chunk x cx = Ok (Ready (inl (Some b)), x') →
  log_inv (mkReader x' rcv (rd ++ rb_content b) fin held' acked cut).
Proof.
  intros (Hwf & Hopen & Hst) Hp%poll_read_chunk_spec. destruct Hp as (bufs & E & Hb & ->). simpl in *.
  rewrite E, Hb in *. apply Forall_cons in Hwf as [_ Hwf]. destruct Hst as (Hlog & Hlast & Hfl).
  rewrite buffered_cons, (assoc_L (++)) in Hlog. unfold log_inv. destruct (rb_fin b) eqn:Ef; simpl; rewrite ?E.
  - assert (bufs = []) as -> by (destruct bufs; [done|]; destruct Hfl; congruence).
    split_and!; try done; [by intros ? Ho; specialize (Hopen ltac:(done) Ho)| |].
    + rewrite Hlog. unfold buffered. simpl. by rewrite app_nil_r.
    + rewrite <-Hlast. unfold last_fin. by simpl.
  - split_and!; try done.
    + rewrite <-Hlast. destruct bufs; [by simpl|done].
    + by destruct bufs as [|b2 bufs]; [|destruct Hfl].
Qed.
Lemma log_start x rcv rd fin held acked cut cx start p x' :
  log_inv (mkReader x rcv rd fin held acked cut) → x_local_open x = true → poll_start x cx start = Ok (p, x') →
  log_inv (mkReader x' rcv rd fin held acked cut).
Proof.
  intros (Hwf & Hopen & Hst) Hl Hp. simpl in *. unfold poll_start in Hp. destruct (x_state x) eqn:E.
  - specialize (Hopen Hl eq_refl). rewrite Hopen in Hst. unfold log_inv.
    destruct (status_is_ok start); apply Ok_inj in Hp; injection Hp as _ <-; simpl.
    + split; [done|]. split; [done|]. destruct (x_type x); [done|by rewrite Hopen].
    + split; [done|]. split; [done|]. by rewrite Hopen.
  - apply Ok_inj in Hp. injection Hp as _ <-. unfold log_inv. simpl. by rewrite E.
  - destruct (x_start_status x) as [[]|], (x_conn_error x); try done; apply Ok_inj in Hp;
      injection Hp as _ <-; unfold log_inv; simpl; by rewrite E.
  - destruct (x_start_status x) as [[]|], (x_conn_error x); try done; apply Ok_inj in Hp;
      injection Hp as _ <-; unfold log_inv; simpl; by rewrite E.
Qed.
Lemma log_started x rcv rd fin held acked cut ev :
  log_inv (mkReader x rcv rd fin held acked cut) → start_event ev = true → starting x →
  log_inv (mkReader (after x ev) rcv rd fin held acked cut).
Proof.
  intros (Hwf & Hopen & Hst) Hev Hs. simpl in *.
  assert (x_recv_buffers x = [] ∧ rcv = [] ∧ rd = [] ∧ fin = false) as (Hb & -> & -> & ->)
    by by destruct Hs as [E|E]; rewrite E in Hst.
  assert (∀ y, x_recv_buffers y = x_recv_buffers x → x_local_open y = x_local_open x →
    (x_state y = x_state x ∧ x_recv_state y = x_recv_state x ∨
     x_state y = SStartComplete ∧ (x_recv_state y = RStartComplete ∨ x_recv_state y = x_recv_state x)) →
    log_inv (mkReader y [] [] false held acked cut)) as Hgen.
  { intros y Hyb Hyl Hy. unfold log_inv. simpl. rewrite Hyb, Hb. split; [constructor|]. split.
    - rewrite Hyl. destruct Hy as [[-> ->]|[-> _]]; done.
    - destruct Hy as [[_ ->]|[_ [->| ->]]]; try done; destruct Hs as [-> | ->]; done. }
  destruct ev; try done; apply Hgen; unfold after; simpl;
    try (destruct status, peer_accepted); simpl; auto; destruct (x_type x); auto.
Qed.
Lemma log_shutdown x rcv rd fin held acked cut c app by_app remote code status woken x' n acked' :
  log_inv (mkReader x rcv rd fin held acked cut) →
  callback_handler_impl x (EvShutdownComplete c app by_app remote code status) = (woken, x', n) →
  log_inv (mkReader x' rcv rd fin held acked' (cut || cut_off c x)).
Proof.
  intros (Hwf & Hopen & Hst) He. simpl in *.
  assert (∃ lost, rcv = rd ++ lost) as Hlost.
  { destruct (x_recv_state x); [| |destruct Hst as [-> _]; eauto| |by destruct Hst];
      exists []; rewrite app_nil_r; naive_solver. }
  assert (x_recv_state x' = RShutdownComplete ∧ x_recv_buffers x' = [] ∧ x_state x' = SShutdownComplete ∧
    x_recv_error_code x' = x_recv_error_code x ∧
    (if c then x_conn_error x' ≠ None else x_conn_error x' = x_conn_error x)) as (E1 & E2 & E3 & E4 & E5).
  { unfold handle_event_shutdown_complete in He. destruct (x_recv_buffers x) eqn:Hb, c, by_app, remote, app;
      simpl in He; injection He as _ <- _; simpl; by rewrite ?Hb. }
  unfold log_inv. simpl. rewrite E1, E2, E3. split; [constructor|]. split; [done|]. split; [done|].
  unfold broken, cut_off. rewrite E4. destruct c; [left; by left|]. rewrite E5. simpl.
  case_bool_decide as Hce; [|left; by left]. case_bool_decide as Hrc; [|left; by right]. simpl.
  destruct cut; [by right; left|]. destruct (x_recv_state x); try (by right; left).
  - right. right. by destruct Hst as (_ & -> & ->).
  - destruct Hst as [_ [[?|?]|[?|?]]]; [done..|]. by right; right.
Qed.
Lemma abort_read_shape x shutdown r x' : abort_read x shutdown = (r, x') →
  x' = x ∧ (∃ e, r = inr e) ∨ x_recv_state x = RStartComplete ∧ x' = set_recv_state RShutdownComplete x ∧ r = inl ().
Proof.
  unfold abort_read. destruct (x_recv_state x), (status_is_ok shutdown); intros [= <- <-]; eauto.
Qed.
Lemma poll_abort_read_shape x cx shutdown p x' woken : poll_abort_read x cx shutdown = (p, x', woken) →
  (x' = x ∨ x' = push_start_waiter cx x) ∨
  x_recv_state x = RStartComplete ∧ x' = (wake_read (set_recv_state RShutdownComplete x)).2 ∧ p = Ready (inl ()).
Proof.
  unfold poll_abort_read. destruct (x_recv_state x), (status_is_ok shutdown); intros [= <- <- _]; auto.
Qed.
Lemma log_cut_more x rcv rd fin held acked cut cut' :
  log_inv (mkReader x rcv rd fin held acked cut) → log_inv (mkReader x rcv rd fin held acked (cut || cut')).
Proof.
  intros (? & ? & Hst). split; [done|split; [done|]]. simpl in *. destruct (x_recv_state x); try done.
  destruct Hst as [? [?|[->|?]]]; split; auto.
Qed.
(** Whatever is left is lost. *)
Lemma log_abort x x' rcv rd fin held acked cut :
  log_inv (mkReader x rcv rd fin held acked cut) → x_recv_state x = RStartComplete →
  x_recv_buffers x' = x_recv_buffers x → x_local_open x' = x_local_open x → x_state x' = x_state x →
  x_recv_state x' = RShutdownComplete → log_inv (mkReader x' rcv rd fin held acked (cut || true)).
Proof.
  intros (Hwf & Hopen & Hst) E Hb Hl Hs E'. unfold log_inv. simpl in *. rewrite E in *. rewrite E', Hb, Hl, Hs.
  split; [done|]. split; [intros Ho Hso; by specialize (Hopen Ho Hso)|]. destruct Hst as [-> _].
  split; [eauto|right; left; apply orb_true_r].
Qed.
Lemma log_peer_end x rcv rd held acked cut :
  log_inv (mkReader x rcv rd true held acked cut) → buffered (x_recv_buffers x) = [] →
  log_inv (mkReader (after x EvPeerSendShutdown) rcv rd true held acked cut).
Proof.
  intros (Hwf & Hopen & Hst) Hb. unfold log_inv. simpl in *. split; [done|].
  destruct (x_recv_state x); try naive_solver; destruct Hst as (Hlog & Hst);
    (split; [intros ? Ho; by specialize (Hopen ltac:(done) Ho)|]).
  - rewrite Hb, app_nil_r in Hlog. split; [exists []; by rewrite app_nil_r|by right; right].
  - destruct Hst as [-> _]. split; [exists []; by rewrite app_nil_r|by right; right].
Qed.
Lemma log_step r r' : log_inv r → reader_step r r' → log_inv r'.
Proof.
  intros Hr Hs. destruct Hs.
  - by eapply log_start.
  - by apply log_started.
  - destruct Hr as (Hwf & Hopen & Hst). destruct (rb_new_wf (blen rcv) buffers fin) as [Hnew Hcont]; [done|].
    match goal with HE : x_recv_state x = _ |- _ => rename HE into E end.
    simpl in *. rewrite E in Hst. unfold log_inv. simpl. rewrite E.
    destruct Hst as (-> & Hlast & Hfl). split; [by apply Forall_app; split; [|constructor]|].
    split; [by rewrite E in Hopen|]. rewrite buffered_snoc, Hcont, last_fin_snoc, (assoc_L (++)).
    split_and!; try done. by apply fin_last_snoc.
  - exact (log_poll _ _ _ _ _ _ _ _ _ _ _ _ _ Hr ltac:(eassumption)).
  - exact (log_poll _ _ _ _ _ _ _ _ _ _ _ _ _ Hr ltac:(eassumption)).
  - by eapply log_chunk.
  - match goal with Hp : poll_read_chunk _ _ = _ |- _ => apply poll_read_chunk_spec in Hp as [->|(E & Hb & ->)] end.
    + exact Hr.
    + destruct Hr as (Hwf & Hopen & Hst). unfold log_inv. simpl in *.
      rewrite E, Hb in *. split; [done|]. split; [done|exact Hst].
  - match goal with Hp : read_complete _ b' = _ |- _ =>
      destruct (read_complete_shape x b') as (m & c & n' & Hsh); rewrite Hsh in Hp; injection Hp as <- _ end.
    exact Hr.
  - match goal with H : _ ∨ _ |- _ => destruct H as [[-> Hb]|[-> E]] end; [by apply log_peer_end|].
    destruct Hr as (Hwf & Hopen & Hst). unfold log_inv. simpl in *. by rewrite E in *.
  - destruct Hr as (Hwf & Hopen & Hst). unfold log_inv. simpl in *. split; [done|]. split.
    + intros Hl Ho. by specialize (Hopen Hl Ho).
    + split; [|left; by right]. destruct (x_recv_state x); [done| | | |by destruct Hst];
        [exists []|exists (buffered (x_recv_buffers x))|exists []]; rewrite ?app_nil_r; naive_solver.
  - by eapply log_shutdown.
  - match goal with Ha : abort_read _ _ = _ |- _ => apply abort_read_shape in Ha as [[-> _]|(E & -> & ->)] end;
      [by apply log_cut_more|by eapply log_abort].
  - match goal with Ha : poll_abort_read _ _ _ = _ |- _ => apply poll_abort_read_shape in Ha as [[->| ->]|(E & -> & ->)] end;
      [by apply log_cut_more..|by eapply log_abort].
  - match goal with Hev : recv_neutral ev = true |- _ => destruct ev; try done end; exact Hr.
Qed.

(** *** The lengths passed to [receive_complete] *)

(** What has left the queue is given back or held, up to where the queue
    begins, and no more than has been read. *)
Definition accounted (x : StreamInner) (received read : N) (held : list StreamRecvBuffer) (acked : N) : Prop :=
  fits 64 received ∧ ∃ q, q ≤ read ∧ contiguous q (x_recv_buffers x) received ∧
  Forall (λ b, rb_offset b + rb_len b ≤ q) held ∧
  (∀ i, i < q ↔ rs_mem i (x_read_complete_map x) ∨ Exists (in_span i) held) ∧
  completed_to (x_read_complete_map x) (x_read_complete_cursor x) ∧ acked = x_read_complete_cursor x.
Definition acc_inv (r : Reader) : Prop :=
  x_state (rd_stream r) ≠ SShutdownComplete →
  accounted (rd_stream r) (blen (rd_received r)) (blen (rd_read r)) (rd_held r) (rd_acked r).

(** Moving the queue on and giving the used buffers back. *)
Lemma accounted_read x x1 used received read read' held acked m cursor ns :
  accounted x received read held acked →
  span <$> (used ++ x_recv_buffers x1) = span <$> x_recv_buffers x → Forall rb_wf (x_recv_buffers x1) →
  x_read_complete_map x1 = x_read_complete_map x → x_read_complete_cursor x1 = x_read_complete_cursor x →
  received ≤ read' + blen (buffered (x_recv_buffers x1)) →
  drop_buffers x1 used = (set_completion m cursor x1, ns) →
  accounted (set_completion m cursor x1) received read' held (acked + total ns).
Proof.
  intros (Hfit & q & Hq & Hcont & Hheld & Hmem & Hcomp & ->) Hsp Hwf Hm Hc Hread Hd.
  apply contiguous_spans with (bufs' := used ++ x_recv_buffers x1) in Hcont; [|done].
  apply contiguous_app in Hcont as (mid & Hused & Hrest).
  pose proof (buffered_le _ _ _ Hwf Hrest). pose proof (contiguous_le _ _ _ Hused).
  pose proof (contiguous_le _ _ _ Hrest). rewrite <-Hm, <-Hc in Hcomp.
  destruct (drop_buffers_spec x1 used Hcomp) as (m' & c' & ns' & Hd' & Hcomp' & Hmem' & Hc').
  { eapply Forall_impl; [exact (contiguous_ends _ _ _ Hused)|]. intros b Hb. simpl in Hb. lia. }
  rewrite Hd in Hd'. injection Hd' as -> -> ->. split; [done|]. exists mid. simpl.
  split; [lia|]. split; [done|]. split.
  { eapply Forall_impl; [exact Hheld|]. intros b Hb. simpl in Hb. lia. }
  split; [|split; [done|by rewrite <-Hc]].
  intros i. rewrite Hmem', (contiguous_covers _ _ _ i Hused), Hm.
  specialize (Hmem i). split; [|intros [[?|?]|?]; [lia|..]; assert (i < q) by tauto; lia].
  intros Hi. destruct (decide (i < q)); [tauto|]. left. left. lia.
Qed.
(** Dropping a chunk. *)
Lemma accounted_drop x x' n received read held1 b b' held2 acked :
  accounted x received read (held1 ++ b :: held2) acked → span b' = span b →
  read_complete x b' = (x', n) →
  accounted x' received read (held1 ++ held2) (acked + total (option_list n)).
Proof.
  intros (Hfit & q & Hq & Hcont & Hheld & Hmem & Hcomp & ->) (Ho & Hl & _)%span_eq Hd.
  apply Forall_app in Hheld as [Hh1 [Hb Hh2]%Forall_cons]. pose proof (contiguous_le _ _ _ Hcont).
  destruct (read_complete_spec x b' Hcomp) as (m & c & n' & Hd' & Hcomp' & Hmem' & Hc'); [simpl in *; lia|].
  rewrite Hd in Hd'. injection Hd' as -> ->. split; [done|]. exists q. simpl.
  split; [done|]. split; [done|]. split; [by apply Forall_app|]. split; [|done].
  intros i. rewrite Hmem', (Hmem i), !Exists_app, Exists_cons. unfold in_span. rewrite Ho, Hl. tauto.
Qed.
(** Taking a chunk out of the queue. *)
Lemma accounted_chunk x x' b bufs received read read' held acked :
  accounted x received read held acked → x_recv_buffers x = b :: bufs → x_recv_buffers x' = bufs →
  x_read_complete_map x' = x_read_complete_map x → x_read_complete_cursor x' = x_read_complete_cursor x →
  Forall rb_wf bufs → received ≤ read' + blen (buffered bufs) →
  accounted x' received read' (b :: held) acked.
Proof.
  intros (Hfit & q & Hq & Hcont & Hheld & Hmem & Hcomp & ->) Hb Hb' Hm Hc Hwf Hread.
  rewrite Hb in Hcont. destruct Hcont as [Ho Hcont]. pose proof (buffered_le _ _ _ Hwf Hcont).
  split; [done|]. exists (q + rb_len b). rewrite Hb', Hm, Hc. split; [lia|]. split; [done|]. split.
  { constructor; [lia|]. eapply Forall_impl; [exact Hheld|]. intros b0 Hb0. simpl in Hb0. lia. }
  split; [|done]. intros i. rewrite Exists_cons. unfold in_span at 1. rewrite Ho. specialize (Hmem i).
  split; [|intros [?|[?|?]]; [|lia|]; assert (i < q) by tauto; lia].
  intros Hi. destruct (decide (i < q)); [tauto|]. right. left. lia.
Qed.

Lemma acc_poll x rcv rd fin held acked cut cx room p x' ns :
  log_inv (mkReader x rcv rd fin held acked cut) → acc_inv (mkReader x rcv rd fin held acked cut) →
  poll_read x cx room = Ok (p, x', ns) →
  match p with
  | Ready (inl out) => acc_inv (mkReader x' rcv (rd ++ out) fin held (acked + total ns) cut)
  | Pending => acc_inv (mkReader x' rcv rd fin held (acked + total ns) cut)
  | Ready (inr _) => True
  end.
Proof.
  intros (Hwf & _ & Hst) Hacc Hp. simpl in *. destruct (decide (x_recv_state x = RStartComplete)) as [E|E].
  - destruct (poll_read_spec x cx room E Hwf) as (x1 & used & Hp2 & [Hwf1 Hsp Hleft _ Hsame] & _).
    destruct (drop_buffers_shape x1 used) as (m & c & ns' & Hd). rewrite Hd in Hp2. rewrite Hp2 in Hp.
    apply Ok_inj in Hp. injection Hp as Hans <- <-. rewrite E in Hst.
    destruct Hst as (Hlog & _), Hsame as (Hm & Hc & Hs & _). unfold acc_inv in Hacc. simpl in Hacc.
    assert (∀ out, buffered (x_recv_buffers x) = out ++ buffered (x_recv_buffers x1) →
      acc_inv (mkReader (set_completion m c x1) rcv (rd ++ out) fin held (acked + total ns') cut)) as Hgen.
    { intros out Ho Hns. simpl in *. rewrite Hs in Hns.
      eapply accounted_read; try done; [by apply Hacc|]. rewrite Hlog, Ho, !blen_app. lia. }
    destruct (read_answer _ _ _) as [|[out|e]] eqn:Ha; subst p; [| |done].
    + apply read_answer_pending in Ha as (Hb & _). specialize (Hgen []). rewrite app_nil_r in Hgen.
      apply Hgen. rewrite Hleft, Hb. by rewrite drop_nil.
    + apply read_answer_out in Ha as (Hb & _). apply Hgen. by rewrite Hleft.
  - destruct (poll_read_closed _ _ _ _ _ _ E Hp) as [-> Hcl]. rewrite N.add_0_r.
    destruct (x_recv_state x) eqn:E'; try done.
    + by destruct Hcl as [-> [e ->]].
    + by destruct Hcl as [-> ->].
    + destruct Hcl as [-> ->]. by rewrite app_nil_r.
    + destruct Hcl as [-> [[-> _]|[[e ->] _]]]; [|done]. by rewrite app_nil_r.
Qed.
(** A step that leaves the queue and the accounts alone. *)
Lemma acc_frame x x' rcv rd fin held acked cut cut' :
  acc_inv (mkReader x rcv rd fin held acked cut) →
  x_recv_buffers x' = x_recv_buffers x → x_read_complete_map x' = x_read_complete_map x →
  x_read_complete_cursor x' = x_read_complete_cursor x →
  (x_state x' ≠ SShutdownComplete → x_state x ≠ SShutdownComplete) →
  acc_inv (mkReader x' rcv rd fin held acked cut').
Proof.
  unfold acc_inv, accounted. simpl. intros Hacc -> -> -> Hs Hs'. by apply Hacc, Hs.
Qed.
Lemma acc_step r r' : log_inv r → acc_inv r → reader_step r r' → acc_inv r'.
Proof.
  intros Hlog Hacc Hs.
  destruct Hs as [x rcv rd fin held acked cut cx start p x' Hl Hp|x rcv rd fin held acked cut ev Hev _ Hns
    |x rcv rd held acked cut len buffers fin E Hf32 Hf64|x rcv rd fin held acked cut cx room out x' ns Hp
    |x rcv rd fin held acked cut cx room x' ns Hp|x rcv rd fin held acked cut cx b x' Hp|x rcv rd fin held acked cut cx x' Hp
    |x rcv rd fin held1 b held2 acked cut b' x' n Hsp Hd|x rcv rd fin held acked cut Hb|x rcv rd fin held acked cut code Hc
    |x rcv rd fin held acked cut c app by_app remote code status woken x' n He|x rcv rd fin held acked cut shutdown r x' Ha
    |x rcv rd fin held acked cut cx shutdown p x' woken Ha|x rcv rd fin held acked cut ev Hev].
  - unfold poll_start in Hp.
    destruct (x_state x) eqn:E, (status_is_ok start), (x_start_status x) as [[]|], (x_conn_error x); try done;
      apply Ok_inj in Hp; injection Hp as _ <-; apply (acc_frame _ _ _ _ _ _ _ _ _ Hacc); simpl; done || by rewrite E.
  - destruct ev; try done; apply (acc_frame x _ _ _ _ _ _ cut); try done; unfold after; simpl;
      try (destruct status, peer_accepted); done.
  - intros Hns. simpl in *. destruct (Hacc Hns) as (Hfit & q & Hq & Hcont & Hrest). split; [done|].
    exists q. simpl. split; [done|]. split; [|done]. apply contiguous_app. exists (blen rcv). split; [done|].
    split; [done|]. destruct (rb_new_wf (blen rcv) buffers fin Hf32) as [[_ Hl _ _] _].
    rewrite Hl, blen_app. done.
  - exact (acc_poll _ _ _ _ _ _ _ _ _ _ _ _ Hlog Hacc Hp).
  - exact (acc_poll _ _ _ _ _ _ _ _ _ _ _ _ Hlog Hacc Hp).
  - apply poll_read_chunk_spec in Hp as (bufs & E & Hb & ->). destruct Hlog as (Hwf & _ & Hst).
    simpl in *. rewrite E, Hb in *. apply Forall_cons in Hwf as [_ Hwf]. destruct Hst as (Hlog & _).
    rewrite buffered_cons in Hlog. intros Hns. simpl in *.
    apply (accounted_chunk x _ b bufs _ (blen rd)); try done; [apply Hacc|by destruct (rb_fin b)..|].
    + by destruct (rb_fin b).
    + rewrite Hlog, !blen_app. lia.
  - apply poll_read_chunk_spec in Hp as [->|(E & Hb & ->)]; [exact Hacc|].
    by apply (acc_frame _ _ _ _ _ _ _ _ _ Hacc).
  - intros Hns. simpl in *. eapply accounted_drop; [|done..]. apply Hacc. simpl.
    destruct (read_complete_shape x b') as (m & c & n' & Hsh). rewrite Hsh in Hd. by injection Hd as <- _.
  - by apply (acc_frame _ _ _ _ _ _ _ _ _ Hacc).
  - by apply (acc_frame _ _ _ _ _ _ _ _ _ Hacc).
  - intros Hns. simpl in *. exfalso. apply Hns. unfold handle_event_shutdown_complete in He.
    destruct (x_recv_buffers x), c, by_app, remote, app; simpl in He; by injection He as _ <- _.
  - apply abort_read_shape in Ha as [[-> _]|(_ & -> & _)]; by apply (acc_frame _ _ _ _ _ _ _ _ _ Hacc).
  - apply poll_abort_read_shape in Ha as [[->| ->]|(_ & -> & _)]; by apply (acc_frame _ _ _ _ _ _ _ _ _ Hacc).
  - apply (acc_frame x _ _ _ _ _ _ cut); try done; by destruct ev.
Qed.
Lemma reader_inv_run x r : opened x → rtc reader_step (fresh_reader x) r → log_inv r ∧ acc_inv r.
Proof.
  intros [t Hx] Hr. remember (fresh_reader x) as r0 eqn:E0.
  assert (log_inv r0 ∧ acc_inv r0) as Hinv.
  { subst r0. split; [destruct Hx as [-> | ->], t; split; try done; by split_and!|].
    intros _. split; [done|]. exists 0. simpl. destruct Hx as [-> | ->]; simpl;
      (split; [done|split; [done|split; [constructor|]]]);
      (split; [intros i; rewrite Exists_nil; pose proof (rs_mem_new i); lia || (split; [lia|tauto])|]);
      (split; [|done]); split; try apply rs_new_ok; (split; [lia|apply rs_mem_new]). }
  clear Hx E0. induction Hr as [|r0 r1 r Hs Hr IH]; [done|]. apply IH.
  destruct Hinv as [Hl Ha]. split; [by eapply log_step|by eapply acc_step].
Qed.

(** ** Runs of a writer *)
Inductive WriteOp : Type := WriteSlice (buf : bytes) | WriteChunk (chunk : bytes) | WriteChunks (chunks : list bytes).
Definition op_bytes (op : WriteOp) : bytes :=
  match op with WriteSlice buf => buf | WriteChunk chunk => chunk | WriteChunks chunks => concat chunks end.
Definition poll_write_op (x : StreamInner) (cx : nat) (op : WriteOp) : bool → Status → WriteResult :=
  match op with
  | WriteSlice buf => poll_write x cx buf
  | WriteChunk chunk => poll_write_chunk x cx chunk
  | WriteChunks chunks => poll_write_chunks x cx chunks
  end.
(** A stream with the portions the callers were told are written, the
    portions handed to msquic, and the buffers msquic has not returned. *)
Record Writer : Type := mkWriter {
  wr_stream : StreamInner;
  wr_accepted : list (bytes * bool);
  wr_handed : list (bytes * bool);
  wr_flight : list WriteBuffer;
}.
Definition accepted_portion (p : poll (nat + WriteError)) (op : WriteOp) (fin : bool) : list (bytes * bool) :=
  match p with Ready (inl _) => [(op_bytes op, fin)] | _ => [] end.
Definition handed_portion (sent : option (list bytes * bool * WriteBuffer)) : list (bytes * bool) :=
  match sent with Some (buffers, fin, _) => [(concat buffers, fin)] | None => [] end.
Inductive write_step : Writer → Writer → Prop :=
  | step_write x acc handed flight cx op fin send p x' sent :
      poll_write_op x cx op fin send = Ok (p, x', sent) →
      write_step (mkWriter x acc handed flight)
        (mkWriter x' (acc ++ accepted_portion p op fin) (handed ++ handed_portion sent)
           (flight ++ option_list (snd <$> sent)))
  | step_send_complete x acc handed flight1 w flight2 :
      write_step (mkWriter x acc handed (flight1 ++ w :: flight2))
        (mkWriter (after x (EvSendComplete w)) acc handed (flight1 ++ flight2))
  | step_finish x acc handed flight cx shutdown :
      write_step (mkWriter x acc handed flight) (mkWriter (poll_finish_write x cx shutdown).2 acc handed flight)
  | step_abort x acc handed flight shutdown :
      write_step (mkWriter x acc handed flight) (mkWriter (abort_write x shutdown).2 acc handed flight)
  | step_write_start x acc handed flight cx start p x' :
      x_send_state x = WClosed → poll_start x cx start = Ok (p, x') →
      write_step (mkWriter x acc handed flight) (mkWriter x' acc handed flight)
  | step_event x acc handed flight ev :
      (** the peer accepts a stream once, when it starts *)
      (match ev with
       | EvStartComplete _ _ _ | EvPeerAccepted => x_send_state x = WStart ∨ x_send_state x = WClosed
       | EvSendComplete _ => False
       | _ => True
       end) →
      write_step (mkWriter x acc handed flight) (mkWriter (after x ev) acc handed flight).
Definition fresh_writer (x : StreamInner) : Writer := mkWriter x [] [] [].

Definition pool_clean (x : StreamInner) : Prop := Forall (λ w, w = WriteBuffer_new) (x_write_pool x).
Definition send_closed (x : StreamInner) : bool :=
  match x_send_state x with WShutdown | WShutdownComplete => true | _ => false end.
(** Only the last portion has the FIN flag, and then no more is taken. *)
Definition write_inv (s : Writer) : Prop :=
  pool_clean (wr_stream s) ∧ wr_accepted s = wr_handed s ∧
  ∃ l last, wr_handed s = l ++ option_list last ∧ Forall (λ p, p.2 = false) l ∧
    (from_option snd false last = true → send_closed (wr_stream s) = true).

Lemma put_chunks_spec chunks n m w : put_chunks chunks n m w =
  ((n + length (concat chunks))%nat, (m + length (concat chunks))%nat,
   mkWriteBuffer (wb_internal w) (wb_zerocopy w ++ chunks) (wb_buffers w)).
Proof.
  revert n m w. induction chunks as [|c chunks IH]; intros n m w; simpl.
  - rewrite !Nat.add_0_r, app_nil_r. by destruct w.
  - rewrite IH, length_app. simpl. rewrite <-(assoc_L (++)), !Nat.add_assoc. done.
Qed.
Lemma put_status_eq n fin : put_status n n fin = if fin then WriteDone (Some n) else Writable n.
Proof. unfold put_status. rewrite Nat.eqb_refl. by destruct fin. Qed.
(** A write into a clean buffer: all the bytes go in, and come out. *)
Lemma poll_write_op_spec x cx op fin send : pool_clean x →
  ∃ p x' sent, poll_write_op x cx op fin send = Ok (p, x', sent) ∧
    (∀ n, p = Ready (inl n) → n = length (op_bytes op)) ∧
    accepted_portion p op fin = handed_portion sent ∧ pool_clean x' ∧
    if send_closed x then accepted_portion p op fin = [] ∧ x' = x
    else accepted_portion p op fin = [] ∧ x_send_state x' = x_send_state x ∨
         accepted_portion p op fin = [(op_bytes op, fin)] ∧
         x_send_state x' = (if fin then WShutdown else WStartComplete).
Proof.
  intros Hpool. unfold send_closed.
  set (write_fn := λ write_buf, match op with
    | WriteSlice buf => let '(n, write_buf) := put_slice write_buf buf in (put_status n (length buf) fin, write_buf)
    | WriteChunk chunk => let '(n, write_buf) := put_zerocopy write_buf chunk in (put_status n (length chunk) fin, write_buf)
    | WriteChunks chunks =>
        let '(total_len, total_written, write_buf) := put_chunks chunks 0 0 write_buf in
        (put_status total_written total_len fin, write_buf)
    end).
  assert (poll_write_op x cx op fin send = written (poll_write_generic write_fn x cx send)) as -> by by destruct op.
  assert (∃ w, write_fn WriteBuffer_new = (if fin then WriteDone (Some (length (op_bytes op))) else Writable (length (op_bytes op)), w) ∧
    concat (get_buffers w).1 = op_bytes op) as (w & Hw & Hbytes).
  { subst write_fn. destruct op as [buf|chunk|chunks]; cbn [put_slice put_zerocopy].
    - rewrite put_status_eq. eexists. split; [reflexivity|]. simpl. by rewrite app_nil_r.
    - rewrite put_status_eq. eexists. split; [reflexivity|]. simpl. by rewrite app_nil_r.
    - rewrite put_chunks_spec, put_status_eq. eexists. split; [reflexivity|]. simpl.
      destruct chunks; [done|]. done. }
  clearbody write_fn. unfold poll_write_generic, written.
  destruct (x_send_state x) eqn:E; cbn [rbind]; try (eexists _, _, _; split; [reflexivity|]; simpl;
    split_and!; try done; by left).
  assert (∃ x1, (match last (x_write_pool x) with
    | Some w => (w, set_pool (removelast (x_write_pool x)) x) | None => (WriteBuffer_new, x) end) =
    (WriteBuffer_new, x1) ∧ pool_clean x1 ∧ x_send_state x1 = WStartComplete) as (x1 & -> & Hpool1 & E1).
  { destruct (last (x_write_pool x)) as [w0|] eqn:El; [|by exists x].
    apply last_Some in El as [l El]. unfold pool_clean in Hpool. rewrite El in Hpool.
    apply Forall_app in Hpool as [Hl [-> _]%Forall_cons]. eexists. split; [reflexivity|].
    unfold pool_clean. simpl. rewrite El, removelast_last. done. }
  rewrite Hw. destruct (get_buffers w) as [buffers w'] eqn:Eg. simpl in Hbytes.
  destruct fin, (status_is_ok send); cbn [rbind]; eexists _, _, _; (split; [reflexivity|]); simpl;
    rewrite ?Hbytes, ?E1; split_and!; try done; try (by intros n [= <-]); auto.
Qed.

Lemma write_frame x x' acc handed flight : write_inv (mkWriter x acc handed flight) →
  x_write_pool x' = x_write_pool x → (send_closed x = true → send_closed x' = true) → ∀ flight',
  write_inv (mkWriter x' acc handed flight').
Proof.
  intros (Hp & Ha & l & last & Hh & Hl & Hf) Hpool Hc flight'. unfold write_inv, pool_clean in *. simpl in *.
  rewrite Hpool. split; [done|]. split; [done|]. exists l, last. auto.
Qed.
Lemma write_step_inv s s' : write_inv s → write_step s s' → write_inv s'.
Proof.
  intros Hinv Hs.
  destruct Hs as [x acc handed flight cx op fin send p x' sent Hw|x acc handed flight1 w flight2
    |x acc handed flight cx shutdown|x acc handed flight shutdown|x acc handed flight cx start p x' E Hp
    |x acc handed flight ev Hev].
  - destruct Hinv as (Hp & Ha & l & last & Hh & Hl & Hf). simpl in *.
    destruct (poll_write_op_spec x cx op fin send Hp) as (p0 & x0 & sent0 & Hw0 & _ & Hsame & Hp' & Hclosed).
    rewrite Hw in Hw0. apply Ok_inj in Hw0. injection Hw0 as <- <- <-. split; [done|].
    split; [by simpl; rewrite Ha, Hsame|]. simpl. rewrite <-Hsame. destruct (send_closed x) eqn:Ec.
    { destruct Hclosed as [-> ->]. exists l, last. by rewrite app_nil_r, Hh. }
    assert (from_option snd false last = false) as Hlast by (destruct (from_option _ _ _); [by specialize (Hf eq_refl)|done]).
    destruct Hclosed as [[-> Hst]|[-> Hst]].
    + exists l, last. rewrite app_nil_r, Hlast. by split_and!.
    + exists handed, (Some (op_bytes op, fin)). split; [done|]. split.
      * rewrite Hh. apply Forall_app. split; [done|]. destruct last as [[d f]|]; [|by constructor].
        simpl in Hlast. subst f. by repeat constructor.
      * simpl. intros ->. unfold send_closed. by rewrite Hst.
  - destruct Hinv as (Hp & Ha & Hrest). split; [|by split]. unfold pool_clean in *. simpl in *.
    apply Forall_app. split; [done|]. by repeat constructor.
  - apply (write_frame _ _ _ _ _ Hinv); unfold poll_finish_write, send_closed;
      destruct (x_send_state x) eqn:E, (status_is_ok shutdown); simpl; by rewrite ?E.
  - apply (write_frame _ _ _ _ _ Hinv); unfold abort_write, send_closed;
      destruct (x_send_state x) eqn:E, (status_is_ok shutdown); simpl; by rewrite ?E.
  - apply (write_frame _ _ _ _ _ Hinv); unfold poll_start in Hp;
      [|unfold send_closed; by rewrite E].
    destruct (x_state x), (status_is_ok start), (x_start_status x) as [[]|], (x_conn_error x); try done;
      apply Ok_inj in Hp; by injection Hp as _ <-.
  - apply (write_frame _ _ _ _ _ Hinv); unfold after, callback_handler_impl.
    + destruct ev as [[] id []|? ? ? ?|w| |?|?| |[] [] [] [] ? ?| |]; simpl; try done;
        unfold handle_event_shutdown_complete; by destruct (x_recv_buffers x).
    + unfold send_closed. intros Hc.
      destruct ev as [? id ?|? ? ? ?|w| |?|?| |[] [] [] [] ? ?| |]; simpl; try done;
        try (by destruct Hev as [E|E]; rewrite E in Hc);
        unfold handle_event_shutdown_complete; by destruct (x_recv_buffers x).
Qed.
Lemma writer_inv_run x s : opened x → rtc write_step (fresh_writer x) s → write_inv s.
Proof.
  intros [t Hx] Hr. remember (fresh_writer x) as s0 eqn:E0.
  assert (write_inv s0) as Hinv.
  { subst s0. destruct Hx as [-> | ->]; (split; [constructor|split; [done|exists [], None; by split_and!]]). }
  clear Hx E0. induction Hr; [done|]. by eapply IHHr, write_step_inv.
Qed.

(** A read answers with what comes next. *)
Lemma log_answers r cx room : log_inv r → (0 < room)%nat →
  ∃ rest, rd_received r = rd_read r ++ rest ∧
  ∃ p x' ns, poll_read (rd_stream r) cx room = Ok (p, x', ns) ∧
    match p with
    | Ready (inl []) => rest = [] ∧ rd_fin r = true ∨ rd_cut r = true
    | Ready (inl out) => out = take room rest
    | Ready (inr _) => x_recv_state (rd_stream r) = RClosed ∨ broken (rd_stream r)
    | Pending => rest = [] ∧ rd_fin r = false ∧ cx ∈ x_start_waiters x' ++ x_read_waiters x'
    end.
Proof.
  intros (Hwf & _ & Hst) Hroom. destruct r as [y rcv rd fin held acked cut]. simpl in *.
  destruct (decide (x_recv_state y = RStartComplete)) as [E|E].
  - rewrite E in Hst. destruct Hst as (Hlog & Hlast & _). exists (buffered (x_recv_buffers y)). split; [done|].
    destruct (poll_read_spec y cx room E Hwf) as (x1 & used & -> & _ & Hpend).
    destruct (drop_buffers_shape x1 used) as (m & c & ns & ->). eexists _, _, ns. split; [reflexivity|].
    rewrite Hlast in *. destruct (read_answer _ _ _) as [|[out|e]] eqn:Ha.
    + apply read_answer_pending in Ha as (Hb & Hf & _). split_and!; try done. simpl. apply elem_of_app. right.
      by apply Hpend.
    + apply read_answer_out in Ha as (_ & -> & Hn). destruct (take _ _) eqn:Et; [|done].
      destruct (buffered (x_recv_buffers y)) as [|b l]; [|by destruct room; [lia|]].
      simpl in Hn. destruct (Hn Hroom); [left; by subst|done].
    + unfold read_answer in Ha. repeat case_match; done.
  - assert (∃ lost, rcv = rd ++ lost) as Hlost.
    { destruct (x_recv_state y); [| |done| |by destruct Hst]; exists []; rewrite app_nil_r; naive_solver. }
    unfold poll_read, poll_read_generic. unfold broken in *.
    destruct (x_recv_state y) eqn:E'; try done; cbn [rbind drop_buffers].
    + destruct Hlost as [lost ->]. exists lost. split; [done|]. eexists _, _, _. split; [reflexivity|]. by left.
    + exists []. split; [naive_solver|]. eexists _, _, _. split; [reflexivity|]. simpl. split_and!; try naive_solver.
      set_solver.
    + exists []. destruct Hst as (_ & -> & ->). split; [by rewrite app_nil_r|].
      eexists _, _, _. split; [reflexivity|]. by left.
    + destruct Hst as [_ Hst].
      destruct (x_conn_error y), (x_recv_error_code y); destruct Hlost as [lost ->];
        try (exists lost; split; [done|]; eexists _, _, _; split; [reflexivity|]; simpl; right; by (left + right)).
      exists lost. split; [done|]. eexists _, _, _. split; [reflexivity|]. simpl.
      destruct Hst as [[?|?]|[->|[Hr' ->]]]; [done..|by right|left]. split; [|done].
      by apply (app_inv_head rd); rewrite app_nil_r.
Qed.

Lemma reader_answers x r cx room :
  opened x → rtc reader_step (fresh_reader x) r → (0 < room)%nat →
  ∃ rest, rd_received r = rd_read r ++ rest ∧
  ∃ p x' ns, poll_read (rd_stream r) cx room = Ok (p, x', ns) ∧
    match p with
    | Ready (inl []) => rest = [] ∧ rd_fin r = true ∨ rd_cut r = true
    | Ready (inl out) => out = take room rest
    | Ready (inr _) => x_recv_state (rd_stream r) = RClosed ∨ broken (rd_stream r)
    | Pending => rest = [] ∧ rd_fin r = false ∧ cx ∈ x_start_waiters x' ++ x_read_waiters x'
    end.
Proof. intros Hx Hr. apply log_answers. by destruct (reader_inv_run x r Hx Hr). Qed.
(** What is given back is no more than what was read, and at last all of it. *)
Lemma acc_exact r : acc_inv r → x_state (rd_stream r) ≠ SShutdownComplete →
  rd_acked r ≤ blen (rd_read r) ∧
  (x_recv_buffers (rd_stream r) = [] → rd_held r = [] → rd_acked r = blen (rd_received r)).
Proof.
  intros Hacc Hs.
  destruct (Hacc Hs) as (_ & q & Hq & Hcont & _ & Hmem & (_ & Hbelow & Hat) & ->). split.
  - destruct (decide (x_read_complete_cursor (rd_stream r) ≤ q)); [lia|].
    assert (rs_mem q (x_read_complete_map (rd_stream r))) by (apply Hbelow; lia).
    assert (q < q) by (apply Hmem; by left). lia.
  - intros Hb Hh. rewrite Hb in Hcont. simpl in Hcont. subst q. rewrite Hh in Hmem.
    apply N.le_antisymm.
    + apply N.le_ngt. intros Hlt. assert (blen (rd_received r) < blen (rd_received r)) by (apply Hmem; left; by apply Hbelow).
      lia.
    + apply N.le_ngt. intros Hlt. apply Hmem in Hlt as [Hlt|Hlt]; [done|by apply Exists_nil in Hlt].
Qed.

(** ** Tasks that wait to read *)
Definition waits (cx : nat) (x : StreamInner) : Prop :=
  (x_local_open x = true → x_state x ≠ SOpen) ∧
  (x_recv_state x = RStart ∧ cx ∈ x_start_waiters x ∨
   x_recv_state x = RStartComplete ∧ x_recv_buffers x = [] ∧ cx ∈ x_read_waiters x).
(** What can happen to a stream between two polls of its reader, and the
    wakers it wakes. *)
Inductive turn (x : StreamInner) : list nat → StreamInner → Prop :=
  | turn_event ev :
      (match ev with EvPeerSendShutdown | EvPeerSendAborted _ => x_recv_state x ≠ RStart | _ => True end) →
      turn x (callback_handler_impl x ev).1.1 (after x ev)
  | turn_write cx op fin send p x' sent : poll_write_op x cx op fin send = Ok (p, x', sent) → turn x [] x'
  | turn_finish cx shutdown : turn x [] (poll_finish_write x cx shutdown).2
  | turn_abort shutdown : turn x [] (abort_write x shutdown).2
  | turn_start cx start p x' : x_local_open x = true → poll_start x cx start = Ok (p, x') → turn x [] x'
  | turn_drop b x' n : read_complete x b = (x', n) → turn x [] x'.
Inductive turns : StreamInner → list nat → StreamInner → Prop :=
  | turns_none x : turns x [] x
  | turns_one x woken y woken' z : turn x woken y → turns y woken' z → turns x (woken ++ woken') z.

Lemma waits_registered cx x : waits cx x → cx ∈ x_start_waiters x ++ x_read_waiters x.
Proof. intros [_ [[_ ?]|(_ & _ & ?)]]; apply elem_of_app; auto. Qed.
Lemma waits_pending cx room x : (0 < room)%nat → waits cx x → ∃ z d, poll_read x cx room = Ok (Pending, z, d).
Proof.
  intros Hroom [_ [[E _]|(E & Hb & _)]].
  - unfold poll_read, poll_read_generic. rewrite E. simpl. eauto.
  - destruct (poll_read_spec x cx room E) as (z & d & Hz & _); [by rewrite Hb|].
    destruct (drop_buffers_shape z d) as (m & c & ns & Hd). rewrite Hd, Hb in Hz.
    rewrite Hz. unfold read_answer. simpl. rewrite bool_decide_eq_false_2 by lia. eauto.
Qed.
Lemma pending_waits r cx room x' ns : log_inv r → (0 < room)%nat →
  poll_read (rd_stream r) cx room = Ok (Pending, x', ns) → waits cx x'.
Proof.
  intros (Hwf & Hopen & _) Hroom Hp. destruct r as [x rcv rd fin held acked cut]. simpl in *.
  destruct (decide (x_recv_state x = RStartComplete)) as [E|E].
  - destruct (poll_read_spec x cx room E Hwf) as (x1 & used & Hp2 & [_ _ _ Hstate Hsame] & Hcx).
    destruct (drop_buffers_shape x1 used) as (m & c & ns' & Hd). rewrite Hd in Hp2. rewrite Hp2 in Hp.
    apply Ok_inj in Hp. injection Hp as Hans <- _. specialize (Hcx Hans).
    apply read_answer_pending in Hans as (Hb & Hf & _). rewrite Hb, Hf in Hstate.
    rewrite bool_decide_eq_false_2 in Hstate by (simpl; lia). destruct Hstate as [Hbn Hst].
    destruct Hsame as (_ & _ & Hs & Hl & _). split; [|by right].
    simpl. rewrite Hs, Hl. intros Hlo Hso. by specialize (Hopen Hlo Hso); rewrite E in Hopen.
  - destruct (poll_read_closed _ _ _ _ _ _ E Hp) as [_ Hcl].
    destruct (x_recv_state x) eqn:E'; try done; [by destruct Hcl as [_ [e ?]]| |by destruct Hcl|
      by destruct Hcl as [_ [[? _]|[[e ?] _]]]].
    destruct Hcl as [_ ->]. split; [simpl; intros Hlo Hso; by specialize (Hopen Hlo Hso)|].
    left. split; [done|]. simpl. set_solver.
Qed.
(** What leaves reading alone leaves its tasks waiting. *)
Lemma waits_frame cx x x' : waits cx x → x_local_open x' = x_local_open x → x_state x' = x_state x →
  x_recv_state x' = x_recv_state x → x_recv_buffers x' = x_recv_buffers x →
  x_start_waiters x ⊆ x_start_waiters x' → x_read_waiters x' = x_read_waiters x → waits cx x'.
Proof. unfold waits. intros [Ho Hw] -> -> -> -> Hs ->. split; [done|]. destruct Hw as [[? ?]|?]; [left; auto|by right]. Qed.
Lemma shutdown_wakes x c app by_app remote code status :
  (callback_handler_impl x (EvShutdownComplete c app by_app remote code status)).1.1 =
  x_start_waiters x ++ x_read_waiters x ++ x_write_shutdown_waiters x.
Proof. simpl. unfold handle_event_shutdown_complete. by destruct (x_recv_buffers x), c. Qed.
(** The direction to read opens, and the tasks that wait for it are woken. *)
Lemma started_waits cx x : waits cx x → cx ∈ x_start_waiters x ∨ waits cx (wake_start (started x)).2.
Proof.
  intros [Ho [[E Hin]|(E & Hb & Hin)]]; [by left|right]. unfold waits. simpl. split; [done|]. right.
  split; [by destruct (x_type x)|done].
Qed.
Lemma wake_start_waits cx x : waits cx x → cx ∈ x_start_waiters x ∨ waits cx (wake_start x).2.
Proof. intros [Ho [[E Hin]|?]]; [by left|]. right. split; [done|by right]. Qed.
Lemma event_keeps_waiting cx x ev :
  (match ev with EvPeerSendShutdown | EvPeerSendAborted _ => x_recv_state x ≠ RStart | _ => True end) →
  waits cx x → cx ∈ (callback_handler_impl x ev).1.1 ∨ waits cx (after x ev).
Proof.
  intros Hev Hw. unfold after. destruct ev as [st id acc|? ? bufs ?|w| |?|?|?|c app a rem code st| |].
  - assert (waits cx (set_errors (Some st) (x_recv_error_code x) (x_send_error_code x) (x_conn_error x) x)) as H1
      by by apply (waits_frame cx x).
    assert (waits cx (set_errors (Some st) (x_recv_error_code x) (x_send_error_code x) (x_conn_error x) (set_id (Some id) x)))
      as H2 by by apply (waits_frame cx x).
    destruct st, acc; try (by right); [by apply started_waits in H2|by apply wake_start_waits in H1..].
  - destruct Hw as [Ho [[E Hin]|(E & Hb & Hin)]]; [right|by left]. split; [done|by left].
  - right. by apply (waits_frame cx x).
  - destruct Hw as [Ho [[E Hin]|(E & Hb & Hin)]]; [done|by left].
  - destruct Hw as [Ho [[E Hin]|(E & Hb & Hin)]]; [done|by left].
  - right. by apply (waits_frame cx x).
  - right. by apply (waits_frame cx x).
  - left. rewrite shutdown_wakes, (assoc_L (++)). apply elem_of_app. left. by apply waits_registered.
  - by right.
  - by apply started_waits in Hw.
Qed.
Lemma turn_keeps_waiting cx x woken y : turn x woken y → waits cx x → cx ∈ woken ∨ waits cx y.
Proof.
  intros Ht Hw. destruct Ht as [ev Hev|cx' op fin send p x' sent Hp|cx' sh|sh|cx' start p x' Hl Hp|b x' n Hd].
  - by apply event_keeps_waiting.
  - right. assert (∃ fn, poll_write_op x cx' op fin send = written (poll_write_generic fn x cx' send)) as [fn Hfn]
      by (destruct op; eexists; reflexivity).
    rewrite Hfn in Hp. unfold written, poll_write_generic in Hp.
    destruct (x_send_state x);
      try (apply Ok_inj in Hp; injection Hp as _ <- _; apply (waits_frame _ _ _ Hw); try done; simpl; set_solver).
    destruct (last (x_write_pool x)) as [w|]; destruct (fn _) as [st w'], (get_buffers w') as [bufs w''];
      destruct st as [a|[a|]|[a|]], (status_is_ok send); try done; apply Ok_inj in Hp; injection Hp as _ <- _;
      by apply (waits_frame _ _ _ Hw).
  - right. apply (waits_frame _ _ _ Hw); unfold poll_finish_write;
      destruct (x_send_state x), (status_is_ok sh); simpl; try done; set_solver.
  - right. apply (waits_frame _ _ _ Hw); unfold abort_write;
      destruct (x_send_state x), (status_is_ok sh); done.
  - right. unfold poll_start in Hp. pose proof (proj1 Hw Hl) as Ho.
    destruct (x_state x) eqn:E; [done|..]; [|destruct (x_start_status x) as [[]|], (x_conn_error x); try done..];
      apply Ok_inj in Hp; injection Hp as _ <-; apply (waits_frame cx x _ Hw); try done; simpl; set_solver.
  - right. destruct (read_complete_shape x b) as (m & c & n' & Hsh). rewrite Hsh in Hd. injection Hd as <- _.
    by apply (waits_frame _ _ _ Hw).
Qed.
Lemma turns_keep_waiting cx x woken y : turns x woken y → waits cx x → cx ∈ woken ∨ waits cx y.
Proof.
  induction 1 as [|x w y w' z Ht _ IH]; [by right|]. intros Hw. rewrite elem_of_app.
  destruct (turn_keeps_waiting cx x w y Ht Hw) as [?|Hy]; [by left; left|]. destruct (IH Hy); auto.
Qed.

(** ** Properties *)

(** C7: whatever the order of events, reads and waits, the bytes read from
    a stream, in slices and in chunks, are always a prefix of the bytes
    received; and a read always answers (no panic, no endless loop): with the
    next bytes, as many as fit; with nothing only at the end, when all bytes
    have been read and the peer has finished, or after reading was cut off
    here: aborted, or the shutdown of the stream complete before the peer
    ended its direction, without an error and with the connection up; with an
    error only when the stream is not readable or an error is recorded; and it
    waits, its waker registered, only when all bytes have been read and more
    may come. *)
Theorem stream_reads_in_order x r cx room :
  opened x → rtc reader_step (fresh_reader x) r → (0 < room)%nat →
  ∃ rest, rd_received r = rd_read r ++ rest ∧
  ∃ p x' ns, poll_read (rd_stream r) cx room = Ok (p, x', ns) ∧
    match p with
    | Ready (inl []) => rest = [] ∧ rd_fin r = true ∨ rd_cut r = true
    | Ready (inl out) => out = take room rest
    | Ready (inr _) => x_recv_state (rd_stream r) = RClosed ∨ broken (rd_stream r)
    | Pending => rest = [] ∧ rd_fin r = false ∧ cx ∈ x_start_waiters x' ++ x_read_waiters x'
    end.
Proof. apply reader_answers. Qed.
Definition one_receive : Reader :=
  mkReader (after (stream_from_raw Unidirectional) (EvReceive 0 2 [[u8 1; u8 2]] true)) [u8 1; u8 2] [] true [] 0 false.
Lemma one_receive_run : rtc reader_step (fresh_reader (stream_from_raw Unidirectional)) one_receive.
Proof.
  eapply rtc_l; [|apply rtc_refl].
  apply (step_receive (stream_from_raw Unidirectional) [] [] [] 0 false 2 [[u8 1; u8 2]] true);
    [reflexivity|vm_compute; reflexivity..].
Qed.

(** C10: flow control is exact as long as the shutdown of the stream is not
    complete: what msquic is told has been taken ([receive_complete]) is never
    more than what has been read, however the reads, the chunks held and their
    drops interleave; and it is everything received once the queue is empty
    and no chunk is held.  (The shutdown gives back the rest of the queue, and
    chunks still held then a second time, [shutdown_gives_back_twice].) *)
Theorem acknowledged_exactly x r :
  opened x → rtc reader_step (fresh_reader x) r → x_state (rd_stream r) ≠ SShutdownComplete →
  rd_acked r ≤ blen (rd_read r) ∧
  (x_recv_buffers (rd_stream r) = [] → rd_held r = [] → rd_acked r = blen (rd_received r)).
Proof. intros Hx Hr. apply acc_exact. by destruct (reader_inv_run x r Hx Hr). Qed.

(** C37: a task that waits to read is never forgotten.  Whatever happens to
    the stream after its poll, in any order and number (events of msquic, and
    what tasks other than the reader do with it: writes, the end or the abort
    of writing, polls for the start, drops of chunks), the task is woken, or it
    is still registered and would wait again if it polled; the peer ends its
    direction only after the stream has started. *)
Theorem no_lost_wakeup x r cx room x' ns woken y :
  opened x → rtc reader_step (fresh_reader x) r → (0 < room)%nat →
  poll_read (rd_stream r) cx room = Ok (Pending, x', ns) → turns x' woken y →
  cx ∈ woken ∨
  cx ∈ x_start_waiters y ++ x_read_waiters y ∧ ∃ z d, poll_read y cx room = Ok (Pending, z, d).
Proof.
  intros Hx Hr Hroom Hp Ht. destruct (reader_inv_run x r Hx Hr) as [Hl _].
  pose proof (pending_waits r cx room x' ns Hl Hroom Hp) as Hw.
  destruct (turns_keep_waiting cx x' woken y Ht Hw) as [?|Hy]; [by left|right].
  split; [by apply waits_registered|by apply waits_pending].
Qed.

(** Whatever the order of writes, completions and events, a write
    always answers; what is handed to msquic is exactly what the callers are
    told is written, byte for byte, in order (buffers are reused only once
    returned, and clean); and nothing follows the FIN. *)
Theorem written_is_handed_over x s cx op fin send :
  opened x → rtc write_step (fresh_writer x) s →
  wr_handed s = wr_accepted s ∧
  (∃ l last, wr_handed s = l ++ option_list last ∧ Forall (λ p, p.2 = false) l) ∧
  ∃ p x' sent, poll_write_op (wr_stream s) cx op fin send = Ok (p, x', sent) ∧
    ∀ n, p = Ready (inl n) → n = length (op_bytes op).
Proof.
  intros Hx Hr. destruct (writer_inv_run x s Hx Hr) as (Hp & Ha & l & last & Hh & Hl & _).
  split; [done|]. split; [by exists l, last|].
  destruct (poll_write_op_spec (wr_stream s) cx op fin send Hp) as (p & x' & sent & Hw & Hn & _).
  by exists p, x', sent.
Qed.
End runs.

Lemma stream_reads_in_order_witness :
  ∃ rest, [u8 1; u8 2] = [] ++ rest ∧
  ∃ p x' ns, poll_read (rd_stream one_receive) 7 1 = Ok (p, x', ns) ∧
    match p with
    | Ready (inl []) => rest = [] ∧ true = true ∨ false = true
    | Ready (inl out) => out = take 1 rest
    | Ready (inr _) => RStartComplete = RClosed ∨ broken (rd_stream one_receive)
    | Pending => rest = [] ∧ true = false ∧ 7%nat ∈ x_start_waiters x' ++ x_read_waiters x'
    end.
Proof.
  apply (stream_reads_in_order (stream_from_raw Unidirectional) one_receive 7 1).
  - exists Unidirectional. by left.
  - exact one_receive_run.
  - apply Nat.ltb_lt. reflexivity.
Defined.
(** The two bytes are read into a buffer of three: all is given back. *)
Definition all_read : Reader :=
  match poll_read (rd_stream one_receive) 7 3 with
  | Ok (_, x', ns) => mkReader x' [u8 1; u8 2] [u8 1; u8 2] true [] (total ns) false
  | _ => one_receive
  end.
Lemma acknowledged_exactly_witness : rd_acked all_read = 2 ∧ rd_acked all_read ≤ 2.
Proof.
  destruct (acknowledged_exactly (stream_from_raw Unidirectional) all_read) as [Hle Hall].
  - exists Unidirectional. by left.
  - eapply rtc_r; [exact one_receive_run|].
    apply (step_read _ _ [] true [] 0 false 7 3 [u8 1; u8 2] _ [2]). vm_compute. reflexivity.
  - vm_compute. discriminate.
  - split; [apply Hall; reflexivity|exact Hle].
Defined.
(** Two bytes arrive while the reader waits, after a buffer of a writer came
    back: it is woken. *)
Lemma no_lost_wakeup_witness :
  let x := push_read_waiter 7 (stream_from_raw Bidirectional) in
  let y := after x (EvSendComplete WriteBuffer_new) in
  7%nat ∈ x_start_waiters y ++ x_read_waiters y ∧ (callback_handler_impl y (EvReceive 0 1 [[u8 1]] false)).1.1 = [7%nat] ∧
  ∃ z d, poll_read y 7 1 = Ok (Pending, z, d).
Proof.
  intros x y.
  destruct (no_lost_wakeup (stream_from_raw Bidirectional) (fresh_reader (stream_from_raw Bidirectional)) 7 1 x [] [] y)
    as [Hin|[Hin Hwait]].
  - exists Bidirectional. by left.
  - apply rtc_refl.
  - apply Nat.ltb_lt. reflexivity.
  - reflexivity.
  - eapply (turns_one x [] y [] y); [by apply (turn_event x (EvSendComplete WriteBuffer_new))|apply turns_none].
  - by apply not_elem_of_nil in Hin.
  - split; [exact Hin|]. split; [reflexivity|exact Hwait].
Defined.
Lemma written_is_handed_over_witness :
  let x := stream_from_raw Bidirectional in
  let s := mkWriter (set_send_state WShutdown x) [([u8 1], true)] [([u8 1], true)]
             [mkWriteBuffer [u8 1] [] [[u8 1]]] in
  wr_handed s = wr_accepted s ∧
  (∃ l last, wr_handed s = l ++ option_list last ∧ Forall (λ p, p.2 = false) l) ∧
  ∃ p x' sent, poll_write_op (wr_stream s) 7 (WriteSlice [u8 2]) false StatusOk = Ok (p, x', sent) ∧
    ∀ n, p = Ready (inl n) → n = length (op_bytes (WriteSlice [u8 2])).
Proof.
  intros x s. apply (written_is_handed_over x s 7 (WriteSlice [u8 2]) false StatusOk).
  - exists Bidirectional. by left.
  - eapply rtc_l; [|apply rtc_refl].
    apply (step_write x [] [] [] 7 (WriteSlice [u8 1]) true StatusOk (Ready (inl 1%nat))
      (set_send_state WShutdown x) (Some ([[u8 1]], true, mkWriteBuffer [u8 1] [] [[u8 1]]))).
    reflexivity.
Defined.

(** A chunk that is still held when the stream shuts down is given back
    twice: the cursor is not moved by the shutdown. *)
Lemma shutdown_gives_back_twice :
  let x := after (after (stream_from_raw Unidirectional) (EvReceive 0 2 [[u8 1; u8 2]] false))
             (EvReceive 2 1 [[u8 3]] false) in
  ∃ b x' woken y z, poll_read_chunk x 7 = Ok (Ready (inl (Some b)), x') ∧
    callback_handler_impl x' (EvShutdownComplete true false false false 0 StatusOk) = (woken, y, Some 3) ∧
    read_complete y b = (z, Some 2).
Proof. eexists _, _, _, _, _. split; [reflexivity|]. split; vm_compute; reflexivity. Qed.

(** A stream whose start was refused, and one that is only written here and
    was shut down gracefully, are read like streams that the peer finished. *)
Lemma refused_stream_reads_nothing :
  let refused := after (push_start_waiter 2 (set_states SStart RStart WStart (stream_open Bidirectional)))
    (EvStartComplete StreamLimitReached 0 false) in
  let finished := after (set_states SStartComplete RClosed WShutdownComplete (stream_open Unidirectional))
    (EvShutdownComplete false false false false 0 StatusOk) in
  poll_start (stream_open Bidirectional) 2 StatusOk =
    Ok (Pending, push_start_waiter 2 (set_states SStart RStart WStart (stream_open Bidirectional))) ∧
  (∃ x' ns, poll_read (after refused (EvShutdownComplete false false false false 0 StreamLimitReached)) 7 1 =
     Ok (Ready (inl []), x', ns)) ∧
  ∃ x' ns, poll_read finished 7 1 = Ok (Ready (inl []), x', ns).
Proof. split; [vm_compute; reflexivity|]. split; eexists _, _; vm_compute; reflexivity. Qed.
