(* ===== verification/StreamIo.v ===== *)
(** * QUIC streams as readers and writers (msquic_async/stream.rs)

    The traits [AsyncRead] and [AsyncWrite] of tokio and of futures for the
    streams of [QuicStream], and the [std::io::Error] an error becomes.  The
    same code serves [Stream], [ReadStream] and [WriteStream]. *)
From S2P Require Import Prelude RangeSet RecvBuffer QuicStream StreamRuns.
Open Scope N_scope.

(** ** Errors
    [std::io::Error::new] keeps the error beside its kind; [write_all] adds a
    kind of its own. *)
Inductive ErrorKind : Type := NotConnected | ConnectionReset | ConnectionAborted | WriteZero | Other.
#[export] Instance ErrorKind_eq_dec : EqDecision ErrorKind.
Proof. solve_decision. Defined.
Definition read_error_kind (e : ReadError) : ErrorKind :=
  match e with
  | ReadClosed => NotConnected
  | ReadReset _ => ConnectionReset
  | ReadConnectionLost ConnectionClosed => NotConnected
  | ReadConnectionLost _ => ConnectionAborted
  | ReadOtherError _ => Other
  end.
Definition write_error_kind (e : WriteError) : ErrorKind :=
  match e with
  | WriteClosed | WriteFinished | WriteConnectionLost ConnectionClosed => NotConnected
  | WriteStopped _ => ConnectionReset
  | WriteConnectionLost _ => ConnectionAborted
  | WriteOtherError _ => Other
  end.
Definition io_error {A E : Type} (kind : E → ErrorKind) (r : A + E) : A + ErrorKind * E :=
  match r with inl a => inl a | inr e => inr (kind e, e) end.

(** ** The buffer of a read (tokio's [ReadBuf])
    A part of it is initialised, and a part of that is filled. *)
Class ReadBufs : Type := {
  ReadBuf : Type;
  ReadBuf_new : bytes → ReadBuf;
  filled : ReadBuf → bytes;
  initialized : ReadBuf → bytes;
  (** the bytes written to the front of [initialized_mut] *)
  write_initialized : ReadBuf → bytes → ReadBuf;
  (** panics when more is filled than initialised *)
  set_filled : ReadBuf → nat → res ReadBuf;
}.
Class ReadBufsOk `{ReadBufs} : Type := {
  filled_new slice : filled (ReadBuf_new slice) = [];
  initialized_new slice : initialized (ReadBuf_new slice) = slice;
  initialized_write b bs : (length bs ≤ length (initialized b))%nat →
    initialized (write_initialized b bs) = bs ++ drop (length bs) (initialized b);
  set_filled_ok b n : (n ≤ length (initialized b))%nat →
    ∃ b', set_filled b n = Ok b' ∧ filled b' = take n (initialized b) ∧ initialized b' = initialized b;
}.
Module VecBuf.
Record buf : Type := mk { initial : bytes; count : nat; room : nat }.
Definition set (b : buf) (n : nat) : res buf :=
  if (n <=? length (initial b))%nat then Ok (mk (initial b) n (room b)) else Panic "filled must not become larger than initialized".
#[export] Instance bufs : ReadBufs := {|
  ReadBuf := buf;
  ReadBuf_new slice := mk slice 0 (length slice);
  filled b := take (count b) (initial b);
  initialized := initial;
  write_initialized b bs := mk (bs ++ drop (length bs) (initial b)) (count b) (room b);
  set_filled := set;
|}.
#[export] Instance bufs_ok : ReadBufsOk.
Proof.
  constructor; try done; intros b n Hn. simpl in *. unfold set.
  rewrite (proj2 (Nat.leb_le _ _) Hn). eauto.
Qed.
End VecBuf.

Section io.
Context `{RSO : RangeSetsOk} `{RBO : ReadBufsOk}.

(** ** futures *)
Definition futures_poll_read (x : StreamInner) (cx room : nat)
    : res (poll (bytes + ErrorKind * ReadError) * StreamInner * list N) :=
  let* (p, ns) := poll_read x cx room in let '(r, x) := p in Ok (poll_map (io_error read_error_kind) r, x, ns).
Definition futures_poll_write (x : StreamInner) (cx : nat) (buf : bytes) (send : Status)
    : res (poll (nat + ErrorKind * WriteError) * StreamInner * option (list bytes * bool * WriteBuffer)) :=
  let* (p, sent) := poll_write x cx buf false send in
  let '(r, x) := p in Ok (poll_map (io_error write_error_kind) r, x, sent).
Definition futures_poll_flush (x : StreamInner) : poll (unit + ErrorKind * WriteError) := Ready (inl ()).
Definition futures_poll_close (x : StreamInner) (cx : nat) (shutdown : Status)
    : poll (unit + ErrorKind * WriteError) * StreamInner :=
  let '(r, x) := poll_finish_write x cx shutdown in (poll_map (io_error write_error_kind) r, x).

(** ** tokio *)
Definition tokio_poll_read (x : StreamInner) (cx : nat) (buf : ReadBuf)
    : res (poll (unit + ErrorKind * ReadError) * StreamInner * list N * ReadBuf) :=
  let* (p, ns) := poll_read x cx (length (initialized buf)) in
  let '(r, x) := p in
  match r with
  | Pending => Ok (Pending, x, ns, buf)
  | Ready (inr e) => Ok (Ready (inr (read_error_kind e, e)), x, ns, buf)
  | Ready (inl out) =>
      let* buf := set_filled (write_initialized buf out) (length out) in
      Ok (Ready (inl ()), x, ns, buf)
  end.
Definition tokio_poll_write := futures_poll_write.
Definition tokio_poll_flush := futures_poll_flush.
Definition tokio_poll_shutdown := futures_poll_close.

(** A read is never longer than its buffer. *)
Lemma poll_read_len x cx room out x' ns : Forall rb_wf (x_recv_buffers x) →
  poll_read x cx room = Ok (Ready (inl out), x', ns) → (length out ≤ room)%nat.
Proof.
  intros Hwf Hp. destruct (decide (x_recv_state x = RStartComplete)) as [E|E].
  - destruct (poll_read_spec x cx room E Hwf) as (x1 & used & Hq & _).
    destruct (drop_buffers_shape x1 used) as (m & c & ns' & Hd). rewrite Hd, Hp in Hq. injection Hq as Ha _ _.
    symmetry in Ha. apply read_answer_out in Ha as (_ & -> & _). rewrite length_take. lia.
  - destruct (poll_read_closed x cx room _ x' ns E Hp) as [_ Hst].
    destruct (x_recv_state x) eqn:E'; try done; [by destruct Hst as [_ [e ?]]|by destruct Hst| |].
    + destruct Hst as [Hst _]. injection Hst as ->. simpl. lia.
    + destruct Hst as [_ [[Hst _]|[[e Hst] _]]]; injection Hst; [intros ->; simpl; lia|done].
Qed.
(** [AsyncReadExt::read] gives the stream a new buffer over an initialised
    slice: the adapter then fills it with what the stream answers, whatever
    the slice held. *)
Lemma tokio_read_fresh x cx slice : Forall rb_wf (x_recv_buffers x) →
  match poll_read x cx (length slice) with
  | Ok (Ready (inl out), x', ns) => ∃ buf, tokio_poll_read x cx (ReadBuf_new slice) = Ok (Ready (inl ()), x', ns, buf) ∧ filled buf = out
  | Ok (Ready (inr e), x', ns) => tokio_poll_read x cx (ReadBuf_new slice) = Ok (Ready (inr (read_error_kind e, e)), x', ns, ReadBuf_new slice)
  | Ok (Pending, x', ns) => tokio_poll_read x cx (ReadBuf_new slice) = Ok (Pending, x', ns, ReadBuf_new slice)
  | _ => True
  end.
Proof.
  intros Hwf. pose proof (poll_read_len x cx (length slice)) as Hl. unfold tokio_poll_read. rewrite initialized_new.
  destruct (poll_read x cx (length slice)) as [[[[|[out|e]] x'] ns]| | |]; try done. cbn [rbind].
  specialize (Hl _ _ _ Hwf eq_refl).
  assert (initialized (write_initialized (ReadBuf_new slice) out) = out ++ drop (length out) slice) as Hi
    by (rewrite initialized_write; rewrite initialized_new; done).
  destruct (set_filled_ok (write_initialized (ReadBuf_new slice) out) (length out)) as (b & -> & Hf & _).
  { rewrite Hi, length_app. lia. }
  cbn [rbind]. exists b. split; [done|]. by rewrite Hf, Hi, take_app_length.
Qed.
(** With a buffer that is in part filled (as [read_to_end] has it) what was
    in it is lost; and one that is not initialised yet ends a stream that has
    more to read. *)
Lemma tokio_read_overwrites x cx buf out x' ns : Forall rb_wf (x_recv_buffers x) →
  poll_read x cx (length (initialized buf)) = Ok (Ready (inl out), x', ns) →
  ∃ buf', tokio_poll_read x cx buf = Ok (Ready (inl ()), x', ns, buf') ∧ filled buf' = out.
Proof.
  intros Hwf Hp. pose proof (poll_read_len _ _ _ _ _ _ Hwf Hp) as Hl. unfold tokio_poll_read. rewrite Hp.
  cbn [rbind]. pose proof (initialized_write buf out Hl) as Hi.
  destruct (set_filled_ok (write_initialized buf out) (length out)) as (b & -> & Hf & _).
  { rewrite Hi, length_app. lia. }
  cbn [rbind]. exists b. split; [done|]. by rewrite Hf, Hi, take_app_length.
Qed.
Lemma tokio_read_ends_early x cx buf : x_recv_state x = RStartComplete → Forall rb_wf (x_recv_buffers x) →
  initialized buf = [] → ∃ x' ns buf', tokio_poll_read x cx buf = Ok (Ready (inl ()), x', ns, buf') ∧ filled buf' = [].
Proof.
  intros E Hwf Hi. destruct (poll_read_spec x cx 0 E Hwf) as (x1 & used & Hp & _).
  destruct (drop_buffers_shape x1 used) as (m & c & ns & Hd). rewrite Hd in Hp.
  unfold read_answer in Hp. rewrite bool_decide_eq_true_2 in Hp by lia.
  destruct (tokio_read_overwrites x cx buf [] (set_completion m c x1) ns Hwf) as (b & Hb & Hf); [by rewrite Hi|].
  by exists (set_completion m c x1), ns, b.
Qed.
End io.
