(* ===== verification/Handles.v ===== *)
(** * Handles of QUIC streams (msquic_async/stream.rs, buffer.rs)

    [QuicStream] is the state of one stream.  Here it lives behind an
    [Arc<StreamInstance>] that is shared: by a [Stream], or by the two halves
    it was split into, and by every chunk that was read and not yet dropped.
    The operations of the handles, their futures, and the traits of tokio and
    futures for the halves; [HandleRuns] has what they do together. *)
From S2P Require Import Prelude RangeSet RecvBuffer QuicStream StreamIo QuicConn.
Open Scope N_scope.

(** ** Shared instances
    [Arc] of the standard library: the number of handles, and what they share. *)
Abbreviation addr := nat.
Section heap.
Context `{RS : RangeSets}.
Record ArcInner : Type := mkArcInner { strong : N; instance : StreamInner }.
(** Computations on the heap. *)
Definition M (A : Type) : Type := gmap addr ArcInner → res (A * gmap addr ArcInner).
#[export] Instance M_ret : MRet M := λ A a h, Ok (a, h).
#[export] Instance M_bind : MBind M := λ A B f m h, let* (a, h) := m h in f a h.
End heap.
Abbreviation Heap := (gmap addr ArcInner).

Record Stream : Type := mkStream { stream_arc : addr }.
Record ReadStream : Type := mkReadStream { read_arc : addr }.
Record WriteStream : Type := mkWriteStream { write_arc : addr }.
(** A [StreamRecvBuffer] with its [stream]. *)
Record Chunk : Type := mkChunk { ck_stream : option addr; ck_buf : StreamRecvBuffer }.

Section handles.
Context `{RS : RangeSets}.

(** Safe Rust never follows a pointer to what was freed, see [HandleRuns]. *)
Definition freed {A} : res A := Panic "use after free".
Definition on {A} (a : addr) (f : StreamInner → res (A * StreamInner)) : M A := λ h,
  match h !! a with
  | Some arc => let* (r, x) := f (instance arc) in Ok (r, <[a := mkArcInner (strong arc) x]> h)
  | None => freed
  end.
Definition arc_new (x : StreamInner) : M addr := λ h,
  let a := fresh (dom h) in Ok (a, <[a := mkArcInner 1 x]> h).
Definition arc_clone (a : addr) : M addr := λ h,
  match h !! a with
  | Some arc => Ok (a, <[a := mkArcInner (strong arc + 1) (instance arc)]> h)
  | None => freed
  end.
(** [Drop for StreamInstance]: the call that would shut down a stream in use
    is commented out, what is left is a trace. *)
Definition StreamInstance_drop (x : StreamInner) : StreamInner :=
  match x_state x with
  | SStart | SStartComplete => x
  | _ => x
  end.
(** The last handle drops the instance, and with it closes the stream. *)
Definition arc_drop (a : addr) : M (option StreamInner) := λ h,
  match h !! a with
  | Some arc =>
      if strong arc =? 1 then Ok (Some (StreamInstance_drop (instance arc)), delete a h)
      else Ok (None, <[a := mkArcInner (strong arc - 1) (instance arc)]> h)
  | None => freed
  end.

(** ** Chunks (buffer.rs) *)
Definition set_stream (c : Chunk) (stream : addr) : Chunk := mkChunk (Some stream) (ck_buf c).
(** What is passed to [receive_complete], and the instance if it was the last. *)
Definition StreamRecvBuffer_drop (c : Chunk) : M (option N * option StreamInner) :=
  match ck_stream c with
  | Some stream =>
      n ← on stream (λ x, let '(x, n) := read_complete x (ck_buf c) in Ok (n, x));
      closed ← arc_drop stream;
      mret (n, closed)
  | None => mret (None, None)
  end.

(** ** The instance, through the reference that a handle has *)
Definition instance_id (a : addr) (param : option N) : M (option N) := on a (λ x, Ok (stream_id x param)).
(** The buffers that [poll_read] uses up get a reference and lose it again. *)
Definition instance_poll_read (a : addr) (cx room : nat) : M (poll (bytes + ReadError) * list N) :=
  on a (λ x, let* (p, ns) := poll_read x cx room in let '(r, x) := p in Ok ((r, ns), x)).
Definition instance_poll_read_chunk (a : addr) (cx : nat) : M (poll (option Chunk + ReadError)) :=
  r ← on a (λ x, poll_read_chunk x cx);
  match r with
  | Ready (inl (Some b)) =>
      stream ← arc_clone a;
      mret (Ready (inl (Some (set_stream (mkChunk None b) stream))))
  | Ready (inl None) => mret (Ready (inl None))
  | Ready (inr e) => mret (Ready (inr e))
  | Pending => mret Pending
  end.
Definition Sent : Type := option (list bytes * bool * WriteBuffer).
Definition sending_on (a : addr) (f : StreamInner → WriteResult) : M (poll (nat + WriteError) * Sent) :=
  on a (λ x, let* (p, sent) := f x in let '(r, x) := p in Ok ((r, sent), x)).
Definition instance_poll_write (a : addr) (cx : nat) (buf : bytes) (fin : bool) (send : Status) :=
  sending_on a (λ x, poll_write x cx buf fin send).
Definition instance_poll_write_chunk (a : addr) (cx : nat) (chunk : bytes) (fin : bool) (send : Status) :=
  sending_on a (λ x, poll_write_chunk x cx chunk fin send).
Definition instance_poll_write_chunks (a : addr) (cx : nat) (chunks : list bytes) (fin : bool) (send : Status) :=
  sending_on a (λ x, poll_write_chunks x cx chunks fin send).
Definition instance_poll_finish_write (a : addr) (cx : nat) (shutdown : Status) : M (poll (unit + WriteError)) :=
  on a (λ x, Ok (poll_finish_write x cx shutdown)).
Definition instance_poll_abort_write (a : addr) (cx : nat) (shutdown : Status) : M (poll (unit + WriteError)) :=
  on a (λ x, Ok (poll_abort_write x cx shutdown)).
Definition instance_abort_write (a : addr) (shutdown : Status) : M (unit + WriteError) :=
  on a (λ x, Ok (abort_write x shutdown)).
(** The wakers it wakes come with the answer. *)
Definition instance_poll_abort_read (a : addr) (cx : nat) (shutdown : Status) : M (poll (unit + ReadError) * list nat) :=
  on a (λ x, let '(r, x, woken) := poll_abort_read x cx shutdown in Ok ((r, woken), x)).
Definition instance_abort_read (a : addr) (shutdown : Status) : M (unit + ReadError) :=
  on a (λ x, Ok (abort_read x shutdown)).

(** *** Futures: a reference and the arguments of a poll *)
Record ReadChunk : Type := mkReadChunk { rc_stream : addr }.
Record WriteChunk : Type := mkWriteChunk { wc_stream : addr; wc_chunk : bytes; wc_fin : bool }.
Record WriteChunks : Type := mkWriteChunks { wcs_stream : addr; wcs_chunks : list bytes; wcs_fin : bool }.
Definition instance_read_chunk (a : addr) : ReadChunk := mkReadChunk a.
Definition instance_write_chunk (a : addr) (chunk : bytes) (fin : bool) : WriteChunk := mkWriteChunk a chunk fin.
Definition instance_write_chunks (a : addr) (chunks : list bytes) (fin : bool) : WriteChunks := mkWriteChunks a chunks fin.
Definition ReadChunk_poll (f : ReadChunk) (cx : nat) := instance_poll_read_chunk (rc_stream f) cx.
Definition WriteChunk_poll (f : WriteChunk) (cx : nat) (send : Status) :=
  instance_poll_write_chunk (wc_stream f) cx (wc_chunk f) (wc_fin f) send.
Definition WriteChunks_poll (f : WriteChunks) (cx : nat) (send : Status) :=
  instance_poll_write_chunks (wcs_stream f) cx (wcs_chunks f) (wcs_fin f) send.

(** ** [Stream] *)
Definition Stream_open (t : StreamType) : M Stream := a ← arc_new (stream_open t); mret (mkStream a).
Definition Stream_from_raw (t : StreamType) : M Stream := a ← arc_new (stream_from_raw t); mret (mkStream a).
Definition Stream_poll_start (s : Stream) (cx : nat) (start : Status) : M (poll (unit + StartError)) :=
  on (stream_arc s) (λ x, poll_start x cx start).
Definition Stream_id (s : Stream) (param : option N) := instance_id (stream_arc s) param.
(** The type of a stream and who opened it never change. *)
Definition Stream_split (s : Stream) : M (option ReadStream * option WriteStream) :=
  halves ← on (stream_arc s) (λ x, Ok (split x, x));
  match halves with
  | (true, true) =>
      a ← arc_clone (stream_arc s);
      mret (Some (mkReadStream a), Some (mkWriteStream (stream_arc s)))
  | (true, false) => mret (Some (mkReadStream (stream_arc s)), None)
  | (false, true) => mret (None, Some (mkWriteStream (stream_arc s)))
  | (false, false) => mret (None, None)
  end.
Definition Stream_poll_read (s : Stream) (cx room : nat) := instance_poll_read (stream_arc s) cx room.
Definition Stream_poll_read_chunk (s : Stream) (cx : nat) := instance_poll_read_chunk (stream_arc s) cx.
Definition Stream_read_chunk (s : Stream) : ReadChunk := instance_read_chunk (stream_arc s).
Definition Stream_poll_write (s : Stream) (cx : nat) (buf : bytes) (fin : bool) (send : Status) :=
  instance_poll_write (stream_arc s) cx buf fin send.
Definition Stream_poll_write_chunk (s : Stream) (cx : nat) (chunk : bytes) (fin : bool) (send : Status) :=
  instance_poll_write_chunk (stream_arc s) cx chunk fin send.
Definition Stream_write_chunk (s : Stream) (chunk : bytes) (fin : bool) : WriteChunk :=
  instance_write_chunk (stream_arc s) chunk fin.
Definition Stream_poll_write_chunks (s : Stream) (cx : nat) (chunks : list bytes) (fin : bool) (send : Status) :=
  instance_poll_write_chunks (stream_arc s) cx chunks fin send.
Definition Stream_write_chunks (s : Stream) (chunks : list bytes) (fin : bool) : WriteChunks :=
  instance_write_chunks (stream_arc s) chunks fin.
Definition Stream_poll_finish_write (s : Stream) (cx : nat) (shutdown : Status) :=
  instance_poll_finish_write (stream_arc s) cx shutdown.
Definition Stream_poll_abort_write (s : Stream) (cx : nat) (shutdown : Status) :=
  instance_poll_abort_write (stream_arc s) cx shutdown.
Definition Stream_abort_write (s : Stream) (shutdown : Status) := instance_abort_write (stream_arc s) shutdown.
Definition Stream_poll_abort_read (s : Stream) (cx : nat) (shutdown : Status) :=
  instance_poll_abort_read (stream_arc s) cx shutdown.
Definition Stream_abort_read (s : Stream) (shutdown : Status) := instance_abort_read (stream_arc s) shutdown.

(** ** [ReadStream] *)
Definition ReadStream_id (s : ReadStream) (param : option N) := instance_id (read_arc s) param.
Definition ReadStream_poll_read (s : ReadStream) (cx room : nat) := instance_poll_read (read_arc s) cx room.
Definition ReadStream_poll_read_chunk (s : ReadStream) (cx : nat) := instance_poll_read_chunk (read_arc s) cx.
Definition ReadStream_read_chunk (s : ReadStream) : ReadChunk := instance_read_chunk (read_arc s).
Definition ReadStream_poll_abort_read (s : ReadStream) (cx : nat) (shutdown : Status) :=
  instance_poll_abort_read (read_arc s) cx shutdown.
Definition ReadStream_abort_read (s : ReadStream) (shutdown : Status) := instance_abort_read (read_arc s) shutdown.

(** ** [WriteStream] *)
Definition WriteStream_id (s : WriteStream) (param : option N) := instance_id (write_arc s) param.
Definition WriteStream_poll_write (s : WriteStream) (cx : nat) (buf : bytes) (fin : bool) (send : Status) :=
  instance_poll_write (write_arc s) cx buf fin send.
Definition WriteStream_poll_write_chunk (s : WriteStream) (cx : nat) (chunk : bytes) (fin : bool) (send : Status) :=
  instance_poll_write_chunk (write_arc s) cx chunk fin send.
Definition WriteStream_write_chunk (s : WriteStream) (chunk : bytes) (fin : bool) : WriteChunk :=
  instance_write_chunk (write_arc s) chunk fin.
Definition WriteStream_poll_write_chunks (s : WriteStream) (cx : nat) (chunks : list bytes) (fin : bool) (send : Status) :=
  instance_poll_write_chunks (write_arc s) cx chunks fin send.
Definition WriteStream_write_chunks (s : WriteStream) (chunks : list bytes) (fin : bool) : WriteChunks :=
  instance_write_chunks (write_arc s) chunks fin.
Definition WriteStream_poll_finish_write (s : WriteStream) (cx : nat) (shutdown : Status) :=
  instance_poll_finish_write (write_arc s) cx shutdown.
Definition WriteStream_poll_abort_write (s : WriteStream) (cx : nat) (shutdown : Status) :=
  instance_poll_abort_write (write_arc s) cx shutdown.
Definition WriteStream_abort_write (s : WriteStream) (shutdown : Status) := instance_abort_write (write_arc s) shutdown.

(** ** Readers and writers of tokio and of futures *)
Section io.
Context `{RB : ReadBufs}.
Definition ReadStream_tokio_poll_read (s : ReadStream) (cx : nat) (buf : ReadBuf)
    : M (poll (unit + ErrorKind * ReadError) * list N * ReadBuf) :=
  on (read_arc s) (λ x, let* (p, buf) := tokio_poll_read x cx buf in let '(r, x, ns) := p in Ok ((r, ns, buf), x)).
End io.
Definition ReadStream_futures_poll_read (s : ReadStream) (cx room : nat)
    : M (poll (bytes + ErrorKind * ReadError) * list N) :=
  on (read_arc s) (λ x, let* (p, ns) := futures_poll_read x cx room in let '(r, x) := p in Ok ((r, ns), x)).
Definition WriteStream_futures_poll_write (s : WriteStream) (cx : nat) (buf : bytes) (send : Status)
    : M (poll (nat + ErrorKind * WriteError) * Sent) :=
  on (write_arc s) (λ x, let* (p, sent) := futures_poll_write x cx buf send in let '(r, x) := p in Ok ((r, sent), x)).
Definition WriteStream_futures_poll_flush (s : WriteStream) : M (poll (unit + ErrorKind * WriteError)) :=
  on (write_arc s) (λ x, Ok (futures_poll_flush x, x)).
Definition WriteStream_futures_poll_close (s : WriteStream) (cx : nat) (shutdown : Status)
    : M (poll (unit + ErrorKind * WriteError)) :=
  on (write_arc s) (λ x, Ok (futures_poll_close x cx shutdown)).
Definition WriteStream_tokio_poll_write (s : WriteStream) (cx : nat) (buf : bytes) (send : Status)
    : M (poll (nat + ErrorKind * WriteError) * Sent) :=
  on (write_arc s) (λ x, let* (p, sent) := tokio_poll_write x cx buf send in let '(r, x) := p in Ok ((r, sent), x)).
Definition WriteStream_tokio_poll_flush (s : WriteStream) : M (poll (unit + ErrorKind * WriteError)) :=
  on (write_arc s) (λ x, Ok (tokio_poll_flush x, x)).
Definition WriteStream_tokio_poll_shutdown (s : WriteStream) (cx : nat) (shutdown : Status)
    : M (poll (unit + ErrorKind * WriteError)) :=
  on (write_arc s) (λ x, Ok (tokio_poll_shutdown x cx shutdown)).

(** ** What a handle is used for *)
Inductive Handle : Type := Whole (s : Stream) | ReadHalf (s : ReadStream) | WriteHalf (s : WriteStream) | Held (c : Chunk).
Definition handle_arc (hd : Handle) : option addr :=
  match hd with
  | Whole s => Some (stream_arc s)
  | ReadHalf s => Some (read_arc s)
  | WriteHalf s => Some (write_arc s)
  | Held c => ck_stream c
  end.
Inductive ReadUse : Type :=
  | ReadInto (cx room : nat) | ReadNext (cx : nat) | AwaitNext (cx : nat)
  | AbortRead (shutdown : Status) | PollAbortRead (cx : nat) (shutdown : Status).
Inductive WriteUse : Type :=
  | Write (cx : nat) (buf : bytes) (fin : bool) (send : Status)
  | PutChunk (cx : nat) (chunk : bytes) (fin : bool) (send : Status)
  | AwaitChunk (cx : nat) (chunk : bytes) (fin : bool) (send : Status)
  | PutChunks (cx : nat) (chunks : list bytes) (fin : bool) (send : Status)
  | AwaitChunks (cx : nat) (chunks : list bytes) (fin : bool) (send : Status)
  | Finish (cx : nat) (shutdown : Status)
  | AbortWrite (shutdown : Status) | PollAbortWrite (cx : nat) (shutdown : Status).
Inductive ReadAnswer : Type :=
  | AnswerRead (r : poll (bytes + ReadError)) (completed : list N)
  | AnswerChunk (r : poll (option Chunk + ReadError))
  | AnswerStopped (r : poll (unit + ReadError)) (woken : list nat).
Inductive WriteAnswer : Type :=
  | AnswerWritten (r : poll (nat + WriteError)) (sent : Sent)
  | AnswerFinished (r : poll (unit + WriteError)).
Definition read_answer {A} (m : M A) (f : A → ReadAnswer) : option (M ReadAnswer) := Some (r ← m; mret (f r)).
Definition write_answer {A} (m : M A) (f : A → WriteAnswer) : option (M WriteAnswer) := Some (r ← m; mret (f r)).
(** The method of a handle, if it has one. *)
Definition read_use (hd : Handle) (u : ReadUse) : option (M ReadAnswer) :=
  match hd, u with
  | Whole s, ReadInto cx room => read_answer (Stream_poll_read s cx room) (λ r, AnswerRead r.1 r.2)
  | Whole s, ReadNext cx => read_answer (Stream_poll_read_chunk s cx) AnswerChunk
  | Whole s, AwaitNext cx => read_answer (ReadChunk_poll (Stream_read_chunk s) cx) AnswerChunk
  | Whole s, AbortRead sh => read_answer (Stream_abort_read s sh) (λ r, AnswerStopped (Ready r) [])
  | Whole s, PollAbortRead cx sh => read_answer (Stream_poll_abort_read s cx sh) (λ r, AnswerStopped r.1 r.2)
  | ReadHalf s, ReadInto cx room => read_answer (ReadStream_poll_read s cx room) (λ r, AnswerRead r.1 r.2)
  | ReadHalf s, ReadNext cx => read_answer (ReadStream_poll_read_chunk s cx) AnswerChunk
  | ReadHalf s, AwaitNext cx => read_answer (ReadChunk_poll (ReadStream_read_chunk s) cx) AnswerChunk
  | ReadHalf s, AbortRead sh => read_answer (ReadStream_abort_read s sh) (λ r, AnswerStopped (Ready r) [])
  | ReadHalf s, PollAbortRead cx sh => read_answer (ReadStream_poll_abort_read s cx sh) (λ r, AnswerStopped r.1 r.2)
  | _, _ => None
  end.
Definition write_use (hd : Handle) (u : WriteUse) : option (M WriteAnswer) :=
  let written r := AnswerWritten r.1 r.2 in
  match hd, u with
  | Whole s, Write cx buf fin send => write_answer (Stream_poll_write s cx buf fin send) written
  | Whole s, PutChunk cx chunk fin send => write_answer (Stream_poll_write_chunk s cx chunk fin send) written
  | Whole s, AwaitChunk cx chunk fin send => write_answer (WriteChunk_poll (Stream_write_chunk s chunk fin) cx send) written
  | Whole s, PutChunks cx chunks fin send => write_answer (Stream_poll_write_chunks s cx chunks fin send) written
  | Whole s, AwaitChunks cx chunks fin send => write_answer (WriteChunks_poll (Stream_write_chunks s chunks fin) cx send) written
  | Whole s, Finish cx sh => write_answer (Stream_poll_finish_write s cx sh) AnswerFinished
  | Whole s, AbortWrite sh => write_answer (Stream_abort_write s sh) (λ r, AnswerFinished (Ready r))
  | Whole s, PollAbortWrite cx sh => write_answer (Stream_poll_abort_write s cx sh) AnswerFinished
  | WriteHalf s, Write cx buf fin send => write_answer (WriteStream_poll_write s cx buf fin send) written
  | WriteHalf s, PutChunk cx chunk fin send => write_answer (WriteStream_poll_write_chunk s cx chunk fin send) written
  | WriteHalf s, AwaitChunk cx chunk fin send => write_answer (WriteChunk_poll (WriteStream_write_chunk s chunk fin) cx send) written
  | WriteHalf s, PutChunks cx chunks fin send => write_answer (WriteStream_poll_write_chunks s cx chunks fin send) written
  | WriteHalf s, AwaitChunks cx chunks fin send => write_answer (WriteChunks_poll (WriteStream_write_chunks s chunks fin) cx send) written
  | WriteHalf s, Finish cx sh => write_answer (WriteStream_poll_finish_write s cx sh) AnswerFinished
  | WriteHalf s, AbortWrite sh => write_answer (WriteStream_abort_write s sh) (λ r, AnswerFinished (Ready r))
  | WriteHalf s, PollAbortWrite cx sh => write_answer (WriteStream_poll_abort_write s cx sh) AnswerFinished
  | _, _ => None
  end.
End handles.
