(* ===== verification/HandleRuns.v ===== *)
(** * Readers and writers of one QUIC stream

    The handles of [Handles] at work: what the two halves of a stream do does
    not depend on each other, so that the properties of readers and of writers
    ([StreamRuns]) hold of both at once; and a stream stays open as long as
    anybody has it. *)
From S2P Require Import Prelude RangeSet RecvBuffer QuicStream StreamRuns StreamIo QuicConn Handles.
Open Scope N_scope.

(** ** The two directions of a stream *)
Section directions.
Context `{RS : RangeSets}.

(** A use is a change of the state of the stream; a chunk that is handed out
    is one more handle. *)
Definition read_inner (a : addr) (u : ReadUse) (x : StreamInner) : res (ReadAnswer * StreamInner) :=
  match u with
  | ReadInto cx room => let* (p, ns) := poll_read x cx room in Ok (AnswerRead p.1 ns, p.2)
  | ReadNext cx | AwaitNext cx =>
      let* (p, x) := poll_read_chunk x cx in
      Ok (AnswerChunk (poll_map (λ r, match r with
        | inl o => inl (mkChunk (Some a) <$> o)
        | inr e => inr e
        end) p), x)
  | AbortRead sh => let '(r, x) := abort_read x sh in Ok (AnswerStopped (Ready r) [], x)
  | PollAbortRead cx sh => let '(r, x, woken) := poll_abort_read x cx sh in Ok (AnswerStopped r woken, x)
  end.
Definition write_inner (u : WriteUse) (x : StreamInner) : res (WriteAnswer * StreamInner) :=
  let answer (r : WriteResult) := let* (p, sent) := r in Ok (AnswerWritten p.1 sent, p.2) in
  match u with
  | Write cx buf fin send => answer (poll_write x cx buf fin send)
  | PutChunk cx chunk fin send | AwaitChunk cx chunk fin send => answer (poll_write_chunk x cx chunk fin send)
  | PutChunks cx chunks fin send | AwaitChunks cx chunks fin send => answer (poll_write_chunks x cx chunks fin send)
  | Finish cx sh => let '(r, x) := poll_finish_write x cx sh in Ok (AnswerFinished r, x)
  | PollAbortWrite cx sh => let '(r, x) := poll_abort_write x cx sh in Ok (AnswerFinished r, x)
  | AbortWrite sh => let '(r, x) := abort_write x sh in Ok (AnswerFinished (Ready r), x)
  end.
Definition new_handles (r : ReadAnswer) : list Handle :=
  match r with AnswerChunk (Ready (inl (Some c))) => [Held c] | _ => [] end.
Definition at_arc {A} (a : addr) (more : A → N) (f : StreamInner → res (A * StreamInner)) : M A := λ h,
  match h !! a with
  | Some arc => let* (r, x) := f (instance arc) in Ok (r, <[a := mkArcInner (strong arc + more r) x]> h)
  | None => freed
  end.
Lemma on_at {A B} a (f : StreamInner → res (A * StreamInner)) (g : A → B) h :
  (r ← on a f; mret (g r)) h = at_arc a (λ _, 0) (λ x, let* (r, x) := f x in Ok (g r, x)) h.
Proof.
  unfold mbind, M_bind, mret, M_ret, on, at_arc. destruct (h !! a) as [arc|]; [|done].
  destruct (f (instance arc)) as [[r x]| | |]; simpl; by rewrite ?N.add_0_r.
Qed.
Lemma chunk_at a cx h :
  (r ← instance_poll_read_chunk a cx; mret (AnswerChunk r)) h =
  at_arc a (λ r, blen (new_handles r)) (read_inner a (ReadNext cx)) h.
Proof.
  unfold mbind, M_bind, mret, M_ret, instance_poll_read_chunk, mbind, M_bind, on, at_arc, arc_clone. simpl.
  destruct (h !! a) as [arc|]; [|done].
  destruct (poll_read_chunk (instance arc) cx) as [[[|[[b|]|e]] x]| | |]; simpl; rewrite ?N.add_0_r; try done.
  rewrite lookup_insert_eq. simpl. unfold mret, M_ret. simpl. by rewrite insert_insert_eq.
Qed.
Lemma at_arc_ext {A} a more (f g : StreamInner → res (A * StreamInner)) h more' :
  (∀ x, f x = g x) → (∀ r x x', g x = Ok (r, x') → more r = more' r) → at_arc a more f h = at_arc a more' g h.
Proof.
  intros Hfg Hm. unfold at_arc. destruct (h !! a) as [arc|]; [|done]. rewrite Hfg.
  destruct (g (instance arc)) as [[r x]| | |] eqn:E; simpl; [|done..]. by rewrite (Hm r _ _ E).
Qed.
Ltac same_steps :=
  match goal with
  | |- context [poll_read ?x ?cx ?room] => destruct (poll_read x cx room) as [[[]]| | |]
  | |- context [poll_write ?x ?cx ?buf ?fin ?send] => destruct (poll_write x cx buf fin send) as [[[]]| | |]
  | |- context [poll_write_chunk ?x ?cx ?buf ?fin ?send] => destruct (poll_write_chunk x cx buf fin send) as [[[]]| | |]
  | |- context [poll_write_chunks ?x ?cx ?buf ?fin ?send] => destruct (poll_write_chunks x cx buf fin send) as [[[]]| | |]
  | |- context [poll_abort_read ?x ?cx ?sh] => destruct (poll_abort_read x cx sh) as [[]]
  | _ => idtac
  end; done.
Lemma read_use_at hd u m a h : read_use hd u = Some m → handle_arc hd = Some a →
  m h = at_arc a (λ r, blen (new_handles r)) (read_inner a u) h.
Proof.
  intros Hu Ha. destruct hd as [s|s|s|c], u as [cx room|cx|cx|sh|cx sh]; try done; injection Hu as <-; injection Ha as <-;
    try apply chunk_at; refine (eq_trans (on_at _ _ _ _) _); (apply at_arc_ext; [intros x; simpl; same_steps|]);
    intros r x x' E; simpl in E; repeat case_match; res_inv; by simplify_eq.
Qed.
Lemma write_use_at hd u m a h : write_use hd u = Some m → handle_arc hd = Some a →
  m h = at_arc a (λ _, 0) (write_inner u) h.
Proof.
  intros Hu Ha. destruct hd as [s|s|s|c], u; try done; injection Hu as <-; injection Ha as <-;
    refine (eq_trans (on_at _ _ _ _) _); apply at_arc_ext; try done; intros x; simpl; same_steps.
Qed.

(** *** Reading leaves writing alone, and the other way round *)

(** What a use changes, carried over to another state; both directions have
    the tasks that wait for the start in one queue. *)
Definition new_starts (x x' : StreamInner) : list nat := drop (length (x_start_waiters x)) (x_start_waiters x').
Definition graft_read (x x' y : StreamInner) : StreamInner :=
  mkInner (x_type y) (x_local_open y) (x_id y) (x_state y) (x_start_status y) (x_recv_state x')
    (x_recv_buffers x') (x_recv_len x') (x_read_complete_map x') (x_read_complete_cursor x') (x_send_state y)
    (x_write_pool y) (x_recv_error_code x') (x_send_error_code y) (x_conn_error y)
    (x_start_waiters y ++ new_starts x x') (x_read_waiters x') (x_write_shutdown_waiters y).
Definition graft_write (x x' y : StreamInner) : StreamInner :=
  mkInner (x_type y) (x_local_open y) (x_id y) (x_state y) (x_start_status y) (x_recv_state y)
    (x_recv_buffers y) (x_recv_len y) (x_read_complete_map y) (x_read_complete_cursor y) (x_send_state x')
    (x_write_pool x') (x_recv_error_code y) (x_send_error_code x') (x_conn_error y)
    (x_start_waiters y ++ new_starts x x') (x_read_waiters y) (x_write_shutdown_waiters x').
(** Alike for a reader, and for a writer. *)
Record read_alike (x y : StreamInner) : Prop := {
  ra_conn : x_conn_error y = x_conn_error x;
  ra_state : x_recv_state y = x_recv_state x;
  ra_buffers : x_recv_buffers y = x_recv_buffers x;
  ra_len : x_recv_len y = x_recv_len x;
  ra_map : x_read_complete_map y = x_read_complete_map x;
  ra_cursor : x_read_complete_cursor y = x_read_complete_cursor x;
  ra_code : x_recv_error_code y = x_recv_error_code x;
  ra_waiters : x_read_waiters y = x_read_waiters x;
}.
Record write_alike (x y : StreamInner) : Prop := {
  wa_conn : x_conn_error y = x_conn_error x;
  wa_state : x_send_state y = x_send_state x;
  wa_pool : x_write_pool y = x_write_pool x;
  wa_code : x_send_error_code y = x_send_error_code x;
  wa_waiters : x_write_shutdown_waiters y = x_write_shutdown_waiters x;
}.
Lemma new_starts_same x x' : x_start_waiters x' = x_start_waiters x → new_starts x x' = [].
Proof. intros E. unfold new_starts. by rewrite E, drop_all. Qed.
Lemma new_starts_push x x' cx : x_start_waiters x' = x_start_waiters x ++ [cx] → new_starts x x' = [cx].
Proof. intros E. unfold new_starts. by rewrite E, drop_app_length. Qed.
Ltac same_fields :=
  unfold graft_read, graft_write, new_starts, set_completion, set_buffers, set_recv_state, set_send_state, set_states, set_pool,
    push_start_waiter, push_read_waiter, push_write_waiter, set_waiters in *;
  cbn [x_type x_local_open x_id x_state x_start_status x_recv_state x_recv_buffers x_recv_len x_read_complete_map
    x_read_complete_cursor x_send_state x_write_pool x_recv_error_code x_send_error_code x_conn_error x_start_waiters
    x_read_waiters x_write_shutdown_waiters] in *;
  rewrite ?drop_all, ?drop_app_length, ?app_nil_r; try done.

(** [y] as its fields. *)
Ltac fields_of y :=
  destruct y as [y_type y_local_open y_id y_state y_start_status y_recv_state y_recv_buffers y_recv_len y_map y_cursor
    y_send_state y_write_pool y_recv_code y_send_code y_conn y_starts y_reads y_writes]; simpl in *; subst.
Lemma read_complete_both x y b : x_read_complete_map y = x_read_complete_map x →
  x_read_complete_cursor y = x_read_complete_cursor x →
  ∃ m c n, read_complete x b = (set_completion m c x, n) ∧ read_complete y b = (set_completion m c y, n).
Proof.
  intros Hm Hc. unfold read_complete, rb_range. cbv zeta. rewrite Hm, Hc.
  repeat case_match; simplify_eq/=; by eexists _, _, _.
Qed.
Lemma drop_buffers_both x y bufs : x_read_complete_map y = x_read_complete_map x →
  x_read_complete_cursor y = x_read_complete_cursor x →
  ∃ m c ns, drop_buffers x bufs = (set_completion m c x, ns) ∧ drop_buffers y bufs = (set_completion m c y, ns).
Proof.
  revert x y. induction bufs as [|b bufs IH]; intros x y Hm Hc; cbn [drop_buffers].
  { exists (x_read_complete_map x), (x_read_complete_cursor x), []. split; [by destruct x|]. rewrite <-Hm, <-Hc. by destruct y. }
  destruct (read_complete_both x y b Hm Hc) as (m & c & n & -> & ->).
  destruct (IH (set_completion m c x) (set_completion m c y)) as (m' & c' & ns & -> & ->); [done..|].
  by exists m', c', (option_list n ++ ns).
Qed.
(** What a read does to a state depends on what readers see of it alone. *)
Lemma poll_read_generic_local {A} (read_fn : list StreamRecvBuffer → res (ReadStatus A * list StreamRecvBuffer * list StreamRecvBuffer))
    x y cx : read_alike x y →
  poll_read_generic read_fn y cx =
    (let* (p, used) := poll_read_generic read_fn x cx in Ok (p.1, graft_read x p.2 y, used)).
Proof.
  intros []. unfold poll_read_generic. rewrite ra_state0, ra_conn0, ra_code0, ra_buffers0, ra_len0.
  fields_of y. destruct (x_recv_state x) eqn:E; simpl; try (by same_fields; rewrite ?E).
  destruct (read_fn (x_recv_buffers x)) as [[[st bufs] used]| | |]; simpl; [|done..].
  destruct st as [r|[r|]|[r|]]; simpl; same_fields; by rewrite ?E.
Qed.
Lemma poll_read_local x y cx room : read_alike x y →
  poll_read y cx room = (let* (p, ns) := poll_read x cx room in Ok (p.1, graft_read x p.2 y, ns)).
Proof.
  intros Ha. unfold poll_read. rewrite (poll_read_generic_local _ x y cx Ha).
  replace (x_recv_buffers y) with (x_recv_buffers x) by (symmetry; apply Ha).
  destruct (poll_read_generic _ x cx) as [[[r x1] used]| | |]; simpl; [|done..].
  destruct (drop_buffers_both x1 (graft_read x x1 y) used) as (m & c & ns & -> & ->); [done..|]. done.
Qed.
Lemma read_inner_local a u x y : read_alike x y →
  read_inner a u y = (let* (r, x') := read_inner a u x in Ok (r, graft_read x x' y)).
Proof.
  intros Ha. destruct u as [cx room|cx|cx|sh|cx sh]; simpl.
  - rewrite (poll_read_local x y cx room Ha). by destruct (poll_read x cx room) as [[[]]| | |].
  - unfold poll_read_chunk. rewrite (poll_read_generic_local _ x y cx Ha). by destruct (poll_read_generic _ x cx) as [[[]]| | |].
  - unfold poll_read_chunk. rewrite (poll_read_generic_local _ x y cx Ha). by destruct (poll_read_generic _ x cx) as [[[]]| | |].
  - destruct Ha. unfold abort_read. rewrite ra_state0. fields_of y.
    destruct (x_recv_state x) eqn:E; try destruct (status_is_ok sh); simpl; same_fields; by rewrite ?E.
  - destruct Ha. unfold poll_abort_read, wake_read. rewrite ra_state0, ra_conn0, ra_code0. fields_of y.
    destruct (x_recv_state x) eqn:E; try destruct (status_is_ok sh); simpl; same_fields; by rewrite ?E.
Qed.
Lemma poll_write_generic_local write_fn x y cx send : write_alike x y →
  poll_write_generic write_fn y cx send =
    (let* (p, sent) := poll_write_generic write_fn x cx send in Ok (p.1, graft_write x p.2 y, sent)).
Proof.
  intros []. unfold poll_write_generic. rewrite wa_state0, wa_conn0, wa_code0, wa_pool0. fields_of y.
  destruct (x_send_state x) eqn:E; simpl; try (by same_fields; rewrite ?E).
  destruct (last (x_write_pool x)) as [w|]; destruct (write_fn _) as [st w'], (get_buffers w') as [bufs w''];
    destruct st as [r|[r|]|[r|]], (status_is_ok send); simpl; same_fields; by rewrite ?E.
Qed.
Lemma write_inner_local u x y : write_alike x y →
  write_inner u y = (let* (r, x') := write_inner u x in Ok (r, graft_write x x' y)).
Proof.
  intros Ha. pose proof Ha as []. destruct u; simpl;
    try (unfold poll_write, poll_write_chunk, poll_write_chunks, written;
      rewrite (poll_write_generic_local _ x y _ _ Ha); by destruct (poll_write_generic _ x _ _) as [[[]]| | |]);
    unfold poll_abort_write, poll_finish_write, abort_write, write_shutdown_result; rewrite wa_state0, ?wa_conn0, ?wa_code0;
    clear Ha; destruct y; simpl in *; subst;
    destruct (x_send_state x) eqn:E; try destruct (status_is_ok shutdown); simpl; same_fields; by rewrite ?E.
Qed.
(** So neither direction sees what the other does. *)
Lemma read_inner_frame a u x r x' : read_inner a u x = Ok (r, x') → x' = graft_read x x' x.
Proof.
  intros E. assert (read_alike x x) as Hx by by split. pose proof (read_inner_local a u x x Hx) as H.
  rewrite E in H. simpl in H. by injection H.
Qed.
Lemma write_inner_frame u x q x' : write_inner u x = Ok (q, x') → x' = graft_write x x' x.
Proof.
  intros E. assert (write_alike x x) as Hx by by split. pose proof (write_inner_local u x x Hx) as H.
  rewrite E in H. simpl in H. by injection H.
Qed.
Lemma read_keeps_writing a u x r x' : read_inner a u x = Ok (r, x') → write_alike x x'.
Proof. intros ->%read_inner_frame. by split. Qed.
Lemma write_keeps_reading u x q x' : write_inner u x = Ok (q, x') → read_alike x x'.
Proof. intros ->%write_inner_frame. by split. Qed.
Lemma read_after_write a u v x q y : write_inner v x = Ok (q, y) →
  read_inner a u y = (let* (r, x') := read_inner a u x in Ok (r, graft_read x x' y)).
Proof. intros Hw. by eapply read_inner_local, write_keeps_reading. Qed.
Lemma write_after_read a u v x r y : read_inner a u x = Ok (r, y) →
  write_inner v y = (let* (q, x') := write_inner v x in Ok (q, graft_write x x' y)).
Proof. intros Hr. by eapply write_inner_local, read_keeps_writing. Qed.

(** The same up to the order in which the tasks that wait for the start queue. *)
Definition same_inner (x y : StreamInner) : Prop :=
  x_start_waiters x ≡ₚ x_start_waiters y ∧
  set_waiters [] (x_read_waiters x) (x_write_shutdown_waiters x) x =
  set_waiters [] (x_read_waiters y) (x_write_shutdown_waiters y) y.
#[export] Instance same_inner_equivalence : Equivalence same_inner.
Proof.
  split; [done|intros x y [? ?]; by split|]. intros x y z [? Hx] [? Hy]. split; [by etrans|congruence].
Qed.
Definition same_arc (arc arc' : ArcInner) : Prop := strong arc = strong arc' ∧ same_inner (instance arc) (instance arc').
Definition same_streams (h h' : Heap) : Prop := ∀ a, option_Forall2 same_arc (h !! a) (h' !! a).
#[export] Instance same_arc_equivalence : Equivalence same_arc.
Proof.
  split; [done|intros x y [? ?]; by split|]. intros x y z [? ?] [? ?]. split; [congruence|by etrans].
Qed.
#[export] Instance same_streams_equivalence : Equivalence same_streams.
Proof.
  split; [intros h a; reflexivity|intros h h' H a; by symmetry|]. intros x y z H H' a. etrans; [apply H|apply H'].
Qed.
#[export] Instance same_streams_insert a : Proper (same_arc ==> same_streams ==> same_streams) (insert a).
Proof.
  intros arc arc' Harc h h' Hh b. destruct (decide (a = b)) as [<-|Hab]; [rewrite !lookup_insert_eq; by constructor|].
  rewrite !lookup_insert_ne by done. apply Hh.
Qed.
Lemma grafts_commute x x1 x2 : x1 = graft_read x x1 x → x2 = graft_write x x2 x →
  same_inner (graft_write x x2 x1) (graft_read x x1 x2).
Proof.
  intros H1 H2. apply (f_equal x_start_waiters) in H1 as S1. apply (f_equal x_start_waiters) in H2 as S2. simpl in S1, S2.
  assert (∀ l1 l2 : list nat, (x_start_waiters x ++ l1) ++ l2 ≡ₚ (x_start_waiters x ++ l2) ++ l1) as Hperm.
  { intros l1 l2. rewrite <-!(assoc_L (++)). f_equiv. apply Permutation_app_comm. }
  split.
  - simpl. rewrite S1, S2. apply Hperm.
  - clear S1 S2 Hperm. destruct x1, x2. unfold graft_read, graft_write in H1, H2. simpl in *.
    injection H1 as -> -> -> -> -> -> -> -> -> _ ->. injection H2 as -> -> -> -> -> -> -> -> -> -> -> -> _ ->. done.
Qed.
End directions.

(** ** A stream, its handles, and the events of msquic *)
Section worlds.
Context `{RSO : RangeSetsOk}.

(** As in [Reader] and [Writer]: what was received, read, finished by the
    peer and acknowledged, and whether reading was cut off here; what was
    accepted, handed over, and is in flight. *)
Record Log : Type := mkLog {
  lg_received : bytes;
  lg_read : bytes;
  lg_fin : bool;
  lg_acked : N;
  lg_accepted : list (bytes * bool);
  lg_handed : list (bytes * bool);
  lg_flight : list WriteBuffer;
  lg_cut : bool;
}.
Record World : Type := mkWorld { wd_heap : Heap; wd_handles : list Handle; wd_log : Log }.
Definition held (hds : list Handle) : list StreamRecvBuffer :=
  omap (λ hd, match hd with Held c => Some (ck_buf c) | _ => None end) hds.
Definition reader_of (x : StreamInner) (hds : list Handle) (l : Log) : Reader :=
  mkReader x (lg_received l) (lg_read l) (lg_fin l) (held hds) (lg_acked l) (lg_cut l).
Definition writer_of (x : StreamInner) (l : Log) : Writer := mkWriter x (lg_accepted l) (lg_handed l) (lg_flight l).
Definition log_read (out : bytes) (acked : N) (l : Log) : Log :=
  mkLog (lg_received l) (lg_read l ++ out) (lg_fin l) (lg_acked l + acked) (lg_accepted l) (lg_handed l) (lg_flight l) (lg_cut l).
Definition log_cut (cut : bool) (l : Log) : Log :=
  mkLog (lg_received l) (lg_read l) (lg_fin l) (lg_acked l) (lg_accepted l) (lg_handed l) (lg_flight l) (lg_cut l || cut).
Definition log_read_answer (r : ReadAnswer) (l : Log) : Log :=
  match r with
  | AnswerRead (Ready (inl out)) ns => log_read out (total ns) l
  | AnswerRead _ ns => log_read [] (total ns) l
  | AnswerChunk (Ready (inl (Some c))) => log_read (rb_content (ck_buf c)) 0 l
  | AnswerStopped p _ => log_cut (aborted p) l
  | _ => l
  end.
Definition use_bytes (u : WriteUse) : bytes * bool :=
  match u with
  | Write _ buf fin _ => (buf, fin)
  | PutChunk _ chunk fin _ | AwaitChunk _ chunk fin _ => (chunk, fin)
  | PutChunks _ chunks fin _ | AwaitChunks _ chunks fin _ => (concat chunks, fin)
  | _ => ([], false)
  end.
Definition log_write_answer (u : WriteUse) (q : WriteAnswer) (l : Log) : Log :=
  match q with
  | AnswerWritten p sent =>
      mkLog (lg_received l) (lg_read l) (lg_fin l) (lg_acked l)
        (lg_accepted l ++ match p with Ready (inl _) => [use_bytes u] | _ => [] end)
        (lg_handed l ++ handed_portion sent) (lg_flight l ++ option_list (snd <$> sent)) (lg_cut l)
  | AnswerFinished _ => l
  end.
Definition split_into (halves : option ReadStream * option WriteStream) : list Handle :=
  option_list (ReadHalf <$> halves.1) ++ option_list (WriteHalf <$> halves.2).
(** Tasks use and drop the handles they have, in any order, and msquic
    indicates what [reader_step] and [write_step] let it.  Whoever has a chunk may read it before it is dropped. *)
Inductive world_step (a : addr) : World → World → Prop :=
  | world_start h hds l s arc cx start p h' :
      Whole s ∈ hds → h !! a = Some arc → x_local_open (instance arc) = true →
      (x_state (instance arc) = SOpen → x_send_state (instance arc) = WClosed) →
      Stream_poll_start s cx start h = Ok (p, h') → world_step a (mkWorld h hds l) (mkWorld h' hds l)
  | world_split h hds1 s hds2 l halves h' :
      Stream_split s h = Ok (halves, h') →
      world_step a (mkWorld h (hds1 ++ Whole s :: hds2) l) (mkWorld h' (hds1 ++ split_into halves ++ hds2) l)
  | world_read h hds l hd u m r h' :
      hd ∈ hds → read_use hd u = Some m → m h = Ok (r, h') →
      world_step a (mkWorld h hds l) (mkWorld h' (new_handles r ++ hds) (log_read_answer r l))
  | world_write h hds l hd u m q h' :
      hd ∈ hds → write_use hd u = Some m → m h = Ok (q, h') →
      world_step a (mkWorld h hds l) (mkWorld h' hds (log_write_answer u q l))
  | world_drop h hds1 hd hds2 l b closed h' :
      (∀ c, hd ≠ Held c) → handle_arc hd = Some b → arc_drop b h = Ok (closed, h') →
      world_step a (mkWorld h (hds1 ++ hd :: hds2) l) (mkWorld h' (hds1 ++ hds2) l)
  | world_drop_chunk h hds1 c c' hds2 l n closed h' :
      span (ck_buf c') = span (ck_buf c) → ck_stream c' = ck_stream c →
      StreamRecvBuffer_drop c' h = Ok ((n, closed), h') →
      world_step a (mkWorld h (hds1 ++ Held c :: hds2) l)
        (mkWorld h' (hds1 ++ hds2) (log_read [] (total (option_list n)) l))
  | world_event h hds l arc ev l' :
      let x := after (instance arc) ev in
      h !! a = Some arc → reader_step (reader_of (instance arc) hds l) (reader_of x hds l') →
      write_step (writer_of (instance arc) l) (writer_of x l') →
      world_step a (mkWorld h hds l) (mkWorld (<[a := mkArcInner (strong arc) x]> h) hds l').

(** Nobody has a handle of what is freed, the handles are counted, and the
    invariants of reading and of writing hold of the one state. *)
Definition directions_ok (x : StreamInner) (hds : list Handle) (l : Log) : Prop :=
  log_inv (reader_of x hds l) ∧ acc_inv (reader_of x hds l) ∧ write_inv (writer_of x l).
Record world_inv (a : addr) (others : Heap) (w : World) : Prop := {
  wi_handles : Forall (λ hd, handle_arc hd = Some a) (wd_handles w);
  wi_others : delete a (wd_heap w) = others;
  wi_alive : match wd_heap w !! a with
    | Some arc => strong arc = blen (wd_handles w) ∧ 0 < strong arc ∧ directions_ok (instance arc) (wd_handles w) (wd_log w)
    | None => wd_handles w = []
    end;
}.

(** *** What reading and writing keep *)
Lemma log_inv_alike x y rcv rd fin hs acked cut : read_alike x y → x_local_open y = x_local_open x → x_state y = x_state x →
  log_inv (mkReader x rcv rd fin hs acked cut) → log_inv (mkReader y rcv rd fin hs acked cut).
Proof. intros [] Hl Hs. unfold log_inv, broken. simpl. by rewrite ra_conn0, ra_state0, ra_buffers0, ra_code0, Hl, Hs. Qed.
Lemma acc_inv_alike x y rcv rd fin hs acked cut : read_alike x y → x_state y = x_state x →
  acc_inv (mkReader x rcv rd fin hs acked cut) → acc_inv (mkReader y rcv rd fin hs acked cut).
Proof. intros [] Hs. unfold acc_inv, accounted. simpl. by rewrite ra_buffers0, ra_map0, ra_cursor0, Hs. Qed.
Lemma write_inv_alike x y acc handed flight : write_alike x y →
  write_inv (mkWriter x acc handed flight) → write_inv (mkWriter y acc handed flight).
Proof.
  intros [] Hw. apply (write_frame _ _ _ _ _ Hw); [done|]. unfold send_closed. by rewrite wa_state0.
Qed.
(** A read that answers is a step of the reader, or changes nothing. *)
Lemma read_inner_step a u x r x' hds l : read_inner a u x = Ok (r, x') →
  let l' := log_read_answer r l in
  reader_step (reader_of x hds l) (reader_of x' (new_handles r ++ hds) l') ∨
  (x' = x ∧ reader_of x hds l = reader_of x' (new_handles r ++ hds) l').
Proof.
  intros Hr. cbn zeta. destruct u as [cx room|cx|cx|sh|cx sh]; simpl in Hr.
  { destruct (poll_read x cx room) as [[[p x1] ns]| | |] eqn:E; try done. injection Hr as <- <-.
    destruct p as [|[out|e]]; unfold reader_of; simpl.
    - left. rewrite (right_id_L [] (++)). by eapply step_wait.
    - left. by eapply step_read.
    - right. destruct (decide (x_recv_state x = RStartComplete)) as [Hst|Hst].
      + exfalso. unfold poll_read, poll_read_generic in E. rewrite Hst in E.
        destruct (read_loop _ _ _ _ _ _) as [[[st bufs] used]| | |]; try done. cbn [rbind] in E.
        destruct st as [b|[b|]|[b|]]; cbn [rbind] in E; destruct (drop_buffers _ used); done.
      + assert (x1 = x ∧ ns = []) as [-> ->].
        { unfold poll_read, poll_read_generic in E. destruct (x_recv_state x); try done; simpl in E; by injection E as _ <- <-. }
        split; [done|]. simpl. by rewrite (right_id_L [] (++)), N.add_0_r. }
  3: { destruct (abort_read x sh) as [e x1] eqn:E. injection Hr as <- <-. left. by apply (step_abort_read _ _ _ _ _ _ _ sh). }
  3: { destruct (poll_abort_read x cx sh) as [[p x1] woken] eqn:E. injection Hr as <- <-. left.
    by apply (step_poll_abort_read _ _ _ _ _ _ _ cx sh _ _ woken). }
  all: destruct (poll_read_chunk x cx) as [[p x1]| | |] eqn:E; try done; injection Hr as <- <-;
    destruct p as [|[[b|]|e]]; unfold reader_of; simpl; rewrite ?N.add_0_r;
    [left; by eapply step_wait_chunk|left; by eapply step_read_chunk|right..];
    (assert (x1 = x) as ->; [|done]); unfold poll_read_chunk, poll_read_generic in E;
    destruct (x_recv_state x); simpl in E; try (by injection E as <-);
    destruct (x_recv_buffers x) as [|b bufs]; simpl in E; try (destruct (rb_fin b)); by injection E.
Qed.
Lemma write_inner_step u x q x' l : write_inner u x = Ok (q, x') →
  write_step (writer_of x l) (writer_of x' (log_write_answer u q l)).
Proof.
  intros Hw. assert (∀ cx op fin send p x1 sent, poll_write_op x cx op fin send = Ok (p, x1, sent) →
    use_bytes u = (op_bytes op, fin) →
    write_step (writer_of x l) (writer_of x1 (log_write_answer u (AnswerWritten p sent) l))) as Hop.
  { intros cx op fin send p x1 sent Ho Hu. unfold writer_of. simpl. rewrite Hu. by eapply (step_write x _ _ _ cx op fin send). }
  destruct u as [cx buf fin send|cx buf fin send|cx buf fin send|cx bufs fin send|cx bufs fin send|cx sh|sh|cx sh]; simpl in Hw.
  1: destruct (poll_write x cx buf fin send) as [[[p x1] sent]| | |] eqn:E; try done; injection Hw as <- <-;
    by apply (Hop cx (WriteSlice buf) fin send).
  1,2: destruct (poll_write_chunk x cx buf fin send) as [[[p x1] sent]| | |] eqn:E; try done; injection Hw as <- <-;
    by apply (Hop cx (StreamRuns.WriteChunk buf) fin send).
  1,2: destruct (poll_write_chunks x cx bufs fin send) as [[[p x1] sent]| | |] eqn:E; try done; injection Hw as <- <-;
    by apply (Hop cx (StreamRuns.WriteChunks bufs) fin send).
  - pose proof (step_finish x (lg_accepted l) (lg_handed l) (lg_flight l) cx sh) as Hs.
    destruct (poll_finish_write x cx sh). by injection Hw as <- <-.
  - pose proof (step_abort x (lg_accepted l) (lg_handed l) (lg_flight l) sh) as Hs.
    destruct (abort_write x sh). by injection Hw as <- <-.
  - pose proof (step_finish x (lg_accepted l) (lg_handed l) (lg_flight l) cx sh) as Hs. unfold poll_abort_write in Hw.
    destruct (poll_finish_write x cx sh). by injection Hw as <- <-.
Qed.
Lemma frame_read a u x r x' hds l : read_inner a u x = Ok (r, x') → directions_ok x hds l →
  directions_ok x' (new_handles r ++ hds) (log_read_answer r l).
Proof.
  intros Hr (Hl & Ha & Hw). assert (writer_of x' (log_read_answer r l) = writer_of x' l) as Hlog.
  { unfold writer_of. by destruct r as [[|[]]|[|[[]|]]|]. }
  unfold directions_ok. rewrite Hlog. split_and!; [..|by eapply write_inv_alike, Hw; eapply read_keeps_writing].
  all: destruct (read_inner_step a u x r x' hds l Hr) as [Hs|[_ <-]]; [|done].
  - by eapply log_step.
  - by eapply acc_step.
Qed.
Lemma frame_write u x q x' hds l : write_inner u x = Ok (q, x') → directions_ok x hds l →
  directions_ok x' hds (log_write_answer u q l).
Proof.
  intros Hq (Hl & Ha & Hw).
  assert (reader_of x' hds (log_write_answer u q l) = reader_of x' hds l) as Hlog by by destruct q.
  unfold directions_ok. rewrite Hlog. pose proof (write_keeps_reading u x q x' Hq) as Hal.
  pose proof (write_inner_frame u x q x' Hq) as Hf.
  assert (x_local_open x' = x_local_open x ∧ x_state x' = x_state x) as [? ?] by (rewrite Hf; done).
  split_and!; [by eapply log_inv_alike|by eapply acc_inv_alike|]. by eapply write_step_inv, write_inner_step.
Qed.
Lemma frame_start x cx start p x' hds l : x_local_open x = true → (x_state x = SOpen → x_send_state x = WClosed) →
  poll_start x cx start = Ok (p, x') → directions_ok x hds l → directions_ok x' hds l.
Proof.
  intros Ho Hc Hp (Hl & Ha & Hw). pose proof (step_start x (lg_received l) (lg_read l) (lg_fin l) (held hds) (lg_acked l) (lg_cut l) cx start p x' Ho Hp) as Hs.
  split_and!; [by eapply log_step|by eapply acc_step|].
  destruct (decide (x_state x = SOpen)) as [E|E].
  - eapply write_step_inv; [exact Hw|]. eapply step_write_start; [by apply Hc|exact Hp].
  - eapply write_inv_alike, Hw. unfold poll_start in Hp.
    destruct (x_state x), (x_start_status x) as [[]|], (x_conn_error x); try done; apply Ok_inj in Hp; by injection Hp as _ <-.
Qed.

(** *** The heap *)
Lemma on_Ok {A} a (f : StreamInner → res (A * StreamInner)) h r h' : on a f h = Ok (r, h') →
  ∃ arc x, h !! a = Some arc ∧ f (instance arc) = Ok (r, x) ∧ h' = <[a := mkArcInner (strong arc) x]> h.
Proof.
  unfold on. destruct (h !! a) as [arc|]; [|done]. destruct (f (instance arc)) as [[r' x]| | |] eqn:E; try done.
  intros [= <- <-]. by exists arc, x.
Qed.
Lemma at_arc_Ok {A} a more (f : StreamInner → res (A * StreamInner)) h r h' : at_arc a more f h = Ok (r, h') →
  ∃ arc x, h !! a = Some arc ∧ f (instance arc) = Ok (r, x) ∧ h' = <[a := mkArcInner (strong arc + more r) x]> h.
Proof.
  unfold at_arc. destruct (h !! a) as [arc|]; [|done]. destruct (f (instance arc)) as [[r' x]| | |] eqn:E; try done.
  intros [= <- <-]. by exists arc, x.
Qed.
Lemma arc_drop_Ok a h closed h' : arc_drop a h = Ok (closed, h') → ∃ arc, h !! a = Some arc ∧
  h' = if strong arc =? 1 then delete a h else <[a := mkArcInner (strong arc - 1) (instance arc)]> h.
Proof.
  unfold arc_drop. destruct (h !! a) as [arc|]; [|done]. destruct (strong arc =? 1) eqn:E; intros [= _ <-]; exists arc; by rewrite E.
Qed.
(** What becomes of the invariant when an instance gets a state and a count. *)
Lemma world_inv_insert a others h hds l arc hds' l' x n : world_inv a others (mkWorld h hds l) → h !! a = Some arc →
  Forall (λ hd, handle_arc hd = Some a) hds' → n = blen hds' → 0 < n → directions_ok x hds' l' →
  world_inv a others (mkWorld (<[a := mkArcInner n x]> h) hds' l').
Proof.
  intros [_ Ho _] Ha Hh Hn Hpos Hok. split; simpl in *; [done|by rewrite delete_insert_eq|]. by rewrite lookup_insert_eq.
Qed.
Lemma held_app hds1 hds2 : held (hds1 ++ hds2) = held hds1 ++ held hds2.
Proof. apply omap_app. Qed.
Lemma world_inv_dropped a others h hds1 hd hds2 l arc closed h' :
  Forall (λ hd, handle_arc hd = Some a) (hds1 ++ hd :: hds2) → delete a h = others → h !! a = Some arc →
  strong arc = blen (hds1 ++ hd :: hds2) → arc_drop a h = Ok (closed, h') →
  directions_ok (instance arc) (hds1 ++ hds2) l → world_inv a others (mkWorld h' (hds1 ++ hds2) l).
Proof.
  intros Hh Ho Ha Hs Hd Hok. apply arc_drop_Ok in Hd as (arc' & Harc & ->). replace arc' with arc by congruence.
  rewrite blen_app, blen_cons in Hs.
  assert (Forall (λ hd, handle_arc hd = Some a) (hds1 ++ hds2)) as Hh'.
  { apply Forall_app in Hh as [? [_ ?]%Forall_cons]. by apply Forall_app. }
  destruct (N.eqb_spec (strong arc) 1) as [E|E].
  - split; simpl; [done|by rewrite delete_delete_eq|]. rewrite lookup_delete_eq.
    destruct hds1 as [|? hds1], hds2; simpl in *; rewrite ?blen_cons in Hs; try done; lia.
  - split; simpl; [done|by rewrite delete_insert_eq|]. rewrite lookup_insert_eq. simpl. rewrite blen_app.
    split_and!; [lia|lia|done].
Qed.
Lemma wi_handle a others w hd : world_inv a others w → hd ∈ wd_handles w → handle_arc hd = Some a.
Proof. intros [Hh _ _] Hin. rewrite Forall_forall in Hh. by apply Hh. Qed.
Lemma wi_lookup a others h hds l arc : world_inv a others (mkWorld h hds l) → h !! a = Some arc →
  strong arc = blen hds ∧ 0 < strong arc ∧ directions_ok (instance arc) hds l.
Proof. intros [_ _ Ha] Harc. simpl in Ha. by rewrite Harc in Ha. Qed.
Lemma directions_ok_held x hds hds' l : held hds' = held hds → directions_ok x hds l → directions_ok x hds' l.
Proof. intros E. unfold directions_ok, reader_of. by rewrite E. Qed.
Lemma inv_split a others h hds1 s hds2 l halves h' : world_inv a others (mkWorld h (hds1 ++ Whole s :: hds2) l) →
  Stream_split s h = Ok (halves, h') → world_inv a others (mkWorld h' (hds1 ++ split_into halves ++ hds2) l).
Proof.
  intros Hi Hs. pose proof (wi_handle a others _ (Whole s) Hi) as Hsa. specialize (Hsa ltac:(simpl; set_solver)).
  injection Hsa as Hsa. unfold Stream_split, mbind, M_bind in Hs. apply rbind_Ok in Hs as ([sides h1] & Hon & Hs).
  apply on_Ok in Hon as (arc & x & Harc & [= <- <-] & ->). rewrite Hsa in *.
  assert (<[a := mkArcInner (strong arc) (instance arc)]> h = h) as Eh by (apply insert_id; rewrite Harc; by destruct arc).
  rewrite Eh in Hs. destruct (wi_lookup _ _ _ _ _ _ Hi Harc) as (Hn & Hpos & Hok).
  assert (∀ hds', Forall (λ hd, handle_arc hd = Some a) hds' → held hds' = [] → hds' ≠ [] →
    world_inv a others (mkWorld (<[a := mkArcInner (strong arc + blen hds' - 1) (instance arc)]> h) (hds1 ++ hds' ++ hds2) l)) as Hnew.
  { intros hds' Hh' He Hne. pose proof (wi_handles _ _ _ Hi) as Hh. simpl in Hh. apply Forall_app in Hh as [H1 [_ H2]%Forall_cons].
    destruct hds' as [|hd hds']; [done|]. eapply world_inv_insert; [exact Hi|exact Harc| | |rewrite blen_cons in *; lia|].
    - apply Forall_app. split; [done|]. by apply Forall_app.
    - rewrite Hn, !blen_app, !blen_cons. lia.
    - eapply directions_ok_held, Hok. rewrite !held_app, He. simpl. done. }
  assert (split (instance arc) ≠ (false, false)) as Hsome by (unfold split; by destruct (x_type (instance arc)), (x_local_open (instance arc))).
  destruct (split (instance arc)) as [[] []]; simpl in Hs; [..|done].
  - unfold mbind, M_bind, arc_clone in Hs. rewrite Harc in Hs. simpl in Hs. injection Hs as <- <-.
    specialize (Hnew [ReadHalf (mkReadStream a); WriteHalf (mkWriteStream a)]).
    replace (strong arc + blen _ - 1) with (strong arc + 1) in Hnew by (rewrite !blen_cons, blen_nil; lia).
    apply Hnew; [by repeat constructor|done..].
  - injection Hs as <- <-. specialize (Hnew [ReadHalf (mkReadStream a)]).
    replace (strong arc + blen _ - 1) with (strong arc) in Hnew by (rewrite blen_cons, blen_nil; lia). rewrite Eh in Hnew.
    apply Hnew; [by repeat constructor|done..].
  - injection Hs as <- <-. specialize (Hnew [WriteHalf (mkWriteStream a)]).
    replace (strong arc + blen _ - 1) with (strong arc) in Hnew by (rewrite blen_cons, blen_nil; lia). rewrite Eh in Hnew.
    apply Hnew; [by repeat constructor|done..].
Qed.

Lemma inv_read a others h hds l hd u m r h' : world_inv a others (mkWorld h hds l) → hd ∈ hds →
  read_use hd u = Some m → m h = Ok (r, h') →
  world_inv a others (mkWorld h' (new_handles r ++ hds) (log_read_answer r l)).
Proof.
  intros Hi Hin Hu Hm. pose proof (wi_handle _ _ _ _ Hi Hin) as Ha. rewrite (read_use_at hd u m a h Hu Ha) in Hm.
  apply at_arc_Ok in Hm as (arc & x & Harc & Hr & ->). destruct (wi_lookup _ _ _ _ _ _ Hi Harc) as (Hn & Hpos & Hok).
  eapply world_inv_insert; [exact Hi|exact Harc| |by rewrite blen_app, Hn, N.add_comm|lia|by eapply frame_read].
  apply Forall_app. split; [|apply Hi]. clear -Hr. destruct u; simpl in Hr;
    try (destruct (poll_read _ _ _) as [[[]]| | |]; try done; injection Hr as <- _; by constructor);
    try (destruct (poll_read_chunk _ _) as [[[|[[b|]|e]]]| | |]; try done; injection Hr as <- _; by repeat constructor).
  - destruct (abort_read _ _). injection Hr as <- _. constructor.
  - destruct (poll_abort_read _ _ _) as [[]]. injection Hr as <- _. constructor.
Qed.
Lemma inv_write a others h hds l hd u m q h' : world_inv a others (mkWorld h hds l) → hd ∈ hds →
  write_use hd u = Some m → m h = Ok (q, h') → world_inv a others (mkWorld h' hds (log_write_answer u q l)).
Proof.
  intros Hi Hin Hu Hm. pose proof (wi_handle _ _ _ _ Hi Hin) as Ha. rewrite (write_use_at hd u m a h Hu Ha) in Hm.
  apply at_arc_Ok in Hm as (arc & x & Harc & Hr & ->). destruct (wi_lookup _ _ _ _ _ _ Hi Harc) as (Hn & Hpos & Hok).
  eapply world_inv_insert; [exact Hi|exact Harc|apply Hi|lia|lia|by eapply frame_write].
Qed.
Lemma inv_drop_chunk a others h hds1 c c' hds2 l n closed h' : world_inv a others (mkWorld h (hds1 ++ Held c :: hds2) l) →
  span (ck_buf c') = span (ck_buf c) → ck_stream c' = ck_stream c → StreamRecvBuffer_drop c' h = Ok ((n, closed), h') →
  world_inv a others (mkWorld h' (hds1 ++ hds2) (log_read [] (total (option_list n)) l)).
Proof.
  intros Hi Hspan Hst Hd. pose proof (wi_handle a others _ (Held c) Hi) as Ha. specialize (Ha ltac:(simpl; set_solver)).
  unfold StreamRecvBuffer_drop in Hd. rewrite Hst in Hd. simpl in Ha. rewrite Ha in Hd.
  unfold mbind, M_bind in Hd. apply rbind_Ok in Hd as ([k h1] & Hon & Hd). apply on_Ok in Hon as (arc & x & Harc & Hrc & ->).
  apply rbind_Ok in Hd as ([cl h2] & Hdrop & Hd). injection Hd as <- <- <-.
  destruct (read_complete (instance arc) (ck_buf c')) as [x' n'] eqn:Erc. injection Hrc as <- <-.
  destruct (wi_lookup _ _ _ _ _ _ Hi Harc) as (Hn & Hpos & Hl & Hac & Hw).
  assert (reader_step (reader_of (instance arc) (hds1 ++ Held c :: hds2) l)
    (reader_of x' (hds1 ++ hds2) (log_read [] (total (option_list n')) l))) as Hs.
  { unfold reader_of. rewrite !held_app. simpl. rewrite (right_id_L [] (++)). by eapply step_drop. }
  destruct Hi as [Hh Ho _]. eapply (world_inv_dropped a others _ hds1 (Held c) hds2 _ (mkArcInner (strong arc) x')); [exact Hh| |apply lookup_insert_eq|exact Hn|exact Hdrop|].
  - simpl in Ho. by rewrite delete_insert_eq.
  - split_and!; [by eapply log_step|by eapply acc_step|]. apply (write_inv_alike (instance arc)); [|done].
    destruct (read_complete_shape (instance arc) (ck_buf c')) as (m & cu & k & E). rewrite Erc in E. by injection E as -> _.
Qed.
Lemma inv_drop a others h hds1 hd hds2 l b closed h' : world_inv a others (mkWorld h (hds1 ++ hd :: hds2) l) →
  (∀ c, hd ≠ Held c) → handle_arc hd = Some b → arc_drop b h = Ok (closed, h') →
  world_inv a others (mkWorld h' (hds1 ++ hds2) l).
Proof.
  intros Hi Hhd Hb Hd. pose proof (wi_handle a others _ hd Hi) as Ha. specialize (Ha ltac:(simpl; set_solver)).
  replace b with a in Hd by congruence. pose proof Hd as (arc & Harc & _)%arc_drop_Ok.
  destruct (wi_lookup _ _ _ _ _ _ Hi Harc) as (Hn & Hpos & Hok). destruct Hi as [Hh Ho _].
  eapply (world_inv_dropped a others h hds1 hd hds2); try done. eapply directions_ok_held, Hok.
  rewrite !held_app. f_equal. simpl. destruct hd; try done. by destruct (Hhd c).
Qed.
Lemma world_step_inv a others w w' : world_inv a others w → world_step a w w' → world_inv a others w'.
Proof.
  intros Hi Hs. destruct Hs as [h hds l s arc cx start p h' Hin Harc Ho Hc Hp| | | | | |h hds l arc ev l' x Harc Hr Hw].
  - pose proof (wi_handle _ _ _ _ Hi Hin) as Ha. injection Ha as Ha. unfold Stream_poll_start in Hp. rewrite Ha in Hp.
    apply on_Ok in Hp as (arc' & x & Harc' & Hp & ->). replace arc' with arc in * by congruence.
    destruct (wi_lookup _ _ _ _ _ _ Hi Harc) as (Hn & Hpos & Hok).
    eapply world_inv_insert; [exact Hi|exact Harc|apply Hi|done|done|by eapply frame_start].
  - by eapply inv_split.
  - by eapply inv_read.
  - by eapply inv_write.
  - by eapply inv_drop.
  - by eapply inv_drop_chunk.
  - destruct (wi_lookup _ _ _ _ _ _ Hi Harc) as (Hn & Hpos & Hl & Ha & Hok).
    eapply world_inv_insert; [exact Hi|exact Harc|apply Hi|done|done|].
    split_and!; [by eapply log_step|by eapply acc_step|by eapply write_step_inv].
Qed.
(** A stream that was just opened, or handed over by msquic. *)
Definition no_log : Log := mkLog [] [] false 0 [] [] [] false.
Definition new_stream (a : addr) (others : Heap) (w : World) : Prop :=
  ∃ t h, (Stream_open t others = Ok (mkStream a, h) ∨ Stream_from_raw t others = Ok (mkStream a, h)) ∧
    w = mkWorld h [Whole (mkStream a)] no_log.
Lemma new_stream_inv a others w : new_stream a others w → world_inv a others w.
Proof.
  intros (t & h & Hs & ->).
  assert (∃ x, opened x ∧ h = <[a := mkArcInner 1 x]> others ∧ a ∉ dom others) as (x & Hx & -> & Hfresh).
  { destruct Hs as [Hs|Hs]; injection Hs as <- <-; eexists; (split; [|split; [reflexivity|apply is_fresh]]); exists t; auto. }
  apply not_elem_of_dom in Hfresh. split; simpl; [by repeat constructor|by rewrite delete_insert_id|].
  rewrite lookup_insert_eq. simpl. split_and!; [done..|].
  destruct (reader_inv_run x (fresh_reader x) Hx (rtc_refl _ _)) as [Hl Ha].
  split_and!; [done|done|]. apply (writer_inv_run x (fresh_writer x) Hx (rtc_refl _ _)).
Qed.
Lemma world_inv_run a others w0 w : new_stream a others w0 → rtc (world_step a) w0 w → world_inv a others w.
Proof. intros Hn%new_stream_inv Hr. induction Hr; [done|]. by eapply IHHr, world_step_inv. Qed.

(** *** Everything answers *)
Lemma read_inner_total a u x hds l : directions_ok x hds l → ∃ r x', read_inner a u x = Ok (r, x').
Proof.
  intros ((Hwf & _) & _). destruct u as [cx room|cx|cx|sh|cx sh]; simpl.
  - destruct (decide (x_recv_state x = RStartComplete)) as [E|E].
    + destruct (poll_read_spec x cx room E Hwf) as (x1 & used & -> & _). destruct (drop_buffers x1 used). simpl. eauto.
    + unfold poll_read, poll_read_generic. destruct (x_recv_state x); simpl; eauto. done.
  - unfold poll_read_chunk, poll_read_generic.
    destruct (x_recv_state x), (x_recv_buffers x) as [|b bufs]; simpl; eauto. destruct (rb_fin b); simpl; eauto.
  - unfold poll_read_chunk, poll_read_generic.
    destruct (x_recv_state x), (x_recv_buffers x) as [|b bufs]; simpl; eauto. destruct (rb_fin b); simpl; eauto.
  - destruct (abort_read x sh). eauto.
  - destruct (poll_abort_read x cx sh) as [[]]. eauto.
Qed.
Lemma write_inner_total u x hds l : directions_ok x hds l → ∃ q x', write_inner u x = Ok (q, x').
Proof.
  intros (_ & _ & Hpool & _). simpl in Hpool.
  pose proof (λ cx op fin send, poll_write_op_spec x cx op fin send Hpool) as Hop.
  destruct u as [cx buf fin send|cx buf fin send|cx buf fin send|cx bufs fin send|cx bufs fin send|cx sh|sh|cx sh]; simpl.
  - destruct (Hop cx (WriteSlice buf) fin send) as (p & x' & sent & E & _). simpl in E. rewrite E. simpl. eauto.
  - destruct (Hop cx (StreamRuns.WriteChunk buf) fin send) as (p & x' & sent & E & _). simpl in E. rewrite E. simpl. eauto.
  - destruct (Hop cx (StreamRuns.WriteChunk buf) fin send) as (p & x' & sent & E & _). simpl in E. rewrite E. simpl. eauto.
  - destruct (Hop cx (StreamRuns.WriteChunks bufs) fin send) as (p & x' & sent & E & _). simpl in E. rewrite E. simpl. eauto.
  - destruct (Hop cx (StreamRuns.WriteChunks bufs) fin send) as (p & x' & sent & E & _). simpl in E. rewrite E. simpl. eauto.
  - destruct (poll_finish_write x cx sh). eauto.
  - destruct (abort_write x sh). eauto.
  - destruct (poll_abort_write x cx sh). eauto.
Qed.
Lemma at_arc_total {A} a more (f : StreamInner → res (A * StreamInner)) h arc : h !! a = Some arc →
  (∃ r x, f (instance arc) = Ok (r, x)) → ∃ r h', at_arc a more f h = Ok (r, h').
Proof. intros Ha (r & x & E). unfold at_arc. rewrite Ha, E. simpl. eauto. Qed.
(** A poll for the start of a stream whose start has ended panics on a status
    that the crate does not name, and when it was aborted without the
    connection having an error. *)
Definition start_panics (x : StreamInner) : bool :=
  match x_state x, x_start_status x with
  | SOpen, _ | SStart, _ => false
  | _, Some StatusAborted | _, Some StatusInvalidState => bool_decide (x_conn_error x = None)
  | _, Some (StatusUnknown _) => true
  | _, _ => false
  end.
Lemma poll_start_answers x cx start : (∃ p x', poll_start x cx start = Ok (p, x')) ↔ start_panics x = false.
Proof.
  unfold poll_start, start_panics.
  destruct (x_state x), (status_is_ok start), (x_start_status x) as [[]|], (x_conn_error x); simpl;
    split; intros H0; try done; eauto; by destruct H0 as (? & ? & ?).
Qed.
(** Dropping a handle, and what is closed by it. *)
Definition drop_handle (hd : Handle) : M (option StreamInner) :=
  match hd with
  | Whole s => arc_drop (stream_arc s)
  | ReadHalf s => arc_drop (read_arc s)
  | WriteHalf s => arc_drop (write_arc s)
  | Held c => p ← StreamRecvBuffer_drop c; mret p.2
  end.
Lemma arc_drop_last a h arc : h !! a = Some arc → ∃ closed h', arc_drop a h = Ok (closed, h') ∧ (is_Some closed ↔ strong arc = 1).
Proof.
  intros Ha. unfold arc_drop. rewrite Ha. destruct (N.eqb_spec (strong arc) 1) as [E|E].
  - eexists _, _. split; [reflexivity|]. by split; [|eauto].
  - eexists _, _. split; [reflexivity|]. split; [by intros [? ?]|done].
Qed.
Lemma drop_handle_last a hd h arc : handle_arc hd = Some a → h !! a = Some arc →
  ∃ closed h', drop_handle hd h = Ok (closed, h') ∧ (is_Some closed ↔ strong arc = 1).
Proof.
  intros Ha Harc. destruct hd as [s|s|s|c]; simpl in *; try (injection Ha as ->; by apply arc_drop_last).
  unfold mbind, M_bind, StreamRecvBuffer_drop, mbind, M_bind, on. rewrite Ha, Harc.
  destruct (read_complete (instance arc) (ck_buf c)) as [x n] eqn:E. simpl.
  destruct (arc_drop_last a (<[a := mkArcInner (strong arc) x]> h) (mkArcInner (strong arc) x)) as (closed & h' & -> & Hc);
    [apply lookup_insert_eq|]. simpl. by exists closed, h'.
Qed.
End worlds.

(** ** Properties *)

(** C13: A stream stays open as long as anybody has it.  Whatever its handles
    (the stream, its halves, the chunks that were read) are used for (reads and writes, in slices and chunks, and
    their ends and aborts), however
    it is split and in whatever order they are dropped: every use of a handle
    finds the stream and answers, without a panic; dropping a handle closes
    the stream exactly if it is the last one, and nothing is left of it then;
    and no other stream is touched.  A poll for the start finds the stream
    too, and answers unless the start has ended with a status that the crate
    does not name, or was aborted without the connection having an error. *)
Theorem handles_alive `{RangeSetsOk} a others w0 w : new_stream a others w0 → rtc (world_step a) w0 w →
  delete a (wd_heap w) = others ∧ (wd_handles w = [] ↔ wd_heap w = others) ∧
  ∀ hd, hd ∈ wd_handles w →
    (∀ u m, read_use hd u = Some m → ∃ r h', m (wd_heap w) = Ok (r, h')) ∧
    (∀ u m, write_use hd u = Some m → ∃ q h', m (wd_heap w) = Ok (q, h')) ∧
    (∀ s cx start, hd = Whole s →
       (∃ p h', Stream_poll_start s cx start (wd_heap w) = Ok (p, h')) ↔
       ∃ arc, wd_heap w !! a = Some arc ∧ start_panics (instance arc) = false) ∧
    ∃ closed h', drop_handle hd (wd_heap w) = Ok (closed, h') ∧ (is_Some closed ↔ wd_handles w = [hd]).
Proof.
  intros Hn Hr. pose proof (world_inv_run a others w0 w Hn Hr) as Hi. destruct w as [h hds l]. pose proof Hi as [Hh Ho Ha].
  simpl in *. split; [done|]. destruct (h !! a) as [arc|] eqn:Harc.
  - destruct Ha as (Hs & Hpos & Hok). split.
    { split; [intros ->; by rewrite blen_nil in Hs; lia|]. intros ->. rewrite <-Ho in Harc. by rewrite lookup_delete_eq in Harc. }
    intros hd Hin. pose proof (wi_handle _ _ _ _ Hi Hin) as Hhd. split_and!.
    + intros u m Hu. rewrite (read_use_at hd u m a h Hu Hhd). apply (at_arc_total _ _ _ _ arc Harc). by eapply read_inner_total.
    + intros u m Hu. rewrite (write_use_at hd u m a h Hu Hhd). apply (at_arc_total _ _ _ _ arc Harc). by eapply write_inner_total.
    + intros s cx start ->. injection Hhd as Hs'. unfold Stream_poll_start, on. rewrite Hs', Harc.
      pose proof (poll_start_answers (instance arc) cx start) as Hps. split.
      * intros (p & h' & Hp). exists arc. split; [done|]. apply Hps.
        destruct (poll_start (instance arc) cx start) as [[q x]| | |]; try done. eauto.
      * intros (arc' & [= <-] & Hf). apply Hps in Hf as (p & x & ->). simpl. eauto.
    + destruct (drop_handle_last a hd h arc Hhd Harc) as (closed & h' & Hd & Hc). exists closed, h'. split; [done|].
      rewrite Hc, Hs. split; [|intros ->; by rewrite blen_cons, blen_nil].
      destruct hds as [|hd' [|? hds]]; rewrite ?blen_cons, ?blen_nil; intros ?; [lia| |lia]. by apply list_elem_of_singleton in Hin as ->.
  - subst hds. split; [split; [|done]; intros _; by rewrite <-Ho, delete_id|]. intros hd Hin. by apply not_elem_of_nil in Hin.
Qed.

(** C12: The two halves of a stream do not get in each other's way.  What a
    reader and a writer of one stream are answered is the same whether the
    other goes first or not at all, panics included, and whichever goes first
    the streams are the same afterwards, up to the order in which the two
    wait for the start. *)
Theorem halves_independent `{RangeSets} a hd1 hd2 u v m m' h :
  read_use hd1 u = Some m → write_use hd2 v = Some m' → handle_arc hd1 = Some a → handle_arc hd2 = Some a →
  (∀ q h2, m' h = Ok (q, h2) → rmap fst (m h2) = rmap fst (m h)) ∧
  (∀ r h1, m h = Ok (r, h1) → rmap fst (m' h1) = rmap fst (m' h)) ∧
  (∀ r h1 q h2, m h = Ok (r, h1) → m' h = Ok (q, h2) →
     ∃ h12 h21, m' h1 = Ok (q, h12) ∧ m h2 = Ok (r, h21) ∧ same_streams h12 h21).
Proof.
  intros Hu Hv H1 H2. pose proof (λ h, read_use_at hd1 u m a h Hu H1) as Hm.
  pose proof (λ h, write_use_at hd2 v m' a h Hv H2) as Hm'.
  split_and!; setoid_rewrite Hm; setoid_rewrite Hm'; unfold rmap.
  - intros q h2 (arc & y & Harc & Hw & ->)%at_arc_Ok. unfold at_arc. rewrite lookup_insert_eq, Harc. cbn [instance].
    rewrite (read_after_write a u v _ q y Hw). by destruct (read_inner a u (instance arc)) as [[]| | |].
  - intros r h1 (arc & y & Harc & Hr & ->)%at_arc_Ok. unfold at_arc. rewrite lookup_insert_eq, Harc. cbn [instance].
    rewrite (write_after_read a u v _ r y Hr). by destruct (write_inner v (instance arc)) as [[]| | |].
  - intros r h1 q h2 (arc & x1 & Harc & Hr & ->)%at_arc_Ok (arc' & x2 & Harc' & Hw & ->)%at_arc_Ok.
    replace arc' with arc in * by congruence. unfold at_arc. rewrite !lookup_insert_eq. cbn [instance strong].
    rewrite (write_after_read a u v _ r x1 Hr), (read_after_write a u v _ q x2 Hw), Hr, Hw. cbn [rbind].
    eexists _, _. split; [reflexivity|]. split; [reflexivity|]. rewrite !insert_insert_eq.
    apply same_streams_insert; [|reflexivity]. split; [simpl; lia|]. simpl.
    apply grafts_commute; [by eapply read_inner_frame|by eapply write_inner_frame].
Qed.

(** C11: Readers and writers of one stream, with msquic between their turns.
    Whatever the order of reads, writes, aborts, events, splits and drops: what
    has been read is a prefix of what was received, and a read answers with the
    bytes that come next, with nothing only at the end or after reading was cut
    off here (aborted, or the shutdown of the stream complete before the peer
    ended its direction, without an error and with the connection up), with an
    error only if one is recorded or the stream cannot be read, and waits only
    if nothing is left; as long as the shutdown of the stream is not complete,
    no more is acknowledged than was read, and all that was received once the
    queue is empty and no chunk is held; and what is handed to msquic is what
    the writers were told is written, nothing after the end. *)
Theorem shared_stream_in_order `{RangeSetsOk} a others w0 w arc :
  new_stream a others w0 → rtc (world_step a) w0 w → wd_heap w !! a = Some arc →
  let x := instance arc in let l := wd_log w in
  (∃ rest, lg_received l = lg_read l ++ rest ∧
   ∀ hd cx room m, hd ∈ wd_handles w → read_use hd (ReadInto cx room) = Some m → (0 < room)%nat →
   ∃ p ns h', m (wd_heap w) = Ok (AnswerRead p ns, h') ∧
     match p with
     | Ready (inl []) => rest = [] ∧ lg_fin l = true ∨ lg_cut l = true
     | Ready (inl out) => out = take room rest
     | Ready (inr _) => x_recv_state x = RClosed ∨ broken x
     | Pending => rest = [] ∧ lg_fin l = false
     end) ∧
  (x_state x ≠ SShutdownComplete → lg_acked l ≤ blen (lg_read l) ∧
   (x_recv_buffers x = [] → held (wd_handles w) = [] → lg_acked l = blen (lg_received l))) ∧
  lg_handed l = lg_accepted l ∧
  ∃ sent last, lg_handed l = sent ++ option_list last ∧ Forall (λ p, p.2 = false) sent.
Proof.
  intros Hn Hr Harc. pose proof (world_inv_run a others w0 w Hn Hr) as Hi. destruct w as [h hds l]. cbn [wd_heap wd_handles wd_log] in *.
  destruct (wi_lookup _ _ _ _ _ _ Hi Harc) as (_ & _ & Hl & Ha & _ & Hsame & sent & last & Hsent & Hfin & _).
  cbn zeta. split_and!; [|exact (acc_exact _ Ha)|by symmetry|by exists sent, last].
  destruct (log_answers _ 0 1 Hl) as (rest & Hrest & _); [lia|]. exists rest. split; [exact Hrest|].
  intros hd cx room m Hin Hu Hroom. pose proof (wi_handle _ _ _ _ Hi Hin) as Hhd.
  destruct (log_answers _ cx room Hl Hroom) as (rest' & Hrest' & p & x' & ns & Hp & Hans).
  simpl in Hrest, Hrest'. rewrite Hrest in Hrest'. apply app_inv_head in Hrest' as <-.
  rewrite (read_use_at hd _ m a h Hu Hhd). unfold at_arc. rewrite Harc. cbn [read_inner]. simpl in Hp. rewrite Hp. cbn [rbind].
  eexists p, ns, _. split; [reflexivity|]. destruct p as [|[[]|]]; [|done..]. by destruct Hans as (? & ? & _).
Qed.

(** ** Examples *)

(** A stream of the peer: two bytes arrive, it is split, the reader takes one
    byte and the writer sends one. *)
Module OneStream.
Definition whole : Handle := Whole (mkStream 0).
Definition reader : Handle := ReadHalf (mkReadStream 0).
Definition writer : Handle := WriteHalf (mkWriteStream 0).
Definition arrived : StreamInner := after (stream_from_raw Bidirectional) (EvReceive 0 2 [[u8 1; u8 2]] true).
Definition heap (n : N) (x : StreamInner) : Heap := {[ 0%nat := mkArcInner n x ]}.
Definition reading : M ReadAnswer := r ← ReadStream_poll_read (mkReadStream 0) 7 1; mret (AnswerRead r.1 r.2).
Definition writing : M WriteAnswer :=
  r ← WriteStream_poll_write (mkWriteStream 0) 8 [u8 9] true StatusOk; mret (AnswerWritten r.1 r.2).
Definition start : World := mkWorld (heap 1 (stream_from_raw Bidirectional)) [whole] no_log.
Definition received : Log := mkLog [u8 1; u8 2] [] true 0 [] [] [] false.
Definition heap_read : Heap := match reading (heap 2 arrived) with Ok (_, h) => h | _ => ∅ end.
Definition heap_written : Heap := match writing heap_read with Ok (_, h) => h | _ => ∅ end.
Definition heap_written_first : Heap := match writing (heap 2 arrived) with Ok (_, h) => h | _ => ∅ end.
Definition log_after : Log :=
  mkLog [u8 1; u8 2] [u8 1] true 0 [([u8 9], true)] [([u8 9], true)] [mkWriteBuffer [u8 9] [] [[u8 9]]] false.
Definition used : World := mkWorld heap_written [reader; writer] log_after.

Lemma started : new_stream 0 ∅ start.
Proof. exists Bidirectional, (heap 1 (stream_from_raw Bidirectional)). split; [right; vm_compute; reflexivity|reflexivity]. Qed.
Lemma arrival : world_step 0 start (mkWorld (heap 1 arrived) [whole] received).
Proof.
  refine (world_event 0 _ [whole] no_log (mkArcInner 1 (stream_from_raw Bidirectional)) (EvReceive 0 2 [[u8 1; u8 2]] true) received _ _ _).
  - reflexivity.
  - apply (step_receive (stream_from_raw Bidirectional) [] [] [] 0 false 2 [[u8 1; u8 2]] true); [reflexivity|vm_compute; reflexivity..].
  - by apply step_event.
Qed.
Lemma splitting : world_step 0 (mkWorld (heap 1 arrived) [whole] received) (mkWorld (heap 2 arrived) [reader; writer] received).
Proof.
  refine (world_split 0 _ [] (mkStream 0) [] received (Some (mkReadStream 0), Some (mkWriteStream 0)) _ _).
  vm_compute. reflexivity.
Qed.
Lemma one_read : world_step 0 (mkWorld (heap 2 arrived) [reader; writer] received)
  (mkWorld heap_read [reader; writer] (mkLog [u8 1; u8 2] [u8 1] true 0 [] [] [] false)).
Proof.
  refine (world_read 0 _ [reader; writer] received reader (ReadInto 7 1) reading (AnswerRead (Ready (inl [u8 1])) []) _ _ _ _);
    [left|reflexivity|vm_compute; reflexivity].
Qed.
Lemma one_write : world_step 0 (mkWorld heap_read [reader; writer] (mkLog [u8 1; u8 2] [u8 1] true 0 [] [] [] false)) used.
Proof.
  refine (world_write 0 _ [reader; writer] (mkLog [u8 1; u8 2] [u8 1] true 0 [] [] [] false) writer (Write 8 [u8 9] true StatusOk) writing
    (AnswerWritten (Ready (inl 1%nat)) (Some ([[u8 9]], true, mkWriteBuffer [u8 9] [] [[u8 9]]))) _ _ _ _);
    [right; left|reflexivity|vm_compute; reflexivity].
Qed.
Lemma used_run : rtc (world_step 0) start used.
Proof. eapply rtc_l; [exact arrival|]. eapply rtc_l; [exact splitting|]. eapply rtc_l; [exact one_read|]. by apply rtc_once, one_write. Qed.
End OneStream.

Lemma handles_alive_witness : ∃ closed h', drop_handle OneStream.reader (wd_heap OneStream.used) = Ok (closed, h') ∧
  (is_Some closed ↔ [OneStream.reader; OneStream.writer] = [OneStream.reader]).
Proof.
  destruct (handles_alive 0 ∅ OneStream.start OneStream.used OneStream.started OneStream.used_run) as (_ & _ & Hall).
  destruct (Hall OneStream.reader) as (_ & _ & _ & Hd); [left|exact Hd].
Defined.
Lemma halves_independent_witness : ∃ h12 h21,
  OneStream.writing OneStream.heap_read = Ok (AnswerWritten (Ready (inl 1%nat)) (Some ([[u8 9]], true, mkWriteBuffer [u8 9] [] [[u8 9]])), h12) ∧
  OneStream.reading OneStream.heap_written_first = Ok (AnswerRead (Ready (inl [u8 1])) [], h21) ∧ same_streams h12 h21.
Proof.
  destruct (halves_independent 0 OneStream.reader OneStream.writer (ReadInto 7 1) (Write 8 [u8 9] true StatusOk)
    OneStream.reading OneStream.writing (OneStream.heap 2 OneStream.arrived) eq_refl eq_refl eq_refl eq_refl) as (_ & _ & Hboth).
  apply (Hboth _ OneStream.heap_read _ OneStream.heap_written_first); vm_compute; reflexivity.
Defined.
Lemma shared_stream_in_order_witness : ∃ rest, [u8 1; u8 2] = [u8 1] ++ rest ∧
  ∃ p ns h', OneStream.reading OneStream.heap_written = Ok (AnswerRead p ns, h') ∧
    match p with Ready (inl ((_ :: _) as out)) => out = take 1 rest | _ => True end.
Proof.
  destruct (shared_stream_in_order 0 ∅ OneStream.start OneStream.used
    (mkArcInner 2 (match OneStream.heap_written !! 0%nat with Some arc => instance arc | None => OneStream.arrived end))
    OneStream.started OneStream.used_run) as ((rest & Hrest & Hread) & _); [vm_compute; reflexivity|].
  exists rest. split; [exact Hrest|].
  destruct (Hread OneStream.reader 7%nat 1%nat OneStream.reading) as (p & ns & h' & Hp & Hans); [left|reflexivity|lia|].
  exists p, ns, h'. split; [exact Hp|]. destruct p as [|[[|? ?]|]]; try exact I. exact Hans.
Defined.
