(* ===== verification/MessageRuns.v ===== *)
(** * Messages over QUIC streams, end to end (msquic/mod.rs over msquic_async/stream.rs)

    [Frame] describes the reader of messages over a stream of portions; here
    the same loop runs as a task that polls a stream of [QuicStream], between
    the events that msquic delivers, and gives what [Frame] says. *)
From S2P Require Import Prelude Serialize RangeSet RecvBuffer QuicStream StreamRuns Frame.
Open Scope N_scope.

(** ** The reader as a task
    Where the task of [read_message_from_stream] waits: for the header, for
    the message, for the end of the stream. *)
Inductive Prog : Type :=
  | PHeader (header : bytes)
  | PBody (header decoded : bytes)
  | PDrain (decoded : bytes)
  | PDone (message : bytes)
  | PFailed.
(** The room of the buffer it reads into. *)
Definition prog_room (p : Prog) : N :=
  match p with
  | PHeader header => 4 - blen header
  | PBody header decoded => from_be_bytes header - blen decoded
  | _ => 1024
  end.
(** What it does with the bytes of a read. *)
Definition prog_read (p : Prog) (out : bytes) : Prog :=
  match p with
  | PHeader header =>
      let header := header ++ out in
      if blen header <? 4 then PHeader header
      else if from_be_bytes header =? 0 then PDone [] else PBody header []
  | PBody header decoded =>
      let decoded := decoded ++ out in
      if blen decoded =? from_be_bytes header then PDrain decoded else PBody header decoded
  | PDrain decoded => match out with [] => PDone decoded | _ => PDrain decoded end
  | p => p
  end.
Definition waiting (p : Prog) : bool := match p with PHeader _ | PBody _ _ | PDrain _ => true | _ => false end.

Section runs.
Context `{RSO : RangeSetsOk}.
(** The polls of the task, and everything else that happens to the stream. *)
Inductive msg_step : Reader * Prog → Reader * Prog → Prop :=
  | step_poll x rcv rd fin held acked cut p cx out x' ns :
      waiting p = true → poll_read x cx (N.to_nat (prog_room p)) = Ok (Ready (inl out), x', ns) →
      msg_step (mkReader x rcv rd fin held acked cut, p)
        (mkReader x' rcv (rd ++ out) fin held (acked + total ns) cut, prog_read p out)
  | step_fail r p cx e x' ns :
      waiting p = true → poll_read (rd_stream r) cx (N.to_nat (prog_room p)) = Ok (Ready (inr e), x', ns) →
      msg_step (r, p) (r, PFailed)
  | step_event r r' p :
      reader_step r r' → rd_read r' = rd_read r → msg_step (r, p) (r', p).

(** What the task has read, and what is left to it. *)
Definition prog_inv (r : Reader) (p : Prog) : Prop :=
  match p with
  | PHeader header => rd_read r = header ∧ blen header < 4
  | PBody header decoded => rd_read r = header ++ decoded ∧ blen header = 4 ∧ blen decoded < from_be_bytes header
  | PDrain decoded => ∃ header drained, rd_read r = header ++ decoded ++ drained ∧ blen header = 4 ∧
      blen decoded = from_be_bytes header ∧ decoded ≠ []
  | PDone message => ∃ header drained, rd_read r = header ++ message ++ drained ∧ blen header = 4 ∧
      blen message = from_be_bytes header ∧ (message = [] ∨ rd_cut r = true ∨ rd_fin r = true ∧ rd_received r = rd_read r)
  | PFailed => True
  end.
Lemma prog_room_pos r p : waiting p = true → prog_inv r p → (0 < N.to_nat (prog_room p))%nat.
Proof. destruct p; simpl; try done; intros; try lia. Qed.
(** The bytes received only grow, and not after the FIN. *)
Lemma received_grows r r' : reader_step r r' →
  ∃ more, rd_received r' = rd_received r ++ more ∧ (rd_fin r = true → more = [] ∧ rd_fin r' = true) ∧
    (rd_cut r = true → rd_cut r' = true).
Proof.
  destruct 1; simpl; try (exists []; rewrite app_nil_r; split_and!; [done|done|]; by intros ->).
  exists (concat buffers). by split_and!.
Qed.
Lemma prog_inv_event r r' p : reader_step r r' → rd_read r' = rd_read r → prog_inv r p → prog_inv r' p.
Proof.
  intros Hstep Hrd. destruct p as [h|h d|d|m|]; simpl; rewrite ?Hrd; try done.
  intros (h & dr & Hr & Hh & Hb & Hm). exists h, dr. repeat split; try done.
  destruct (received_grows r r' Hstep) as (more & Hg & Hn & Hcut).
  destruct Hm as [?|[Hc|[Hf Hrc]]]; [by left|by right; left; apply Hcut|right; right].
  destruct (Hn Hf) as [-> ->]. by rewrite Hg, app_nil_r.
Qed.
Lemma prog_inv_read x rcv rd fin held acked cut x' acked' p out :
  waiting p = true → prog_inv (mkReader x rcv rd fin held acked cut) p → blen out ≤ prog_room p →
  (out = [] → fin = true ∧ rcv = rd ∨ cut = true) →
  prog_inv (mkReader x' rcv (rd ++ out) fin held acked' cut) (prog_read p out).
Proof.
  intros Hw Hi Hl He. destruct p as [h|h d|d|m|]; simpl in *; try done.
  - destruct Hi as [-> Hh]. destruct (N.ltb_spec (blen (h ++ out)) 4) as [Hlt|Hge]; [done|].
    rewrite blen_app in Hge. assert (blen (h ++ out) = 4) as H4 by (rewrite blen_app; lia).
    destruct (N.eqb_spec (from_be_bytes (h ++ out)) 0) as [H0|H0]; simpl.
    + exists (h ++ out), []. rewrite !app_nil_r. repeat split; [done|done|by left].
    + rewrite app_nil_r. repeat split; [done|]. rewrite blen_nil. lia.
  - destruct Hi as (-> & Hh & Hd). destruct (N.eqb_spec (blen (d ++ out)) (from_be_bytes h)) as [Heq|Hne]; simpl.
    + exists h, []. rewrite app_nil_r, <-app_assoc. repeat split; try done.
      intros Hnil. rewrite Hnil, blen_nil in Heq. lia.
    + rewrite <-app_assoc. repeat split; [done|]. rewrite blen_app in *. lia.
  - destruct Hi as (h & dr & -> & Hh & Hd & Hne). destruct out as [|b out].
    + exists h, dr. rewrite app_nil_r. repeat split; [done..|]. simpl. destruct (He eq_refl) as [[-> ->]| ->]; auto.
    + exists h, (dr ++ b :: out). by rewrite <-!app_assoc.
Qed.
Definition msg_inv (x : StreamInner) (s : Reader * Prog) : Prop :=
  rtc reader_step (fresh_reader x) s.1 ∧ prog_inv s.1 s.2.
Lemma poll_in_order x r p cx out x' ns : opened x → msg_inv x (r, p) → waiting p = true →
  poll_read (rd_stream r) cx (N.to_nat (prog_room p)) = Ok (Ready (inl out), x', ns) →
  blen out ≤ prog_room p ∧ (out = [] → rd_fin r = true ∧ rd_received r = rd_read r ∨ rd_cut r = true).
Proof.
  intros Hx [Hr Hi] Hw Hp. simpl in *.
  destruct (reader_answers x r cx (N.to_nat (prog_room p)) Hx Hr (prog_room_pos r p Hw Hi))
    as (rest & Hrc & q & y & ms & Hq & Hans).
  rewrite Hp in Hq. injection Hq as <- <- <-. destruct out as [|b out].
  - rewrite blen_nil. split; [lia|]. intros _. destruct Hans as [[-> Hf]|?]; [left|by right]. by rewrite Hrc, app_nil_r.
  - split; [|done]. rewrite Hans, blen_take. lia.
Qed.
Lemma msg_inv_step x s s' : opened x → msg_inv x s → msg_step s s' → msg_inv x s'.
Proof.
  intros Hx Hi Hstep. destruct Hstep as [y rcv rd fin held acked cut p cx out y' ns Hw Hp|r p cx e y' ns Hw Hp|r r' p Hs Hrd].
  - destruct (poll_in_order _ _ _ _ _ _ _ Hx Hi Hw Hp) as [Hl He]. destruct Hi as [Hr Hi].
    split; simpl in *; [eapply rtc_r; [exact Hr|by eapply step_read]|]. by eapply prog_inv_read.
  - by split; [apply Hi|].
  - destruct Hi as [Hr Hi]. split; simpl in *; [by eapply rtc_r|by eapply prog_inv_event].
Qed.
Lemma msg_inv_run x s s' : opened x → msg_inv x s → rtc msg_step s s' → msg_inv x s'.
Proof. intros Hx Hi Hr. induction Hr; eauto using msg_inv_step. Qed.
Lemma msg_inv_start x : msg_inv x (fresh_reader x, PHeader []).
Proof. split; [apply rtc_refl|]. by split. Qed.

(** What was received begins with what was read. *)
Lemma read_prefix x r : opened x → rtc reader_step (fresh_reader x) r → ∃ rest, rd_received r = rd_read r ++ rest.
Proof.
  intros Hx Hr. destruct (reader_answers x r 0 1 Hx Hr) as (rest & Hrc & _); [lia|]. by exists rest.
Qed.
Lemma done_is_frame x r m : opened x → msg_inv x (r, PDone m) → frame_result (rd_received r) Finished = Some (Ok m).
Proof.
  intros Hx [Hr Hi]. destruct (read_prefix x r Hx Hr) as [rest Hrc]. simpl in Hi.
  destruct Hi as (h & dr & Hrd & Hh & Hm & _). rewrite Hrc, Hrd. unfold frame_result.
  rewrite <-!app_assoc, blen_app. destruct (N.ltb_spec (blen h + blen (m ++ dr ++ rest)) 4) as [?|_]; [lia|].
  assert (length h = 4%nat) as H4 by (unfold blen in Hh; lia).
  rewrite take_app_length', drop_app_length', <-Hm by done.
  destruct (N.eqb_spec (blen m) 0) as [H0|_]; [by apply blen_0 in H0 as ->|].
  destruct (N.leb_spec (blen m) (blen (m ++ dr ++ rest))) as [_|Hlt]; [|rewrite blen_app in Hlt; lia].
  rewrite take_app_length'; [done|]. unfold blen. lia.
Qed.

(** A successful read leaves a sound stream sound. *)
Definition sound (x : StreamInner) : Prop := ¬ broken x ∧ x_recv_state x ≠ RClosed.
Lemma poll_read_sound x cx room out x' ns : Forall rb_wf (x_recv_buffers x) → sound x →
  poll_read x cx room = Ok (Ready (inl out), x', ns) → sound x'.
Proof.
  intros Hwf [Hb Hc] Hp. destruct (decide (x_recv_state x = RStartComplete)) as [E|E].
  - destruct (poll_read_spec x cx room E Hwf) as (x1 & used & Hq & [_ _ _ Hst (_ & _ & _ & _ & He1 & He2)] & _).
    rewrite Hp in Hq. destruct (drop_buffers_shape x1 used) as (m & c & ns' & Hd). rewrite Hd in Hq.
    injection Hq as _ -> _. unfold sound, broken. simpl. rewrite He1, He2. split; [done|].
    destruct (bool_decide _); destruct Hst as [H1 H2]; [by rewrite H1|rewrite H2; by destruct (last_fin _ _)].
  - destruct (poll_read_closed x cx room _ x' ns E Hp) as [_ Hst].
    destruct (x_recv_state x) eqn:E'; try done; [by destruct Hst|destruct Hst as [_ ->]|destruct Hst as [-> _]];
      split; by rewrite ?E'.
Qed.
(** A task that has read a whole message does not wait for more of it. *)
Lemma all_read_drains r p data trailing : fits 32 (blen data) → rd_read r = frame data ++ trailing →
  prog_inv r p → match p with PHeader _ | PBody _ _ => False | _ => True end.
Proof.
  intros Hfit Hrd Hi. destruct p as [h|h d|d|m|]; try done; simpl in Hi; rewrite Hrd in Hi.
  - destruct Hi as [<- Hh]. unfold frame in Hh. rewrite !blen_app, blen_to_be_bytes in Hh. lia.
  - destruct Hi as (Heq & Hh & Hd). unfold frame in Heq. rewrite <-app_assoc in Heq.
    apply app_inj_1 in Heq as [<- <-]; [|specialize (blen_to_be_bytes 4 (wrap 32 (blen data))); unfold blen in *; lia].
    assert (wrap 32 (blen data) = blen data) as Hw by (unfold wrap; by rewrite N.mod_small).
    rewrite Hw, from_to_be_bytes, blen_app in Hd by done. lia.
Qed.
(** With everything received, the task gets to the end by polls alone. *)
Lemma reads_to_the_end n x r p data trailing (cx : nat) : opened x → msg_inv x (r, p) → waiting p = true →
  fits 32 (blen data) → rd_received r = frame data ++ trailing → rd_fin r = true → sound (rd_stream r) → rd_cut r = false →
  (length (rd_received r) - length (rd_read r) < n)%nat →
  ∃ r' m, rtc msg_step (r, p) (r', PDone m) ∧ rd_received r' = rd_received r.
Proof.
  revert r p. induction n as [|n IH]; intros r p Hx Hi Hw Hfit Hrc Hfin Hs Hcut Hn; [lia|].
  pose proof Hi as [Hr Hpi]. simpl in Hr, Hpi.
  destruct (reader_answers x r cx (N.to_nat (prog_room p)) Hx Hr (prog_room_pos r p Hw Hpi))
    as (rest & Hrest & q & y & ns & Hp & Hans).
  destruct q as [|[out|e]]; [by destruct Hans as (_ & ? & _); congruence| |by destruct Hs, Hans].
  destruct r as [z rcv rd fin held acked cut]. cbn [rd_stream rd_received rd_read rd_fin rd_cut] in *.
  assert (msg_step (mkReader z rcv rd fin held acked cut, p)
    (mkReader y rcv (rd ++ out) fin held (acked + total ns) cut, prog_read p out)) as Hstep by by eapply step_poll.
  pose proof (msg_inv_step x _ _ Hx Hi Hstep) as Hi'.
  assert (sound y) as Hs'.
  { eapply poll_read_sound; [|exact Hs|exact Hp]. by destruct (reader_inv_run x _ Hx Hr) as [[? _] _]. }
  destruct (prog_read p out) as [h|h d|d|m|] eqn:Epr.
  4: { exists (mkReader y rcv (rd ++ out) fin held (acked + total ns) cut), m. split; [by eapply rtc_l, rtc_refl|done]. }
  4: { by destruct p; simpl in Epr; repeat case_match. }
  all: destruct (decide (out = [])) as [->|Hout].
  1,3,5: destruct Hans as [[-> _]|?]; [|congruence]; rewrite app_nil_r in Hrest; rewrite Hrest in Hrc;
    pose proof (all_read_drains (mkReader z rcv rd fin held acked cut) p data trailing Hfit Hrc Hpi) as Hd; by destruct p.
  all: assert (length out ≤ length rest)%nat as Hle
    by (destruct out; [done|]; rewrite Hans, length_take; lia).
  all: destruct (IH (mkReader y rcv (rd ++ out) fin held (acked + total ns) cut) _ Hx Hi') as (r' & m & Hrun & Hrc');
    try done; [cbn [rd_stream rd_received rd_read rd_fin rd_cut]; rewrite Hrest in Hn; rewrite Hrest;
      rewrite !length_app in Hn; rewrite !length_app; destruct out; [done|]; cbn [length] in *; lia|];
    exists r', m; split; [by eapply rtc_l|done].
Qed.

(** However the task of [read_message_from_stream] and the events of msquic
    interleave: when it returns a message, it is the one that [Frame] says the
    bytes received encode; and from every state in which all of a message has
    been received, and the FIN, on a stream without an error that was not cut
    off, the task gets to the end by its polls alone. *)
Lemma message_arrives x r p data trailing : opened x → fits 32 (blen data) →
  msg_inv x (r, p) → rd_received r = frame data ++ trailing →
  (∀ m, p = PDone m → m = data) ∧
  (rd_fin r = true → sound (rd_stream r) → rd_cut r = false → p ≠ PFailed → ∃ r', rtc msg_step (r, p) (r', PDone data)).
Proof.
  intros Hx Hfit Hi Hrc.
  assert (∀ r' m, msg_inv x (r', PDone m) → rd_received r' = frame data ++ trailing → m = data) as Hdone.
  { intros r' m Hi' Hrc'. apply done_is_frame in Hi'; [|done]. rewrite Hrc', frame_result_frame in Hi' by done. congruence. }
  split; [intros m ->; by eapply Hdone|]. intros Hfin Hs Hcut Hp.
  destruct (waiting p) eqn:Hw.
  - destruct (reads_to_the_end _ x r p data trailing 0 Hx Hi Hw Hfit Hrc Hfin Hs Hcut (Nat.lt_succ_diag_r _))
      as (r' & m & Hrun' & Hrc'). exists r'.
    rewrite (Hdone r' m) in Hrun'; [done|by eapply msg_inv_run|congruence].
  - destruct p; try done. exists r. rewrite (Hdone r message); [apply rtc_refl|done..].
Qed.
End runs.
