(* ===== verification/Delivery.v ===== *)
(** * A message from sender to receiver (msquic/mod.rs over msquic_async/stream.rs)

    The task of [MsQuicNetConnection::send] over a stream of [QuicStream], and
    its composition with the receiving task of [MessageRuns]: msquic carries
    the bytes from one to the other, in order. *)
From S2P Require Import Prelude Serialize RangeSet RecvBuffer QuicStream StreamRuns StreamIo Frame MessageRuns.
Open Scope N_scope.
#[local] Arguments frame : simpl never.

Section delivery.
Context `{RSO : RangeSetsOk}.

(** ** The sender as a task
    Where the task of [send] waits: for the stream to start, in [write_all]
    with what is left to write, in [flush], in [close]. *)
Inductive SendProg : Type :=
  | SStarting (data : bytes)
  | SWriting (rest : bytes)
  | SFlushing
  | SClosing
  | SSent
  | SFailed.
(** The stream, what has been handed to msquic, and whether msquic has been
    told to end the stream gracefully. *)
Record Sender : Type := mkSender {
  sd_stream : StreamInner;
  sd_handed : bytes;
  sd_shutdown : bool;
  sd_prog : SendProg;
}.
Definition sending (p : SendProg) : bool := match p with SSent | SFailed => false | _ => true end.
(** After [?] on the answer of a step. *)
Definition continue {A E} (p : SendProg) (next : A → SendProg) (r : poll (A + E)) : SendProg :=
  match r with Pending => p | Ready (inl a) => next a | Ready (inr _) => SFailed end.
(** [AsyncWriteExt::write_all], as futures documents it: what is left of the
    buffer after a write; a write of no bytes is an error. *)
Definition write_all_next (rest : bytes) (n : nat) : SendProg :=
  match drop n rest with
  | [] => SFlushing
  | rest => if (n =? 0)%nat then SFailed else SWriting rest
  end.
(** One poll of the task; [answer] is what msquic answers if it is asked. *)
Definition send_poll (s : Sender) (cx : nat) (answer : Status) : res Sender :=
  let 'mkSender x handed shutdown p := s in
  match p with
  | SStarting data =>
      let* (r, x) := poll_start x cx answer in
      Ok (mkSender x handed shutdown (continue p (λ _, SWriting (frame data)) r))
  | SWriting rest =>
      let* (rx, sent) := futures_poll_write x cx rest answer in
      let '(r, x) := rx in
      Ok (mkSender x (handed ++ concat (fst <$> handed_portion sent)) shutdown (continue p (write_all_next rest) r))
  | SFlushing => Ok (mkSender x handed shutdown (continue p (λ _, SClosing) (futures_poll_flush x)))
  | SClosing =>
      let '(r, x') := futures_poll_close x cx answer in
      let asked := match x_send_state x with WStartComplete => status_is_ok answer | _ => false end in
      Ok (mkSender x' handed (shutdown || asked) (continue p (λ _, SSent) r))
  | SSent | SFailed => Ok s
  end.
Definition fresh_sender (data : bytes) : Sender := mkSender (stream_open Unidirectional) [] false (SStarting data).
(** Polls, timeouts, and the events of msquic. *)
Inductive send_step : Sender → Sender → Prop :=
  | step_send_poll s cx answer s' :
      sending (sd_prog s) = true → send_poll s cx answer = Ok s' → send_step s s'
  | step_send_timeout x handed shutdown p :
      sending p = true → send_step (mkSender x handed shutdown p) (mkSender x handed shutdown SFailed)
  | step_send_event x handed shutdown p ev :
      send_step (mkSender x handed shutdown p) (mkSender (after x ev) handed shutdown p).

(** ** What is handed over
    [handed] is what the task has not still to write. *)
Definition send_inv (data : bytes) (s : Sender) : Prop :=
  pool_clean (sd_stream s) ∧
  match sd_prog s with
  | SStarting d => d = data ∧ sd_handed s = [] ∧ sd_shutdown s = false
  | SWriting rest => frame data = sd_handed s ++ rest ∧ sd_shutdown s = false
  | SFlushing | SClosing | SSent => sd_handed s = frame data
  | SFailed => ∃ rest, frame data = sd_handed s ++ rest ∧ (sd_shutdown s = true → rest = [])
  end.
Lemma pool_clean_event x ev : pool_clean x → pool_clean (after x ev).
Proof.
  intros Hp. unfold after, callback_handler_impl, pool_clean in *.
  destruct ev as [[] id []|? ? ? ?|w| |?|?|?|[] [] [] [] ? ?| |]; simpl; try done;
    try (by unfold handle_event_shutdown_complete; destruct (x_recv_buffers x)).
  apply Forall_app. split; [done|]. by repeat constructor.
Qed.
Lemma poll_start_pool x cx start r x' : pool_clean x → poll_start x cx start = Ok (r, x') → pool_clean x'.
Proof.
  intros Hp Hs. unfold poll_start in Hs.
  destruct (x_state x), (status_is_ok start), (x_start_status x) as [[]|], (x_conn_error x); try done;
    apply Ok_inj in Hs; by injection Hs as _ <-.
Qed.
Lemma close_pool x cx shutdown : pool_clean x → pool_clean (futures_poll_close x cx shutdown).2.
Proof.
  intros Hp. unfold futures_poll_close, poll_finish_write.
  by destruct (x_send_state x), (status_is_ok shutdown).
Qed.
(** A write takes all it is given, or nothing. *)
Lemma write_all_poll x cx rest answer : pool_clean x →
  ∃ r x' sent, futures_poll_write x cx rest answer = Ok (r, x', sent) ∧ pool_clean x' ∧
    concat (fst <$> handed_portion sent) = match r with Ready (inl _) => rest | _ => [] end ∧
    continue (SWriting rest) (write_all_next rest) r =
      match r with Pending => SWriting rest | Ready (inl _) => SFlushing | Ready (inr _) => SFailed end ∧
    (x_send_state x = WStartComplete → answer = StatusOk → x_send_state x' = WStartComplete ∧
       x_conn_error x' = x_conn_error x ∧ x_send_error_code x' = x_send_error_code x ∧ ∃ n, r = Ready (inl n)).
Proof.
  intros Hp. destruct (poll_write_op_spec x cx (WriteSlice rest) false answer Hp)
    as (r & x' & sent & Hw & Hn & Hs & Hp' & Hst). simpl in Hw. unfold futures_poll_write. rewrite Hw. cbn [rbind].
  eexists _, x', sent. split; [reflexivity|]. split; [done|]. rewrite <-Hs.
  split; [destruct r as [|[n|e]]; simpl; by rewrite ?app_nil_r|]. split.
  { destruct r as [|[n|e]]; simpl; try done. rewrite (Hn n eq_refl). simpl. unfold write_all_next. by rewrite drop_all. }
  intros E ->. unfold poll_write, poll_write_generic, written in Hw. rewrite E in Hw.
  assert (∃ w x1, (match last (x_write_pool x) with
    | Some w => (w, set_pool (removelast (x_write_pool x)) x) | None => (WriteBuffer_new, x) end) = (w, x1) ∧
    x_send_state x1 = WStartComplete ∧ x_conn_error x1 = x_conn_error x ∧
    x_send_error_code x1 = x_send_error_code x) as (w & x1 & Ew & E1 & E2 & E3).
  { destruct (last (x_write_pool x)); eexists _, _; (split; [reflexivity|by split]). }
  rewrite Ew in Hw. cbn [put_slice] in Hw. rewrite put_status_eq in Hw.
  destruct (get_buffers _) as [bs wb]. simpl in Hw. injection Hw as <- <- _. split_and!; [done..|]. eexists. reflexivity.
Qed.
Lemma send_inv_poll data s cx answer s' : send_inv data s → send_poll s cx answer = Ok s' → send_inv data s'.
Proof.
  destruct s as [x handed shutdown p]. intros [Hp Hi] Hs. simpl in Hp, Hi. destruct p as [d|rest| | | |]; cbn [send_poll] in Hs.
  - destruct (poll_start x cx answer) as [[r x']| | |] eqn:E; try done. apply Ok_inj in Hs as <-.
    split; [by eapply poll_start_pool|]. destruct Hi as (-> & -> & ->). destruct r as [|[]]; simpl; try done. by exists (frame data).
  - destruct (write_all_poll x cx rest answer Hp) as (r & x' & sent & Hw & Hp' & Hh & Hc & _).
    rewrite Hw in Hs. cbn [rbind] in Hs. rewrite Hh, Hc in Hs. apply Ok_inj in Hs as <-. split; [done|].
    destruct Hi as [Hf ->]. destruct r as [|[n|e]]; cbn [sd_prog sd_handed sd_shutdown]; rewrite ?app_nil_r; try done. by exists rest.
  - by apply Ok_inj in Hs as <-.
  - pose proof (close_pool x cx answer Hp) as Hp'. destruct (futures_poll_close x cx answer) as [r x'].
    apply Ok_inj in Hs as <-. split; [done|]. destruct r as [|[]]; simpl; try done. exists []. by rewrite app_nil_r, Hi.
  - by apply Ok_inj in Hs as <-.
  - by apply Ok_inj in Hs as <-.
Qed.
Lemma send_inv_fails data x handed shutdown p : send_inv data (mkSender x handed shutdown p) → sending p = true →
  send_inv data (mkSender x handed shutdown SFailed).
Proof.
  intros [Hp Hi] Hs. split; [done|]. simpl in *. destruct p as [d|rest| | | |]; try done.
  - destruct Hi as (-> & -> & ->). by exists (frame data).
  - destruct Hi as [Hf ->]. by exists rest.
  - exists []. by rewrite app_nil_r.
  - exists []. by rewrite app_nil_r.
Qed.
Lemma send_inv_step data s s' : send_inv data s → send_step s s' → send_inv data s'.
Proof.
  intros Hi Hs. destruct Hs as [s cx answer s' _ Hs|x handed shutdown p Hw|x handed shutdown p ev].
  - by eapply send_inv_poll.
  - by eapply send_inv_fails.
  - split; [apply pool_clean_event, Hi|apply Hi].
Qed.
Lemma send_inv_run data s s' : send_inv data s → rtc send_step s s' → send_inv data s'.
Proof. intros Hi Hr. induction Hr; eauto using send_inv_step. Qed.
Lemma send_inv_start data : send_inv data (fresh_sender data).
Proof. split; [constructor|done]. Qed.
Lemma handed_prefix data s : send_inv data s → ∃ rest, frame data = sd_handed s ++ rest ∧
  (sd_shutdown s = true → rest = []).
Proof.
  intros [_ Hi]. destruct (sd_prog s) as [d|rest| | | |].
  - destruct Hi as (-> & -> & ->). by exists (frame data).
  - destruct Hi as [Hf Hs]. exists rest. split; [done|]. by rewrite Hs.
  - exists []. by rewrite app_nil_r.
  - exists []. by rewrite app_nil_r.
  - exists []. by rewrite app_nil_r.
  - done.
Qed.
(** A task that may write ends, when msquic takes what it is given and the
    peer acknowledges the end of the stream. *)
Lemma sender_finishes data s rest : send_inv data s → sd_prog s = SWriting rest →
  x_send_state (sd_stream s) = WStartComplete →
  x_conn_error (sd_stream s) = None → x_send_error_code (sd_stream s) = None →
  ∃ s', rtc send_step s s' ∧ sd_prog s' = SSent ∧ sd_shutdown s' = true.
Proof.
  intros [Hp Hi] Epr E1 E2 E3. destruct s as [x handed shutdown p]. simpl in *. subst p. simpl in Hi.
  destruct (write_all_poll x 0 rest StatusOk Hp) as (r & x' & sent & Hw & _ & Hh & Hc & Hok).
  destruct (Hok E1 eq_refl) as (E1' & E2' & E3' & n & ->). rewrite E2 in E2'. rewrite E3 in E3'.
  set (y := after (push_write_waiter 0 (set_send_state WShutdown x')) (EvSendShutdownComplete true)).
  exists (mkSender y (handed ++ rest) true SSent). split; [|done].
  eapply rtc_l; [eapply (step_send_poll _ 0 StatusOk); [done|]; cbn [send_poll]; rewrite Hw; cbn [rbind]; by rewrite Hh, Hc|].
  eapply rtc_l; [by eapply (step_send_poll _ 0 StatusOk)|].
  eapply rtc_l; [eapply (step_send_poll _ 0 StatusOk); [done|]; cbn [send_poll]; unfold futures_poll_close, poll_finish_write;
    rewrite E1'; cbn [status_is_ok]; by rewrite orb_true_r|].
  eapply rtc_l; [apply (step_send_event _ _ _ _ (EvSendShutdownComplete true))|].
  eapply rtc_l; [|apply rtc_refl]. eapply (step_send_poll _ 0 StatusOk); [done|]. cbn [send_poll continue].
  unfold futures_poll_close, poll_finish_write, write_shutdown_result. simpl. by rewrite E2', E3'.
Qed.

(** ** The two tasks and msquic between them
    msquic carries what it was handed, in order, and the FIN after all of
    it, when it was told to end the stream. *)
Definition carried (s : Sender) (r : Reader) : Prop :=
  ∃ missing, sd_handed s = rd_received r ++ missing ∧
    (rd_fin r = true → missing = [] ∧ sd_shutdown s = true).
Inductive net_step : Sender * (Reader * Prog) → Sender * (Reader * Prog) → Prop :=
  | net_send s s' t : send_step s s' → net_step (s, t) (s', t)
  | net_recv s t t' : msg_step t t' → carried s t'.1 → net_step (s, t) (s, t').
Definition net_start (data : bytes) : Sender * (Reader * Prog) :=
  (fresh_sender data, (fresh_reader (stream_from_raw Unidirectional), PHeader [])).
Definition net_inv (data : bytes) (n : Sender * (Reader * Prog)) : Prop :=
  send_inv data n.1 ∧ msg_inv (stream_from_raw Unidirectional) n.2 ∧ carried n.1 n.2.1.

Lemma send_grows s s' : send_step s s' →
  (∃ more, sd_handed s' = sd_handed s ++ more) ∧ (sd_shutdown s = true → sd_shutdown s' = true).
Proof.
  intros Hs. destruct Hs as [s cx answer s' _ Hs|x handed shutdown p Hw|x handed shutdown p ev];
    try (split; [exists []; by rewrite app_nil_r|done]).
  destruct s as [x handed shutdown p]. destruct p as [d|rest| | | |]; cbn [send_poll] in Hs.
  - destruct (poll_start x cx answer) as [[r x']| | |]; try done. apply Ok_inj in Hs as <-.
    split; [exists []; by rewrite app_nil_r|done].
  - destruct (futures_poll_write x cx rest answer) as [[[r x'] sent]| | |]; try done.
    apply Ok_inj in Hs as <-. split; [by eexists|done].
  - apply Ok_inj in Hs as <-. split; [exists []; by rewrite app_nil_r|done].
  - destruct (futures_poll_close x cx answer) as [r x']. apply Ok_inj in Hs as <-.
    split; [exists []; by rewrite app_nil_r|]. simpl. by intros ->.
  - apply Ok_inj in Hs as <-. split; [exists []; by rewrite app_nil_r|done].
  - apply Ok_inj in Hs as <-. split; [exists []; by rewrite app_nil_r|done].
Qed.
(** Once told to end the stream, msquic is handed no more. *)
Lemma carried_send data s s' r : send_inv data s → send_step s s' → carried s r → carried s' r.
Proof.
  intros Hi Hs (missing & Hm & Hf). destruct (send_grows s s' Hs) as [[more Hmore] Hsh].
  exists (missing ++ more). split; [by rewrite Hmore, Hm, <-app_assoc|]. intros Hfin.
  destruct (Hf Hfin) as [-> Hs1]. split; [|by apply Hsh].
  destruct (handed_prefix data s Hi) as (rest & Hr & Hr0). rewrite (Hr0 Hs1), app_nil_r in Hr.
  destruct (handed_prefix data s' (send_inv_step _ _ _ Hi Hs)) as (rest' & Hr' & _).
  rewrite Hr', Hmore, <-app_assoc in Hr. rewrite <-(app_nil_r (sd_handed s)) in Hr at 2.
  apply app_inv_head, app_nil in Hr as [-> _]. done.
Qed.
Lemma stream_raw_opened : opened (stream_from_raw Unidirectional).
Proof. exists Unidirectional. by left. Qed.
Lemma net_inv_run data n : rtc net_step (net_start data) n → net_inv data n.
Proof.
  intros Hr. assert (net_inv data (net_start data)) as Hi.
  { split; [apply send_inv_start|]. split; [apply msg_inv_start|]. by exists []. }
  induction Hr as [n|n n1 n2 Hs Hr IH]; [done|]. apply IH. clear IH Hr.
  destruct Hi as (Hi & Hm & Hc). destruct Hs as [s s' t Hs|s t t' Hs Hc']; simpl in *.
  - split; [by eapply send_inv_step|]. split; [done|by eapply carried_send].
  - split; [done|]. split; [|done]. by eapply msg_inv_step; [apply stream_raw_opened| |].
Qed.
(** What a reader makes of the bytes received, it makes of more. *)
Lemma frame_result_more content more r : frame_result content Finished = Some r →
  frame_result (content ++ more) Finished = Some r.
Proof.
  unfold frame_result. rewrite blen_app. destruct (N.ltb_spec (blen content) 4) as [?|H4]; [done|].
  destruct (N.ltb_spec (blen content + blen more) 4) as [?|_]; [lia|].
  assert (4 ≤ length content)%nat as Hl by (unfold blen in H4; lia).
  rewrite take_app_le, drop_app_le by done. destruct (_ =? 0); [done|].
  destruct (N.leb_spec (from_be_bytes (take 4 content)) (blen (drop 4 content))) as [Hle|?]; [|done].
  rewrite blen_app, (proj2 (N.leb_le _ _)) by lia. intros <-. do 2 f_equal.
  apply take_app_le. unfold blen in Hle. lia.
Qed.

(** C32: A message gets from the task of [send] through msquic to the task of
    [read_message_from_stream], however their polls, the timeouts and the
    events interleave, for messages of less than 4 GiB (whose length is
    written in 32 bits).  The receiver never returns anything but the message;
    once it has been indicated the end of the stream, without an error or the
    stream being cut off on its side, it gets to the message by its polls alone.  [send] returns success only when
    the whole frame has been handed to msquic, and can do so from a started
    stream. *)
Theorem message_delivered data s r p : fits 32 (blen data) → rtc net_step (net_start data) (s, (r, p)) →
  (∀ m, p = PDone m → m = data) ∧
  (rd_fin r = true → sound (rd_stream r) → rd_cut r = false → p ≠ PFailed → ∃ r', rtc msg_step (r, p) (r', PDone data)) ∧
  (sd_prog s = SSent → sd_handed s = frame data) ∧
  (∀ rest, sd_prog s = SWriting rest → x_send_state (sd_stream s) = WStartComplete →
     x_conn_error (sd_stream s) = None → x_send_error_code (sd_stream s) = None →
     ∃ s', rtc send_step s s' ∧ sd_prog s' = SSent ∧ sd_shutdown s' = true).
Proof.
  intros Hfit Hrun. destruct (net_inv_run data _ Hrun) as (Hi & Hm & missing & Hc & Hf). simpl in *.
  destruct (handed_prefix data s Hi) as (unsent & Hu & Hu0). split; [|split; [|split]].
  - intros m ->. apply done_is_frame in Hm; [|apply stream_raw_opened]. apply (frame_result_more _ (missing ++ unsent)) in Hm.
    rewrite app_assoc, <-Hc, <-Hu in Hm. rewrite <-(app_nil_r (frame data)), frame_result_frame in Hm by done. congruence.
  - intros Hfin Hs Hcut Hp. destruct (Hf Hfin) as [-> Hsh]. rewrite (Hu0 Hsh), app_nil_r in Hu. rewrite app_nil_r in Hc.
    refine (proj2 (message_arrives _ r p data [] stream_raw_opened Hfit Hm _) Hfin Hs Hcut Hp). by rewrite app_nil_r, <-Hc, Hu.
  - intros E. destruct Hi as [_ Hi]. by rewrite E in Hi.
  - intros rest E E1 E2 E3. by eapply sender_finishes.
Qed.
End delivery.
(** One byte is sent: the stream starts, everything is written, and the
    stream ended; msquic delivers it in one event. *)
Definition one_sent : Sender := Eval vm_compute in
  mkSender (push_write_waiter 2 (set_send_state WShutdown
      (after (push_start_waiter 2 (set_states SStart RClosed WStart (stream_open Unidirectional)))
        (EvStartComplete StatusOk 4 true))))
    (frame [u8 7]) true SClosing.
Definition one_received : Reader :=
  mkReader (after (stream_from_raw Unidirectional) (EvReceive 0 5 [frame [u8 7]] true)) (frame [u8 7]) [] true [] 0 false.
Lemma message_delivered_witness : ∃ r', rtc msg_step (one_received, PHeader []) (r', PDone [u8 7]).
Proof.
  refine (proj1 (proj2 (message_delivered [u8 7] one_sent one_received (PHeader []) _ _)) _ _ _ _).
  - reflexivity.
  - eapply rtc_l; [apply net_send; eapply (step_send_poll _ 2 StatusOk); vm_compute; reflexivity|].
    eapply rtc_l; [apply net_send, (step_send_event _ _ _ _ (EvStartComplete StatusOk 4 true))|].
    eapply rtc_l; [apply net_send; eapply (step_send_poll _ 2 StatusOk); vm_compute; reflexivity|].
    eapply rtc_l; [apply net_send; eapply (step_send_poll _ 2 StatusOk); vm_compute; reflexivity|].
    eapply rtc_l; [apply net_send; eapply (step_send_poll _ 2 StatusOk); vm_compute; reflexivity|].
    eapply rtc_l; [apply net_send; eapply (step_send_poll _ 2 StatusOk); vm_compute; reflexivity|].
    eapply rtc_l; [|apply rtc_refl]. apply net_recv; [|exists []; done]. apply step_event; [|reflexivity].
    apply (step_receive (stream_from_raw Unidirectional) [] [] [] 0 false 5 [frame [u8 7]] true);
      [reflexivity|vm_compute; reflexivity..].
  - reflexivity.
  - split; [intros [H|H]; by apply H|discriminate].
  - reflexivity.
  - discriminate.
Defined.
(** The end of the send direction counts as success even when msquic says
    that it was not graceful: [send] then returns [Ok] though the stream was
    cut off under it, and its end never asked for. *)
Lemma sent_though_cut_off : ∃ s, rtc send_step (fresh_sender [u8 7]) s ∧ sd_prog s = SSent ∧ sd_shutdown s = false.
Proof.
  eexists. split; [|split].
  - eapply rtc_l; [eapply (step_send_poll _ 2 StatusOk); vm_compute; reflexivity|].
    eapply rtc_l; [apply (step_send_event _ _ _ _ (EvStartComplete StatusOk 4 true))|].
    eapply rtc_l; [eapply (step_send_poll _ 2 StatusOk); vm_compute; reflexivity|].
    eapply rtc_l; [eapply (step_send_poll _ 2 StatusOk); vm_compute; reflexivity|].
    eapply rtc_l; [eapply (step_send_poll _ 2 StatusOk); vm_compute; reflexivity|].
    eapply rtc_l; [apply (step_send_event _ _ _ _ (EvSendShutdownComplete false))|].
    eapply rtc_l; [eapply (step_send_poll _ 2 StatusOk); vm_compute; reflexivity|]. apply rtc_refl.
  - reflexivity.
  - reflexivity.
Qed.
