(* ===== verification/TestKit.v ===== *)
(** * The repository's unit tests, on the model

    The tests that the sources carry in their [tests] modules are translated
    like the code they test: a test is a computation that panics where an
    assertion fails, and that it passes is checked by evaluation.  So the
    definitions of this library give the answers that the authors of the code
    expect of it.  Here is what the tests share. *)
From stdpp Require Import pretty.
From S2P Require Import Prelude Types Serialize Stream Listener Delta Message NodeState Cluster.
Open Scope N_scope.

(** ** Assertions *)
Definition Test : Type := res unit.
Definition assert (b : bool) : Test := rassert "assertion failed" b.
Definition assert_eq {A} `{EqDecision A} (a b : A) : Test := rassert "assertion `left == right` failed" (bool_decide (a = b)).
(** [matches!(o, Some(_))], [is_some] and [is_none] *)
Definition is_some {A} (o : option A) : bool := match o with Some _ => true | None => false end.
Definition is_none {A} (o : option A) : bool := negb (is_some o).
(** [#[should_panic]] *)
Definition should_panic {A} (r : res A) : Test := assert (is_panic r).
Definition unwrapped {A} (o : option A) : res A := unwrap "called `Option::unwrap()` on a `None` value" o.
(** [for x in l { .. }] with assertions in its body. *)
Fixpoint for_all {A} (f : A → Test) (l : list A) : Test :=
  match l with [] => Ok () | x :: l => do* f x in for_all f l end.

(** ** Time
    [tokio::time::pause] and [advance]: a test counts its own nanoseconds. *)
Definition from_millis (n : N) : Duration := n * 1000000.
Definition from_secs (n : N) : Duration := n * 1000000000.

(** ** Identifiers and states for tests *)
(** [ChitchatId::for_local_test] (types.rs) *)
Definition localhost : N := 2130706433.
Definition for_local_test (port : N) : ChitchatId :=
  mkChitchatId ("node-" +:+ pretty port) 0 (SockV4 localhost port).
(** [VersionedValue::for_test], and the equality of tests, that ignores the
    instants (types.rs). *)
Definition vv_for_test (value : string) (version : Version) : VersionedValue := mkVersionedValue value version Set_.
Definition status_eqb (a b : DeletionStatus) : bool := bool_decide (status_mutation a = status_mutation b).
Definition vv_eqb (a b : VersionedValue) : bool :=
  bool_decide (vv_value a = vv_value b) && (vv_version a =? vv_version b) && status_eqb (vv_status a) (vv_status b).
(** [NodeState::for_test] and [ClusterState::default] (state.rs) *)
Definition ns_for_test : NodeState := mkNodeState (mkChitchatId "test-node" 0 (SockV4 localhost 7280)) 0 ∅ 0 0.
Definition ClusterState_default : ClusterState := with_seed_addrs ∅.

(** ** Deltas and digests for tests (delta.rs, digest.rs) *)
Definition num_tuples (d : Delta) : N := sum_of (λ nd, blen (nd_key_values nd)) (node_deltas d).
Definition add_node (id : ChitchatId) (last_gc_version from_version : Version) (d : Delta) : res Delta :=
  do* rassert "assertion failed" (negb (bool_decide (id ∈ nd_chitchat_id <$> node_deltas d))) in
  Ok (mkDelta (node_deltas d ++ [mkNodeDelta id from_version last_gc_version [] None]) (delta_serialized_len d)).
Fixpoint push_kv (id : ChitchatId) (kv : KeyValueMutation) (nds : list NodeDelta) : option (list NodeDelta) :=
  match nds with
  | [] => None
  | nd :: nds =>
      if decide (nd_chitchat_id nd = id) then
        Some (mkNodeDelta (nd_chitchat_id nd) (nd_from_version_excluded nd) (nd_last_gc_version nd)
                (nd_key_values nd ++ [kv]) (nd_max_version nd) :: nds)
      else nds ← push_kv id kv nds; Some (nd :: nds)
  end.
Definition add_kv (id : ChitchatId) (key value : string) (version : Version) (deleted : bool) (d : Delta) : res Delta :=
  let* nds := unwrapped (push_kv id (mkKeyValueMutation key value version (if deleted then MDelete else MSet)) (node_deltas d)) in
  Ok (mkDelta nds (delta_serialized_len d)).
Definition set_serialized_len (n : N) (d : Delta) : Delta := mkDelta (node_deltas d) n.
Definition delta_get (d : Delta) (id : ChitchatId) : option NodeDelta :=
  head (filter (λ nd, nd_chitchat_id nd = id) (node_deltas d)).
Definition digest_add_node (id : ChitchatId) (heartbeat : Heartbeat) (last_gc_version max_version : Version)
    (d : Digest) : Digest :=
  <[id := mkNodeDigest heartbeat last_gc_version max_version]> d.

(** ** Mutations through a reference
    No listener is registered in these tests. *)
Definition t_set (ns : NodeState) (key value : string) : res NodeState := rmap fst (set no_listeners ns key value).
Definition t_set_with_version (ns : NodeState) (key value : string) (version : Version) : res NodeState :=
  rmap fst (set_with_version no_listeners ns key value version).
Fixpoint t_set_all (ns : NodeState) (kvs : list (string * string * Version)) : res NodeState :=
  match kvs with
  | [] => Ok ns
  | (key, value, version) :: kvs => let* ns := t_set_with_version ns key value version in t_set_all ns kvs
  end.
Definition t_insert (key : string) (v : VersionedValue) (ns : NodeState) : NodeState :=
  set_key_values (<[key := v]> (key_values ns)) ns.
(** [cluster_state.node_state_mut(&id)] and what is done with the reference. *)
Definition on_node (cs : ClusterState) (id : ChitchatId) (f : NodeState → res NodeState) : res ClusterState :=
  let* ns := f (node_state_mut cs id) in Ok (put_node_state cs id ns).
(** [get_versioned(key).unwrap()], compared with a value that is set. *)
Definition assert_versioned (ns : NodeState) (key value : string) (version : Version) : Test :=
  let* v := unwrapped (get_versioned ns key) in assert (vv_eqb v (vv_for_test value version)).

Ltac passes := vm_compute; reflexivity.

(** ** Compression in tests
    Some tests record how long zstd makes a block.  This one is an oracle of
    lengths: [size] gives the length that zstd makes of a block, if it
    compresses it at all. *)
Definition sized_zstd (size : bytes → option N) : Zstd := {|
  compress_to_buffer x room :=
    n ← size x; if n <=? room then Some (replicate (N.to_nat n) (u8 0)) else None;
  decompress_to_buffer _ _ := None;
  encode_all := Some;
  decode_all := Some;
|}.
(** A zstd that knows some data: the entry [i] of [records] is compressed to
    as many bytes as it says, all of them [i]; of anything else zstd makes
    nothing shorter. *)
Definition recorded_zstd (records : list (bytes * N)) : Zstd :=
  let numbered := imap (λ i r, (i, r)) records in
  let enc x := '(i, (_, n)) ← head (filter (λ r : nat * (bytes * N), r.2.1 = x) numbered);
    Some (replicate (N.to_nat n) (u8 (N.of_nat i))) in
  let dec c := b ← head c; '(_, (x, n)) ← head (filter (λ r : nat * (bytes * N), u8 (N.of_nat r.1) = b) numbered);
    if n =? blen c then Some x else None in
  {| compress_to_buffer x room := c ← enc x; if blen c <=? room then Some c else None;
     decompress_to_buffer c room := x ← dec c; if blen x <=? room then Some x else None;
     encode_all := enc;
     decode_all := dec |}.

(** ** Codecs in tests
    [test_serdeser_aux] (serialize.rs). *)
Definition test_serdeser {A} `{EqDecision A} (serialize : A → res bytes) (len : A → N)
    (deserialize : bytes → res (A * bytes)) (obj : A) (num_bytes : N) : Test :=
  let* buf := serialize obj in
  do* assert_eq (blen buf) (len obj) in
  do* assert_eq (blen buf) num_bytes in
  match deserialize buf with
  | Ok (obj_serdeser, _) => assert_eq obj obj_serdeser
  | Err _ => Panic "called `Result::unwrap()` on an `Err` value"
  | Panic e => Panic e
  | OutOfFuel => OutOfFuel
  end.
Definition test_serdeser_aux {A} `{EqDecision A} (c : codec A) : A → N → Test :=
  test_serdeser (λ a, Ok (serialize c a)) (serialized_len c) (deserialize c).
