(* ===== verification/TestData.v ===== *)
(** * The unit tests of types.rs, serialize.rs, delta.rs, digest.rs, message.rs and listener.rs, on the model *)
From S2P Require Import Prelude Types Serialize Stream Listener Delta Message NodeState Cluster Channel TestKit.
Open Scope N_scope.

(** ** types.rs, and the tags of serialize.rs and delta.rs
    [u8s] is [0..=u8::MAX]; each test counts the codes that mean something. *)
Definition u8s : list N := N.of_nat <$> seq 0 256.
Fixpoint count_codes {A} (of_code : N → option A) (to_code : A → N) (codes : list N) (count : N) : res N :=
  match codes with
  | [] => Ok count
  | code :: codes =>
      match of_code code with
      | Some a => do* assert_eq code (to_code a) in count_codes of_code to_code codes (count + 1)
      | None => count_codes of_code to_code codes count
      end
  end.
Definition ok {A} (r : res A) : option A := match r with Ok a => Some a | _ => None end.
Definition test_deletion_status_to_u8 : Test :=
  let* count_values := count_codes mutation_of_code mutation_code u8s 0 in assert_eq count_values 3.
Definition test_delta_op_tag : Test :=
  let* num_valid_tags := count_codes (ok ∘ DeltaOpTag_try_from) DeltaOpTag_code u8s 0 in assert_eq num_valid_tags 3.
Definition test_serialize_block_type : Test :=
  let* valid_vals_count := count_codes (λ b, fst <$> ok (deserialize codec_BlockType [u8 b]))
    (λ t, from_le_bytes (serialize codec_BlockType t)) u8s 0 in
  assert_eq valid_vals_count 3.
Lemma deletion_status_to_u8_passes : test_deletion_status_to_u8 = Ok (). Proof. passes. Qed.
Lemma delta_op_tag_passes : test_delta_op_tag = Ok (). Proof. passes. Qed.
Lemma serialize_block_type_passes : test_serialize_block_type = Ok (). Proof. passes. Qed.

(** ** Codecs (serialize.rs, digest.rs) *)
Definition test_serialize_bool : Test := test_serdeser_aux codec_bool true 1.
Definition test_serialize_chitchat_id : Test :=
  test_serdeser_aux codec_ChitchatId (mkChitchatId "node-id" 1 (SockV4 localhost 7280)) 24.
Definition test_serialize_heartbeat : Test := test_serdeser_aux codec_Heartbeat 1 8.
Definition test_serialize_ip : Test :=
  do* test_serdeser_aux codec_IpAddr (IpV4 (from_be_bytes (u8 <$> [127; 1; 3; 9]))) 5 in
  test_serdeser_aux codec_IpAddr (IpV6 (from_be_bytes (u8 <$> [0; 1; 2; 3; 4; 5; 6; 7; 8; 9; 10; 11; 12; 13; 14; 15]))) 17.
Definition test_node_digest_serialization : Test := test_serdeser_aux codec_NodeDigest (mkNodeDigest 100 2 3) 24.
Lemma serialize_bool_passes : test_serialize_bool = Ok (). Proof. passes. Qed.
Lemma serialize_chitchat_id_passes : test_serialize_chitchat_id = Ok (). Proof. passes. Qed.
Lemma serialize_heartbeat_passes : test_serialize_heartbeat = Ok (). Proof. passes. Qed.
Lemma serialize_ip_passes : test_serialize_ip = Ok (). Proof. passes. Qed.
Lemma node_digest_serialization_passes : test_node_digest_serialization = Ok (). Proof. passes. Qed.

(** ** The compressed stream (serialize.rs) *)
Definition TEXT_SAMPLES : list string :=
  ["I'm happy."; "She exercises every morning."; "His dog barks loudly."; "My school starts at 8:00.";
   "We always eat dinner together."; "They take the bus to work."; "He doesn't like vegetables.";
   "I don't want anything to drink."; "hello Happy tax payer"; "do you like tea?"].
Definition sentences : list string :=
  (λ i, default EmptyString (TEXT_SAMPLES !! (i mod length TEXT_SAMPLES)%nat)) <$> seq 0 100.
Section streams.
Context `{Zstd}.
Definition test_compressed_serialized_stream : Test :=
  let* w := append_all codec_String (with_block_threshold 1000) sentences in
  let uncompressed_len := sum_of slen sentences in
  let* buf := finish w in
  do* assert (blen buf * 3 <? uncompressed_len) in
  let* (vals, cursor) := deserialize_stream codec_String buf in
  do* assert_eq (blen vals) 100 in
  do* assert_eq vals sentences in
  assert_eq cursor [].
(** The random sentences are an argument. *)
Definition test_compressed_serialized_stream_with_random_data (random_sentences : list string) : Test :=
  let* w := append_all codec_String (with_block_threshold 200) sentences in
  let* w := append_all codec_String w random_sentences in
  let* buf := finish w in
  let* (vals, cursor) := deserialize_stream codec_String buf in
  do* assert_eq (blen vals) 130 in
  do* assert_eq (take 100 vals) sentences in
  assert_eq cursor [].
Definition test_compressed_serialized_stream_len_when_there_are_no_compressed_blocks : Test :=
  let* serialized_len_after_hello := serialized_len_upperbound_after codec_String (with_block_threshold 10) "xu1Y3l" in
  let* w := append codec_String (with_block_threshold 10) "xu1Y3l" in
  let* buffer := finish w in
  do* assert_eq (blen buffer) serialized_len_after_hello in
  let* w := append codec_String (with_block_threshold 10) "pTs2yYd" in
  let* serialized_len_after_hello := serialized_len_upperbound_after codec_String w "vLQRFPN6" in
  let* w := append codec_String w "vLQRFPN6" in
  let* buffer := finish w in
  assert_eq (blen buffer) serialized_len_after_hello.
Definition test_empty : Test :=
  let* len_upper_bound := serialized_len_upperbound_after codec_String (with_block_threshold 1000) "" in
  let* w := append codec_String (with_block_threshold 1000) "" in
  let* buf := finish w in
  let* (vals, _) := deserialize_stream codec_String buf in
  do* assert (blen buf <=? len_upper_bound) in
  assert_eq vals [EmptyString].
End streams.

(** The blocks of the sentences, when zstd makes 200 bytes of each. *)
Fixpoint chunks {A} (fuel n : nat) (l : list A) : list (list A) :=
  match fuel, l with
  | S fuel, _ :: _ => take n l :: chunks fuel n (drop n l)
  | _, _ => []
  end.
Definition sentence_blocks : list bytes := chunks 10 1000 (concat (serialize codec_String <$> sentences)).
Lemma compressed_serialized_stream_passes :
  @test_compressed_serialized_stream (recorded_zstd ((λ b, (b, 200)) <$> sentence_blocks)) = Ok ().
Proof. passes. Qed.
Lemma sentences_fit : Forall (λ s, wf_String s ∧ 0 < serialized_len codec_String s ≤ u16_max) sentences.
Proof. apply (bool_decide_unpack _). vm_compute. exact I. Qed.
(** With any random sentences, and any zstd. *)
Lemma compressed_serialized_stream_with_random_data_passes `{ZstdOk} random_sentences :
  length random_sentences = 30%nat → Forall (λ s, wf_String s ∧ slen s = 30) random_sentences →
  test_compressed_serialized_stream_with_random_data random_sentences = Ok ().
Proof.
  intros Hlen Hr. unfold test_compressed_serialized_stream_with_random_data.
  destruct (stream_roundtrip codec_String (sentences ++ random_sentences) 200) as (buf & Hbuf & Hread).
  - done.
  - apply Forall_app. split; [apply sentences_fit|]. eapply Forall_impl; [exact Hr|].
    intros s [Hs Hl]. split; [done|]. rewrite slen_String, Hl. done.
  - apply rbind_Ok in Hbuf as (w & Hw & Hfin). rewrite append_all_app in Hw.
    apply rbind_Ok in Hw as (w1 & Hw1 & Hw2). rewrite Hw1. cbn [rbind]. rewrite Hw2. cbn [rbind].
    rewrite Hfin. cbn [rbind]. specialize (Hread []). rewrite app_nil_r in Hread. rewrite Hread. cbn [rbind].
    assert (length sentences = 100%nat) as H100 by (vm_compute; reflexivity).
    unfold assert_eq. rewrite blen_app, !bool_decide_eq_true_2; [done|done| |].
    + by rewrite take_app_length'.
    + unfold blen. by rewrite H100, Hlen.
Qed.
Lemma compressed_serialized_stream_len_passes :
  @test_compressed_serialized_stream_len_when_there_are_no_compressed_blocks RawZstd.raw = Ok ().
Proof. passes. Qed.
Lemma empty_passes : @test_empty RawZstd.raw = Ok (). Proof. passes. Qed.

(** ** Deltas (delta.rs) *)
Section deltas.
Context `{Zstd}.
(** [assert!(delta_writer.try_add_..(..))], and its negation. *)
Definition added (r : res (bool * DeltaSerializer)) : res DeltaSerializer :=
  let* (b, ds) := r in do* assert b in Ok ds.
Definition not_added (r : res (bool * DeltaSerializer)) : res DeltaSerializer :=
  let* (b, ds) := r in do* assert (negb b) in Ok ds.
Definition test_aux_delta_writer (ds : DeltaSerializer) (expected_len : N) : Test :=
  let* delta := ds_finish ds in
  test_serdeser Delta_serialize delta_serialized_len Delta_deserialize delta expected_len.
Definition t_kv (ds : DeltaSerializer) (key value : string) (version : Version) : res (bool * DeltaSerializer) :=
  try_add_kv ds key (mkVersionedValue value version Set_).
Definition test_delta_serialization_default : Test :=
  test_serdeser Delta_serialize delta_serialized_len Delta_deserialize Delta_default 1.
Definition delta_with_set_max_version : res DeltaSerializer :=
  let* ds := with_mtu 198 in
  let* ds := added (try_add_node ds (for_local_test 10001) 80 50) in
  added (try_set_max_version ds 100).
Definition test_delta_serialization_with_set_max_version : Test :=
  let* ds := delta_with_set_max_version in test_aux_delta_writer ds (1 + 56).
Definition delta_simple_foo (now : Instant) : res DeltaSerializer :=
  let* ds := with_mtu 198 in
  let* ds := added (try_add_node ds (for_local_test 10001) 0 0) in
  let* ds := added (t_kv ds "key11" "val11" 1) in
  let* ds := added (try_add_kv ds "key12" (mkVersionedValue "" 2 (Deleted now))) in
  let* ds := added (try_add_node ds (for_local_test 10002) 0 0) in
  let* ds := added (t_kv ds "key21" "val21" 2) in
  added (t_kv ds "key22" "val22" 3).
Definition test_delta_serialization_simple_foo (now : Instant) : Test :=
  let* ds := delta_simple_foo now in test_aux_delta_writer ds 98.
Definition delta_two_nodes (mtu : N) : res DeltaSerializer :=
  let* ds := with_mtu mtu in
  let* ds := added (try_add_node ds (for_local_test 10001) 0 0) in
  let* ds := added (t_kv ds "key11" "val11" 1) in
  let* ds := added (t_kv ds "key12" "val12" 2) in
  added (try_add_node ds (for_local_test 10002) 0 0).
Definition test_delta_serialization_simple_node : Test :=
  let* ds := delta_two_nodes 140 in test_aux_delta_writer ds 80.
Definition test_delta_serialization_simple_with_nodes_to_reset : Test :=
  let* ds := delta_two_nodes 155 in test_aux_delta_writer ds 80.
Definition delta_exceed_mtu_on_add_node : res DeltaSerializer :=
  let* ds := with_mtu 100 in
  let* ds := added (try_add_node ds (for_local_test 10001) 0 0) in
  let* ds := added (t_kv ds "key11" "val11" 1) in
  let* ds := added (t_kv ds "key12" "val12" 2) in
  not_added (try_add_node ds (for_local_test 10002) 0 1).
Definition test_delta_serialization_exceed_mtu_on_add_node : Test :=
  let* ds := delta_exceed_mtu_on_add_node in test_aux_delta_writer ds 72.
Definition delta_exceed_mtu_on_add_kv : res DeltaSerializer :=
  let* ds := with_mtu 100 in
  let* ds := added (try_add_node ds (for_local_test 10001) 0 1) in
  let* ds := added (t_kv ds "key11" "val11" 1) in
  not_added (t_kv ds "key12" "val12aaaaaaaaaabcc" 2).
Definition test_delta_serialization_exceed_mtu_on_add_kv : Test :=
  let* ds := delta_exceed_mtu_on_add_kv in test_aux_delta_writer ds 72.
(** The body of [test_delta_serialization_panic_if_add_after_exceed], and its
    attribute. *)
Definition add_after_exceed (mtu : N) (long : string) : Test :=
  let* ds := with_mtu mtu in
  let* ds := added (try_add_node ds (for_local_test 10001) 0 1) in
  let* ds := added (t_kv ds "key11" "val11" 1) in
  let* ds := not_added (t_kv ds "key12" long 2) in
  do* t_kv ds "key13" "val12" 2 in Ok ().
Definition test_delta_serialization_panic_if_add_after_exceed : Test := should_panic (add_after_exceed 62 "val12").
End deltas.
(** The block that a writer has not flushed, and a zstd that makes it as
    long as the test says. *)
Definition last_block (r : res DeltaSerializer) : bytes :=
  match r with Ok ds => uncompressed_block (ds_writer ds) | _ => [] end.
Definition zstd_makes (r : res DeltaSerializer) (total : N) : Zstd := recorded_zstd [(last_block r, total - 4)].

Lemma delta_serialization_default_passes : @test_delta_serialization_default RawZstd.raw = Ok (). Proof. passes. Qed.
Lemma delta_serialization_with_set_max_version_passes :
  @test_delta_serialization_with_set_max_version RawZstd.raw = Ok ().
Proof. passes. Qed.
Lemma delta_serialization_simple_foo_passes :
  @test_delta_serialization_simple_foo (zstd_makes (@delta_simple_foo RawZstd.raw 0) 98) 0 = Ok ().
Proof. passes. Qed.
Lemma delta_serialization_simple_node_passes :
  @test_delta_serialization_simple_node (zstd_makes (@delta_two_nodes RawZstd.raw 140) 80) = Ok ().
Proof. passes. Qed.
Lemma delta_serialization_simple_with_nodes_to_reset_passes :
  @test_delta_serialization_simple_with_nodes_to_reset (zstd_makes (@delta_two_nodes RawZstd.raw 155) 80) = Ok ().
Proof. passes. Qed.
Lemma delta_serialization_exceed_mtu_on_add_node_passes :
  @test_delta_serialization_exceed_mtu_on_add_node (zstd_makes (@delta_exceed_mtu_on_add_node RawZstd.raw) 72) = Ok ().
Proof. passes. Qed.
Lemma delta_serialization_exceed_mtu_on_add_kv_passes :
  @test_delta_serialization_exceed_mtu_on_add_kv RawZstd.raw = Ok ().
Proof. passes. Qed.
Lemma delta_serialization_panic_if_add_after_exceed_passes :
  @test_delta_serialization_panic_if_add_after_exceed RawZstd.raw = Ok ().
Proof. passes. Qed.
(** But what panics is [with_mtu]: with an MTU that it takes, adding after an
    entry did not fit is not refused. *)
Lemma add_after_exceed_does_not_panic :
  is_panic (@with_mtu 62) = true ∧ @add_after_exceed RawZstd.raw 100 "val12aaaaaaaaaabcc" = Ok ().
Proof. split; vm_compute; reflexivity. Qed.

(** ** Digests and messages (digest.rs, message.rs) *)
Section messages.
Context `{Zstd}.
Definition test_digest (d : Digest) (num_bytes : N) : Test :=
  test_serdeser (λ d, Ok (digest_serialize d)) digest_serialized_len digest_deserialize d num_bytes.
Definition three_nodes : Digest :=
  digest_add_node (for_local_test 10002) 103 0 13
    (digest_add_node (for_local_test 10002) 102 20 12 (digest_add_node (for_local_test 10001) 101 1 11 ∅)).
Definition test_digest_serialization : Test := test_digest three_nodes 73.
Definition test_message : ChitchatMessage → N → Test :=
  test_serdeser message_serialize message_serialized_len message_deserialize.
Definition one_node : Digest := digest_add_node (for_local_test 10001) 0 0 0 ∅.
Definition test_syn : Test :=
  do* test_message (Syn "cluster-a" ∅) 30 in
  test_message (Syn "cluster-a" one_node) 59.
Definition one_kv : res Delta :=
  let* delta := add_node (for_local_test 10001) 0 0 Delta_default in
  let* delta := add_kv (for_local_test 10001) "key" "value" 0 true delta in
  Ok (set_serialized_len 60 delta).
Definition test_syn_ack : Test :=
  do* test_message (SynAck ∅ Delta_default) 20 in
  let* delta := one_kv in
  test_message (SynAck one_node delta) (2 + 1 + 1 + 44 + 60).
Definition test_ack : Test :=
  do* test_message (Ack Delta_default) 5 in
  let* delta := one_kv in
  test_message (Ack delta) (2 + 1 + 1 + 60).
Definition test_bad_cluster : Test := test_message BadCluster 4.
End messages.
(** What zstd makes of the data of these tests: of the three digests, and of
    the block of the delta. *)
Definition recorded_messages : Zstd :=
  recorded_zstd
    [(digest_serialize_uncompressed three_nodes, 69); (digest_serialize_uncompressed ∅, 11);
     (digest_serialize_uncompressed one_node, 40);
     (concat (serialize codec_DeltaOp <$> get_operations (default Delta_default (ok one_kv))), 56)].
Lemma digest_serialization_passes : @test_digest_serialization recorded_messages = Ok (). Proof. passes. Qed.
Lemma syn_passes : @test_syn recorded_messages = Ok (). Proof. passes. Qed.
Lemma syn_ack_passes : @test_syn_ack recorded_messages = Ok (). Proof. passes. Qed.
Lemma ack_passes : @test_ack recorded_messages = Ok (). Proof. passes. Qed.
Lemma bad_cluster_passes : @test_bad_cluster RawZstd.raw = Ok (). Proof. passes. Qed.

(** ** Listeners (listener.rs)
    A listener is a number; its counter is the number of its calls, each of
    which makes the assertions of its closure. *)
Definition t_node : ChitchatId := mkChitchatId "node7280" 0 (SockV4 localhost 7280).
Definition event_of (key value : string) : KeyChangeEvent := mkEvent key value t_node.
Definition counter (listener : BoxedListener) (calls : list Call) : N :=
  blen (filter (λ c, call_listener c = listener) calls).
Definition saw (key value : string) : Call → Test := λ c,
  do* assert_eq (ev_key (call_event c)) key in assert_eq (ev_value (call_event c)) value.
Definition test_listeners_simple : Test :=
  let '(ls, handle) := subscribe_event no_listeners "prefix:" 1 in
  let event := event_of "prefix:strippedprefix" "value" in
  let* calls := trigger_event ls event in
  do* for_all (saw "strippedprefix" "value") calls in
  do* assert_eq (counter 1 calls) 1 in
  let ls := drop_handle handle ls in
  let* calls' := trigger_event ls event in
  assert_eq (counter 1 (calls ++ calls')) 1.
Definition test_listeners_empty_prefix : Test :=
  let '(ls, handle) := subscribe_event no_listeners "" 1 in
  let ls := drop_handle (forever handle) ls in
  let* calls := trigger_event ls (event_of "prefix:strippedprefix" "value") in
  do* for_all (saw "prefix:strippedprefix" "value") calls in
  assert_eq (counter 1 calls) 1.
Definition test_listeners_forever : Test :=
  let '(ls, handle) := subscribe_event no_listeners "prefix:" 1 in
  let event := event_of "prefix:strippedprefix" "value" in
  let* calls := trigger_event ls event in
  do* for_all (saw "strippedprefix" "value") calls in
  do* assert_eq (counter 1 calls) 1 in
  let ls := drop_handle (forever handle) ls in
  let* calls' := trigger_event ls event in
  do* for_all (saw "strippedprefix" "value") calls' in
  assert_eq (counter 1 (calls ++ calls')) 2.
(** The five counters after each of the events. *)
Definition subscribe_forever (ls : InnerListeners) (prefix : string) (listener : BoxedListener) : InnerListeners :=
  let '(ls, handle) := subscribe_event ls prefix listener in drop_handle (forever handle) ls.
Fixpoint counters_after (ls : InnerListeners) (calls : list Call) (events : list (string * list N)) : Test :=
  match events with
  | [] => Ok ()
  | (key, expected) :: events =>
      let* new := trigger_event ls (event_of key "value") in
      let calls := calls ++ new in
      do* assert_eq ((λ l, counter l calls) <$> [0; 1; 2; 3; 4]) expected in counters_after ls calls events
  end.
Definition test_listeners_prefixes : Test :=
  let ls := foldl (λ ls p, subscribe_forever ls p.1 p.2) no_listeners
    [(EmptyString, 0); ("b", 1); ("bb", 2); ("bb", 3); ("bc", 4)]%string in
  counters_after ls []
    [("hello", [1; 0; 0; 0; 0]); (EmptyString, [2; 0; 0; 0; 0]); ("a", [3; 0; 0; 0; 0]); ("b", [4; 1; 0; 0; 0]);
     ("ba", [5; 2; 0; 0; 0]); ("bb", [6; 3; 1; 1; 0])]%string.
Lemma listeners_simple_passes : test_listeners_simple = Ok (). Proof. passes. Qed.
Lemma listeners_empty_prefix_passes : test_listeners_empty_prefix = Ok (). Proof. passes. Qed.
Lemma listeners_forever_passes : test_listeners_forever = Ok (). Proof. passes. Qed.
Lemma listeners_prefixes_passes : test_listeners_prefixes = Ok (). Proof. passes. Qed.
