(* ===== verification/TestDetector.v ===== *)
(** * The unit tests of chitchat/src/failure_detector.rs, on the model *)
From Stdlib Require Import Floats.SpecFloat.
From S2P Require Import Prelude Types FailureDetector TestKit.
Open Scope N_scope.

(** ** The array of intervals *)
Definition EPSILON : f64 := S754_finite false (2 ^ 52) (-104).
Definition assert_nearly_equal (value expected : f64) : Test := assert (f64_lt (SFabs (f64_sub value expected)) EPSILON).
Definition f64_sum (l : list f64) : f64 := foldl f64_add f64_0 l.
Definition capacity : nat := 5.
(** The loop up to the capacity, and the one after it. *)
Fixpoint fill_array (nums : list nat) (b : BoundedArrayStats) (queue : list f64) : res (BoundedArrayStats * list f64) :=
  match nums with
  | [] => Ok (b, queue)
  | i :: nums =>
      do* assert (ba_len b <? capacity)%nat in
      do* assert (negb (ba_is_filled b)) in
      let* b := ba_append b (f64_of_N (N.of_nat i)) in
      let queue := queue ++ [f64_of_N (N.of_nat i)] in
      do* assert_eq (ba_len b) i in
      do* assert_eq (length queue) i in
      do* assert_nearly_equal (ba_sum b) (f64_sum queue) in fill_array nums b queue
  end.
Fixpoint slide_array (nums : list nat) (b : BoundedArrayStats) (queue : list f64) : Test :=
  match nums with
  | [] => Ok ()
  | i :: nums =>
      let* b := ba_append b (f64_of_N (N.of_nat i)) in
      let queue := drop 1 (queue ++ [f64_of_N (N.of_nat i)]) in
      do* assert_nearly_equal (ba_sum b) (f64_sum queue) in
      do* assert_eq (length queue) capacity in
      do* assert_eq (ba_len b) capacity in slide_array nums b queue
  end.
Definition test_bounded_array_stats : Test :=
  let* (b, queue) := fill_array (seq 1 capacity) (ba_with_capacity capacity) [] in
  do* assert (ba_is_filled b) in
  do* assert_nearly_equal (ba_sum b) (f64_sum queue) in
  slide_array (seq (capacity + 1) (capacity - 1)) b queue.
Definition test_sampling_window (now : Instant) : Test :=
  let phi_at w now expected := let* p := unwrapped (window_phi w now) in assert_nearly_equal p expected in
  let f := f64_of_N in
  let* w := window_report_heartbeat (SamplingWindow_new 10 (from_secs 5) (from_secs 2)) now in
  let now := now + from_secs 3 in
  let* w := window_report_heartbeat w now in
  let mean := f64_div (f64_add (f 3) (f64_mul (f 2) (f 5))) (f64_add (f 1) (f 5)) in
  do* phi_at w now f64_0 in
  let now := now + from_secs 1 in
  do* phi_at w now (f64_div (f 1) mean) in
  let now := now + from_secs 5 in
  let* w := window_report_heartbeat w now in
  let now := now + from_secs 2 in
  do* phi_at w now (f64_div (f 2) mean) in
  let now := now + from_secs 100 in
  let w := window_reset w in
  let* w := window_report_heartbeat w now in
  do* assert (is_none (window_phi w now)) in
  let now := now + from_secs 2 in
  let* w := window_report_heartbeat w now in
  let now := now + from_secs 4 in
  let new_mean := f64_div (f64_add (f 2) (f64_mul (f 2) (f 5))) (f64_add (f 1) (f 5)) in
  phi_at w now (f64_div (f 4) new_mean).
Lemma bounded_array_stats_passes : test_bounded_array_stats = Ok (). Proof. passes. Qed.
Lemma sampling_window_passes : test_sampling_window (from_secs 1000) = Ok (). Proof. passes. Qed.

(** ** The detector
    What the tests choose at random is an argument: after how many seconds
    each heartbeat comes, and from which node. *)
Fixpoint heartbeats (now : Instant) (fd : FailureDetector) (steps : list (Duration * ChitchatId)) : res (Instant * FailureDetector) :=
  match steps with
  | [] => Ok (now, fd)
  | (after, id) :: steps =>
      let* fd := fd_report_heartbeat fd id (now + after) in heartbeats (now + after) fd steps
  end.
Definition update_all (fd : FailureDetector) (ids : list ChitchatId) (now : Instant) : FailureDetector :=
  foldl (λ fd id, update_node_liveness fd id now) fd ids.
Definition names (ids : list ChitchatId) : list string := merge_sort cmp_le (node_id <$> ids).
Definition fd_default : FailureDetector := FailureDetector_new fd_config_default.
Definition three_ids : list ChitchatId := for_local_test <$> [10001; 10002; 10003].
Definition three_names : list string := ["node-10001"; "node-10002"; "node-10003"].

(** [live_nodes] and [dead_nodes] *)
Definition live_nodes (fd : FailureDetector) : list ChitchatId := elements (fd_live_nodes fd).
Definition dead_nodes (fd : FailureDetector) : list ChitchatId := (map_to_list (fd_dead_nodes fd)).*1.

Definition test_failure_detector_does_not_see_a_node_as_alive_with_a_single_heartbeat (now : Instant) : Test :=
  let id := for_local_test 10001 in
  let* fd := fd_report_heartbeat fd_default id now in
  let fd := update_node_liveness fd id now in
  do* assert_eq (length (dead_nodes fd)) 1%nat in
  assert (is_none (head (live_nodes fd))).
Definition test_failure_detector (now : Instant) (steps : list (Duration * ChitchatId)) : Test :=
  let* (now, fd) := heartbeats now fd_default steps in
  let fd := update_all fd three_ids now in
  do* assert_eq (names (live_nodes fd)) three_names in
  let '(gone, fd) := garbage_collect fd now in
  do* assert_eq gone [] in
  let now := now + from_secs 50 in
  let fd := update_all fd three_ids now in
  do* assert_eq (names (dead_nodes fd)) three_names in
  let '(gone, fd) := garbage_collect fd now in
  do* assert_eq gone [] in
  let now := now + from_secs (25 * 60 * 60) in
  let '(gone, fd) := garbage_collect fd now in
  do* assert_eq (names (live_nodes fd)) [] in
  do* assert_eq (names (dead_nodes fd)) [] in
  assert_eq (names gone) three_names.
Definition test_failure_detector_node_state_from_live_to_down_to_live (now : Instant) (intervals intervals' : list Duration) : Test :=
  let node_1 := for_local_test 10001 in
  let* (now, fd) := heartbeats now fd_default ((λ i, (i, node_1)) <$> intervals) in
  let fd := update_node_liveness fd node_1 now in
  do* assert_eq (names (live_nodes fd)) ["node-10001"%string] in
  let now := now + from_secs 20 in
  let fd := update_node_liveness fd node_1 now in
  do* assert_eq (names (live_nodes fd)) [] in
  let* (now, fd) := heartbeats now fd ((λ i, (i, node_1)) <$> intervals') in
  let fd := update_node_liveness fd node_1 now in
  assert_eq (names (live_nodes fd)) ["node-10001"%string].
Definition test_failure_detector_node_state_additive_smoothing_predominant_in_the_beginning (now : Instant) : Test :=
  let id := for_local_test 10001 in
  let* fd := fd_report_heartbeat fd_default id now in
  let now := now + from_secs 1 in
  let* (now, fd) := heartbeats now fd (replicate 5 (from_millis 200, id)) in
  let now := now + from_secs 6 in
  let fd := update_node_liveness fd id now in
  do* assert_eq (names (live_nodes fd)) ["node-10001"%string] in
  let now := now + from_secs 40 in
  let fd := update_node_liveness fd id now in
  assert_eq (names (live_nodes fd)) [].
Definition test_failure_detector_node_state_additive_smoothing_effect_fades_off (now : Instant) : Test :=
  let id := for_local_test 10001 in
  let* fd := fd_report_heartbeat fd_default id now in
  let* (now, fd) := heartbeats now fd (replicate 1000 (from_millis 200, id)) in
  let now := now + from_secs 6 in
  let fd := update_node_liveness fd id now in
  assert (is_none (head (live_nodes fd))).

(** Some random numbers: a linear congruential generator.  The tests take
    2001 of them, a quarter of which is enough here. *)
Fixpoint random (n : nat) (seed : N) : list N :=
  match n with O => [] | S n => let seed := (1103515245 * seed + 12345) mod 2147483648 in seed / 65536 :: random n seed end.
Definition some_intervals (n : nat) (seed : N) : list Duration := (λ r, from_secs (1 + r mod 2)) <$> random n seed.
Definition some_steps (n : nat) (seed : N) : list (Duration * ChitchatId) :=
  (λ r, (from_secs (1 + r mod 2), for_local_test (10001 + r / 2 mod 3))) <$> random n seed.
Definition t0 : Instant := from_secs 1000.
Lemma failure_detector_does_not_see_a_node_as_alive_with_a_single_heartbeat_passes :
  test_failure_detector_does_not_see_a_node_as_alive_with_a_single_heartbeat t0 = Ok ().
Proof. passes. Qed.
Lemma failure_detector_passes : test_failure_detector t0 (some_steps 501 1) = Ok (). Proof. passes. Qed.
Lemma failure_detector_node_state_from_live_to_down_to_live_passes :
  test_failure_detector_node_state_from_live_to_down_to_live t0 (some_intervals 501 2) (some_intervals 101 3) = Ok ().
Proof. passes. Qed.
Lemma failure_detector_node_state_additive_smoothing_predominant_in_the_beginning_passes :
  test_failure_detector_node_state_additive_smoothing_predominant_in_the_beginning t0 = Ok ().
Proof. passes. Qed.
Lemma failure_detector_node_state_additive_smoothing_effect_fades_off_passes :
  test_failure_detector_node_state_additive_smoothing_effect_fades_off t0 = Ok ().
Proof. passes. Qed.
