(* ===== verification/TestEngine.v ===== *)
(** * The unit tests of chitchat/src/lib.rs, on the model

    Those that make messages and handle them; the others run whole servers
    with their timers. *)
From stdpp Require Import pretty.
From S2P Require Import Prelude Types Serialize Stream Listener Delta Message NodeState Cluster FailureDetector.
From S2P Require Import Chitchat Channel TestKit.
Open Scope N_scope.

(** ** Nodes (configuration.rs, lib.rs) *)
Definition config_for_test (port : N) : ChitchatConfig :=
  let id := for_local_test port in
  mkConfig id "default-cluster" (from_millis 50) (gossip_advertise_addr id) [] fd_config_default (from_secs 10000) false None.
Definition new_node (config : ChitchatConfig) (kvs : list (string * string)) : res Chitchat :=
  with_chitchat_id_and_seeds config ∅ kvs MAX_UDP_DATAGRAM_PAYLOAD_SIZE.
(** [node.self_node_state().set(key, value)], and [delete] *)
Definition self_set (c : Chitchat) (key value : string) : res (Chitchat * list Call) :=
  let* (ns, calls) := set (cluster_listeners (cluster_state c)) (self_node_state c) key value in
  Ok (put_self_node_state ns c, calls).
Definition self_delete (c : Chitchat) (key : string) (now : Instant) : Chitchat :=
  put_self_node_state (delete_ (self_node_state c) key now) c.
Definition assert_cluster_state_eq (lhs rhs : NodeState) : Test :=
  do* assert_eq (num_key_values lhs) (num_key_values rhs) in
  for_all (λ p : string * string, assert_eq (get rhs p.1) (Some p.2)) (live_key_values lhs).
Definition assert_nodes_sync (nodes : list Chitchat) : Test :=
  match nodes with
  | [] => Panic "index out of bounds"
  | first :: others =>
      let first_node_states := node_states (cluster_state first) in
      for_all (λ other,
        let node_states := node_states (cluster_state other) in
        do* assert_eq (size first_node_states) (size node_states) in
        for_all (λ p : ChitchatId * NodeState, let* ns := unwrapped (node_states !! p.1) in assert_cluster_state_eq p.2 ns)
          (btree_items first_node_states)) others
  end.

Section engine.
Context `{Zstd, Shuffle}.
(** The nodes afterwards, and what each of them did besides. *)
Definition run_chitchat_handshake (initiating_node peer_node : Chitchat) (now : Instant)
    : res (Chitchat * Chitchat * list Effect * list Effect) :=
  let syn_message := create_syn_message initiating_node now in
  let* (r, effects_peer) := process_message peer_node syn_message now in
  let* syn_ack_message := unwrapped r.2 in let peer_node := r.1 in
  let* (r, effects) := process_message initiating_node syn_ack_message now in
  let* ack_message := unwrapped r.2 in let initiating_node := r.1 in
  let* (r, effects_peer') := process_message peer_node ack_message now in
  do* assert (is_none r.2) in
  Ok (initiating_node, r.1, effects, effects_peer ++ effects_peer').
Definition test_chitchat_handshake (now : Instant) : Test :=
  let* node1 := new_node (config_for_test 10001) [("key1a", "1"); ("key2a", "2")]%string in
  let* node2 := new_node (config_for_test 10002) [("key1b", "1"); ("key2b", "2")]%string in
  let* (node1, node2, _, _) := run_chitchat_handshake node1 node2 now in
  do* assert_nodes_sync [node1; node2] in
  let* (node1, node2, _, _) := run_chitchat_handshake node1 node2 now in
  do* assert_nodes_sync [node1; node2] in
  let* (node1, _) := self_set node1 "key1a" "3" in
  let* (node1, _) := self_set node1 "key1c" "4" in
  let* (node1, node2, _, _) := run_chitchat_handshake node1 node2 now in
  assert_nodes_sync [node1; node2].
Definition test_chitchat_dead_node_liveness (now : Instant) : Test :=
  let* node1 := new_node (config_for_test 10001) [] in
  let id := for_local_test 10 in
  let* (node1, _) := reset_node_state node1 id [] 10000 10 in
  let* node1 := report_heartbeat node1 id 10000 now in
  let* node1 := report_heartbeat node1 id 10000 now in
  let node1 := update_nodes_liveness node1 now in
  assert_eq (size (live_nodes node1)) 1%nat.
(** The test takes 20000 keys, so that they take several datagrams. *)
Fixpoint set_keys (c : Chitchat) (keys : list nat) : res Chitchat :=
  match keys with
  | [] => Ok c
  | i :: keys => let* (c, _) := self_set c ("k" +:+ pretty (N.of_nat i)) "first_value" in set_keys c keys
  end.
Definition test_chitchat_no_need_to_reset_if_last_gc_version_is_higher (now : Instant) (keys max_payload : N) : Test :=
  let new_node port := with_chitchat_id_and_seeds (config_for_test port) ∅ [] max_payload in
  let* node1 := new_node 10001 in
  let* node2 := new_node 10002 in
  let* node1 := set_keys node1 (seq 0 (N.to_nat keys)) in
  let* (node1, node2, _, _) := run_chitchat_handshake node1 node2 now in
  let* (node1, node2, _, _) := run_chitchat_handshake node1 node2 now in
  do* assert_nodes_sync [node1; node2] in
  let node1 := self_delete node1 "k1" now in
  let now := now + from_secs (3600 * 3) in
  let node1 := chitchat_gc node1 now in
  let* (node1, node2, _, _) := run_chitchat_handshake node1 node2 now in
  let* (node1, node2, _, _) := run_chitchat_handshake node1 node2 now in
  assert_nodes_sync [node1; node2].

(** ** Listeners and callbacks
    The counters of the listeners of [node1]: 1 for "self1:", 2 for
    "other:", 3 for "self2:"; the first and the third share one. *)
Definition calls_of_effects (effects : list Effect) : list Call :=
  omap (λ e, match e with EKeyChange c => Some c | ECatchup => None end) effects.
Definition counters (calls : list Call) : N * N :=
  (blen (filter (λ c, call_listener c ≠ 2) calls), blen (filter (λ c, call_listener c = 2) calls)).
(** The assertions of the three closures. *)
Definition closure_assertions (c : Call) : Test :=
  assert_eq (ev_key (call_event c), ev_value (call_event c))
    (match call_listener c with 1 => ("suffix1", "updated") | 2 => ("suffix", "hello") | _ => ("suffix2", "hello2") end)%string.
Definition chitchat_subscribe_forever (c : Chitchat) (prefix : string) (listener : BoxedListener) : Chitchat :=
  (chitchat_subscribe_event c prefix listener).1.
Definition test_chitchat_listener (now : Instant) : Test :=
  let* node1 := new_node (config_for_test 10001) [("self1:suffix1", "hello1")]%string in
  let node1 := chitchat_subscribe_forever node1 "self1:" 1 in
  let node1 := chitchat_subscribe_forever node1 "other:" 2 in
  let node1 := chitchat_subscribe_forever node1 "self2:" 3 in
  let* node2 := new_node (config_for_test 10002) [("other:suffix", "hello")]%string in
  let* (node1, node2, effects, _) := run_chitchat_handshake node1 node2 now in
  let calls := calls_of_effects effects in
  do* assert_nodes_sync [node1; node2] in
  do* assert_eq (counters calls) (0, 1) in
  let* (node1, node2, effects, _) := run_chitchat_handshake node1 node2 now in
  let calls := calls ++ calls_of_effects effects in
  do* assert_eq (counters calls) (0, 1) in
  let* (node1, new) := self_set node1 "self2:suffix2" "hello2" in
  let calls := calls ++ new in
  do* assert_eq (counters calls) (1, 1) in
  let* (node1, node2, effects, _) := run_chitchat_handshake node1 node2 now in
  let calls := calls ++ calls_of_effects effects in
  do* assert_eq (counters calls) (1, 1) in
  let* (node1, new) := self_set node1 "self1:suffix1" "updated" in
  let calls := calls ++ new in
  do* assert_eq (counters calls) (2, 1) in
  let node1 := self_delete node1 "self1:suffix1" now in
  let node2 := self_delete node2 "other:suffix" now in
  let* (node1, node2, effects, _) := run_chitchat_handshake node1 node2 now in
  let calls := calls ++ calls_of_effects effects in
  do* assert_eq (counters calls) (2, 1) in
  for_all closure_assertions calls.
End engine.
Definition test_maybe_trigger_catchup_callback (now : Instant) : Test :=
  let c := config_for_test 10001 in
  let config := mkConfig (cfg_chitchat_id c) (cfg_cluster_id c) (cfg_gossip_interval c) (cfg_listen_addr c)
    (cfg_seed_nodes c) (cfg_failure_detector_config c) (cfg_marked_for_deletion_grace_period c) true None in
  let* node := new_node config [] in
  let* (node, effects) := process_delta node Delta_default now in
  let* delta := add_node (for_local_test 10002) 1000 0 Delta_default in
  let* (_, effects') := process_delta node delta now in
  assert_eq (blen (filter (λ e, match e with ECatchup => true | EKeyChange _ => false end = true) (effects ++ effects'))) 1.

(** ** Resetting a node *)
Definition value_ (v : string) (version : Version) (now : Instant) : VersionedValue := VersionedValue_new v version false now.
Definition with_three_keys (c : Chitchat) (id : ChitchatId) : res Chitchat :=
  let* cs := on_node (cluster_state c) id (λ ns,
    let* ns := t_set ns "foo" "bar" in let* ns := t_set ns "qux" "baz" in t_set ns "toto" "titi") in
  Ok (set_cluster_state cs c).
Definition assert_node (c : Chitchat) (id : ChitchatId) (kvs : list (string * string)) (max_version_ : Version)
    (last_gc : option Version) : Test :=
  let* ns := unwrapped (node_state (cluster_state c) id) in
  do* assert_eq (num_key_values ns) (blen kvs) in
  do* for_all (λ p : string * string, assert_eq (get ns p.1) (Some p.2)) kvs in
  do* assert_eq (max_version ns) max_version_ in
  match last_gc with Some v => assert_eq (last_gc_version ns) v | None => Ok () end.
Definition test_reset_node_state (now : Instant) : Test :=
  let* node := new_node (config_for_test 10001) [] in
  let id := for_local_test 10002 in
  let* (node, _) := reset_node_state node id [("foo"%string, value_ "bar" 1 now)] 1 1337 in
  do* assert_node node id [("foo", "bar")]%string 1 (Some 1337) in
  let id := for_local_test 10003 in
  let* node := with_three_keys node id in
  let* (node, _) := reset_node_state node id [("qux"%string, value_ "baz" 2 now); ("toto"%string, value_ "tutu" 4 now)] 4 1337 in
  do* assert_node node id [("qux", "baz"); ("toto", "tutu")]%string 4 (Some 1337) in
  let id := for_local_test 10004 in
  let* node := with_three_keys node id in
  let* (node, _) := reset_node_state node id [("foo"%string, value_ "bar" 1 now); ("qux"%string, value_ "baz" 2 now)] 2 1337 in
  assert_node node id [("foo", "bar"); ("qux", "baz"); ("toto", "titi")]%string 3 None.

Module EngineTests.
Import RawZstd.
#[export] Instance keep_order : Shuffle := λ A _ l, l.
Definition t0 : Instant := from_secs 1000.
Lemma chitchat_handshake_passes : test_chitchat_handshake t0 = Ok (). Proof. passes. Qed.
Lemma chitchat_dead_node_liveness_passes : test_chitchat_dead_node_liveness t0 = Ok (). Proof. passes. Qed.
(** Fewer keys, and datagrams that take about half of them. *)
Lemma chitchat_no_need_to_reset_passes :
  test_chitchat_no_need_to_reset_if_last_gc_version_is_higher t0 20 600 = Ok ().
Proof. passes. Qed.
Lemma chitchat_listener_passes : test_chitchat_listener t0 = Ok (). Proof. passes. Qed.
Lemma maybe_trigger_catchup_callback_passes : test_maybe_trigger_catchup_callback t0 = Ok (). Proof. passes. Qed.
Lemma reset_node_state_passes : test_reset_node_state t0 = Ok (). Proof. passes. Qed.
End EngineTests.
