(* ===== verification/TestServer.v ===== *)
(** * The unit tests of chitchat/src/server.rs, on the model

    The tests of the selection of peers, and those of whole servers that do
    not depend on their timers: their servers run on the in-process transport,
    one turn after the other. *)
From S2P Require Import Prelude Types Serialize Stream Listener Delta Message NodeState Cluster FailureDetector.
From S2P Require Import Chitchat Server Queue Channel TestKit TestEngine.
Open Scope N_scope.

(** ** The generator of the tests
    [RngForTest] counts from 0, and so do the two numbers that a round draws:
    as fractions they are next to nothing. *)
Class RngForTest `{Rng} : Prop := gen_f64_zero n : gen_f64 n = f64_0.

Section selection.
Context `{Rng}.
Definition addr_of (port : N) : SocketAddr := gossip_advertise_addr (for_local_test port).
Definition to_hash_set (l : list SocketAddr) : gset SocketAddr := list_to_set l.
Definition test_select_nodes_for_gossip : Test :=
  let node1 := addr_of 10001 in let node2 := addr_of 10002 in let node3 := addr_of 10003 in
  let '(nodes, dead_node, seed_node) := select_nodes_for_gossip (to_hash_set [node1; node2; node3])
    (to_hash_set [node1; node2]) (to_hash_set [node3]) (to_hash_set [node2]) in
  do* assert_eq (length nodes) 2%nat in
  do* assert_eq dead_node (Some node3) in
  assert_eq seed_node None.
Definition five_nodes : list SocketAddr := addr_of <$> [10001; 10002; 10003; 10004; 10005].
Definition test_gossip_no_dead_node_no_seed_nodes : Test :=
  let '(nodes, dead_node, seed_node) :=
    select_nodes_for_gossip (to_hash_set five_nodes) (to_hash_set five_nodes) (to_hash_set []) (to_hash_set []) in
  do* assert_eq (length nodes) 3%nat in
  do* assert_eq dead_node None in
  assert_eq seed_node None.
Definition test_gossip_dead_and_seed_node : Test :=
  let nodes := five_nodes in
  let seeds := list_to_set (take 2 (drop 3 nodes)) in
  let '(gossip_nodes, gossip_dead_node, gossip_seed_node) := select_nodes_for_gossip (to_hash_set nodes)
    (to_hash_set (take 1 nodes)) (list_to_set (drop 1 nodes)) seeds in
  do* assert_eq gossip_nodes (take 1 nodes) in
  do* assert (is_some gossip_dead_node) in
  assert (is_some gossip_seed_node).
End selection.

(** They pass with every generator that draws next to nothing, whatever it
    samples. *)
Section passes.
Context `{RngOk} `{!RngForTest}.
Lemma sample_all n (s : gset SocketAddr) k : (size s ≤ k)%nat → choose_multiple n (elements s) k ≡ₚ elements s.
Proof.
  intros Hk. apply submseteq_length_Permutation; [apply choose_multiple_sub|].
  rewrite choose_multiple_len. change (length (elements s)) with (size s). lia.
Qed.
Lemma choose_only n (a : SocketAddr) : choose n (elements ({[a]} : gset SocketAddr)) = Some a.
Proof.
  rewrite elements_singleton. destruct (choose n [a]) as [b|] eqn:E; [|by apply choose_none in E].
  apply choose_elem, list_elem_of_singleton in E. by rewrite E.
Qed.
Lemma choose_some n (s : gset SocketAddr) : s ≠ ∅ → is_some (choose n (elements s)) = true.
Proof.
  intros Hs. destruct (choose n (elements s)) as [b|] eqn:E; [done|]. apply choose_none in E.
  apply elements_empty_inv in E. by apply leibniz_equiv in E.
Qed.
(** A seed among those that a round addresses. *)
Lemma existsb_seed (nodes : list SocketAddr) (seeds : gset SocketAddr) a : a ∈ nodes → a ∈ seeds →
  existsb (λ a, bool_decide (a ∈ seeds)) nodes = true.
Proof. intros Ha Hs. apply existsb_exists. exists a. rewrite bool_decide_eq_true. split; [|done]. by apply list_elem_of_In. Qed.
Lemma rassert_bd (P : Prop) `{!Decision P} : P → ∀ e, rassert e (bool_decide P) = Ok ().
Proof. intros HP e. by rewrite bool_decide_eq_true_2. Qed.

Lemma select_nodes_for_gossip_passes : test_select_nodes_for_gossip = Ok ().
Proof.
  unfold test_select_nodes_for_gossip, select_nodes_for_gossip, select_dead_node_to_gossip_with, to_hash_set.
  set (live := list_to_set [addr_of 10001; addr_of 10002] : gset SocketAddr).
  change (size live) with 2%nat. change (N.of_nat 2 =? 0) with false. cbn iota.
  pose proof (sample_all 0 live GOSSIP_COUNT ltac:(vm_compute; lia)) as Hp.
  rewrite (existsb_seed _ _ (addr_of 10002)).
  2:{ rewrite Hp. apply elem_of_elements. set_solver. }
  2:{ set_solver. }
  rewrite (Permutation_length Hp). rewrite gen_f64_zero.
  assert (list_to_set [addr_of 10003] = ({[addr_of 10003]} : gset SocketAddr)) as -> by set_solver.
  change (N.of_nat (size ({[addr_of 10003]} : gset SocketAddr))) with 1.
  assert (list_to_set [addr_of 10002] = ({[addr_of 10002]} : gset SocketAddr)) as -> by set_solver.
  change (N.of_nat (size ({[addr_of 10002]} : gset SocketAddr))) with 1.
  rewrite choose_only. reflexivity.
Qed.
Lemma gossip_no_dead_node_no_seed_nodes_passes : test_gossip_no_dead_node_no_seed_nodes = Ok ().
Proof.
  unfold test_gossip_no_dead_node_no_seed_nodes, select_nodes_for_gossip, select_dead_node_to_gossip_with,
    select_seed_node_to_gossip_with, to_hash_set.
  set (live := list_to_set five_nodes : gset SocketAddr).
  change (size live) with 5%nat. change (N.of_nat 5 =? 0) with false. cbn iota.
  change (list_to_set [] : gset SocketAddr) with (∅ : gset SocketAddr).
  change (size (∅ : gset SocketAddr)) with 0%nat. rewrite choose_multiple_len, !gen_f64_zero.
  change (elements (∅ : gset SocketAddr)) with (@nil SocketAddr).
  assert (∀ n, choose n [] = None) as Hnone.
  { intros n. destruct (choose n []) eqn:E; [|done]. apply choose_elem in E. by apply elem_of_nil in E. }
  rewrite !Hnone. change (length (elements live)) with 5%nat.
  repeat case_match; done.
Qed.
Lemma gossip_dead_and_seed_node_passes : test_gossip_dead_and_seed_node = Ok ().
Proof.
  unfold test_gossip_dead_and_seed_node, select_nodes_for_gossip, select_dead_node_to_gossip_with,
    select_seed_node_to_gossip_with, to_hash_set.
  set (seeds := list_to_set (take 2 (drop 3 five_nodes)) : gset SocketAddr).
  set (dead := list_to_set (drop 1 five_nodes) : gset SocketAddr).
  change (take 1 five_nodes) with [addr_of 10001].
  assert (list_to_set [addr_of 10001] = ({[addr_of 10001]} : gset SocketAddr)) as -> by set_solver.
  change (size ({[addr_of 10001]} : gset SocketAddr)) with 1%nat. change (N.of_nat 1 =? 0) with false. cbn iota.
  pose proof (sample_all 0 ({[addr_of 10001]} : gset SocketAddr) GOSSIP_COUNT) as Hp. rewrite size_singleton in Hp.
  specialize (Hp ltac:(unfold GOSSIP_COUNT; lia)).
  rewrite elements_singleton in Hp |- *. apply Permutation_singleton_r in Hp as ->.
  pose proof (choose_some 1 dead) as Hdead. pose proof (choose_some 2 seeds) as Hseed.
  rewrite !gen_f64_zero. change (size seeds) with 2%nat. change (size dead) with 4%nat.
  set (d := choose 1 (elements dead)) in *. set (s := choose 2 (elements seeds)) in *.
  replace (existsb _ [addr_of 10001]) with false by (vm_compute; done).
  change (negb false || _) with true. cbn iota.
  match goal with |- context [f64_lt f64_0 ?x] => replace (f64_lt f64_0 x) with true by (vm_compute; done) end.
  match goal with |- context [false || f64_le f64_0 ?x] =>
    replace (false || f64_le f64_0 x) with true by (vm_compute; done) end. cbn iota.
  rewrite Hdead, Hseed; [|intros He; apply (f_equal size) in He; by vm_compute in He..].
  reflexivity.
Qed.
End passes.

(** ** Servers on the in-process transport *)
Section servers.
Context `{Zstd, Shuffle, Rng, Queues, Resolver} (now : Instant).

(** The task that [spawn_chitchat] starts. *)
Record ServerTask : Type := mkServerTask { st_chitchat : Chitchat; st_socket : InProcessSocket }.
Definition spawned (t : ChannelTransport) (cfg : ChitchatConfig) : res (ChannelTransport * ServerTask) :=
  let* (t, socket) := ct_open t (cfg_listen_addr cfg) in
  let* (c, _) := spawn_chitchat cfg [] (λ _, Ok ()) (ct_max_datagram_payload_size t) now in
  Ok (t, mkServerTask c socket).
(** The errors of [send] are dropped. *)
Fixpoint send_out (t : ChannelTransport) (s : InProcessSocket) (out : Outbox) : res ChannelTransport :=
  match out with
  | [] => Ok t
  | (to, m) :: out =>
      match socket_send t s to m with
      | Ok t => send_out t s out
      | Err _ => send_out t s out
      | r => r
      end
  end.
Definition server_turn (t : ChannelTransport) (srv : ServerTask) (e : Event) : res (ChannelTransport * ServerTask) :=
  let* (r, _) := server_step (st_chitchat srv) e now in
  let* t := send_out t (st_socket srv) r.2 in
  Ok (t, mkServerTask r.1 (st_socket srv)).
(** [timeout(socket.recv()).await.unwrap()] *)
Definition received (t : ChannelTransport) (s : InProcessSocket) : res (SocketAddr * ChitchatMessage * ChannelTransport) :=
  match socket_recv t s with
  | None => Panic "deadline has elapsed"
  | Some (r, t) => let* m := r in Ok (m, t)
  end.
Definition server_receives (t : ChannelTransport) (srv : ServerTask) : res (ChannelTransport * ServerTask) :=
  let* (m, t) := received t (st_socket srv) in server_turn t srv (Received (Ok m)).
Definition unexpected {A} : res A := Panic "unexpected message".
Definition datagram_size : N := MAX_UDP_DATAGRAM_PAYLOAD_SIZE.

Definition test_syn : Test :=
  let t := with_mtu_transport datagram_size in
  let test_config := config_for_test 1112 in
  let test_addr := gossip_advertise_addr (cfg_chitchat_id test_config) in
  let peer_addr := SockV4 localhost 1111 in
  let* (t, peer_transport) := ct_open t peer_addr in
  let* (t, server) := spawned t test_config in
  let* (t, server) := server_turn t server Tick in
  let* (t, server) := server_turn t server (Commanded (Some (Gossip peer_addr))) in
  let* (r, t) := received t peer_transport in
  do* assert_eq r.1 test_addr in
  match r.2 with
  | Syn cluster_id digest =>
      do* assert_eq cluster_id "default-cluster"%string in
      assert_eq (size digest) 1%nat
  | _ => unexpected
  end.
Definition test_syn_ack : Test :=
  let t := with_mtu_transport datagram_size in
  let config2 := config_for_test 2 in
  let* (t, transport2) := ct_open t (gossip_advertise_addr (cfg_chitchat_id config2)) in
  let config1 := config_for_test 1 in
  let addr1 := gossip_advertise_addr (cfg_chitchat_id config1) in
  let* chitchat := with_chitchat_id_and_seeds config2 ∅ [] datagram_size in
  let* (t, handler) := spawned t config1 in
  let* (t, handler) := server_turn t handler Tick in
  let syn := create_syn_message chitchat now in
  let* t := socket_send t transport2 addr1 syn in
  let* (t, handler) := server_receives t handler in
  let* (r, t) := received t transport2 in
  do* assert_eq r.1 addr1 in
  match r.2 with SynAck _ _ => Ok () | _ => unexpected end.
Definition test_syn_bad_cluster : Test :=
  let t := with_mtu_transport datagram_size in
  let c := config_for_test 2224 in
  let outsider_config := mkConfig (cfg_chitchat_id c) "another-cluster" (cfg_gossip_interval c) (cfg_listen_addr c)
    (cfg_seed_nodes c) (cfg_failure_detector_config c) (cfg_marked_for_deletion_grace_period c)
    (cfg_catchup_callback c) (cfg_extra_liveness_predicate c) in
  let* (t, outsider_transport) := ct_open t (gossip_advertise_addr (cfg_chitchat_id outsider_config)) in
  let* outsider := with_chitchat_id_and_seeds outsider_config ∅ [] (ct_max_datagram_payload_size t) in
  let server_config := config_for_test 2223 in
  let server_addr := gossip_advertise_addr (cfg_chitchat_id server_config) in
  let* (t, handler) := spawned t server_config in
  let* (t, handler) := server_turn t handler Tick in
  let syn := create_syn_message outsider now in
  let* t := socket_send t outsider_transport server_addr syn in
  let* (t, handler) := server_receives t handler in
  let* (r, t) := received t outsider_transport in
  match r.2 with BadCluster => Ok () | _ => unexpected end.
(** [seed] is [seed_addr.to_string()]. *)
Definition test_seeding (seed : string) : Test :=
  let t := with_mtu_transport datagram_size in
  let seed_config := config_for_test 5551 in
  let seed_addr := gossip_advertise_addr (cfg_chitchat_id seed_config) in
  let* (t, seed_transport) := ct_open t seed_addr in
  let c := config_for_test 5552 in
  let client_addr := gossip_advertise_addr (cfg_chitchat_id c) in
  let client_config := mkConfig (cfg_chitchat_id c) (cfg_cluster_id c) (cfg_gossip_interval c) (cfg_listen_addr c)
    [seed] (cfg_failure_detector_config c) (cfg_marked_for_deletion_grace_period c)
    (cfg_catchup_callback c) (cfg_extra_liveness_predicate c) in
  let* (t, handler) := spawned t client_config in
  let* (t, handler) := server_turn t handler Tick in
  let* (r, t) := received t seed_transport in
  do* assert_eq r.1 client_addr in
  match r.2 with Syn _ _ => Ok () | _ => unexpected end.
(** The loop waits for an [Ack]. *)
Fixpoint wait_for_ack (fuel : nat) (t : ChannelTransport) (s : InProcessSocket) : res Delta :=
  match fuel with
  | O => OutOfFuel
  | S fuel =>
      let* (r, t) := received t s in
      match r.2 with Ack delta => Ok delta | _ => wait_for_ack fuel t s end
  end.
Definition reply_of (c : Chitchat) (m : ChitchatMessage) : res (Chitchat * option ChitchatMessage) :=
  let* (r, _) := process_message c m now in Ok r.
Definition test_heartbeat : Test :=
  let t := with_mtu_transport datagram_size in
  let test_config := config_for_test 1 in
  let test_addr := gossip_advertise_addr (cfg_chitchat_id test_config) in
  let* test_chitchat := with_chitchat_id_and_seeds test_config ∅ [] (ct_max_datagram_payload_size t) in
  let* (t, test_transport) := ct_open t test_addr in
  let server_config := config_for_test 2 in
  let server_id := cfg_chitchat_id server_config in
  let server_addr := gossip_advertise_addr server_id in
  let* (t, server) := spawned t server_config in
  let* (server_chitchat, _) := self_set (st_chitchat server) "key" "value" in
  let server_chitchat := update_self_heartbeat server_chitchat in
  let syn := create_syn_message server_chitchat now in
  let* (test_chitchat, reply) := reply_of test_chitchat syn in
  let* syn_ack := unwrapped reply in
  let* (server_chitchat, _) := reply_of server_chitchat syn_ack in
  let* ns := unwrapped (node_state (cluster_state test_chitchat) server_id) in
  do* assert_eq (heartbeat ns) 2 in
  let* (t, server) := server_turn t (mkServerTask server_chitchat (st_socket server)) Tick in
  let* (r, t) := received t test_transport in
  let* (test_chitchat, reply) := reply_of test_chitchat r.2 in
  let* syn_ack := unwrapped reply in
  let* t := socket_send t test_transport server_addr syn_ack in
  let* (t, server) := server_receives t server in
  let* delta := wait_for_ack (S MAX_MESSAGE_PER_CHANNEL) t test_transport in
  let* node_delta := unwrapped (delta_get delta server_id) in
  assert_eq (nd_last_gc_version node_delta) 0.
End servers.

Module ServerTests.
Import RawZstd EngineTests FirstRng ListQueue.
Definition seed : string := "127.0.0.1:5551".
#[export] Instance local_names : Resolver := {|
  parse_addr s := if bool_decide (s = seed) then Some (SockV4 localhost 5551) else None;
  lookup_host _ _ := None;
|}.
Lemma server_syn_passes : test_syn t0 = Ok (). Proof. passes. Qed.
Lemma server_syn_ack_passes : test_syn_ack t0 = Ok (). Proof. passes. Qed.
Lemma syn_bad_cluster_passes : test_syn_bad_cluster t0 = Ok (). Proof. passes. Qed.
Lemma seeding_passes : test_seeding t0 seed = Ok (). Proof. passes. Qed.
Lemma heartbeat_passes : test_heartbeat t0 = Ok (). Proof. passes. Qed.
End ServerTests.
