(* ===== verification/TestIgniter.v ===== *)
(** * The unit tests of the igniter (igniter/src: lib.rs, utils.rs, open_api/routes.rs), on the model

    The tests with signatures hold for every scheme with the laws of a
    signature; [test_back_and_front_use_the_same_algorithm], which checks
    recorded signatures, is about Ed25519 itself. *)
From stdpp Require Import pretty.
From S2P Require Import Prelude Types NodeState Cluster FailureDetector Chitchat Revocation Licensing Igniter TestKit.
Open Scope N_scope.

(** ** Outdated items (utils.rs) *)
Record InnerStruct : Type := mkInner { inner_id : string; inner_ts : N }.
Record OuterStruct : Type := mkOuter { index_ : N; inner_ : list InnerStruct }.
#[export] Instance InnerStruct_eq_dec : EqDecision InnerStruct.
Proof. solve_decision. Defined.
#[export] Instance OuterStruct_eq_dec : EqDecision OuterStruct.
Proof. solve_decision. Defined.
#[export] Instance RevokedLicense_eq_dec : EqDecision RevokedLicense.
Proof. solve_decision. Defined.
#[export] Instance inner_item : HasTimestampAndId InnerStruct := {| get_id := inner_id; get_timestamp := inner_ts |}.
#[export] Instance outer_holder : ContainsVec OuterStruct InnerStruct := {|
  get_vec := inner_;
  put_vec l s := mkOuter (index_ s) l;
  get_pk s := "pk_" +:+ pretty (index_ s);
|}.
(** The tests compare what [{:?}] prints. *)
Definition check_removed (data expected_output : list OuterStruct) (expected_problem : list RevokedLicense) : Test :=
  let '(output, problem) := remove_with_outdated_timestamps data in
  do* assert_eq output expected_output in
  assert_eq problem expected_problem.
Definition test_remove_with_outdated_timestamps_1 : Test := check_removed [] [] [].
Definition test_remove_with_outdated_timestamps_2 : Test :=
  check_removed [mkOuter 0 [mkInner "a" 10; mkInner "b" 20; mkInner "b" 40; mkInner "a" 10]]
    [mkOuter 0 [mkInner "a" 10; mkInner "b" 40]]
    [mkRevoked "b" "pk_0" 20].
Definition test_remove_with_outdated_timestamps_3 : Test :=
  check_removed
    [mkOuter 0 [mkInner "a" 10; mkInner "b" 20]; mkOuter 1 [mkInner "a" 15; mkInner "c" 30]; mkOuter 2 [mkInner "b" 5]]
    [mkOuter 0 [mkInner "b" 20]; mkOuter 1 [mkInner "a" 15; mkInner "c" 30]]
    [mkRevoked "a" "pk_0" 10; mkRevoked "b" "pk_2" 5].
Lemma remove_with_outdated_timestamps_1_passes : test_remove_with_outdated_timestamps_1 = Ok (). Proof. passes. Qed.
Lemma remove_with_outdated_timestamps_2_passes : test_remove_with_outdated_timestamps_2 = Ok (). Proof. passes. Qed.
Lemma remove_with_outdated_timestamps_3_passes : test_remove_with_outdated_timestamps_3 = Ok (). Proof. passes. Qed.

(** ** Claimed licences and proxies (open_api/routes.rs) *)
Section routes.
Context `{Json}.
Definition owner_key (n : Z) : gmap string Z := {["owner_key"%string := n]}.
Definition gossip_data (licenses : string) : gmap string string := {[key_name Licenses := licenses]}.
Definition test_validate_licenses_success : Test :=
  let verified_licenses := owner_key 10 in
  assert_eq (validate_licenses (gossip_data (licenses_to_json verified_licenses)) verified_licenses) (inl ()).
Definition test_validate_licenses_missing_key : Test :=
  assert_eq (validate_licenses ∅ (owner_key 10)) (inr LicensesMissing).
Definition test_validate_licenses_invalid_json : Test :=
  assert_eq (validate_licenses (gossip_data "not a json") (owner_key 10)) (inr LicensesNotHashMap).
Definition test_validate_licenses_mismatch : Test :=
  assert_eq (validate_licenses (gossip_data (licenses_to_json (owner_key 5))) (owner_key 10)) (inr LicensesMismatch).
(** An entry of the JSON arrays; 127.0.0.[n]:8080 *)
Definition px (n : N) (cert : option string) : ProxyConfig := mkProxy (Some (SockV4 (2130706432 + n) 8080)) cert.
Definition check_proxy : Test := assert (check_proxy_socket_addresses (Some (proxies_to_json [px 1 None]))).
Definition check_many_proxies : Test :=
  assert (check_proxy_socket_addresses (Some (proxies_to_json [px 1 (Some "my_cert_1"); px 3 (Some "my_cert_2")]))%string).
(** The first address of [proxies] is "a.b.0.1:8080". *)
Definition check_proxies_address_fail (proxies : string) : Test :=
  assert (negb (check_proxy_socket_addresses (Some proxies))).
Definition check_proxies_fail : Test :=
  assert (negb (check_proxy_socket_addresses
    (Some (proxies_to_json [px 1 (Some "my_cert_1"); mkProxy None (Some "my_cert_2")]))))%string.
Definition check_to_many_proxies_fail : Test :=
  assert (negb (check_proxy_socket_addresses
    (Some (proxies_to_json ((λ n, px n (Some "my_cert_1"%string)) <$> [1; 2; 3; 4; 5; 6; 7; 8; 9; 10; 11]))))).

Context `{!JsonOk}.
Lemma validate_licenses_success_passes : test_validate_licenses_success = Ok ().
Proof.
  unfold test_validate_licenses_success, validate_licenses, gossip_data. rewrite lookup_singleton_eq, licenses_json.
  by rewrite (bool_decide_eq_true_2 (owner_key 10 = owner_key 10)).
Qed.
Lemma validate_licenses_missing_key_passes : test_validate_licenses_missing_key = Ok (). Proof. reflexivity. Qed.
Lemma validate_licenses_invalid_json_passes : licenses_of_json "not a json" = None →
  test_validate_licenses_invalid_json = Ok ().
Proof.
  intros Hn. unfold test_validate_licenses_invalid_json, validate_licenses, gossip_data. by rewrite lookup_singleton_eq, Hn.
Qed.
Lemma validate_licenses_mismatch_passes : test_validate_licenses_mismatch = Ok ().
Proof.
  unfold test_validate_licenses_mismatch, validate_licenses, gossip_data. by rewrite lookup_singleton_eq, licenses_json.
Qed.
Lemma check_proxies_pass :
  check_proxy = Ok () ∧ check_many_proxies = Ok () ∧ check_proxies_fail = Ok () ∧ check_to_many_proxies_fail = Ok ().
Proof.
  unfold check_proxy, check_many_proxies, check_proxies_fail, check_to_many_proxies_fail, check_proxy_socket_addresses.
  by rewrite !proxies_json.
Qed.
Lemma check_proxies_address_fail_passes proxies : proxies_of_json proxies = None →
  check_proxies_address_fail proxies = Ok ().
Proof. intros Hn. unfold check_proxies_address_fail, check_proxy_socket_addresses. by rewrite Hn. Qed.
End routes.

(** ** Licences (lib.rs) *)
(** Signing and the other directions of the encodings, with their laws. *)
Class Signing `{Crypto} : Type := {
  ed25519_sign : bytes → bytes → bytes;
  verifying_key : bytes → bytes;
  base64_encode : bytes → string;
  hex_encode : bytes → string;
}.
Class SigningOk `{Signing} : Prop := {
  sign_verifies sk m : ed25519_verify (verifying_key sk) m (ed25519_sign sk m) = true;
  sign_own_key sk pk m : ed25519_verify pk m (ed25519_sign sk m) = true → pk = verifying_key sk;
  base64_law b : base64_decode (base64_encode b) = Some b;
  hex_law b : hex_decode (hex_encode b) = Some b;
  verifying_key_length sk : length (verifying_key sk) = 32%nat;
}.
Definition key_pubkey : string := "3ef72c59a33ba75a484cfb126bd9e55db267cbd944110374d0b78a9e474c6c87".
Definition key_bls_pubkey : string :=
  "8cf7d141cade81a44c8bc58a02b0448e85e77d47d9c644adfe3512d3c5fcdc2a028cfb96aff704a70f2cce27c96cd706".

Section signing.
Context `{SigningOk}.
(** [owner] and [provider] are the generated keys. *)
Definition create_license_signature (owner_signing_key provider_signing_key backend_signing_key : bytes)
    (amount : nat) (pubkey bls_pubkey : string) : list LicenceSignature :=
  let TIMESTAMP := 1234567890 in
  let owner_verifying_key := hex_encode (verifying_key owner_signing_key) in
  let provider_verifying_key := hex_encode (verifying_key provider_signing_key) in
  (λ i,
    let license_id := "license_id_" +:+ pretty (N.of_nat i) in
    let license_proof_sig := base64_encode (ed25519_sign backend_signing_key
      (license_proof_prepare license_id owner_verifying_key)) in
    let delegation_sig := base64_encode (ed25519_sign owner_signing_key
      (delegation_prepare license_id owner_verifying_key provider_verifying_key TIMESTAMP)) in
    let delegation_confirm_sig := base64_encode (ed25519_sign provider_signing_key
      (delegation_confirm_prepare license_id owner_verifying_key provider_verifying_key pubkey bls_pubkey)) in
    mkSignature license_id owner_verifying_key provider_verifying_key delegation_sig delegation_confirm_sig
      TIMESTAMP license_proof_sig) <$> seq 0 amount.
Definition first_licence (l : list LicenceSignature) : res LicenceSignature := unwrap "index out of bounds" (head l).
Definition test_check_license_proof_sig_failed (owner provider backend_signing_key another_backend_signing_key : bytes) : Test :=
  let* lic_sig := first_licence (create_license_signature owner provider backend_signing_key 1 key_pubkey key_bls_pubkey) in
  assert (match check_signatures lic_sig (verifying_key another_backend_signing_key) key_pubkey key_bls_pubkey with
          | inr _ => true | inl _ => false end).
Definition test_check_license_proof_sig (owner provider backend_signing_key : bytes) : Test :=
  let* lic_sig := first_licence (create_license_signature owner provider backend_signing_key 1 key_pubkey key_bls_pubkey) in
  assert (match check_signatures lic_sig (verifying_key backend_signing_key) key_pubkey key_bls_pubkey with
          | inl _ => true | inr _ => false end).

(** They pass whatever the keys, if the two keys of the backend differ. *)
Lemma check_license_proof_sig_passes owner provider backend : test_check_license_proof_sig owner provider backend = Ok ().
Proof.
  unfold test_check_license_proof_sig. simpl. unfold check_signatures, check_license_proof_sig, check_delegation_sig,
    check_delegation_confirm_sig, verify_with. cbn [license_id license_owner_pubkey provider_pubkey delegation_sig
    delegation_confirm_sig sig_timestamp license_proof_sig].
  rewrite !base64_law, !hex_law, !verifying_key_length, !sign_verifies. reflexivity.
Qed.
Lemma check_license_proof_sig_failed_passes owner provider backend another : verifying_key another ≠ verifying_key backend →
  test_check_license_proof_sig_failed owner provider backend another = Ok ().
Proof.
  intros Hne. unfold test_check_license_proof_sig_failed. simpl. unfold check_signatures, check_license_proof_sig.
  cbn [license_id license_owner_pubkey license_proof_sig]. rewrite base64_law.
  destruct (ed25519_verify _ _ _) eqn:E; [|done]. by apply sign_own_key in E.
Qed.
(** What the tests make is accepted as a whole, as many licences as a node
    may have. *)
Lemma created_licences_accepted owner provider backend amount : (0 < amount ≤ 20)%nat →
  ∃ v, create (create_license_signature owner provider backend amount key_pubkey key_bls_pubkey)
    (hex_encode (verifying_key backend)) key_pubkey key_bls_pubkey = inl v.
Proof.
  intros Hn. eexists. apply create_inl. split; [done|]. unfold create_license_signature.
  split; [by destruct amount; [lia|]|]. split.
  { unfold blen. rewrite length_fmap, length_seq. lia. }
  split.
  { rewrite <-list_fmap_compose. apply NoDup_fmap_2_strong; [|apply NoDup_seq].
    intros i j _ _ Hij. cbn in Hij. repeat (injection Hij as Hij).
    change (pretty (N.of_nat i) = pretty (N.of_nat j)) in Hij. apply (inj pretty) in Hij. lia. }
  exists (verifying_key backend). rewrite hex_law, verifying_key_length. split; [done|]. split; [done|].
  apply Forall_fmap, Forall_forall. intros i _. unfold signature_valid. simpl.
  unfold verify_with. rewrite !base64_law, !hex_law, !verifying_key_length, !sign_verifies.
  split; [eexists; split; [reflexivity|apply sign_verifies]|split; reflexivity].
Qed.
End signing.

Definition named (owner : string) : LicenceSignature :=
  mkSignature "license_id" owner "provider_pubkey" "delegation_sig" "delegation_confirm_sig" 123 "license_proof_sig".
Definition test_create_licences : Test :=
  let checked_licences := mkVerified [named "owner_pubkey_1"; named "owner_pubkey_2"; named "owner_pubkey_1"] in
  let licences := derive_licences checked_licences in
  do* assert_eq (licences !! "owner_pubkey_1"%string) (Some 2%Z) in
  assert_eq (licences !! "owner_pubkey_2"%string) (Some 1%Z).
Lemma create_licences_passes : test_create_licences = Ok (). Proof. passes. Qed.

Definition create_test_signature : LicenceSignature :=
  mkSignature "5e0d534d-98fd-4024-87b8-8c45414f6e9a" "37d545d8725f290b1dcff6e06ad7649a6264249a3202354330bb47da90c7b41f"
    "8e962b104119b17ab09e9aa91ff17e5816f65bb66daa6c14b8ca130f4f0bfcc0"
    "00lhq1wiiCs10ISYz2AkrZX9M0TU4YaNba3wG7oCeEFUP6uOav5kGesqntIQ+AKL5Y3nkVw+redFxQbOEuM1Dg=="
    "QCd1iMgEUOd7unQ2Qi1v8EyLNIwphFc2hct+/cAsdAT7VUxUNlNmhbo6SKNHyvX5OKnrpIBf2d5JgQNZj3ueDw==" 1744375960
    "c6F8qZ52LNeLLKdrVll5F1/U9eGGPUzJMZw7JcKWSzbO/DmmNXkWlDW+k3GwD1giLMxUPbjPzegqYoLoKOThAg==".
Definition localhost_10000 : SocketAddr := SockV4 localhost 10000.
Definition default_config_and_keys : Config * Keys :=
  (mkAppConfig "test_cluster" [] localhost_10000 localhost_10000 localhost_10000 [] None 5 [create_test_signature] false,
   mkKeys (mkWallet key_pubkey "def") (mkBls key_bls_pubkey "def" "abc")).
Definition test_params : CliParams :=
  let '(config, keys) := default_config_and_keys in mkCliParams config None None keys.
Section to_gossip.
Context `{Crypto, Json}.
Definition published_by_test : res (list (string * string)) :=
  match to_gossip true (gossip_params test_params) with inl l => Ok l | inr _ => Panic "called `Result::unwrap()` on an `Err` value" end.
Definition test_to_gossip_kv_no_signatures : Test :=
  let* result := published_by_test in assert_eq (length result) 6%nat.
Definition test_to_gossip_kv_one_signature : Test :=
  let* result := published_by_test in
  do* assert_eq (length result) 6%nat in
  let hashmap : gmap string string := list_to_map result in
  let* licenses := unwrap "key not found" (hashmap !! key_name Licenses) in
  assert_eq licenses
    (licenses_to_json {["37d545d8725f290b1dcff6e06ad7649a6264249a3202354330bb47da90c7b41f"%string := 1%Z]}).
(** They pass if the recorded signatures verify. *)
Lemma to_gossip_kv_passes `{!JsonOk} pk : hex_decode (BACKEND_VERIFYING_KEY true) = Some pk → length pk = 32%nat →
  signature_valid pk key_pubkey key_bls_pubkey create_test_signature →
  test_to_gossip_kv_no_signatures = Ok () ∧ test_to_gossip_kv_one_signature = Ok ().
Proof.
  intros Hpk Hlen Hv.
  assert (create [create_test_signature] (BACKEND_VERIFYING_KEY true) key_pubkey key_bls_pubkey =
    inl (mkVerified [create_test_signature])) as Hc.
  { apply create_inl. split; [done|]. split; [done|]. split; [by vm_compute|]. split; [apply NoDup_singleton|]. eauto. }
  unfold test_to_gossip_kv_no_signatures, test_to_gossip_kv_one_signature, published_by_test, to_gossip.
  change (config_signatures (gossip_params test_params)) with [create_test_signature].
  change (wallet_pubkey (gossip_params test_params)) with key_pubkey.
  change (bls_pubkey (gossip_params test_params)) with key_bls_pubkey.
  unfold check_proxy_socket_addresses. rewrite Hc, proxies_json. simpl. split; [done|].
  rewrite !lookup_insert_ne by done. rewrite lookup_insert_eq. simpl.
  apply (f_equal (λ b : bool, rassert _ b)) with (y := true). by apply bool_decide_eq_true_2.
Qed.
End to_gossip.

(** ** A signature scheme and a JSON with these laws *)
Module ToyScheme.
Definition pad (sk : bytes) : bytes := take 32 (sk ++ replicate 32 (u8 0)).
#[export] Instance crypto : Crypto := {|
  base64_decode s := Some (str_bytes s);
  hex_decode s := Some (str_bytes s);
  ed25519_verify pk m s := bool_decide (s = pk ++ m);
|}.
#[export] Instance signing : Signing := {|
  ed25519_sign sk m := pad sk ++ m;
  verifying_key := pad;
  base64_encode := bytes_str;
  hex_encode := bytes_str;
|}.
#[export] Instance signing_ok : SigningOk.
Proof.
  split; intros; cbn in *.
  - by apply bool_decide_eq_true_2.
  - case_bool_decide as Heq; [|done]. by apply app_inv_tail in Heq.
  - by rewrite str_bytes_str.
  - by rewrite str_bytes_str.
  - unfold pad. rewrite length_take, length_app, length_replicate. lia.
Qed.
(** What is written starts with a letter that the texts of the tests do not
    start with. *)
Definition tagged {A} (decode : string → option A) (s : string) : option A :=
  match s with String c s => if bool_decide (c = u8 74) then decode s else None | EmptyString => None end.
#[export] Instance json : Json := {|
  signatures_to_json l := String (u8 74) (@signatures_to_json Concrete.json l);
  signatures_of_json := tagged (@signatures_of_json Concrete.json);
  licenses_to_json m := String (u8 74) (@licenses_to_json Concrete.json m);
  licenses_of_json := tagged (@licenses_of_json Concrete.json);
  proxies_to_json l := String (u8 74) (@proxies_to_json Concrete.json l);
  proxies_of_json := tagged (@proxies_of_json Concrete.json);
|}.
#[export] Instance json_ok : JsonOk.
Proof. destruct Concrete.json_ok as [H1 H2 H3]. split; intros; [apply H1|apply H2|apply H3]. Qed.
Lemma invalid_json_passes : test_validate_licenses_invalid_json = Ok ().
Proof. by apply validate_licenses_invalid_json_passes. Qed.
Lemma wrong_backend_key_fails : test_check_license_proof_sig_failed [u8 1] [u8 2] [u8 3] [u8 4] = Ok ().
Proof. apply check_license_proof_sig_failed_passes. by vm_compute. Qed.
End ToyScheme.
